(** * A shallow embedding of the toy-language front end

    The development follows the three stages of the compiler:
    - [compiler/parser.py]: the AST dataclasses and the recursive-descent
      [Parser];
    - [compiler/scope_analyzer.py]: [Symbol], [ScopeNode] (one frame of the
      spaghetti stack) and the [ScopeAnalyzer] visitor;
    - [compiler/type_checker.py]: the [TypeChecker] visitor.

    Python exceptions are values of an error type carried by [result];
    a Python method that mutates [self] is a function returning the new
    [self]; every class is a module holding its record [t] and methods. *)

From stdpp Require Import base strings list gmap fin_maps pretty.
From Stdlib Require Import ZArith Lia.

Set Warnings "-register-all".
Local Open Scope string_scope.
Local Open Scope list_scope.

(** ** Exceptions as results *)

Inductive result (E A : Type) : Type :=
| Ok (a : A)
| Raise (e : E).
Arguments Ok {E A} a.
Arguments Raise {E A} e.

Definition bind {E A B} (m : result E A) (k : A -> result E B) : result E B :=
  match m with
  | Ok a => k a
  | Raise e => Raise e
  end.

Notation "'let*' x ':=' m 'in' k" := (bind m (fun x => k))
  (at level 10, x pattern, m at level 100, k at level 200).

(** [t in (a, b, ...)] on strings. *)
Definition str_in (t : string) (types : list string) : bool :=
  existsb (String.eqb t) types.

(** ** compiler/tokens.py *)

(** The payload of a token ([value: Any]): the lexers store [None], an
    [int], a [float] (kept here as its 64-bit pattern), a [str] or a
    [bool]. *)
Inductive PyValue : Type :=
| VNone
| VInt (n : Z)
| VFloat (bits : Z)
| VStr (s : string)
| VBool (b : bool).

Module Token.
Record t : Type := mk
  { type : string;
    value : PyValue;
    pos : option (nat * nat) }.
End Token.

(** ** compiler/parser.py: the AST dataclasses *)

Inductive Expr : Type :=
| Binary (op : string) (left right : Expr)
| Unary (op : string) (expr : Expr)
| Literal (value : PyValue)
| Identifier (name : string)
| Call (callee : Expr) (args : list Expr).

(** [type(e).__name__], used when an attribute is missing on a node. *)
Definition class_name (e : Expr) : string :=
  match e with
  | Binary _ _ _ => "Binary"
  | Unary _ _ => "Unary"
  | Literal _ => "Literal"
  | Identifier _ => "Identifier"
  | Call _ _ => "Call"
  end.

Module Param.
Record t : Type := mk { type_tok : string; name : string }.
End Param.

Module VarDecl.
Record t : Type := mk { type_tok : string; name : string; expr : option Expr }.
End VarDecl.

(** [ForStmt.init] is [None], a [VarDecl] or an [ExprStmt]. *)
Inductive ForInit : Type :=
| InitVarDecl (var : VarDecl.t)
| InitExprStmt (expr : Expr).

(** Statements.  The parser wraps a declaration as the tuple
    [("Var", var)] and a nested block as the tuple [("Block", block)];
    the other statements are dataclass instances. *)
Inductive Stmt : Type :=
| VarTuple (var : VarDecl.t)
| BlockTuple (block : list Stmt)
| ExprStmt (expr : Expr)
| ReturnStmt (expr : option Expr)
| IfStmt (cond : Expr) (if_block else_block : list Stmt)
| ForStmt (init : option ForInit) (cond updt : option Expr) (block : list Stmt)
| BreakStmt.

Module FnDecl.
Record t : Type := mk
  { type_tok : string;
    name : string;
    params : list Param.t;
    body : list Stmt }.
End FnDecl.

(** The elements of [Program.items].  [Parser.parse] appends [FnDecl]
    objects, [("Var", var)] tuples and statements; a bare [VarDecl] item is
    what [TypeChecker.check_item] tests for with [isinstance(item, VarDecl)],
    although the parser never appends one. *)
Inductive Item : Type :=
| ItemFnDecl (fn : FnDecl.t)
| ItemVarDecl (var : VarDecl.t)
| ItemStmt (stmt : Stmt).

Module Program.
Record t : Type := mk { items : list Item }.
End Program.

(** ** compiler/parser.py: the parser *)

(** The [ParseError] classes with their messages.  [IndexError] is what
    [self.tokens[self.pos]] raises out of range.  [OutOfFuel] is not a
    Python exception: it marks a run of the model whose recursion budget
    was too small (the budget that suffices is linear in the number of
    tokens, see [parse_settles]; the recursion limit of the Python
    interpreter itself is not modelled). *)
Inductive ParseExc : Type :=
| UnexpectedEOF (msg : string)
| FailedToFindToken (msg : string)
| ExpectedTypeToken (msg : string)
| ExpectedIdentifier (msg : string)
| UnexpectedToken (msg : string)
| ExpectedExpr (msg : string)
| IndexError
| OutOfFuel.

(** [f"{tok.pos}"]: a [(line, col)] tuple or [None]. *)
Definition fmt_pos (p : option (nat * nat)) : string :=
  match p with
  | Some (line, col) => "(" +:+ pretty line +:+ ", " +:+ pretty col +:+ ")"
  | None => "None"
  end.

(** The [name: str] fields of the AST receive the [value] of an
    [Identifier] token, which both lexers set to the lexeme. *)
Definition value_name (v : PyValue) : string :=
  match v with
  | VStr s => s
  | _ => ""
  end.

Definition type_tokens : list string := ["Int"; "Float"; "Bool"; "String"].

Module Parser.
Section WithTokens.
(** [self.tokens]; [self.pos] is threaded through every method, which
    returns its value together with the new position. *)
Variable tokens : list Token.t.

Definition P (A : Type) : Type := result ParseExc (A * nat).

Definition _peek (pos : nat) : result ParseExc Token.t :=
  if (List.length tokens <=? pos)%nat then Ok (Token.mk "EOF" VNone None)
  else match tokens !! pos with
       | Some tok => Ok tok
       | None => Raise IndexError
       end.

Definition next (pos : nat) : P Token.t :=
  let* tok := _peek pos in
  if String.eqb (Token.type tok) "EOF"
  then Raise (UnexpectedEOF "Unexpected EOF")
  else Ok (tok, pos + 1).

Definition match_ (types : list string) (pos : nat) : P (option Token.t) :=
  let* tok := _peek pos in
  if str_in (Token.type tok) types
  then let* (tok, pos) := next pos in Ok (Some tok, pos)
  else Ok (None, pos).

Definition expect (ttype : string) (pos : nat) : P Token.t :=
  let* tok := _peek pos in
  if String.eqb (Token.type tok) ttype
  then next pos
  else Raise (FailedToFindToken
                ("Expected " +:+ ttype +:+ ", got " +:+ Token.type tok
                 +:+ " at " +:+ fmt_pos (Token.pos tok))).

Definition expect_identifier (pos : nat) : P string :=
  let* tok := _peek pos in
  if String.eqb (Token.type tok) "Identifier"
  then let* (tok, pos) := next pos in Ok (value_name (Token.value tok), pos)
  else Raise (ExpectedIdentifier
                ("Expected identifier at " +:+ fmt_pos (Token.pos tok))).

(** *** Expressions (precedence climbing) *)

Fixpoint parse_expr (fuel : nat) (pos : nat) {struct fuel} : P Expr :=
  match fuel with
  | 0 => Raise OutOfFuel
  | S fuel => parse_assignment fuel pos
  end

with parse_assignment (fuel : nat) (pos : nat) {struct fuel} : P Expr :=
  match fuel with
  | 0 => Raise OutOfFuel
  | S fuel =>
      let* (lhs, pos) := parse_logical_or fuel pos in
      let* (m, pos) := match_ ["AssignOp"] pos in
      match m with
      | Some _ =>
          let* (rhs, pos) := parse_assignment fuel pos in
          match lhs with
          | Identifier _ => Ok (Binary "AssignOp" lhs rhs, pos)
          | _ => Raise (UnexpectedToken "Left side of assignment must be identifier")
          end
      | None => Ok (lhs, pos)
      end
  end

with parse_logical_or (fuel : nat) (pos : nat) {struct fuel} : P Expr :=
  match fuel with
  | 0 => Raise OutOfFuel
  | S fuel =>
      let* (node, pos) := parse_logical_and fuel pos in
      parse_logical_or_loop fuel node pos
  end

with parse_logical_or_loop (fuel : nat) (node : Expr) (pos : nat) {struct fuel}
  : P Expr :=
  match fuel with
  | 0 => Raise OutOfFuel
  | S fuel =>
      let* (m, pos) := match_ ["OrOp"] pos in
      match m with
      | Some _ =>
          let* (rhs, pos) := parse_logical_and fuel pos in
          parse_logical_or_loop fuel (Binary "OrOp" node rhs) pos
      | None => Ok (node, pos)
      end
  end

with parse_logical_and (fuel : nat) (pos : nat) {struct fuel} : P Expr :=
  match fuel with
  | 0 => Raise OutOfFuel
  | S fuel =>
      let* (node, pos) := parse_equality fuel pos in
      parse_logical_and_loop fuel node pos
  end

with parse_logical_and_loop (fuel : nat) (node : Expr) (pos : nat) {struct fuel}
  : P Expr :=
  match fuel with
  | 0 => Raise OutOfFuel
  | S fuel =>
      let* (m, pos) := match_ ["AndOp"] pos in
      match m with
      | Some _ =>
          let* (rhs, pos) := parse_equality fuel pos in
          parse_logical_and_loop fuel (Binary "AndOp" node rhs) pos
      | None => Ok (node, pos)
      end
  end

with parse_equality (fuel : nat) (pos : nat) {struct fuel} : P Expr :=
  match fuel with
  | 0 => Raise OutOfFuel
  | S fuel =>
      let* (node, pos) := parse_comparison fuel pos in
      parse_equality_loop fuel node pos
  end

with parse_equality_loop (fuel : nat) (node : Expr) (pos : nat) {struct fuel}
  : P Expr :=
  match fuel with
  | 0 => Raise OutOfFuel
  | S fuel =>
      let* (m, pos) := match_ ["EqualsOp"] pos in
      match m with
      | Some _ =>
          let* (rhs, pos) := parse_comparison fuel pos in
          parse_equality_loop fuel (Binary "EqualsOp" node rhs) pos
      | None =>
          let* (m, pos) := match_ ["NotEquals"] pos in
          match m with
          | Some _ =>
              let* (rhs, pos) := parse_comparison fuel pos in
              parse_equality_loop fuel (Binary "NotEquals" node rhs) pos
          | None => Ok (node, pos)
          end
      end
  end

with parse_comparison (fuel : nat) (pos : nat) {struct fuel} : P Expr :=
  match fuel with
  | 0 => Raise OutOfFuel
  | S fuel =>
      let* (node, pos) := parse_add fuel pos in
      parse_comparison_loop fuel node pos
  end

with parse_comparison_loop (fuel : nat) (node : Expr) (pos : nat) {struct fuel}
  : P Expr :=
  match fuel with
  | 0 => Raise OutOfFuel
  | S fuel =>
      let* (m, pos) := match_ ["LessThan"] pos in
      match m with
      | Some _ =>
          let* (rhs, pos) := parse_add fuel pos in
          parse_comparison_loop fuel (Binary "LessThan" node rhs) pos
      | None =>
          let* (m, pos) := match_ ["GreaterThan"] pos in
          match m with
          | Some _ =>
              let* (rhs, pos) := parse_add fuel pos in
              parse_comparison_loop fuel (Binary "GreaterThan" node rhs) pos
          | None =>
              let* (m, pos) := match_ ["LessEq"] pos in
              match m with
              | Some _ =>
                  let* (rhs, pos) := parse_add fuel pos in
                  parse_comparison_loop fuel (Binary "LessEq" node rhs) pos
              | None =>
                  let* (m, pos) := match_ ["GreaterEq"] pos in
                  match m with
                  | Some _ =>
                      let* (rhs, pos) := parse_add fuel pos in
                      parse_comparison_loop fuel (Binary "GreaterEq" node rhs) pos
                  | None => Ok (node, pos)
                  end
              end
          end
      end
  end

with parse_add (fuel : nat) (pos : nat) {struct fuel} : P Expr :=
  match fuel with
  | 0 => Raise OutOfFuel
  | S fuel =>
      let* (node, pos) := parse_mul fuel pos in
      parse_add_loop fuel node pos
  end

with parse_add_loop (fuel : nat) (node : Expr) (pos : nat) {struct fuel}
  : P Expr :=
  match fuel with
  | 0 => Raise OutOfFuel
  | S fuel =>
      let* (m, pos) := match_ ["AddOp"] pos in
      match m with
      | Some _ =>
          let* (rhs, pos) := parse_mul fuel pos in
          parse_add_loop fuel (Binary "AddOp" node rhs) pos
      | None =>
          let* (m, pos) := match_ ["SubOp"] pos in
          match m with
          | Some _ =>
              let* (rhs, pos) := parse_mul fuel pos in
              parse_add_loop fuel (Binary "SubOp" node rhs) pos
          | None => Ok (node, pos)
          end
      end
  end

with parse_mul (fuel : nat) (pos : nat) {struct fuel} : P Expr :=
  match fuel with
  | 0 => Raise OutOfFuel
  | S fuel =>
      let* (node, pos) := parse_unary fuel pos in
      parse_mul_loop fuel node pos
  end

with parse_mul_loop (fuel : nat) (node : Expr) (pos : nat) {struct fuel}
  : P Expr :=
  match fuel with
  | 0 => Raise OutOfFuel
  | S fuel =>
      let* (m, pos) := match_ ["MulOp"] pos in
      match m with
      | Some _ =>
          let* (rhs, pos) := parse_unary fuel pos in
          parse_mul_loop fuel (Binary "MulOp" node rhs) pos
      | None =>
          let* (m, pos) := match_ ["DivOp"] pos in
          match m with
          | Some _ =>
              let* (rhs, pos) := parse_unary fuel pos in
              parse_mul_loop fuel (Binary "DivOp" node rhs) pos
          | None =>
              let* (m, pos) := match_ ["ModOp"] pos in
              match m with
              | Some _ =>
                  let* (rhs, pos) := parse_unary fuel pos in
                  parse_mul_loop fuel (Binary "ModOp" node rhs) pos
              | None => Ok (node, pos)
              end
          end
      end
  end

with parse_unary (fuel : nat) (pos : nat) {struct fuel} : P Expr :=
  match fuel with
  | 0 => Raise OutOfFuel
  | S fuel =>
      let* (m, pos) := match_ ["SubOp"] pos in
      match m with
      | Some _ =>
          let* (node, pos) := parse_unary fuel pos in
          Ok (Unary "SubOp" node, pos)
      | None =>
          let* (m, pos) := match_ ["NotOp"] pos in
          match m with
          | Some _ =>
              let* (node, pos) := parse_unary fuel pos in
              Ok (Unary "NotOp" node, pos)
          | None => parse_call fuel pos
          end
      end
  end

with parse_call (fuel : nat) (pos : nat) {struct fuel} : P Expr :=
  match fuel with
  | 0 => Raise OutOfFuel
  | S fuel =>
      let* (node, pos) := parse_primary fuel pos in
      parse_call_loop fuel node pos
  end

with parse_call_loop (fuel : nat) (node : Expr) (pos : nat) {struct fuel}
  : P Expr :=
  match fuel with
  | 0 => Raise OutOfFuel
  | S fuel =>
      let* (m, pos) := match_ ["ParenL"] pos in
      match m with
      | Some _ =>
          let* tok := _peek pos in
          let* (args, pos) :=
            if negb (String.eqb (Token.type tok) "ParenR")
            then
              let* (arg, pos) := parse_expr fuel pos in
              parse_args_loop fuel [arg] pos
            else Ok ([], pos) in
          let* (_, pos) := expect "ParenR" pos in
          parse_call_loop fuel (Call node args) pos
      | None => Ok (node, pos)
      end
  end

with parse_args_loop (fuel : nat) (args : list Expr) (pos : nat) {struct fuel}
  : P (list Expr) :=
  match fuel with
  | 0 => Raise OutOfFuel
  | S fuel =>
      let* (m, pos) := match_ ["Comma"] pos in
      match m with
      | Some _ =>
          let* (arg, pos) := parse_expr fuel pos in
          parse_args_loop fuel (args ++ [arg]) pos
      | None => Ok (args, pos)
      end
  end

with parse_primary (fuel : nat) (pos : nat) {struct fuel} : P Expr :=
  match fuel with
  | 0 => Raise OutOfFuel
  | S fuel =>
      let* tok := _peek pos in
      if str_in (Token.type tok) ["IntLit"; "FloatLit"; "StringLit"; "BoolLit"]
      then
        let* (tok, pos) := next pos in
        Ok (Literal (Token.value tok), pos)
      else if String.eqb (Token.type tok) "Identifier" then
        let* (tok, pos) := next pos in
        Ok (Identifier (value_name (Token.value tok)), pos)
      else if String.eqb (Token.type tok) "ParenL" then
        let* (_, pos) := next pos in
        let* (node, pos) := parse_expr fuel pos in
        let* (_, pos) := expect "ParenR" pos in
        Ok (node, pos)
      else
        Raise (ExpectedExpr
                 ("Expected primary expression, got " +:+ Token.type tok
                  +:+ " at " +:+ fmt_pos (Token.pos tok)))
  end.

(** *** Declarations and statements *)

Definition parse_var_decl (fuel : nat) (pos : nat) : P VarDecl.t :=
  let* t := _peek pos in
  if negb (str_in (Token.type t) type_tokens)
  then Raise (ExpectedTypeToken "Expected type token for var")
  else
    let* (tok, pos) := next pos in
    let type_tok := Token.type tok in
    let* (name, pos) := expect_identifier pos in
    let* (m, pos) := match_ ["AssignOp"] pos in
    match m with
    | Some _ =>
        let* (expr, pos) := parse_expr fuel pos in
        Ok (VarDecl.mk type_tok name (Some expr), pos)
    | None => Ok (VarDecl.mk type_tok name None, pos)
    end.

Definition parse_param (pos : nat) : P Param.t :=
  let* t := _peek pos in
  if negb (str_in (Token.type t) type_tokens)
  then Raise (ExpectedTypeToken "Expected param type")
  else
    let* (tok, pos) := next pos in
    let type_tok := Token.type tok in
    let* (name, pos) := expect_identifier pos in
    Ok (Param.mk type_tok name, pos).

Fixpoint parse_stmt (fuel : nat) (pos : nat) {struct fuel} : P Stmt :=
  match fuel with
  | 0 => Raise OutOfFuel
  | S fuel =>
      let* tok := _peek pos in
      if str_in (Token.type tok) type_tokens then
        let* (var, pos) := parse_var_decl fuel pos in
        let* (_, pos) := match_ ["Dot"; "Semicolon"] pos in
        Ok (VarTuple var, pos)
      else if str_in (Token.type tok) ["Return"; "wapsi"] then
        let* (_, pos) := next pos in
        let* t := _peek pos in
        if str_in (Token.type t) ["Dot"; "Semicolon"] then
          let* (_, pos) := match_ ["Dot"; "Semicolon"] pos in
          Ok (ReturnStmt None, pos)
        else
          let* (expr, pos) := parse_expr fuel pos in
          let* (_, pos) := match_ ["Dot"; "Semicolon"] pos in
          Ok (ReturnStmt (Some expr), pos)
      else if str_in (Token.type tok) ["If"; "agar"] then
        parse_if fuel pos
      else if str_in (Token.type tok) ["For"; "duhrao"] then
        parse_for fuel pos
      else if str_in (Token.type tok) ["Break"; "toro"] then
        let* (_, pos) := next pos in
        let* (_, pos) := match_ ["Dot"; "Semicolon"] pos in
        Ok (BreakStmt, pos)
      else if String.eqb (Token.type tok) "BraceL" then
        let* (_, pos) := next pos in
        let* (block, pos) := parse_block fuel [] pos in
        let* (_, pos) := expect "BraceR" pos in
        let* (_, pos) := match_ ["Dot"; "Semicolon"] pos in
        Ok (BlockTuple block, pos)
      else
        let* (expr, pos) := parse_expr fuel pos in
        let* (_, pos) := match_ ["Dot"; "Semicolon"] pos in
        Ok (ExprStmt expr, pos)
  end

(** [while self._peek().type != "BraceR": block.append(self.parse_stmt())] *)
with parse_block (fuel : nat) (block : list Stmt) (pos : nat) {struct fuel}
  : P (list Stmt) :=
  match fuel with
  | 0 => Raise OutOfFuel
  | S fuel =>
      let* tok := _peek pos in
      if negb (String.eqb (Token.type tok) "BraceR") then
        let* (stmt, pos) := parse_stmt fuel pos in
        parse_block fuel (block ++ [stmt]) pos
      else Ok (block, pos)
  end

with parse_if (fuel : nat) (pos : nat) {struct fuel} : P Stmt :=
  match fuel with
  | 0 => Raise OutOfFuel
  | S fuel =>
      let* (_, pos) := next pos in
      let* (_, pos) := expect "ParenL" pos in
      let* (cond, pos) := parse_expr fuel pos in
      let* (_, pos) := expect "ParenR" pos in
      let* (_, pos) := expect "BraceL" pos in
      let* (if_block, pos) := parse_block fuel [] pos in
      let* (_, pos) := expect "BraceR" pos in
      let* (m, pos) := match_ ["Else"] pos in
      let* (m, pos) :=
        match m with
        | Some _ => Ok (m, pos)
        | None => match_ ["warna"] pos
        end in
      let* (else_block, pos) :=
        match m with
        | Some _ =>
            let* (_, pos) := expect "BraceL" pos in
            let* (else_block, pos) := parse_block fuel [] pos in
            let* (_, pos) := expect "BraceR" pos in
            Ok (else_block, pos)
        | None => Ok ([], pos)
        end in
      let* (_, pos) := match_ ["Dot"; "Semicolon"] pos in
      Ok (IfStmt cond if_block else_block, pos)
  end

with parse_for (fuel : nat) (pos : nat) {struct fuel} : P Stmt :=
  match fuel with
  | 0 => Raise OutOfFuel
  | S fuel =>
      let* (_, pos) := next pos in
      let* (_, pos) := expect "ParenL" pos in
      let* tok := _peek pos in
      let* (init, pos) :=
        if str_in (Token.type tok) type_tokens then
          let* (var, pos) := parse_var_decl fuel pos in
          let* (_, pos) := match_ ["Dot"; "Semicolon"] pos in
          Ok (Some (InitVarDecl var), pos)
        else if negb (String.eqb (Token.type tok) "Dot") then
          let* (init_exp, pos) := parse_expr fuel pos in
          let* (_, pos) := match_ ["Dot"; "Semicolon"] pos in
          Ok (Some (InitExprStmt init_exp), pos)
        else
          let* (_, pos) := match_ ["Dot"; "Semicolon"] pos in
          Ok (None, pos) in
      let* tok := _peek pos in
      let* (cond, pos) :=
        if negb (String.eqb (Token.type tok) "Dot") then
          let* (cond, pos) := parse_expr fuel pos in
          Ok (Some cond, pos)
        else Ok (None, pos) in
      let* (_, pos) := match_ ["Dot"; "Semicolon"] pos in
      let* tok := _peek pos in
      let* (updt, pos) :=
        if negb (String.eqb (Token.type tok) "ParenR") then
          let* (updt, pos) := parse_expr fuel pos in
          Ok (Some updt, pos)
        else Ok (None, pos) in
      let* (_, pos) := expect "ParenR" pos in
      let* (_, pos) := expect "BraceL" pos in
      let* (block, pos) := parse_block fuel [] pos in
      let* (_, pos) := expect "BraceR" pos in
      let* (_, pos) := match_ ["Dot"; "Semicolon"] pos in
      Ok (ForStmt init cond updt block, pos)
  end.

(** [while self.match("Comma"): params.append(self.parse_param())] *)
Fixpoint parse_params_loop (fuel : nat) (params : list Param.t) (pos : nat)
  : P (list Param.t) :=
  match fuel with
  | 0 => Raise OutOfFuel
  | S fuel =>
      let* (m, pos) := match_ ["Comma"] pos in
      match m with
      | Some _ =>
          let* (param, pos) := parse_param pos in
          parse_params_loop fuel (params ++ [param]) pos
      | None => Ok (params, pos)
      end
  end.

Definition parse_fn_decl (fuel : nat) (pos : nat) : P FnDecl.t :=
  let* (_, pos) := expect "Function" pos in
  let* t := _peek pos in
  if negb (str_in (Token.type t) type_tokens)
  then Raise (ExpectedTypeToken "Expected type token after Function")
  else
    let* (tok, pos) := next pos in
    let type_tok := Token.type tok in
    let* (name, pos) := expect_identifier pos in
    let* (_, pos) := expect "ParenL" pos in
    let* t := _peek pos in
    let* (params, pos) :=
      if negb (String.eqb (Token.type t) "ParenR") then
        let* (param, pos) := parse_param pos in
        parse_params_loop fuel [param] pos
      else Ok ([], pos) in
    let* (_, pos) := expect "ParenR" pos in
    let* (_, pos) := expect "BraceL" pos in
    let* (body, pos) := parse_block fuel [] pos in
    let* (_, pos) := expect "BraceR" pos in
    let* (_, pos) := match_ ["Dot"; "Semicolon"] pos in
    Ok (FnDecl.mk type_tok name params body, pos).

(** The loop of [parse]: [while self._peek().type != "EOF": ...]. *)
Fixpoint parse_items (fuel : nat) (items : list Item) (pos : nat)
  : P (list Item) :=
  match fuel with
  | 0 => Raise OutOfFuel
  | S fuel =>
      let* tok := _peek pos in
      if negb (String.eqb (Token.type tok) "EOF") then
        if String.eqb (Token.type tok) "Function" then
          let* (fn, pos) := parse_fn_decl fuel pos in
          parse_items fuel (items ++ [ItemFnDecl fn]) pos
        else if str_in (Token.type tok) type_tokens then
          let* (var, pos) := parse_var_decl fuel pos in
          let* (_, pos) := match_ ["Dot"; "Semicolon"] pos in
          parse_items fuel (items ++ [ItemStmt (VarTuple var)]) pos
        else
          let* (stmt, pos) := parse_stmt fuel pos in
          parse_items fuel (items ++ [ItemStmt stmt]) pos
      else Ok (items, pos)
  end.

Definition parse (fuel : nat) : result ParseExc Program.t :=
  let* (items, _) := parse_items fuel [] 0 in
  Ok (Program.mk items).
End WithTokens.
End Parser.

(** ** compiler/scope_analyzer.py *)

Inductive ScopeError : Type :=
| ScopeError_ (msg : string)
| UndeclaredVariableAccessed (msg : string)
| UndefinedFunctionCalled (msg : string)
| VariableRedefinition (msg : string)
| FunctionPrototypeRedefinition (msg : string).

(** [str(e)] *)
Definition str (e : ScopeError) : string :=
  match e with
  | ScopeError_ m | UndeclaredVariableAccessed m | UndefinedFunctionCalled m
  | VariableRedefinition m | FunctionPrototypeRedefinition m => m
  end.

Module Symbol.
(** [type_tok] is always given by the three callers of [define_symbol];
    [params] is [None] for variables and parameters. *)
Record t : Type := mk
  { name : string;
    kind : string;
    type_tok : string;
    params : option (list Param.t);
    scope_level : nat }.
End Symbol.

Module ScopeNode.
(** One frame.  [parent] is the back-pointer of the spaghetti stack: a
    frame is only ever mutated while it is the current one, so the parent
    held by a child is the parent as it will be found again on exit. *)
Inductive t : Type := mk
  { parent : option t;
    scope_type : string;
    symbols : gmap string Symbol.t;
    level : nat }.

(** [ScopeNode(parent, scope_type)] *)
Definition new (parent : option t) (scope_type : string) : t :=
  mk parent scope_type ∅
     (match parent with None => 0 | Some p => level p + 1 end).

Definition define (self : t) (name : string) (symbol : Symbol.t)
  : result ScopeError t :=
  match symbols self !! name with
  | Some _ =>
      if String.eqb (Symbol.kind symbol) "function"
      then Raise (FunctionPrototypeRedefinition
                    ("Function '" +:+ name +:+ "' is already defined in this scope"))
      else Raise (VariableRedefinition
                    ("Variable '" +:+ name +:+ "' is already defined in this scope"))
  | None =>
      Ok (mk (parent self) (scope_type self)
             (<[name := symbol]> (symbols self)) (level self))
  end.

Definition lookup_local (self : t) (name : string) : option Symbol.t :=
  symbols self !! name.

Fixpoint lookup (self : t) (name : string) {struct self} : option Symbol.t :=
  match symbols self !! name with
  | Some s => Some s
  | None =>
      match parent self with
      | Some p => lookup p name
      | None => None
      end
  end.

(** The frame reached by following [parent] to the end. *)
Fixpoint root (self : t) : t :=
  match parent self with
  | Some p => root p
  | None => self
  end.
End ScopeNode.

Module ScopeAnalyzer.
(** [global_scope] and [current_scope] alias one object until the first
    [enter_scope], and [current_scope] always descends from
    [global_scope]; the global frame is therefore the root of the current
    chain rather than a second copy. *)
Record t : Type := mk
  { current_scope : ScopeNode.t;
    errors : list string }.

Definition init : t := mk (ScopeNode.new None "global") [].

Definition global_scope (self : t) : ScopeNode.t :=
  ScopeNode.root (current_scope self).

Definition append_error (self : t) (msg : string) : t :=
  mk (current_scope self) (errors self ++ [msg]).

Definition enter_scope (self : t) (scope_type : string) : t :=
  mk (ScopeNode.new (Some (current_scope self)) scope_type) (errors self).

Definition exit_scope (self : t) : t :=
  match ScopeNode.parent (current_scope self) with
  | Some p => mk p (errors self)
  | None => self
  end.

Definition define_symbol (self : t) (name kind type_tok : string)
    (params : option (list Param.t)) : result ScopeError t :=
  let symbol :=
    Symbol.mk name kind type_tok params (ScopeNode.level (current_scope self)) in
  let* sc := ScopeNode.define (current_scope self) name symbol in
  Ok (mk sc (errors self)).

Definition lookup_symbol (self : t) (name : string) : option Symbol.t :=
  ScopeNode.lookup (current_scope self) name.

(** The block that surrounds every call of [define_symbol]:
    [try: self.define_symbol(...)]
    [except (FunctionPrototypeRedefinition, VariableRedefinition) as e:]
    [    self.errors.append(str(e))]. *)
Definition try_define_symbol (self : t) (name kind type_tok : string)
    (params : option (list Param.t)) : result ScopeError t :=
  match define_symbol self name kind type_tok params with
  | Ok self' => Ok self'
  | Raise (FunctionPrototypeRedefinition _ as e)
  | Raise (VariableRedefinition _ as e) => Ok (append_error self (str e))
  | Raise e => Raise e
  end.

Fixpoint visit_expr (self : t) (expr : Expr) {struct expr} : t :=
  match expr with
  | Binary _ lhs rhs => visit_expr (visit_expr self lhs) rhs
  | Unary _ e => visit_expr self e
  | Literal _ => self
  | Identifier name =>
      match lookup_symbol self name with
      | None =>
          append_error self
            ("UndeclaredVariableAccessed: Variable '" +:+ name +:+ "' is not declared")
      | Some _ => self
      end
  | Call callee args =>
      let self :=
        match callee with
        | Identifier name =>
            match lookup_symbol self name with
            | None =>
                append_error self
                  ("UndefinedFunctionCalled: Function '" +:+ name +:+ "' is not defined")
            | Some symbol =>
                if negb (String.eqb (Symbol.kind symbol) "function")
                then append_error self
                       ("UndefinedFunctionCalled: '" +:+ name +:+ "' is not a function")
                else self
            end
        | _ => visit_expr self callee
        end in
      (fix visit_args (self : t) (args : list Expr) {struct args} : t :=
         match args with
         | [] => self
         | arg :: args' => visit_args (visit_expr self arg) args'
         end) self args
  end.

Definition visit_var_decl (self : t) (node : VarDecl.t) : result ScopeError t :=
  let self :=
    match VarDecl.expr node with
    | Some e => visit_expr self e
    | None => self
    end in
  try_define_symbol self (VarDecl.name node) "var" (VarDecl.type_tok node) None.

Fixpoint visit_stmt (self : t) (stmt : Stmt) {struct stmt} : result ScopeError t :=
  let visit_block :=
    fix visit_block (self : t) (block : list Stmt) {struct block}
      : result ScopeError t :=
      match block with
      | [] => Ok self
      | s :: block' =>
          let* self := visit_stmt self s in
          visit_block self block'
      end in
  match stmt with
  | VarTuple var => visit_var_decl self var
  | BlockTuple block =>
      let self := enter_scope self "block" in
      let* self := visit_block self block in
      Ok (exit_scope self)
  | ExprStmt e => Ok (visit_expr self e)
  | ReturnStmt (Some e) => Ok (visit_expr self e)
  | ReturnStmt None => Ok self
  | IfStmt cond if_block else_block =>
      let self := visit_expr self cond in
      let self := enter_scope self "block" in
      let* self := visit_block self if_block in
      let self := exit_scope self in
      match else_block with
      | [] => Ok self
      | _ :: _ =>
          let self := enter_scope self "block" in
          let* self := visit_block self else_block in
          Ok (exit_scope self)
      end
  | ForStmt init cond updt block =>
      let self := enter_scope self "block" in
      let* self :=
        match init with
        | Some (InitVarDecl var) => visit_var_decl self var
        | Some (InitExprStmt e) => Ok (visit_expr self e)
        | None => Ok self
        end in
      let self := match cond with Some e => visit_expr self e | None => self end in
      let self := match updt with Some e => visit_expr self e | None => self end in
      let* self := visit_block self block in
      Ok (exit_scope self)
  | BreakStmt => Ok self
  end.

(** [for s in block: self.visit_stmt(s)] *)
Fixpoint visit_stmts (self : t) (block : list Stmt) : result ScopeError t :=
  match block with
  | [] => Ok self
  | s :: block' =>
      let* self := visit_stmt self s in
      visit_stmts self block'
  end.

Fixpoint define_params (self : t) (params : list Param.t) : result ScopeError t :=
  match params with
  | [] => Ok self
  | param :: params' =>
      let* self :=
        try_define_symbol self (Param.name param) "param" (Param.type_tok param) None in
      define_params self params'
  end.

Definition visit_fn_decl (self : t) (node : FnDecl.t) : result ScopeError t :=
  let self := enter_scope self "function" in
  let* self := define_params self (FnDecl.params node) in
  let* self := visit_stmts self (FnDecl.body node) in
  Ok (exit_scope self).

(** First pass of [visit_program]: register every function. *)
Fixpoint collect_functions (self : t) (items : list Item) : result ScopeError t :=
  match items with
  | [] => Ok self
  | ItemFnDecl item :: items' =>
      let* self :=
        try_define_symbol self (FnDecl.name item) "function"
          (FnDecl.type_tok item) (Some (FnDecl.params item)) in
      collect_functions self items'
  | _ :: items' => collect_functions self items'
  end.

(** One round of the second pass.  A bare [VarDecl] is neither a
    [FnDecl] nor a tuple, so it goes to [visit_stmt], where no branch
    matches it. *)
Definition visit_item (self : t) (item : Item) : result ScopeError t :=
  match item with
  | ItemFnDecl fn => visit_fn_decl self fn
  | ItemStmt (VarTuple var) => visit_var_decl self var
  | ItemStmt stmt => visit_stmt self stmt
  | ItemVarDecl _ => Ok self
  end.

Fixpoint visit_items (self : t) (items : list Item) : result ScopeError t :=
  match items with
  | [] => Ok self
  | item :: items' =>
      let* self := visit_item self item in
      visit_items self items'
  end.

Definition visit_program (self : t) (node : Program.t) : result ScopeError t :=
  let* self := collect_functions self (Program.items node) in
  visit_items self (Program.items node).

Definition analyze (self : t) (ast : Program.t) : result ScopeError t :=
  let* self := visit_program self ast in
  match errors self with
  | [] => Ok self
  | _ :: _ => Raise (ScopeError_ (String.concat (String (Ascii.ascii_of_nat 10) "") (errors self)))
  end.
End ScopeAnalyzer.

(** [analyze_scope(ast)] *)
Definition analyze_scope (ast : Program.t) : result ScopeError ScopeAnalyzer.t :=
  ScopeAnalyzer.analyze ScopeAnalyzer.init ast.

(** ** compiler/type_checker.py *)

(** The exceptions the type checker can end with: the [TypeChkError]
    classes, each with the message it is raised with, and the built-in
    exceptions Python raises for a missing attribute or a non-iterable. *)
Inductive Exc : Type :=
| ErroneousVarDecl (msg : string)
| FnCallParamCount (msg : string)
| FnCallParamType (msg : string)
| ErroneousReturnType (msg : string)
| ExpressionTypeMismatch (msg : string)
| ExpectedBooleanExpression (msg : string)
| ErroneousBreak (msg : string)
| NonBooleanCondStmt (msg : string)
| EmptyExpression (msg : string)
| AttemptedBoolOpOnNonBools (msg : string)
| AttemptedBitOpOnNonNumeric (msg : string)
| AttemptedShiftOnNonInt (msg : string)
| AttemptedAddOpOnNonNumeric (msg : string)
| AttemptedExponentiationOfNonNumeric (msg : string)
| ReturnStmtNotFound (msg : string)
| AttributeError (cls attr : string)
| TypeError_not_iterable (cls : string)
| Exception_ (msg : string).

(** [isinstance(e, TypeChkError)] *)
Definition is_TypeChkError (e : Exc) : bool :=
  match e with
  | AttributeError _ _ | TypeError_not_iterable _ | Exception_ _ => false
  | _ => true
  end.

Module TypeChecker.
Record t : Type := mk
  { scope_analyzer : ScopeAnalyzer.t;
    current_scope : option ScopeNode.t;
    current_function : option Symbol.t }.

(** [TypeChecker(scope_analyzer)] *)
Definition new (scope_analyzer : ScopeAnalyzer.t) : t :=
  mk scope_analyzer (Some (ScopeAnalyzer.global_scope scope_analyzer)) None.

Definition set_current_scope (self : t) (sc : option ScopeNode.t) : t :=
  mk (scope_analyzer self) sc (current_function self).

Definition set_current_function (self : t) (f : option Symbol.t) : t :=
  mk (scope_analyzer self) (current_scope self) f.

(** [self.scope_analyzer.all_scopes]: [ScopeAnalyzer.__init__] sets
    [global_scope], [current_scope] and [errors], and no method of the
    class sets another attribute, so the read raises. *)
Definition all_scopes (sa : ScopeAnalyzer.t) : result Exc (list ScopeNode.t) :=
  Raise (AttributeError "ScopeAnalyzer" "all_scopes").

(** [scope.name]: a [ScopeNode] has [parent], [scope_type], [symbols] and
    [level] only. *)
Definition scope_name (scope : ScopeNode.t) : result Exc string :=
  Raise (AttributeError "ScopeNode" "name").

Definition get_function_scope (self : t) (fn_name : string)
  : result Exc ScopeNode.t :=
  let* scopes := all_scopes (scope_analyzer self) in
  (fix loop (scopes : list ScopeNode.t) : result Exc ScopeNode.t :=
     match scopes with
     | [] => Raise (Exception_ ("Function scope '" +:+ fn_name +:+ "' not found"))
     | scope :: scopes' =>
         if String.eqb (ScopeNode.scope_type scope) "function"
         then
           let* n := scope_name scope in
           if String.eqb n fn_name then Ok scope else loop scopes'
         else loop scopes'
     end) scopes.

Definition enter_scope (self : t) (scope_type : string) : t :=
  set_current_scope self (Some (ScopeNode.new (current_scope self) scope_type)).

Definition exit_scope (self : t) : result Exc t :=
  match current_scope self with
  | None => Raise (AttributeError "NoneType" "parent")
  | Some sc =>
      match ScopeNode.parent sc with
      | Some p => Ok (set_current_scope self (Some p))
      | None => Ok self
      end
  end.

Fixpoint in_loop_from (scope : ScopeNode.t) : bool :=
  if String.eqb (ScopeNode.scope_type scope) "for" then true
  else match ScopeNode.parent scope with
       | Some p => in_loop_from p
       | None => false
       end.

Definition in_loop (self : t) : bool :=
  match current_scope self with
  | Some scope => in_loop_from scope
  | None => false
  end.

(** [check_expr].  Its [expr is None] guard has no case here: every
    caller passes a node.  A [Literal] has the single field [value], so
    [expr.type_tok] raises; a callee that is not an [Identifier] has no
    [name]. *)
Fixpoint check_expr (self : t) (expr : Expr) {struct expr} : result Exc string :=
  match expr with
  | Literal _ => Raise (AttributeError "Literal" "type_tok")
  | Identifier name =>
      match ScopeAnalyzer.lookup_symbol (scope_analyzer self) name with
      | None => Raise (ExpressionTypeMismatch ("Undeclared variable '" +:+ name +:+ "'"))
      | Some symbol => Ok (Symbol.type_tok symbol)
      end
  | Unary _ e =>
      let* operand_type := check_expr self e in
      Ok operand_type
  | Binary op lhs rhs =>
      let* left_type := check_expr self lhs in
      let* right_type := check_expr self rhs in
      if str_in op ["+"; "-"; "*"; "/"; "**"] then
        if negb (str_in left_type ["Int"; "Float"])
           || negb (str_in right_type ["Int"; "Float"])
        then
          if String.eqb op "**"
          then Raise (AttemptedExponentiationOfNonNumeric "")
          else Raise (AttemptedAddOpOnNonNumeric "")
        else Ok left_type
      else if str_in op ["&&"; "||"] then
        if negb (String.eqb left_type "Bool") || negb (String.eqb right_type "Bool")
        then Raise (AttemptedBoolOpOnNonBools "")
        else Ok "Bool"
      else Ok left_type
  | Call callee args =>
      match callee with
      | Identifier callee_name =>
          match ScopeAnalyzer.lookup_symbol (scope_analyzer self) callee_name with
          | None =>
              Raise (FnCallParamCount ("Function '" +:+ callee_name +:+ "' not defined"))
          | Some fn_symbol =>
              let param_count :=
                match Symbol.params fn_symbol with
                | Some ((_ :: _) as ps) => List.length ps
                | _ => 0
                end in
              if negb (Nat.eqb (List.length args) param_count) then
                Raise (FnCallParamCount
                         ("Function '" +:+ callee_name +:+ "' expects "
                          +:+ pretty param_count +:+ " args, got "
                          +:+ pretty (List.length args)))
              else
                match Symbol.params fn_symbol with
                | None => Raise (TypeError_not_iterable "NoneType")
                | Some params =>
                    let* _ :=
                      (fix check_args (args : list Expr) (params : list Param.t)
                           {struct args} : result Exc unit :=
                         match args, params with
                         | arg :: args', param :: params' =>
                             let* arg_type := check_expr self arg in
                             if negb (String.eqb arg_type (Param.type_tok param))
                             then
                               Raise (FnCallParamType
                                        ("Function '" +:+ callee_name +:+ "' argument '"
                                         +:+ Param.name param +:+ "' expects '"
                                         +:+ Param.type_tok param +:+ "', got '"
                                         +:+ arg_type +:+ "'"))
                             else check_args args' params'
                         | _, _ => Ok ()
                         end) args params in
                    Ok (Symbol.type_tok fn_symbol)
                end
          end
      | _ => Raise (AttributeError (class_name callee) "name")
      end
  end.

(** The loop [for arg, param in zip(expr.args, fn_symbol.params)] of
    [check_expr], as a function of its own. *)
Fixpoint check_args (self : t) (callee_name : string) (args : list Expr)
    (params : list Param.t) {struct args} : result Exc unit :=
  match args, params with
  | arg :: args', param :: params' =>
      let* arg_type := check_expr self arg in
      if negb (String.eqb arg_type (Param.type_tok param))
      then
        Raise (FnCallParamType
                 ("Function '" +:+ callee_name +:+ "' argument '"
                  +:+ Param.name param +:+ "' expects '"
                  +:+ Param.type_tok param +:+ "', got '"
                  +:+ arg_type +:+ "'"))
      else check_args self callee_name args' params'
  | _, _ => Ok ()
  end.

Definition check_var_decl (self : t) (node : VarDecl.t) : result Exc unit :=
  match VarDecl.expr node with
  | Some e =>
      let* expr_type := check_expr self e in
      if negb (String.eqb expr_type (VarDecl.type_tok node))
      then
        Raise (ExpressionTypeMismatch
                 ("Variable '" +:+ VarDecl.name node
                  +:+ "' assigned expression of type '" +:+ expr_type
                  +:+ "', expected '" +:+ VarDecl.type_tok node +:+ "'"))
      else Ok ()
  | None => Ok ()
  end.

(** [check_stmt].  The two tuple statements are instances of none of the
    tested classes, so the [if]/[elif] chain falls through. *)
Fixpoint check_stmt (self : t) (stmt : Stmt) {struct stmt} : result Exc t :=
  let check_block :=
    fix check_block (self : t) (block : list Stmt) {struct block} : result Exc t :=
      match block with
      | [] => Ok self
      | s :: block' =>
          let* self := check_stmt self s in
          check_block self block'
      end in
  match stmt with
  | VarTuple _ => Ok self
  | BlockTuple _ => Ok self
  | ExprStmt e =>
      let* _ := check_expr self e in
      Ok self
  | ReturnStmt expr =>
      let* expr_type :=
        match expr with
        | Some e => check_expr self e
        | None => Ok "Void"
        end in
      match current_function self with
      | None => Raise (AttributeError "NoneType" "type_tok")
      | Some fn =>
          if negb (String.eqb expr_type (Symbol.type_tok fn))
          then
            Raise (ErroneousReturnType
                     ("Return type '" +:+ expr_type
                      +:+ "' does not match function return type '"
                      +:+ Symbol.type_tok fn +:+ "'"))
          else Ok self
      end
  | IfStmt cond if_block else_block =>
      let* cond_type := check_expr self cond in
      if negb (String.eqb cond_type "Bool")
      then Raise (ExpectedBooleanExpression "If condition must be boolean")
      else
        let self := enter_scope self "if" in
        let* self := check_block self if_block in
        let* self := exit_scope self in
        match else_block with
        | [] => Ok self
        | _ :: _ =>
            let self := enter_scope self "else" in
            let* self := check_block self else_block in
            exit_scope self
        end
  | ForStmt init cond updt block =>
      let self := enter_scope self "for" in
      let* _ :=
        match init with
        | Some (InitVarDecl var) => check_var_decl self var
        | Some (InitExprStmt e) => let* _ := check_expr self e in Ok ()
        | None => Ok ()
        end in
      let* _ :=
        match cond with
        | Some e =>
            let* cond_type := check_expr self e in
            if negb (String.eqb cond_type "Bool")
            then Raise (NonBooleanCondStmt "For loop condition must be boolean")
            else Ok ()
        | None => Ok ()
        end in
      let* _ :=
        match updt with
        | Some e => let* _ := check_expr self e in Ok ()
        | None => Ok ()
        end in
      let* self := check_block self block in
      exit_scope self
  | BreakStmt =>
      if negb (in_loop self)
      then Raise (ErroneousBreak "Break statement outside loop")
      else Ok self
  end.

(** The body loop of [check_fn_decl]:
    [for stmt in node.body: if isinstance(stmt, ReturnStmt): returned = True;
     self.check_stmt(stmt)]. *)
Fixpoint check_body (self : t) (returned : bool) (body : list Stmt)
  : result Exc (t * bool) :=
  match body with
  | [] => Ok (self, returned)
  | stmt :: body' =>
      let returned := match stmt with ReturnStmt _ => true | _ => returned end in
      let* self := check_stmt self stmt in
      check_body self returned body'
  end.

(** [check_fn_decl].  The loop over [node.params] tests
    [param.type_tok is None], which a [Param] (its [type_tok] is a [str])
    never satisfies. *)
Definition check_fn_decl (self : t) (node : FnDecl.t) : result Exc t :=
  let self :=
    set_current_function self
      (ScopeAnalyzer.lookup_symbol (scope_analyzer self) (FnDecl.name node)) in
  let* scope := get_function_scope self (FnDecl.name node) in
  let self := set_current_scope self (Some scope) in
  let* (self, returned) := check_body self false (FnDecl.body node) in
  match current_function self with
  | None => Raise (AttributeError "NoneType" "type_tok")
  | Some fn =>
      if negb (String.eqb (Symbol.type_tok fn) "Void") && negb returned
      then
        Raise (ReturnStmtNotFound
                 ("Function '" +:+ FnDecl.name node +:+ "' has no return statement"))
      else
        match current_scope self with
        | None => Raise (AttributeError "NoneType" "parent")
        | Some sc =>
            Ok (set_current_function
                  (set_current_scope self (ScopeNode.parent sc)) None)
        end
  end.

Definition check_item (self : t) (item : Item) : result Exc t :=
  match item with
  | ItemFnDecl fn => check_fn_decl self fn
  | ItemVarDecl var => let* _ := check_var_decl self var in Ok self
  | ItemStmt stmt => check_stmt self stmt
  end.

Fixpoint check_items (self : t) (items : list Item) : result Exc t :=
  match items with
  | [] => Ok self
  | item :: items' =>
      let* self := check_item self item in
      check_items self items'
  end.

Definition check_program (self : t) (program : Program.t) : result Exc t :=
  check_items self (Program.items program).
End TypeChecker.

(** The three stages in sequence, as [main_typecheck.py] runs them on an
    already tokenized source. *)
Inductive Verdict : Type :=
| ParseFailed (e : ParseExc)
| ScopeFailed (e : ScopeError)
| TypeCheckFailed (e : Exc)
| TypeCheckPassed.

Definition compile (fuel : nat) (tokens : list Token.t) : Verdict :=
  match Parser.parse tokens fuel with
  | Raise e => ParseFailed e
  | Ok ast =>
      match analyze_scope ast with
      | Raise e => ScopeFailed e
      | Ok analyzer =>
          match TypeChecker.check_program (TypeChecker.new analyzer) ast with
          | Raise e => TypeCheckFailed e
          | Ok _ => TypeCheckPassed
          end
      end
  end.

(** ** Well-scoped programs, after the specification

    A second, independent account of scoping written from the
    specification's section 4.2: frames are plain lists of bound names with
    their kind, the chain lists the frames innermost first. *)

Inductive BindingKind : Type := KVariable | KParameter | KFunction.

Definition Frame : Type := list (string * BindingKind).
Definition Chain : Type := list Frame.

Fixpoint frame_find (x : string) (f : Frame) : option BindingKind :=
  match f with
  | [] => None
  | (y, k) :: f' => if String.eqb x y then Some k else frame_find x f'
  end.

(** Walk from the current frame up through the parents. *)
Fixpoint resolve (x : string) (c : Chain) : option BindingKind :=
  match c with
  | [] => None
  | f :: c' =>
      match frame_find x f with
      | Some k => Some k
      | None => resolve x c'
      end
  end.

(** Bind [x] in the current frame; a name already in that frame is a
    violation, whatever the outer frames hold. *)
Definition declare (x : string) (k : BindingKind) (c : Chain) : option Chain :=
  match c with
  | [] => None
  | f :: c' =>
      match frame_find x f with
      | Some _ => None
      | None => Some (((x, k) :: f) :: c')
      end
  end.

(** Every identifier resolves, and every named callee resolves to a
    function. *)
Fixpoint expr_resolves (c : Chain) (e : Expr) {struct e} : bool :=
  match e with
  | Binary _ lhs rhs => expr_resolves c lhs && expr_resolves c rhs
  | Unary _ e' => expr_resolves c e'
  | Literal _ => true
  | Identifier x => match resolve x c with Some _ => true | None => false end
  | Call callee args =>
      match callee with
      | Identifier f =>
          match resolve f c with
          | Some KFunction => true
          | _ => false
          end
      | _ => expr_resolves c callee
      end
      && forallb (expr_resolves c) args
  end.

Definition opt_expr_resolves (c : Chain) (e : option Expr) : bool :=
  match e with
  | Some e' => expr_resolves c e'
  | None => true
  end.

(** A declaration: the initializer first, then the name. *)
Definition var_scoped (c : Chain) (var : VarDecl.t) : option Chain :=
  if opt_expr_resolves c (VarDecl.expr var)
  then declare (VarDecl.name var) KVariable c
  else None.

(** [stmt_scoped c s] is the chain after [s], or [None] when [s] holds a
    violation.  A block, each branch of an [if] and a [for] get a frame of
    their own, dropped at the end of the construct. *)
Fixpoint stmt_scoped (c : Chain) (s : Stmt) {struct s} : option Chain :=
  let block_scoped :=
    fix block_scoped (c : Chain) (block : list Stmt) {struct block} : option Chain :=
      match block with
      | [] => Some c
      | s' :: block' =>
          match stmt_scoped c s' with
          | Some c' => block_scoped c' block'
          | None => None
          end
      end in
  match s with
  | VarTuple var => var_scoped c var
  | BlockTuple block =>
      match block_scoped ([] :: c) block with
      | Some _ => Some c
      | None => None
      end
  | ExprStmt e => if expr_resolves c e then Some c else None
  | ReturnStmt e => if opt_expr_resolves c e then Some c else None
  | IfStmt cond if_block else_block =>
      if expr_resolves c cond then
        match block_scoped ([] :: c) if_block, block_scoped ([] :: c) else_block with
        | Some _, Some _ => Some c
        | _, _ => None
        end
      else None
  | ForStmt init cond updt block =>
      let after_init :=
        match init with
        | Some (InitVarDecl var) => var_scoped ([] :: c) var
        | Some (InitExprStmt e) => if expr_resolves ([] :: c) e then Some ([] :: c) else None
        | None => Some ([] :: c)
        end in
      match after_init with
      | Some c1 =>
          if opt_expr_resolves c1 cond && opt_expr_resolves c1 updt then
            match block_scoped c1 block with
            | Some _ => Some c
            | None => None
            end
          else None
      | None => None
      end
  | BreakStmt => Some c
  end.

Fixpoint block_scoped (c : Chain) (block : list Stmt) : option Chain :=
  match block with
  | [] => Some c
  | s :: block' =>
      match stmt_scoped c s with
      | Some c' => block_scoped c' block'
      | None => None
      end
  end.






(** [x] is read as a variable somewhere in [e]: an [Identifier] node that
    is not the name of a call's callee. *)
Fixpoint references (x : string) (e : Expr) {struct e} : bool :=
  match e with
  | Binary _ lhs rhs => references x lhs || references x rhs
  | Unary _ e' => references x e'
  | Literal _ => false
  | Identifier y => String.eqb x y
  | Call callee args =>
      match callee with
      | Identifier _ => false
      | _ => references x callee
      end
      || existsb (references x) args
  end.

(** ** The violations of a program, after the specification

    The violations that section 4.2 of the specification asks the
    resolver to record, listed in the order of the walk over the same
    name chains: a referenced identifier without a binding, a call whose
    callee is not bound or not bound to a function, and the binding of a
    name that the current frame already holds.  A violation does not end
    the walk: a name that could not be bound leaves the frame as it was. *)

Inductive Violation : Type :=
| UnboundIdentifier (x : string)
| UnboundCallee (f : string)
| CalleeNotFunction (f : string)
| Rebound (x : string) (k : BindingKind).

Fixpoint expr_violations (c : Chain) (e : Expr) {struct e} : list Violation :=
  match e with
  | Binary _ lhs rhs => expr_violations c lhs ++ expr_violations c rhs
  | Unary _ e' => expr_violations c e'
  | Literal _ => []
  | Identifier x =>
      match resolve x c with
      | Some _ => []
      | None => [UnboundIdentifier x]
      end
  | Call callee args =>
      match callee with
      | Identifier f =>
          match resolve f c with
          | Some KFunction => []
          | Some _ => [CalleeNotFunction f]
          | None => [UnboundCallee f]
          end
      | _ => expr_violations c callee
      end
      ++ flat_map (expr_violations c) args
  end.

Definition opt_expr_violations (c : Chain) (e : option Expr) : list Violation :=
  match e with
  | Some e' => expr_violations c e'
  | None => []
  end.

(** Bind [x] in the current frame, or record that the frame holds it. *)
Definition bind_name (x : string) (k : BindingKind) (c : Chain)
  : Chain * list Violation :=
  match declare x k c with
  | Some c' => (c', [])
  | None => (c, [Rebound x k])
  end.

(** A declaration: the initializer first, then the name. *)
Definition var_violations (c : Chain) (var : VarDecl.t) : Chain * list Violation :=
  let (c', rebound) := bind_name (VarDecl.name var) KVariable c in
  (c', opt_expr_violations c (VarDecl.expr var) ++ rebound).

(** [stmt_violations c s] is the chain after [s] with the violations of
    [s].  A block, each branch of an [if] and a [for] get a frame of their
    own, dropped at the end of the construct. *)
Fixpoint stmt_violations (c : Chain) (s : Stmt) {struct s} : Chain * list Violation :=
  let block_violations :=
    fix block_violations (c : Chain) (block : list Stmt) {struct block}
      : Chain * list Violation :=
      match block with
      | [] => (c, [])
      | s' :: block' =>
          let (c1, first) := stmt_violations c s' in
          let (c2, others) := block_violations c1 block' in
          (c2, first ++ others)
      end in
  match s with
  | VarTuple var => var_violations c var
  | BlockTuple block => (c, snd (block_violations ([] :: c) block))
  | ExprStmt e => (c, expr_violations c e)
  | ReturnStmt e => (c, opt_expr_violations c e)
  | IfStmt cond if_block else_block =>
      (c, expr_violations c cond
          ++ snd (block_violations ([] :: c) if_block)
          ++ snd (block_violations ([] :: c) else_block))
  | ForStmt init cond updt block =>
      let (c1, in_init) :=
        match init with
        | Some (InitVarDecl var) => var_violations ([] :: c) var
        | Some (InitExprStmt e) => ([] :: c, expr_violations ([] :: c) e)
        | None => ([] :: c, [])
        end in
      (c, in_init ++ opt_expr_violations c1 cond ++ opt_expr_violations c1 updt
          ++ snd (block_violations c1 block))
  | BreakStmt => (c, [])
  end.

Fixpoint block_violations (c : Chain) (block : list Stmt) : Chain * list Violation :=
  match block with
  | [] => (c, [])
  | s :: block' =>
      let (c1, first) := stmt_violations c s in
      let (c2, others) := block_violations c1 block' in
      (c2, first ++ others)
  end.








(** ** Sample sources, as the lexers tokenize them *)

Definition tok (type : string) : Token.t := Token.mk type VNone (Some (1, 1)).
Definition ident (name : string) : Token.t :=
  Token.mk "Identifier" (VStr name) (Some (1, 1)).
Definition int_lit (n : Z) : Token.t := Token.mk "IntLit" (VInt n) (Some (1, 1)).
Definition bool_lit (b : bool) : Token.t := Token.mk "BoolLit" (VBool b) (Some (1, 1)).

(** [function int add(int a, int b) { return a + b }] *)
Definition add_decl_tokens : list Token.t :=
  [tok "Function"; tok "Int"; ident "add"; tok "ParenL";
   tok "Int"; ident "a"; tok "Comma"; tok "Int"; ident "b"; tok "ParenR";
   tok "BraceL"; tok "Return"; ident "a"; tok "AddOp"; ident "b"; tok "BraceR"].

Definition add_decl : FnDecl.t :=
  FnDecl.mk "Int" "add" [Param.mk "Int" "a"; Param.mk "Int" "b"]
    [ReturnStmt (Some (Binary "AddOp" (Identifier "a") (Identifier "b")))].

(** [add(5, 10)], [add(5)] and [add(5, true)] *)
Definition call_add_5_10 : Expr :=
  Call (Identifier "add") [Literal (VInt 5); Literal (VInt 10)].
Definition call_add_5 : Expr :=
  Call (Identifier "add") [Literal (VInt 5)].
Definition call_add_5_true : Expr :=
  Call (Identifier "add") [Literal (VInt 5); Literal (VBool true)].

(** [bool b. b + b.] *)
Definition bool_sum_tokens : list Token.t :=
  [tok "Bool"; ident "b"; tok "Dot";
   ident "b"; tok "AddOp"; ident "b"; tok "Dot"; tok "EOF"].

(** [int x = true] *)
Definition int_x_true_tokens : list Token.t :=
  [tok "Int"; ident "x"; tok "AssignOp"; bool_lit true; tok "EOF"].

(** [bool b. int x = b.] *)
Definition int_x_b_tokens : list Token.t :=
  [tok "Bool"; ident "b"; tok "Dot";
   tok "Int"; ident "x"; tok "AssignOp"; ident "b"; tok "Dot"; tok "EOF"].

(** [function int f() { }] *)
Definition no_return_tokens : list Token.t :=
  [tok "Function"; tok "Int"; ident "f"; tok "ParenL"; tok "ParenR";
   tok "BraceL"; tok "BraceR"; tok "EOF"].

(** ** Notions used in the statements and their proofs *)

(** What one expression adds to the error list does not depend on the
    errors found before it, and contains the undeclared-variable message
    of every unbound name it reads. *)
Definition expr_appends (e : Expr) : Prop :=
  forall sc : ScopeNode.t,
  exists new : list string,
    (forall es,
        ScopeAnalyzer.visit_expr (ScopeAnalyzer.mk sc es) e
        = ScopeAnalyzer.mk sc (es ++ new))
    /\ (forall x,
           ScopeNode.lookup sc x = None ->
           references x e = true ->
           In ("UndeclaredVariableAccessed: Variable '" +:+ x +:+ "' is not declared")
              new).





(** The outcome is the [IndexError] of an out-of-range read. *)
Definition raises_IndexError {A : Type} (r : result ParseExc A) : bool :=
  match r with
  | Raise IndexError => true
  | _ => false
  end.

(** The token kinds that end a statement: no test made while an
    expression is parsed names one of them. *)
Definition neutral (tok : Token.t) : bool :=
  str_in (Token.type tok) ["Dot"; "Semicolon"; "BraceR"].

(** Two token lists that show the same token at every position, except
    where both show a terminator. *)
Definition blind (t1 t2 : list Token.t) : Prop :=
  forall pos,
  exists a b,
    Parser._peek t1 pos = Ok a
    /\ Parser._peek t2 pos = Ok b
    /\ (a = b \/ (neutral a = true /\ neutral b = true)).

(** The token at [pos] is not a terminator. *)
Definition starts_expr (tokens : list Token.t) (pos : nat) : Prop :=
  exists tok, Parser._peek tokens pos = Ok tok /\ neutral tok = false.

(** The run of the model ended as the Python method does: with a value or
    an exception, not on the recursion budget. *)
Definition settled {A : Type} (r : result ParseExc A) : bool :=
  match r with
  | Raise OutOfFuel => false
  | _ => true
  end.

(** From [pos] to [pos'] at least one token of the list was consumed. *)
Definition steps (tokens : list Token.t) (pos pos' : nat) : Prop :=
  pos < pos' /\ pos' <= List.length tokens.

(** From [pos] to [pos'] nothing or something was consumed. *)
Definition stays (tokens : list Token.t) (pos pos' : nat) : Prop :=
  pos' = pos \/ steps tokens pos pos'.

(** The outcome is the [UnexpectedEOF] of [next]. *)
Definition raises_UnexpectedEOF {A : Type} (r : result ParseExc A) : bool :=
  match r with
  | Raise (UnexpectedEOF _) => true
  | _ => false
  end.

(** *** The resolver's frames and the chains of the specification *)

(** The [kind] of the symbol the resolver makes for a binding. *)
Definition kind_name (k : BindingKind) : string :=
  match k with
  | KVariable => "var"
  | KParameter => "param"
  | KFunction => "function"
  end.

(** The resolver's frame [m] holds exactly the names of the frame [f],
    each with the kind listed. *)
Definition frame_mirrors (f : Frame) (m : gmap string Symbol.t) : Prop :=
  forall x,
    match frame_find x f with
    | None => m !! x = None
    | Some k => exists s, m !! x = Some s /\ Symbol.kind s = kind_name k
    end.

Fixpoint chain_mirrors (c : Chain) (sc : ScopeNode.t) {struct c} : Prop :=
  match c with
  | [] => False
  | f :: c' =>
      frame_mirrors f (ScopeNode.symbols sc)
      /\ match c' with
         | [] => ScopeNode.parent sc = None
         | _ :: _ => exists p, ScopeNode.parent sc = Some p /\ chain_mirrors c' p
         end
  end.





(** ** Notions used in the further properties *)

(** *** The resolver's frames *)

(** The frame [sc'] is the frame [sc] with bindings added: same parent,
    kind and depth, and every binding of [sc] still in place. *)
Definition extends (sc sc' : ScopeNode.t) : Prop :=
  ScopeNode.parent sc' = ScopeNode.parent sc
  /\ ScopeNode.scope_type sc' = ScopeNode.scope_type sc
  /\ ScopeNode.level sc' = ScopeNode.level sc
  /\ ScopeNode.symbols sc ⊆ ScopeNode.symbols sc'.

(** The first function declaration and the first top-level variable
    declaration of a given name among the items of a program. *)
Fixpoint find_fn (x : string) (items : list Item) : option FnDecl.t :=
  match items with
  | [] => None
  | ItemFnDecl fn :: items' =>
      if String.eqb (FnDecl.name fn) x then Some fn else find_fn x items'
  | _ :: items' => find_fn x items'
  end.

Fixpoint find_var (x : string) (items : list Item) : option VarDecl.t :=
  match items with
  | [] => None
  | ItemStmt (VarTuple var) :: items' =>
      if String.eqb (VarDecl.name var) x then Some var else find_var x items'
  | _ :: items' => find_var x items'
  end.

Definition fn_symbol (fn : FnDecl.t) : Symbol.t :=
  Symbol.mk (FnDecl.name fn) "function" (FnDecl.type_tok fn)
    (Some (FnDecl.params fn)) 0.

Definition var_symbol (var : VarDecl.t) : Symbol.t :=
  Symbol.mk (VarDecl.name var) "var" (VarDecl.type_tok var) None 0.

Definition global_symbol (items : list Item) (x : string) : option Symbol.t :=
  match find_fn x items with
  | Some fn => Some (fn_symbol fn)
  | None =>
      match find_var x items with
      | Some var => Some (var_symbol var)
      | None => None
      end
  end.

(** What a statement leaves behind in the frames. *)
Definition stmt_frame (s : Stmt) : Prop :=
  forall self : ScopeAnalyzer.t,
  exists self',
    ScopeAnalyzer.visit_stmt self s = Ok self'
    /\ extends (ScopeAnalyzer.current_scope self) (ScopeAnalyzer.current_scope self')
    /\ match s with
       | VarTuple _ => True
       | _ => ScopeAnalyzer.current_scope self' = ScopeAnalyzer.current_scope self
       end.

(** *** The type checker *)

(** [for s in block: self.check_stmt(s)], the loop inside [check_stmt]. *)
Fixpoint check_stmts (self : TypeChecker.t) (block : list Stmt)
  : result Exc TypeChecker.t :=
  match block with
  | [] => Ok self
  | s :: block' =>
      let* self := TypeChecker.check_stmt self s in
      check_stmts self block'
  end.

(** A [Literal] node occurs in the expression. *)
Fixpoint has_literal (e : Expr) : bool :=
  match e with
  | Binary _ lhs rhs => has_literal lhs || has_literal rhs
  | Unary _ e' => has_literal e'
  | Literal _ => true
  | Identifier _ => false
  | Call callee args => has_literal callee || existsb has_literal args
  end.

(** A [break] that [check_stmt] reaches without passing a [for]: [check_stmt]
    descends into the blocks of [if] and [for] statements only. *)
Fixpoint stray_break (s : Stmt) : bool :=
  match s with
  | BreakStmt => true
  | IfStmt _ if_block else_block =>
      existsb stray_break if_block || existsb stray_break else_block
  | _ => false
  end.

(** The operator tags [Parser] writes into [Binary] nodes. *)
Definition parser_binary_ops : list string :=
  ["AssignOp"; "OrOp"; "AndOp"; "EqualsOp"; "NotEquals"; "LessThan";
   "GreaterThan"; "LessEq"; "GreaterEq"; "AddOp"; "SubOp"; "MulOp";
   "DivOp"; "ModOp"].

(** An expression built from identifiers with the parser's operators. *)
Fixpoint operator_expr (e : Expr) : bool :=
  match e with
  | Identifier _ => true
  | Unary _ e' => operator_expr e'
  | Binary op lhs rhs =>
      str_in op parser_binary_ops && operator_expr lhs && operator_expr rhs
  | _ => false
  end.

(** The identifiers of such an expression, in the order [check_expr]
    looks them up. *)
Fixpoint idents (e : Expr) : list string :=
  match e with
  | Identifier name => [name]
  | Unary _ e' => idents e'
  | Binary _ lhs rhs => idents lhs ++ idents rhs
  | _ => []
  end.

(** A statement that checks leaves the checker as it found it. *)
Definition stmt_neutral (s : Stmt) : Prop :=
  forall (self self' : TypeChecker.t) (sc : ScopeNode.t),
    TypeChecker.current_scope self = Some sc ->
    TypeChecker.check_stmt self s = Ok self' ->
    self' = self.

Definition stmt_no_stray (s : Stmt) : Prop :=
  forall (self self' : TypeChecker.t) (sc : ScopeNode.t),
    TypeChecker.current_scope self = Some sc ->
    TypeChecker.in_loop self = false ->
    TypeChecker.check_stmt self s = Ok self' ->
    stray_break s = false.

(** The first name of the list that no frame binds. *)
Definition first_unbound (self : TypeChecker.t) (names : list string) : option string :=
  List.find
    (fun x =>
       match ScopeAnalyzer.lookup_symbol (TypeChecker.scope_analyzer self) x with
       | None => true
       | Some _ => false
       end) names.

(** *** Further samples *)


(** A checker over a global frame that binds the function [add] and the
    variables [a : Int] and [flag : Bool]. *)
Definition sample_checker : TypeChecker.t :=
  TypeChecker.new
    (ScopeAnalyzer.mk
       (ScopeNode.mk None "global"
          (<["add" := Symbol.mk "add" "function" "Int"
                        (Some [Param.mk "Int" "a"; Param.mk "Int" "b"]) 0]>
             (<["a" := Symbol.mk "a" "var" "Int" None 0]>
                (<["flag" := Symbol.mk "flag" "var" "Bool" None 0]> ∅)))
          0)
       []).

(** ** Notions used in the properties of the parser *)

(** The token kinds an expression can begin with. *)
Definition expr_openers : list string :=
  ["IntLit"; "FloatLit"; "StringLit"; "BoolLit"; "Identifier"; "ParenL";
   "SubOp"; "NotOp"].

(** The token at [pos] can begin an expression. *)
Definition opens_expr (tokens : list Token.t) (pos : nat) : Prop :=
  exists tok,
    Parser._peek tokens pos = Ok tok
    /\ str_in (Token.type tok) expr_openers = true.

(** Two token lists that show the same token at every position up to [k],
    where they show an end marker. *)
Definition same_upto (k : nat) (t1 t2 : list Token.t) : Prop :=
  (forall pos, pos <= k -> Parser._peek t1 pos = Parser._peek t2 pos)
  /\ exists eof, Parser._peek t1 k = Ok eof /\ Token.type eof = "EOF".

(** Two runs with the same outcome, which stop at or before [k] when they
    return. *)
Definition alike {A : Type} (k : nat) (r1 r2 : Parser.P A) : Prop :=
  r1 = r2 /\ forall x pos', r1 = Ok (x, pos') -> pos' <= k.

(** The binary operators of the expression grammar with the level of the
    method that reads them, from [parse_logical_or] (1) to [parse_mul]
    (6). *)
Definition binary_levels : list (string * nat) :=
  [("OrOp", 1); ("AndOp", 2); ("EqualsOp", 3); ("NotEquals", 3);
   ("LessThan", 4); ("GreaterThan", 4); ("LessEq", 4); ("GreaterEq", 4);
   ("AddOp", 5); ("SubOp", 5); ("MulOp", 6); ("DivOp", 6); ("ModOp", 6)].

(** Kinds of tokens that end an expression. *)
Definition closers : list string :=
  ["EOF"; "Dot"; "Semicolon"; "ParenR"; "BraceR"; "Comma"].

(** An [Identifier] token, at any position of the source. *)
Definition name_token (name : string) (pos : option (nat * nat)) : Token.t :=
  Token.mk "Identifier" (VStr name) pos.

(** The kinds of tokens the methods of the parser test for. *)
Definition parser_kinds : list string :=
  ["Function"; "Int"; "Float"; "Bool"; "String"; "Identifier"; "ParenL"; "ParenR";
   "Comma"; "BraceL"; "BraceR"; "Dot"; "Semicolon"; "AssignOp"; "Return"; "wapsi";
   "If"; "agar"; "Else"; "warna"; "For"; "duhrao"; "Break"; "toro"; "OrOp"; "AndOp";
   "EqualsOp"; "NotEquals"; "LessThan"; "GreaterThan"; "LessEq"; "GreaterEq";
   "AddOp"; "SubOp"; "MulOp"; "DivOp"; "ModOp"; "NotOp"; "IntLit"; "FloatLit";
   "StringLit"; "BoolLit"].

(** The kinds of tokens the lexers produce and no method of the parser
    tests for. *)
Definition unparsed_kinds : list string :=
  ["BracketL"; "BracketR"; "Colon"; "Amp"; "Pipe"].

(** The list has a token of a kind of the parser at index [k]. *)
Definition taken_kind (tokens : list Token.t) (k : nat) : Prop :=
  exists tok, tokens !! k = Some tok /\ str_in (Token.type tok) parser_kinds = true.

(** From [pos] to [pos'] the list holds tokens of kinds of the parser. *)
Definition taken (tokens : list Token.t) (pos pos' : nat) : Prop :=
  pos <= pos' /\ forall k, pos <= k < pos' -> taken_kind tokens k.

(** The token [_peek] shows at [pos] is of a kind of the parser. *)
Definition peek_kind (tokens : list Token.t) (pos : nat) : Prop :=
  forall t, Parser._peek tokens pos = Ok t -> str_in (Token.type t) parser_kinds = true.

(** ** compiler/tokens.py: the tables of the lexers *)

Import Stdlib.Strings.Ascii.

(** [KEYWORDS] *)
Definition KEYWORDS : gmap string string :=
  list_to_map
    [("fn", "Function"); ("function", "Function"); ("return", "Return");
     ("if", "If"); ("else", "Else"); ("for", "For"); ("break", "Break");
     ("true", "BoolLit"); ("false", "BoolLit"); ("int", "Int");
     ("float", "Float"); ("bool", "Bool"); ("string", "String");
     ("ginti", "Int"); ("wapsi", "Return"); ("agar", "If"); ("warna", "Else");
     ("duhrao", "For"); ("toro", "Break")].

(** [SINGLE_CHARS] *)
Definition SINGLE_CHARS : gmap ascii string :=
  list_to_map
    [("("%char, "ParenL"); (")"%char, "ParenR"); ("{"%char, "BraceL");
     ("}"%char, "BraceR"); ("["%char, "BracketL"); ("]"%char, "BracketR");
     (","%char, "Comma"); (";"%char, "Semicolon"); ("."%char, "Dot");
     (":"%char, "Colon"); ("+"%char, "AddOp"); ("-"%char, "SubOp");
     ("*"%char, "MulOp"); ("/"%char, "DivOp"); ("%"%char, "ModOp");
     ("!"%char, "NotOp"); ("="%char, "AssignOp"); ("<"%char, "LessThan");
     (">"%char, "GreaterThan"); ("&"%char, "Amp"); ("|"%char, "Pipe")].

(** ** Characters and numbers of the Python runtime

    A source text is a [string] whose characters are below U+0100, each
    [ascii] being the code point of its character.  On these characters
    [str.isspace], [str.isdigit] and [unicodedata.category] are the
    following tables. *)

Definition isspace (ch : ascii) : bool :=
  existsb (Nat.eqb (nat_of_ascii ch)) [9; 10; 11; 12; 13; 28; 29; 30; 31; 32; 133; 160].

Definition isdigit (ch : ascii) : bool :=
  existsb (Nat.eqb (nat_of_ascii ch))
    [48; 49; 50; 51; 52; 53; 54; 55; 56; 57; 178; 179; 185].

Definition unicodedata_category (ch : ascii) : string :=
  nth (nat_of_ascii ch)
  [
   "Cc"; "Cc"; "Cc"; "Cc"; "Cc"; "Cc"; "Cc"; "Cc"; "Cc"; "Cc"; "Cc"; "Cc";
   "Cc"; "Cc"; "Cc"; "Cc"; "Cc"; "Cc"; "Cc"; "Cc"; "Cc"; "Cc"; "Cc"; "Cc";
   "Cc"; "Cc"; "Cc"; "Cc"; "Cc"; "Cc"; "Cc"; "Cc"; "Zs"; "Po"; "Po"; "Po";
   "Sc"; "Po"; "Po"; "Po"; "Ps"; "Pe"; "Po"; "Sm"; "Po"; "Pd"; "Po"; "Po";
   "Nd"; "Nd"; "Nd"; "Nd"; "Nd"; "Nd"; "Nd"; "Nd"; "Nd"; "Nd"; "Po"; "Po";
   "Sm"; "Sm"; "Sm"; "Po"; "Po"; "Lu"; "Lu"; "Lu"; "Lu"; "Lu"; "Lu"; "Lu";
   "Lu"; "Lu"; "Lu"; "Lu"; "Lu"; "Lu"; "Lu"; "Lu"; "Lu"; "Lu"; "Lu"; "Lu";
   "Lu"; "Lu"; "Lu"; "Lu"; "Lu"; "Lu"; "Lu"; "Ps"; "Po"; "Pe"; "Sk"; "Pc";
   "Sk"; "Ll"; "Ll"; "Ll"; "Ll"; "Ll"; "Ll"; "Ll"; "Ll"; "Ll"; "Ll"; "Ll";
   "Ll"; "Ll"; "Ll"; "Ll"; "Ll"; "Ll"; "Ll"; "Ll"; "Ll"; "Ll"; "Ll"; "Ll";
   "Ll"; "Ll"; "Ll"; "Ps"; "Sm"; "Pe"; "Sm"; "Cc"; "Cc"; "Cc"; "Cc"; "Cc";
   "Cc"; "Cc"; "Cc"; "Cc"; "Cc"; "Cc"; "Cc"; "Cc"; "Cc"; "Cc"; "Cc"; "Cc";
   "Cc"; "Cc"; "Cc"; "Cc"; "Cc"; "Cc"; "Cc"; "Cc"; "Cc"; "Cc"; "Cc"; "Cc";
   "Cc"; "Cc"; "Cc"; "Cc"; "Zs"; "Po"; "Sc"; "Sc"; "Sc"; "Sc"; "So"; "Po";
   "Sk"; "So"; "Lo"; "Pi"; "Sm"; "Cf"; "So"; "Sk"; "So"; "Sm"; "No"; "No";
   "Sk"; "Ll"; "Po"; "Po"; "Sk"; "No"; "Lo"; "Pf"; "No"; "No"; "No"; "Po";
   "Lu"; "Lu"; "Lu"; "Lu"; "Lu"; "Lu"; "Lu"; "Lu"; "Lu"; "Lu"; "Lu"; "Lu";
   "Lu"; "Lu"; "Lu"; "Lu"; "Lu"; "Lu"; "Lu"; "Lu"; "Lu"; "Lu"; "Lu"; "Sm";
   "Lu"; "Lu"; "Lu"; "Lu"; "Lu"; "Lu"; "Lu"; "Ll"; "Ll"; "Ll"; "Ll"; "Ll";
   "Ll"; "Ll"; "Ll"; "Ll"; "Ll"; "Ll"; "Ll"; "Ll"; "Ll"; "Ll"; "Ll"; "Ll";
   "Ll"; "Ll"; "Ll"; "Ll"; "Ll"; "Ll"; "Ll"; "Sm"; "Ll"; "Ll"; "Ll"; "Ll";
   "Ll"; "Ll"; "Ll"; "Ll"
  ] "Cn".

(** The decimal digit a character stands for in [int] and [float]. *)
Definition digit_value (ch : ascii) : option Z :=
  let n := nat_of_ascii ch in
  if (48 <=? n)%nat && (n <=? 57)%nat then Some (Z.of_nat (n - 48)) else None.

(** The number written by a list of decimal digits, [None] when a
    character is no decimal digit. *)
Fixpoint digits_value (acc : Z) (s : list ascii) : option Z :=
  match s with
  | [] => Some acc
  | ch :: s' =>
      match digit_value ch with
      | Some d => digits_value (10 * acc + d)%Z s'
      | None => None
      end
  end.

(** [sys.get_int_max_str_digits()], as the interpreter starts. *)
Definition int_max_str_digits : nat := 4300.

(** [int(s)] on a string without sign, blank or underscore: [None] stands
    for the [ValueError]. *)
Definition int_ (s : string) : option Z :=
  let cs := String.list_ascii_of_string s in
  match cs with
  | [] => None
  | _ :: _ =>
      if (int_max_str_digits <? List.length cs)%nat then None
      else digits_value 0 cs
  end.

(** [x / y] rounded to the nearest integer, ties to even ([0 < y]). *)
Definition div_nearest_even (x y : Z) : Z :=
  let q := (x / y)%Z in
  let r := (x mod y)%Z in
  if (y <? 2 * r)%Z then (q + 1)%Z
  else if (2 * r =? y)%Z && Z.odd q then (q + 1)%Z
  else q.

(** The bits of the IEEE 754 binary64 number nearest to [a / b]
    ([0 <= a], [0 < b]), which is what [float] returns for a decimal
    numeral. *)
Definition binary64_of_ratio (a b : Z) : Z :=
  if (a =? 0)%Z then 0%Z
  else
    let e0 := (Z.log2 a - Z.log2 b)%Z in
    let e :=
      if (0 <=? e0)%Z
      then (if (a <? b * 2 ^ e0)%Z then e0 - 1 else e0)%Z
      else (if (a * 2 ^ (- e0) <? b)%Z then e0 - 1 else e0)%Z in
    let e := Z.max e (-1022) in
    let shift := (52 - e)%Z in
    let m :=
      if (0 <=? shift)%Z then div_nearest_even (a * 2 ^ shift) b
      else div_nearest_even a (b * 2 ^ (- shift)) in
    let bits := ((e + 1022) * 2 ^ 52 + m)%Z in
    Z.min bits (2047 * 2 ^ 52)%Z.

(** A string split at its first period: the characters before it and,
    when there is one, the characters after it. *)
Fixpoint split_at_dot (cs : list ascii) : list ascii * option (list ascii) :=
  match cs with
  | [] => ([], None)
  | ch :: cs' =>
      if Ascii.eqb ch "."%char then ([], Some cs')
      else let (before, after) := split_at_dot cs' in (ch :: before, after)
  end.

(** [float(s)] on a string of digits and periods: a numeral has exactly
    one period and at least one digit, all of them decimal digits;
    [None] stands for the [ValueError]. *)
Definition float_ (s : string) : option Z :=
  match split_at_dot (String.list_ascii_of_string s) with
  | (before, Some after) =>
      match before ++ after with
      | [] => None
      | _ :: _ =>
          match digits_value 0 (before ++ after) with
          | Some a => Some (binary64_of_ratio a (10 ^ Z.of_nat (List.length after)))
          | None => None
          end
      end
  | (_, None) => None
  end.


(** ** compiler/lexer_noregex.py *)

Definition is_ident_start (ch : ascii) : bool :=
  if Ascii.eqb ch "_"%char then true
  else
    let cat := unicodedata_category ch in
    String.prefix "L" cat || String.eqb cat "Nl".

Definition is_ident_part (ch : ascii) : bool :=
  if Ascii.eqb ch "_"%char then true
  else
    let cat := unicodedata_category ch in
    String.prefix "L" cat || String.prefix "M" cat || String.eqb cat "Nd"
    || String.eqb cat "Pc" || String.eqb cat "Nl".

(** What [tokenize] can end with: a [SyntaxError] with its message (the
    two formatted messages are kept as their parameters), the
    [ValueError] of [int] and [float] with the string they were given, and
    [OutOfFuel], which is not a Python exception but marks a loop of the
    model that was given too small a budget (see [tokenize_settles]). *)
Module NoRegexLexer.

Inductive Exc : Type :=
| SyntaxError (msg : string)
| UnknownCharacter (ch : ascii) (line col : nat)
| IdentifierStartsWithDigit (w : string) (pos : nat * nat)
| ValueError (s : string)
| OutOfFuel.

(** The fields that change: [self.i], [self.line] and [self.col]. *)
Record t : Type := mk { i : nat; line : nat; col : nat }.

Section WithSource.
(** [self.src], and [self.len = len(code)]. *)
Variable src : string.

Definition len : nat := String.length src.

(** [NoRegexLexer(code)] *)
Definition new : t := mk 0 1 1.

(** A character read is [Some ch], the empty string [''] is [None]; the
    index is in range when it is read, so the read never raises. *)
Definition _peek (self : t) : option ascii :=
  if (i self <? len)%nat then String.get (i self) src else None.

Definition _next (self : t) : option ascii * t :=
  let ch := _peek self in
  match ch with
  | Some "010"%char => (ch, mk (i self + 1) (line self + 1) 1)
  | _ => (ch, mk (i self + 1) (line self) (col self + 1))
  end.

Definition _peek_ahead (self : t) : option ascii :=
  if (i self + 1 <? len)%nat then String.get (i self + 1) src else None.

(** [self.src[self.i:self.i+2]] *)
Definition _peek_two (self : t) : string :=
  if (i self + 1 <? len)%nat then String.substring (i self) 2 src else "".

(** [buf.append(ch)] on a list that is only ever joined: the empty string
    adds nothing to [''.join(buf)]. *)
Definition append (buf : list ascii) (ch : option ascii) : list ascii :=
  match ch with
  | Some c => buf ++ [c]
  | None => buf
  end.

(** [while self._peek() and self._peek() != '\n': self._next()] *)
Fixpoint skip_line (fuel : nat) (self : t) : result Exc t :=
  match fuel with
  | 0 => Raise OutOfFuel
  | S fuel =>
      match _peek self with
      | Some ch =>
          if negb (Ascii.eqb ch "010"%char)
          then skip_line fuel (snd (_next self))
          else Ok self
      | None => Ok self
      end
  end.

(** [while self._peek_two() != '*/': ...] *)
Fixpoint skip_comment (fuel : nat) (self : t) : result Exc t :=
  match fuel with
  | 0 => Raise OutOfFuel
  | S fuel =>
      if negb (String.eqb (_peek_two self) "*/") then
        match _peek self with
        | None => Raise (SyntaxError "Unterminated comment")
        | Some _ => skip_comment fuel (snd (_next self))
        end
      else Ok self
  end.

(** The [while True] loop of a string literal, entered after the opening
    quote. *)
Fixpoint read_string (fuel : nat) (self : t) (buf : list ascii)
  : result Exc (list ascii * t) :=
  match fuel with
  | 0 => Raise OutOfFuel
  | S fuel =>
      match _peek self with
      | None => Raise (SyntaxError "Unterminated string literal")
      | Some c =>
          if Ascii.eqb c "034"%char then Ok (buf, snd (_next self))
          else if Ascii.eqb c "\"%char then
            let self := snd (_next self) in
            let esc := _peek self in
            match esc with
            | Some "n"%char => read_string fuel (snd (_next self)) (buf ++ ["010"%char])
            | Some "t"%char => read_string fuel (snd (_next self)) (buf ++ ["009"%char])
            | Some "r"%char => read_string fuel (snd (_next self)) (buf ++ ["013"%char])
            | Some "034"%char => read_string fuel (snd (_next self)) (buf ++ ["034"%char])
            | Some "\"%char => read_string fuel (snd (_next self)) (buf ++ ["\"%char])
            | _ =>
                let (ch, self) := _next self in
                read_string fuel self (append buf ch)
            end
          else
            let (ch, self) := _next self in
            read_string fuel self (append buf ch)
      end
  end.

(** [while self._peek() and (self._peek().isdigit() or self._peek() == '.'): ...] *)
Fixpoint read_number (fuel : nat) (self : t) (buf : list ascii) (dot_count : nat)
  : result Exc (list ascii * nat * t) :=
  match fuel with
  | 0 => Raise OutOfFuel
  | S fuel =>
      match _peek self with
      | Some c =>
          if isdigit c || Ascii.eqb c "."%char then
            let dot_count := if Ascii.eqb c "."%char then dot_count + 1 else dot_count in
            let (ch, self) := _next self in
            read_number fuel self (append buf ch) dot_count
          else Ok (buf, dot_count, self)
      | None => Ok (buf, dot_count, self)
      end
  end.

(** [while self._peek() and is_ident_part(self._peek()): buf.append(self._next())] *)
Fixpoint read_ident (fuel : nat) (self : t) (buf : list ascii)
  : result Exc (list ascii * t) :=
  match fuel with
  | 0 => Raise OutOfFuel
  | S fuel =>
      match _peek self with
      | Some c =>
          if is_ident_part c then
            let (ch, self) := _next self in
            read_ident fuel self (append buf ch)
          else Ok (buf, self)
      | None => Ok (buf, self)
      end
  end.

(** [map2], the table of the two-character operators. *)
Definition map2 : gmap string string :=
  list_to_map
    [("==", "EqualsOp"); ("!=", "NotEquals"); ("<=", "LessEq");
     (">=", "GreaterEq"); ("&&", "AndOp"); ("||", "OrOp")].

(** [map_single], the table of the fallback branch. *)
Definition map_single : gmap ascii string :=
  list_to_map
    [("+"%char, "AddOp"); ("-"%char, "SubOp"); ("*"%char, "MulOp");
     ("/"%char, "DivOp"); ("%"%char, "ModOp"); ("<"%char, "LessThan");
     (">"%char, "GreaterThan"); ("="%char, "AssignOp"); ("!"%char, "NotOp");
     ("&"%char, "Amp"); ("|"%char, "Pipe"); ("."%char, "Dot"); (","%char, "Comma");
     (";"%char, "Semicolon"); ("["%char, "BracketL"); ("]"%char, "BracketR");
     (":"%char, "Colon")].

(** The loop of [tokenize].  [self._peek()] is a character exactly when
    [self.i < self.len], so the test of the loop and the read of [ch] are one
    match; every [continue] is the recursive call. *)
Fixpoint tokenize_loop (fuel : nat) (self : t) (tokens : list Token.t)
  : result Exc (list Token.t * t) :=
  match fuel with
  | 0 => Raise OutOfFuel
  | S fuel =>
      match _peek self with
      | None => Ok (tokens, self)
      | Some ch =>
          if isspace ch then
            tokenize_loop fuel (snd (_next self)) tokens
          else if String.eqb (_peek_two self) "//" then
            let* self := skip_line fuel self in
            tokenize_loop fuel self tokens
          else if String.eqb (_peek_two self) "/*" then
            let self := snd (_next self) in
            let self := snd (_next self) in
            let* self := skip_comment fuel self in
            let self := snd (_next self) in
            let self := snd (_next self) in
            tokenize_loop fuel self tokens
          else if Ascii.eqb ch "#"%char then
            let* self := skip_line fuel self in
            tokenize_loop fuel self tokens
          else if Ascii.eqb ch "034"%char then
            let pos := (line self, col self) in
            let self := snd (_next self) in
            let* (buf, self) := read_string fuel self [] in
            tokenize_loop fuel self
              (tokens ++ [Token.mk "StringLit" (VStr (String.string_of_list_ascii buf))
                            (Some pos)])
          else if isdigit ch
                  || (Ascii.eqb ch "."%char
                      && match _peek_ahead self with
                         | Some c => isdigit c
                         | None => false
                         end) then
            let pos := (line self, col self) in
            let* (buf, dot_count, self) := read_number fuel self [] 0 in
            let s := String.string_of_list_ascii buf in
            if (dot_count =? 0)%nat then
              match int_ s with
              | Some n =>
                  tokenize_loop fuel self (tokens ++ [Token.mk "IntLit" (VInt n) (Some pos)])
              | None => Raise (ValueError s)
              end
            else
              match float_ s with
              | Some x =>
                  tokenize_loop fuel self
                    (tokens ++ [Token.mk "FloatLit" (VFloat x) (Some pos)])
              | None => Raise (ValueError s)
              end
          else if is_ident_start ch then
            let pos := (line self, col self) in
            let* (buf, self) := read_ident fuel self [] in
            let w := String.string_of_list_ascii buf in
            match KEYWORDS !! w with
            | Some kt =>
                if String.eqb kt "BoolLit" then
                  tokenize_loop fuel self
                    (tokens ++ [Token.mk "BoolLit" (VBool (String.eqb w "true")) (Some pos)])
                else
                  tokenize_loop fuel self (tokens ++ [Token.mk kt VNone (Some pos)])
            | None =>
                match buf with
                | c :: _ =>
                    if isdigit c then Raise (IdentifierStartsWithDigit w pos)
                    else
                      tokenize_loop fuel self
                        (tokens ++ [Token.mk "Identifier" (VStr w) (Some pos)])
                | [] =>
                    tokenize_loop fuel self
                      (tokens ++ [Token.mk "Identifier" (VStr w) (Some pos)])
                end
            end
          else
            let two := _peek_two self in
            match map2 !! two with
            | Some kind =>
                let tokens := tokens ++ [Token.mk kind VNone (Some (line self, col self))] in
                let self := snd (_next self) in
                let self := snd (_next self) in
                tokenize_loop fuel self tokens
            | None =>
                match SINGLE_CHARS !! ch with
                | Some tname =>
                    let tokens :=
                      tokens ++ [Token.mk tname VNone (Some (line self, col self))] in
                    tokenize_loop fuel (snd (_next self)) tokens
                | None =>
                    match map_single !! ch with
                    | Some kind =>
                        let tokens :=
                          tokens ++ [Token.mk kind VNone (Some (line self, col self))] in
                        tokenize_loop fuel (snd (_next self)) tokens
                    | None => Raise (UnknownCharacter ch (line self) (col self))
                    end
                end
            end
      end
  end.

End WithSource.

(** [NoRegexLexer(code).tokenize()].  The budget [len(code) + 2] is enough
    for every loop, each round of which reads a character. *)
Definition tokenize (code : string) : result Exc (list Token.t) :=
  let* (tokens, self) := tokenize_loop code (String.length code + 2) new [] in
  Ok (tokens ++ [Token.mk "EOF" VNone (Some (line self, col self))]).

End NoRegexLexer.

(** ** Notions used in the properties of the lexer *)

(** The line and the column reached from [(line, col)] by reading [n]
    characters of [s]; a read past the end counts as a column, as in
    [_next]. *)
Fixpoint advance (line col n : nat) (s : string) : nat * nat :=
  match n with
  | 0 => (line, col)
  | S n' =>
      match s with
      | String ch s' =>
          if Ascii.eqb ch "010"%char then advance (line + 1) 1 n' s'
          else advance line (col + 1) n' s'
      | EmptyString => advance line (col + 1) n' EmptyString
      end
  end.

(** The position of the character of index [n]: lines and columns count
    from one. *)
Definition position (src : string) (n : nat) : nat * nat := advance 1 1 n src.

(** The lexer's line and column are those of its index. *)
Definition in_sync (src : string) (self : NoRegexLexer.t) : Prop :=
  (NoRegexLexer.line self, NoRegexLexer.col self) = position src (NoRegexLexer.i self).

(** The outcome is not the exhausted budget of the model. *)
Definition lex_settled {A : Type} (r : result NoRegexLexer.Exc A) : bool :=
  match r with
  | Raise NoRegexLexer.OutOfFuel => false
  | _ => true
  end.

(** From [self] to [self'] the index has not gone back and has stayed
    inside the source if it was, and the line and column have followed. *)
Definition lex_steps (src : string) (self self' : NoRegexLexer.t) : Prop :=
  NoRegexLexer.i self <= NoRegexLexer.i self'
  /\ NoRegexLexer.i self' <= Nat.max (NoRegexLexer.i self) (NoRegexLexer.len src)
  /\ (in_sync src self -> in_sync src self').

(** The kinds of the tokens that carry no value. *)
Definition plain_kinds : list string :=
  ["Function"; "Return"; "If"; "Else"; "For"; "Break"; "Int"; "Float"; "Bool";
   "String"; "EqualsOp"; "NotEquals"; "LessEq"; "GreaterEq"; "AndOp"; "OrOp";
   "ParenL"; "ParenR"; "BraceL"; "BraceR"; "BracketL"; "BracketR"; "Comma";
   "Semicolon"; "Dot"; "Colon"; "AddOp"; "SubOp"; "MulOp"; "DivOp"; "ModOp";
   "NotOp"; "AssignOp"; "LessThan"; "GreaterThan"; "Amp"; "Pipe"].

(** A token whose value fits its kind: an [int] in an [IntLit], a [float]
    in a [FloatLit], a [bool] in a [BoolLit], a [str] in a [StringLit] or an
    [Identifier], [None] in a keyword, an operator or a punctuation
    token. *)
Definition lexer_token (t : Token.t) : bool :=
  match Token.value t with
  | VNone => str_in (Token.type t) plain_kinds
  | VInt _ => String.eqb (Token.type t) "IntLit"
  | VFloat _ => String.eqb (Token.type t) "FloatLit"
  | VStr _ => str_in (Token.type t) ["StringLit"; "Identifier"]
  | VBool _ => String.eqb (Token.type t) "BoolLit"
  end.

(** The tokens carry the positions of indices of the source that increase
    from [lo] and stay below [hi]. *)
Fixpoint located (src : string) (lo hi : nat) (tokens : list Token.t) : Prop :=
  match tokens with
  | [] => True
  | t :: tokens' =>
      exists k,
        lo <= k < hi
        /\ Token.pos t = Some (position src k)
        /\ located src (S k) hi tokens'
  end.

(** The lexer stands before [rest]: what it has read is the part of the
    source before it. *)
Definition at_cursor (src : string) (self : NoRegexLexer.t) (rest : string) : Prop :=
  exists pre, src = pre +:+ rest /\ NoRegexLexer.i self = String.length pre.

(** The lexer [n] characters further on the same line. *)
Definition skip_columns (self : NoRegexLexer.t) (n : nat) : NoRegexLexer.t :=
  NoRegexLexer.mk (NoRegexLexer.i self + n) (NoRegexLexer.line self)
    (NoRegexLexer.col self + n).

(** Every character of the string passes the test. *)
Fixpoint all_chars (p : ascii -> bool) (s : string) : bool :=
  match s with
  | EmptyString => true
  | String ch s' => p ch && all_chars p s'
  end.

(** The string is empty or begins with a character that fails the test. *)
Definition stops (p : ascii -> bool) (s : string) : bool :=
  match s with
  | EmptyString => true
  | String ch _ => negb (p ch)
  end.

(** The test of the loop that reads a number. *)
Definition number_char (ch : ascii) : bool := isdigit ch || Ascii.eqb ch "."%char.

(** The number of periods of a string, the [dot_count] of the lexer. *)
Fixpoint count_dots (s : string) : nat :=
  match s with
  | EmptyString => 0
  | String ch s' => (if Ascii.eqb ch "."%char then 1 else 0) + count_dots s'
  end.

(** The test that sends the lexer into the number branch, on the first
    two characters. *)
Definition opens_number (s : string) : bool :=
  match s with
  | String ch s' =>
      isdigit ch
      || (Ascii.eqb ch "."%char
          && match s' with String c _ => isdigit c | EmptyString => false end)
  | EmptyString => false
  end.

(** The token [tokenize] builds for a word. *)
Definition word_token (w : string) (pos : nat * nat) : Token.t :=
  match KEYWORDS !! w with
  | Some kt =>
      if String.eqb kt "BoolLit"
      then Token.mk "BoolLit" (VBool (String.eqb w "true")) (Some pos)
      else Token.mk kt VNone (Some pos)
  | None => Token.mk "Identifier" (VStr w) (Some pos)
  end.

(** A character as it is written inside a string literal: the line feed,
    the tab, the carriage return, the quote and the backslash by their
    escape sequences, any other character as itself. *)
Definition escape_char (ch : ascii) : string :=
  if Ascii.eqb ch "010"%char then "\n"
  else if Ascii.eqb ch "009"%char then "\t"
  else if Ascii.eqb ch "013"%char then "\r"
  else if Ascii.eqb ch "034"%char then (String "\"%char (String "034"%char ""))
  else if Ascii.eqb ch "\"%char then "\\"
  else String ch "".

Fixpoint escape (s : string) : string :=
  match s with
  | EmptyString => EmptyString
  | String ch s' => escape_char ch +:+ escape s'
  end.

(** The text closes a block comment somewhere: it contains [*/]. *)
Fixpoint closes_comment (s : string) : bool :=
  match s with
  | EmptyString => false
  | String a s' =>
      match s' with
      | String b _ => (Ascii.eqb a "*"%char && Ascii.eqb b "/"%char) || closes_comment s'
      | EmptyString => false
      end
  end.

(** The test of the loop that skips a line comment. *)
Definition line_char (ch : ascii) : bool := negb (Ascii.eqb ch "010"%char).

(** The kind and the value of the token of a numeral: without a period it
    is given to [int], with one or more to [float]; [None] is the
    [ValueError] of the conversion. *)
Definition numeral (num : string) : option (string * PyValue) :=
  if Nat.eqb (count_dots num) 0 then
    match int_ num with
    | Some n => Some ("IntLit", VInt n)
    | None => None
    end
  else
    match float_ num with
    | Some x => Some ("FloatLit", VFloat x)
    | None => None
    end.

(** A character that no branch of [tokenize] takes. *)
Definition unknown_char (ch : ascii) : bool :=
  negb (isspace ch || Ascii.eqb ch "#"%char || Ascii.eqb ch "034"%char || isdigit ch
        || is_ident_start ch
        || match SINGLE_CHARS !! ch with Some _ => true | None => false end).

(** The errors [tokenize] ends with: the two unterminated constructs, a
    character no branch takes, and a run of digits and periods that [int]
    or [float] refuses. *)
Definition lexer_error (e : NoRegexLexer.Exc) : bool :=
  match e with
  | NoRegexLexer.SyntaxError msg =>
      str_in msg ["Unterminated comment"; "Unterminated string literal"]
  | NoRegexLexer.UnknownCharacter ch _ _ => unknown_char ch
  | NoRegexLexer.ValueError s =>
      all_chars number_char s
      && match numeral s with Some _ => false | None => true end
  | NoRegexLexer.IdentifierStartsWithDigit _ _ => false
  | NoRegexLexer.OutOfFuel => false
  end.

(** What one round does: it ends the loop at the end of the source, or
    raises, or goes on from a later index with at most one more token,
    which carries the position the round started at. *)
Definition round_outcome (src : string) (fuel : nat) (self : NoRegexLexer.t)
    (tokens : list Token.t) : Prop :=
  match NoRegexLexer._peek src self with
  | None => NoRegexLexer.tokenize_loop src (S fuel) self tokens = Ok (tokens, self)
  | Some ch =>
      (exists e,
          NoRegexLexer.tokenize_loop src (S fuel) self tokens = Raise e
          /\ (NoRegexLexer.len src - NoRegexLexer.i self < fuel -> lexer_error e = true))
      \/ (exists self1 new,
             NoRegexLexer.tokenize_loop src (S fuel) self tokens
             = NoRegexLexer.tokenize_loop src fuel self1 (tokens ++ new)
             /\ lex_steps src self self1
             /\ NoRegexLexer.i self < NoRegexLexer.i self1
             /\ List.length new <= 1
             /\ Forall (fun t =>
                          Token.pos t
                          = Some (NoRegexLexer.line self, NoRegexLexer.col self)
                          /\ lexer_token t = true) new)
  end.

(** The loop of [tokenize] entered in the state [self] with [tokens]
    collected, under the budget of [tokenize]. *)
Definition lex_loop (src : string) (self : NoRegexLexer.t) (tokens : list Token.t)
  : result NoRegexLexer.Exc (list Token.t * NoRegexLexer.t) :=
  NoRegexLexer.tokenize_loop src (String.length src + 2) self tokens.

(** * Properties *)

(** ** The type checker *)

Lemma get_function_scope_raises (self : TypeChecker.t) (fn_name : string) :
  TypeChecker.get_function_scope self fn_name
  = Raise (AttributeError "ScopeAnalyzer" "all_scopes").
Proof. reflexivity. Qed.

Lemma check_fn_decl_raises (self : TypeChecker.t) (node : FnDecl.t) :
  TypeChecker.check_fn_decl self node
  = Raise (AttributeError "ScopeAnalyzer" "all_scopes").
Proof. reflexivity. Qed.

Lemma check_items_raises (items : list Item) :
  forall (self : TypeChecker.t) (fn : FnDecl.t),
    In (ItemFnDecl fn) items ->
    exists e, TypeChecker.check_items self items = Raise e.
Proof.
  induction items as [|item items IH]; intros self fn Hin.
  - destruct Hin.
  - cbn [TypeChecker.check_items].
    destruct Hin as [-> | Hin].
    + cbn [TypeChecker.check_item]. rewrite check_fn_decl_raises. cbn. eauto.
    + destruct (TypeChecker.check_item self item) as [self'|e]; cbn [bind].
      * eapply IH; eauto.
      * eauto.
Qed.

Lemma check_items_app (pre post : list Item) :
  forall self : TypeChecker.t,
    TypeChecker.check_items self (pre ++ post)
    = (let* self' := TypeChecker.check_items self pre in
       TypeChecker.check_items self' post).
Proof.
  induction pre as [|item pre IH]; intros self; [reflexivity|].
  cbn [app TypeChecker.check_items].
  destruct (TypeChecker.check_item self item) as [self'|e]; cbn [bind];
    [apply IH | reflexivity].
Qed.

(** C1: [get_function_scope] reads [all_scopes] and [scope.name], which the
    resolver's classes do not have, so it never returns a frame;
    [check_fn_decl] therefore raises before looking at the parameters or
    the body; [check_program] raises that error at the first function
    declaration unless an earlier item has raised already, and so ends
    with an exception on every program that holds a function
    declaration. *)
Theorem C1_check_program_raises_on_every_FnDecl :
  forall (self : TypeChecker.t) (program : Program.t) (fn : FnDecl.t),
    In (ItemFnDecl fn) (Program.items program) ->
    (forall tc fn_name,
        TypeChecker.get_function_scope tc fn_name
        = Raise (AttributeError "ScopeAnalyzer" "all_scopes"))
    /\ (forall tc node,
           TypeChecker.check_fn_decl tc node
           = Raise (AttributeError "ScopeAnalyzer" "all_scopes"))
    /\ (forall tc pre node post,
           TypeChecker.check_program tc (Program.mk (pre ++ ItemFnDecl node :: post))
           = (let* _ := TypeChecker.check_items tc pre in
              Raise (AttributeError "ScopeAnalyzer" "all_scopes")))
    /\ exists e, TypeChecker.check_program self program = Raise e.
Proof.
  intros self program fn Hin.
  split; [reflexivity|]. split; [reflexivity|]. split.
  - intros tc pre node post. unfold TypeChecker.check_program.
    cbn [Program.items]. rewrite check_items_app.
    destruct (TypeChecker.check_items tc pre); reflexivity.
  - eapply check_items_raises; eauto.
Qed.

Lemma C1_witness :
  exists e,
    TypeChecker.check_program (TypeChecker.new ScopeAnalyzer.init)
      (Program.mk [ItemStmt BreakStmt; ItemFnDecl add_decl]) = Raise e.
Proof.
  apply (C1_check_program_raises_on_every_FnDecl
           (TypeChecker.new ScopeAnalyzer.init)
           (Program.mk [ItemStmt BreakStmt; ItemFnDecl add_decl]) add_decl).
  cbn. right. left. reflexivity.
Defined.

Lemma check_expr_Literal (self : TypeChecker.t) (value : PyValue) :
  TypeChecker.check_expr self (Literal value)
  = Raise (AttributeError "Literal" "type_tok").
Proof. reflexivity. Qed.

(** The arity rule of a call, for a callee bound to a symbol that has a
    parameter list. *)
Lemma check_expr_call_arity (self : TypeChecker.t) (f : string) (args : list Expr)
    (fn : Symbol.t) (ps : list Param.t) :
  ScopeAnalyzer.lookup_symbol (TypeChecker.scope_analyzer self) f = Some fn ->
  Symbol.params fn = Some ps ->
  List.length args <> List.length ps ->
  TypeChecker.check_expr self (Call (Identifier f) args)
  = Raise (FnCallParamCount
             ("Function '" +:+ f +:+ "' expects " +:+ pretty (List.length ps)
              +:+ " args, got " +:+ pretty (List.length args))).
Proof.
  intros Hf Hps Hlen. cbn [TypeChecker.check_expr]. rewrite Hf, Hps.
  cbv zeta. replace (match ps with [] => 0 | _ :: _ => List.length ps end)
    with (List.length ps) by (destruct ps; reflexivity).
  apply Nat.eqb_neq in Hlen. rewrite Hlen. reflexivity.
Qed.

(** With the right number of arguments the call is decided by the
    positional loop. *)
Lemma check_expr_call_args (self : TypeChecker.t) (f : string) (args : list Expr)
    (fn : Symbol.t) (ps : list Param.t) :
  ScopeAnalyzer.lookup_symbol (TypeChecker.scope_analyzer self) f = Some fn ->
  Symbol.params fn = Some ps ->
  List.length args = List.length ps ->
  TypeChecker.check_expr self (Call (Identifier f) args)
  = (let* _ := TypeChecker.check_args self f args ps in
     Ok (Symbol.type_tok fn)).
Proof.
  intros Hf Hps Hlen. cbn [TypeChecker.check_expr]. rewrite Hf, Hps.
  cbv zeta. replace (match ps with [] => 0 | _ :: _ => List.length ps end)
    with (List.length ps) by (destruct ps; reflexivity).
  apply Nat.eqb_eq in Hlen. rewrite Hlen. cbn [negb].
  match goal with
  | |- bind (?F args ps) _ = _ =>
      assert (HF : forall a q, F a q = TypeChecker.check_args self f a q)
  end.
  { induction a as [|arg a IH]; intros q; [reflexivity|].
    destruct q as [|p q]; [reflexivity|].
    cbn [TypeChecker.check_args].
    destruct (TypeChecker.check_expr self arg) as [arg_type|e]; cbn [bind];
      [|reflexivity].
    destruct (negb (String.eqb arg_type (Param.type_tok p))); [reflexivity | apply IH]. }
  rewrite HF. reflexivity.
Qed.

(** Every argument has its parameter's type: the call has the declared
    return type. *)
Lemma check_args_all_match (self : TypeChecker.t) (f : string) (args : list Expr)
    (ps : list Param.t) :
  Forall2 (fun arg p => TypeChecker.check_expr self arg = Ok (Param.type_tok p)) args ps ->
  TypeChecker.check_args self f args ps = Ok ().
Proof.
  induction 1 as [|arg p args ps Harg _ IH]; [reflexivity|].
  cbn [TypeChecker.check_args]. rewrite Harg. cbn [bind].
  rewrite String.eqb_refl. exact IH.
Qed.

(** The first argument whose type differs from its parameter's raises the
    error that names this parameter. *)
Lemma check_args_first_mismatch (self : TypeChecker.t) (f : string)
    (args args' : list Expr) (ps ps' : list Param.t) (arg : Expr) (p : Param.t)
    (arg_type : string) :
  Forall2 (fun arg p => TypeChecker.check_expr self arg = Ok (Param.type_tok p)) args ps ->
  TypeChecker.check_expr self arg = Ok arg_type ->
  arg_type <> Param.type_tok p ->
  TypeChecker.check_args self f (args ++ arg :: args') (ps ++ p :: ps')
  = Raise (FnCallParamType
             ("Function '" +:+ f +:+ "' argument '" +:+ Param.name p
              +:+ "' expects '" +:+ Param.type_tok p +:+ "', got '"
              +:+ arg_type +:+ "'")).
Proof.
  intros Hpre Harg Hne.
  induction Hpre as [|a q args ps Ha _ IH]; cbn [app TypeChecker.check_args].
  - rewrite Harg. cbn [bind]. apply String.eqb_neq in Hne. rewrite Hne. reflexivity.
  - rewrite Ha. cbn [bind]. rewrite String.eqb_refl. exact IH.
Qed.

(** C2: with [add] declared as [function int add(int a, int b)], the call
    [add(5)] raises the parameter-count error, but [add(5, 10)] and
    [add(5, true)] end in the [AttributeError] of [Literal.type_tok]
    instead of the type [Int] and the parameter-type error naming [b]. *)
Theorem C2_call_add_with_literal_arguments :
  Parser.parse
    (add_decl_tokens
     ++ [ident "add"; tok "ParenL"; int_lit 5; tok "Comma"; int_lit 10; tok "ParenR";
         tok "EOF"]) 100
  = Ok (Program.mk [ItemFnDecl add_decl; ItemStmt (ExprStmt call_add_5_10)])
  /\ exists analyzer,
      analyze_scope (Program.mk [ItemFnDecl add_decl; ItemStmt (ExprStmt call_add_5_10)])
      = Ok analyzer
      /\ TypeChecker.check_expr (TypeChecker.new analyzer) call_add_5
         = Raise (FnCallParamCount "Function 'add' expects 2 args, got 1")
      /\ TypeChecker.check_expr (TypeChecker.new analyzer) call_add_5_10
         = Raise (AttributeError "Literal" "type_tok")
      /\ TypeChecker.check_expr (TypeChecker.new analyzer) call_add_5_true
         = Raise (AttributeError "Literal" "type_tok").
Proof.
  split; [vm_compute; reflexivity|].
  eexists. split; [vm_compute; reflexivity|].
  split; [|split]; vm_compute; reflexivity.
Qed.

(** No operator tag written by the parser is in the checker's arithmetic
    or logical lists, so a parsed binary expression gets its left operand's
    type whatever the operand types are. *)
Lemma check_expr_parsed_binary (self : TypeChecker.t) (op : string)
    (lhs rhs : Expr) (left_type right_type : string) :
  In op ["AssignOp"; "OrOp"; "AndOp"; "EqualsOp"; "NotEquals"; "LessThan";
         "GreaterThan"; "LessEq"; "GreaterEq"; "AddOp"; "SubOp"; "MulOp";
         "DivOp"; "ModOp"] ->
  TypeChecker.check_expr self lhs = Ok left_type ->
  TypeChecker.check_expr self rhs = Ok right_type ->
  TypeChecker.check_expr self (Binary op lhs rhs) = Ok left_type.
Proof.
  intros Hop Hl Hr. cbn [TypeChecker.check_expr]. rewrite Hl, Hr. cbn [bind].
  cbn in Hop.
  repeat (destruct Hop as [<- | Hop]; [reflexivity|]). destruct Hop.
Qed.

(** C3: the source [bool b. b + b.] parses to [Binary "AddOp" b b], passes
    the resolver, and the checker gives the sum the type [Bool] without
    raising [AttemptedAddOpOnNonNumeric]: the whole program type-checks. *)
Theorem C3_parsed_addition_of_booleans_is_accepted :
  Parser.parse bool_sum_tokens 100
  = Ok (Program.mk
          [ItemStmt (VarTuple (VarDecl.mk "Bool" "b" None));
           ItemStmt (ExprStmt (Binary "AddOp" (Identifier "b") (Identifier "b")))])
  /\ (exists analyzer,
         analyze_scope
           (Program.mk [ItemStmt (VarTuple (VarDecl.mk "Bool" "b" None))])
         = Ok analyzer
         /\ TypeChecker.check_expr (TypeChecker.new analyzer)
              (Binary "AddOp" (Identifier "b") (Identifier "b"))
            = Ok "Bool")
  /\ compile 100 bool_sum_tokens = TypeCheckPassed.
Proof.
  split; [vm_compute; reflexivity|].
  split; [|vm_compute; reflexivity].
  eexists. split; vm_compute; reflexivity.
Qed.

(** A declaration reaches the checker as the tuple [("Var", var)], which
    neither [check_item] nor [check_stmt] recognizes. *)
Lemma check_item_VarTuple (self : TypeChecker.t) (var : VarDecl.t) :
  TypeChecker.check_item self (ItemStmt (VarTuple var)) = Ok self.
Proof. reflexivity. Qed.

(** [check_var_decl] itself holds the rule: an initializer that checks to
    another type than the declared one raises [ExpressionTypeMismatch]. *)
Lemma check_var_decl_mismatch (self : TypeChecker.t) (type_tok name : string)
    (e : Expr) (expr_type : string) :
  TypeChecker.check_expr self e = Ok expr_type ->
  expr_type <> type_tok ->
  TypeChecker.check_var_decl self (VarDecl.mk type_tok name (Some e))
  = Raise (ExpressionTypeMismatch
             ("Variable '" +:+ name +:+ "' assigned expression of type '"
              +:+ expr_type +:+ "', expected '" +:+ type_tok +:+ "'")).
Proof.
  intros He Hne. unfold TypeChecker.check_var_decl. cbn [VarDecl.expr].
  rewrite He. cbn [bind VarDecl.type_tok VarDecl.name].
  apply String.eqb_neq in Hne. rewrite Hne. reflexivity.
Qed.

(** C4: the declaration [int x = b] with [b] a [Bool], and [int x = true]
    itself, are parsed to [("Var", VarDecl ...)] items and pass type
    checking: no [ExpressionTypeMismatch] is raised at top level. *)
Theorem C4_top_level_declaration_is_not_checked :
  Parser.parse int_x_true_tokens 100
  = Ok (Program.mk
          [ItemStmt (VarTuple (VarDecl.mk "Int" "x" (Some (Literal (VBool true)))))])
  /\ compile 100 int_x_true_tokens = TypeCheckPassed
  /\ compile 100 int_x_b_tokens = TypeCheckPassed
  /\ (forall self var, TypeChecker.check_stmt self (VarTuple var) = Ok self).
Proof.
  repeat split; vm_compute; reflexivity.
Qed.

(** C5: [function int f() { }] has the return type [Int] and no [return]
    in its body; checking it ends in the [AttributeError] of
    [all_scopes], not in [ReturnStmtNotFound]. *)
Theorem C5_missing_return_is_not_reported :
  Parser.parse no_return_tokens 100
  = Ok (Program.mk [ItemFnDecl (FnDecl.mk "Int" "f" [] [])])
  /\ compile 100 no_return_tokens
     = TypeCheckFailed (AttributeError "ScopeAnalyzer" "all_scopes")
  /\ (forall self node,
         TypeChecker.check_fn_decl self node
         = Raise (AttributeError "ScopeAnalyzer" "all_scopes")).
Proof.
  repeat split; vm_compute; reflexivity.
Qed.

(** ** The scope resolver *)

Lemma Expr_args_ind (P : Expr -> Prop) :
  (forall op lhs rhs, P lhs -> P rhs -> P (Binary op lhs rhs)) ->
  (forall op e, P e -> P (Unary op e)) ->
  (forall value, P (Literal value)) ->
  (forall name, P (Identifier name)) ->
  (forall callee args, P callee -> Forall P args -> P (Call callee args)) ->
  forall e, P e.
Proof.
  intros HB HU HL HI HC.
  fix IH 1. intros [op lhs rhs | op e | value | name | callee args].
  - apply HB; apply IH.
  - apply HU; apply IH.
  - apply HL.
  - apply HI.
  - apply HC; [apply IH|].
    revert args. fix IHargs 1. intros [|arg args].
    + constructor.
    + constructor; [apply IH | apply IHargs].
Qed.

Lemma Stmt_block_ind (P : Stmt -> Prop) :
  (forall var, P (VarTuple var)) ->
  (forall block, Forall P block -> P (BlockTuple block)) ->
  (forall e, P (ExprStmt e)) ->
  (forall e, P (ReturnStmt e)) ->
  (forall cond if_block else_block,
      Forall P if_block -> Forall P else_block ->
      P (IfStmt cond if_block else_block)) ->
  (forall init cond updt block, Forall P block -> P (ForStmt init cond updt block)) ->
  P BreakStmt ->
  forall s, P s.
Proof.
  intros HV HBl HE HR HIf HFor HBr.
  fix IH 1.
  assert (Hall : forall block, Forall P block).
  { fix IHblock 1. intros [|s block].
    - constructor.
    - constructor; [apply IH | apply IHblock]. }
  intros [var | block | e | e | cond b1 b2 | init cond updt block | ].
  - apply HV.
  - apply HBl, Hall.
  - apply HE.
  - apply HR.
  - apply HIf; apply Hall.
  - apply HFor, Hall.
  - apply HBr.
Qed.

(** *** Binding a name *)

Lemma define_symbol_taken (self : ScopeAnalyzer.t) (name kind type_tok : string)
    (params : option (list Param.t)) (existing : Symbol.t) :
  ScopeNode.symbols (ScopeAnalyzer.current_scope self) !! name = Some existing ->
  ScopeAnalyzer.define_symbol self name kind type_tok params
  = Raise (if String.eqb kind "function"
           then FunctionPrototypeRedefinition
                  ("Function '" +:+ name +:+ "' is already defined in this scope")
           else VariableRedefinition
                  ("Variable '" +:+ name +:+ "' is already defined in this scope")).
Proof.
  intros Hin. unfold ScopeAnalyzer.define_symbol, ScopeNode.define.
  rewrite Hin. cbn [Symbol.kind]. destruct (String.eqb kind "function"); reflexivity.
Qed.

Lemma define_symbol_free (self : ScopeAnalyzer.t) (name kind type_tok : string)
    (params : option (list Param.t)) :
  ScopeNode.symbols (ScopeAnalyzer.current_scope self) !! name = None ->
  ScopeAnalyzer.define_symbol self name kind type_tok params
  = Ok (ScopeAnalyzer.mk
          (ScopeNode.mk
             (ScopeNode.parent (ScopeAnalyzer.current_scope self))
             (ScopeNode.scope_type (ScopeAnalyzer.current_scope self))
             (<[name := Symbol.mk name kind type_tok params
                          (ScopeNode.level (ScopeAnalyzer.current_scope self))]>
                (ScopeNode.symbols (ScopeAnalyzer.current_scope self)))
             (ScopeNode.level (ScopeAnalyzer.current_scope self)))
          (ScopeAnalyzer.errors self)).
Proof.
  intros Hfree. unfold ScopeAnalyzer.define_symbol, ScopeNode.define.
  rewrite Hfree. reflexivity.
Qed.

Lemma try_define_symbol_taken (self : ScopeAnalyzer.t) (name kind type_tok : string)
    (params : option (list Param.t)) (existing : Symbol.t) :
  ScopeNode.symbols (ScopeAnalyzer.current_scope self) !! name = Some existing ->
  ScopeAnalyzer.try_define_symbol self name kind type_tok params
  = Ok (ScopeAnalyzer.append_error self
          ((if String.eqb kind "function" then "Function '" else "Variable '")
           +:+ name +:+ "' is already defined in this scope")).
Proof.
  intros Hin. unfold ScopeAnalyzer.try_define_symbol.
  rewrite (define_symbol_taken _ _ _ _ _ _ Hin).
  destruct (String.eqb kind "function"); reflexivity.
Qed.

Lemma try_define_symbol_free (self : ScopeAnalyzer.t) (name kind type_tok : string)
    (params : option (list Param.t)) :
  ScopeNode.symbols (ScopeAnalyzer.current_scope self) !! name = None ->
  ScopeAnalyzer.try_define_symbol self name kind type_tok params
  = ScopeAnalyzer.define_symbol self name kind type_tok params.
Proof.
  intros Hfree. unfold ScopeAnalyzer.try_define_symbol.
  rewrite (define_symbol_free _ _ _ _ _ Hfree). reflexivity.
Qed.

Lemma lookup_local_hit (sc : ScopeNode.t) (name : string) (s : Symbol.t) :
  ScopeNode.symbols sc !! name = Some s -> ScopeNode.lookup sc name = Some s.
Proof. intros H. destruct sc. cbn in *. rewrite H. reflexivity. Qed.

(** C7: whatever symbol already holds the name in the current frame,
    [define_symbol] raises [FunctionPrototypeRedefinition] (for a function)
    or [VariableRedefinition] (otherwise) and the resolver records its
    message; when the name is free in the current frame the binding is made
    and no error is recorded, whatever the outer frames hold. *)
Theorem C7_redefinition_is_per_frame :
  forall (self : ScopeAnalyzer.t) (name kind type_tok : string)
         (params : option (list Param.t)),
    (forall existing,
        ScopeNode.symbols (ScopeAnalyzer.current_scope self) !! name = Some existing ->
        ScopeAnalyzer.define_symbol self name kind type_tok params
        = Raise (if String.eqb kind "function"
                 then FunctionPrototypeRedefinition
                        ("Function '" +:+ name +:+ "' is already defined in this scope")
                 else VariableRedefinition
                        ("Variable '" +:+ name +:+ "' is already defined in this scope"))
        /\ ScopeAnalyzer.try_define_symbol self name kind type_tok params
           = Ok (ScopeAnalyzer.append_error self
                   ((if String.eqb kind "function" then "Function '" else "Variable '")
                    +:+ name +:+ "' is already defined in this scope")))
    /\ (ScopeNode.symbols (ScopeAnalyzer.current_scope self) !! name = None ->
        exists self',
          ScopeAnalyzer.try_define_symbol self name kind type_tok params = Ok self'
          /\ ScopeAnalyzer.errors self' = ScopeAnalyzer.errors self
          /\ ScopeNode.parent (ScopeAnalyzer.current_scope self')
             = ScopeNode.parent (ScopeAnalyzer.current_scope self)
          /\ ScopeAnalyzer.lookup_symbol self' name
             = Some (Symbol.mk name kind type_tok params
                       (ScopeNode.level (ScopeAnalyzer.current_scope self)))).
Proof.
  intros self name kind type_tok params. split.
  - intros existing Hin. split.
    + apply (define_symbol_taken _ _ _ _ _ _ Hin).
    + apply (try_define_symbol_taken _ _ _ _ _ _ Hin).
  - intros Hfree. rewrite (try_define_symbol_free _ _ _ _ _ Hfree).
    rewrite (define_symbol_free _ _ _ _ _ Hfree).
    eexists. split; [reflexivity|]. repeat split.
    unfold ScopeAnalyzer.lookup_symbol. apply lookup_local_hit.
    cbn [ScopeAnalyzer.current_scope ScopeNode.symbols].
    apply lookup_insert_eq.
Qed.

(** A function frame that holds the parameter [x], inside a global frame
    that holds the function [f]. *)
Lemma C7_witness :
  ScopeAnalyzer.try_define_symbol
    (ScopeAnalyzer.mk
       (ScopeNode.mk (Some (ScopeNode.new None "global")) "function"
          {[ "x" := Symbol.mk "x" "param" "Int" None 1 ]} 1) [])
    "x" "var" "Int" None
  = Ok (ScopeAnalyzer.mk
          (ScopeNode.mk (Some (ScopeNode.new None "global")) "function"
             {[ "x" := Symbol.mk "x" "param" "Int" None 1 ]} 1)
          ["Variable 'x' is already defined in this scope"])
  /\ (exists self',
         ScopeAnalyzer.try_define_symbol
           (ScopeAnalyzer.mk
              (ScopeNode.new
                 (Some (ScopeNode.mk None "global"
                          {[ "f" := Symbol.mk "f" "function" "Int" (Some []) 0 ]} 0))
                 "block") [])
           "f" "var" "Int" None
         = Ok self'
         /\ ScopeAnalyzer.errors self' = []).
Proof.
  split.
  - destruct (C7_redefinition_is_per_frame
                (ScopeAnalyzer.mk
                   (ScopeNode.mk (Some (ScopeNode.new None "global")) "function"
                      {[ "x" := Symbol.mk "x" "param" "Int" None 1 ]} 1) [])
                "x" "var" "Int" None) as [Htaken _].
    destruct (Htaken (Symbol.mk "x" "param" "Int" None 1)) as [_ Hrec].
    + reflexivity.
    + exact Hrec.
  - destruct (C7_redefinition_is_per_frame
                (ScopeAnalyzer.mk
                   (ScopeNode.new
                      (Some (ScopeNode.mk None "global"
                               {[ "f" := Symbol.mk "f" "function" "Int" (Some []) 0 ]} 0))
                      "block") [])
                "f" "var" "Int" None) as [_ Hfree].
    destruct Hfree as [self' [Hdef [Herr _]]].
    + reflexivity.
    + exists self'. split; [exact Hdef | exact Herr].
Defined.

(** *** Expressions: errors are appended, the frames are left as they are *)

Lemma visit_expr_Call (self : ScopeAnalyzer.t) (callee : Expr) (args : list Expr) :
  ScopeAnalyzer.visit_expr self (Call callee args)
  = fold_left ScopeAnalyzer.visit_expr args
      (match callee with
       | Identifier name =>
           match ScopeAnalyzer.lookup_symbol self name with
           | None =>
               ScopeAnalyzer.append_error self
                 ("UndefinedFunctionCalled: Function '" +:+ name +:+ "' is not defined")
           | Some symbol =>
               if negb (String.eqb (Symbol.kind symbol) "function")
               then ScopeAnalyzer.append_error self
                      ("UndefinedFunctionCalled: '" +:+ name +:+ "' is not a function")
               else self
           end
       | _ => ScopeAnalyzer.visit_expr self callee
       end).
Proof.
  cbn [ScopeAnalyzer.visit_expr].
  match goal with |- _ ?s args = _ => generalize s end.
  induction args as [|arg args IH]; intros s; [reflexivity|].
  cbn [fold_left]. apply IH.
Qed.


Lemma args_append (args : list Expr) :
  Forall expr_appends args ->
  forall sc : ScopeNode.t,
  exists new : list string,
    (forall es,
        fold_left ScopeAnalyzer.visit_expr args (ScopeAnalyzer.mk sc es)
        = ScopeAnalyzer.mk sc (es ++ new))
    /\ (forall x,
           ScopeNode.lookup sc x = None ->
           existsb (references x) args = true ->
           In ("UndeclaredVariableAccessed: Variable '" +:+ x +:+ "' is not declared")
              new).
Proof.
  induction 1 as [|arg args Harg _ IH]; intros sc.
  - exists []. split.
    + intros es. cbn. rewrite app_nil_r. reflexivity.
    + intros x _ Hx. discriminate Hx.
  - destruct (Harg sc) as [new1 [H1 R1]]. destruct (IH sc) as [new2 [H2 R2]].
    exists (new1 ++ new2). split.
    + intros es. cbn [fold_left]. rewrite H1, H2, app_assoc. reflexivity.
    + intros x Hx Hr. cbn [existsb] in Hr. apply in_or_app.
      apply orb_true_iff in Hr as [Hr | Hr]; [left | right]; eauto.
Qed.

Lemma visit_expr_appends (e : Expr) : expr_appends e.
Proof.
  induction e as [op lhs rhs IHl IHr | op e IH | value | name | callee args IHc IHargs]
    using Expr_args_ind; intros sc.
  - destruct (IHl sc) as [new1 [H1 R1]]. destruct (IHr sc) as [new2 [H2 R2]].
    exists (new1 ++ new2). split.
    + intros es. cbn [ScopeAnalyzer.visit_expr]. rewrite H1, H2, app_assoc. reflexivity.
    + intros x Hx Hr. cbn [references] in Hr. apply in_or_app.
      apply orb_true_iff in Hr as [Hr | Hr]; [left | right]; eauto.
  - destruct (IH sc) as [new [H R]]. exists new. split.
    + intros es. cbn [ScopeAnalyzer.visit_expr]. apply H.
    + intros x Hx Hr. cbn [references] in Hr. eauto.
  - exists []. split.
    + intros es. cbn. rewrite app_nil_r. reflexivity.
    + intros x _ Hr. discriminate Hr.
  - destruct (ScopeNode.lookup sc name) as [s|] eqn:Hlook.
    + exists []. split.
      * intros es. cbn [ScopeAnalyzer.visit_expr].
        unfold ScopeAnalyzer.lookup_symbol.
        cbn [ScopeAnalyzer.current_scope]. rewrite Hlook, app_nil_r. reflexivity.
      * intros x Hx Hr. cbn [references] in Hr. apply String.eqb_eq in Hr.
        subst x. congruence.
    + exists ["UndeclaredVariableAccessed: Variable '" +:+ name +:+ "' is not declared"].
      split.
      * intros es. cbn [ScopeAnalyzer.visit_expr].
        unfold ScopeAnalyzer.lookup_symbol.
        cbn [ScopeAnalyzer.current_scope]. rewrite Hlook. reflexivity.
      * intros x Hx Hr. cbn [references] in Hr. apply String.eqb_eq in Hr.
        subst x. left. reflexivity.
  - destruct (args_append args IHargs sc) as [new2 [H2 R2]].
    assert (Hcallee :
      exists new1,
        (forall es,
            match callee with
            | Identifier name =>
                match ScopeAnalyzer.lookup_symbol (ScopeAnalyzer.mk sc es) name with
                | None =>
                    ScopeAnalyzer.append_error (ScopeAnalyzer.mk sc es)
                      ("UndefinedFunctionCalled: Function '" +:+ name +:+ "' is not defined")
                | Some symbol =>
                    if negb (String.eqb (Symbol.kind symbol) "function")
                    then ScopeAnalyzer.append_error (ScopeAnalyzer.mk sc es)
                           ("UndefinedFunctionCalled: '" +:+ name +:+ "' is not a function")
                    else ScopeAnalyzer.mk sc es
                end
            | _ => ScopeAnalyzer.visit_expr (ScopeAnalyzer.mk sc es) callee
            end = ScopeAnalyzer.mk sc (es ++ new1))
        /\ (forall x,
               ScopeNode.lookup sc x = None ->
               match callee with
               | Identifier _ => false
               | _ => references x callee
               end = true ->
               In ("UndeclaredVariableAccessed: Variable '" +:+ x +:+ "' is not declared")
                  new1)).
    { destruct callee as [op l r | op e' | v | f | c a];
        try (destruct (IHc sc) as [new1 [H1 R1]]; exists new1; split;
             [exact H1 | exact R1]).
      unfold ScopeAnalyzer.lookup_symbol, ScopeAnalyzer.append_error.
      cbn [ScopeAnalyzer.current_scope ScopeAnalyzer.errors].
      destruct (ScopeNode.lookup sc f) as [s|].
      - destruct (negb (String.eqb (Symbol.kind s) "function")).
        + eexists. split; [intros es; reflexivity | intros x _ Hr; discriminate Hr].
        + exists []. split; [intros es; rewrite app_nil_r; reflexivity
                            | intros x _ Hr; discriminate Hr].
      - eexists. split; [intros es; reflexivity | intros x _ Hr; discriminate Hr]. }
    destruct Hcallee as [new1 [H1 R1]].
    exists (new1 ++ new2). split.
    + intros es. rewrite visit_expr_Call, H1, H2, app_assoc. reflexivity.
    + intros x Hx Hr. cbn [references] in Hr. apply in_or_app.
      apply orb_true_iff in Hr as [Hr | Hr]; [left | right]; eauto.
Qed.

Lemma visit_expr_scope (self : ScopeAnalyzer.t) (e : Expr) :
  ScopeAnalyzer.current_scope (ScopeAnalyzer.visit_expr self e)
  = ScopeAnalyzer.current_scope self.
Proof.
  destruct self as [sc es]. destruct (visit_expr_appends e sc) as [new [H _]].
  rewrite H. reflexivity.
Qed.



(** *** Statements: the walk never stops and only appends errors *)













Lemma visit_stmt_BlockTuple (self : ScopeAnalyzer.t) (block : list Stmt) :
  ScopeAnalyzer.visit_stmt self (BlockTuple block)
  = (let* self' :=
       ScopeAnalyzer.visit_stmts (ScopeAnalyzer.enter_scope self "block") block in
     Ok (ScopeAnalyzer.exit_scope self')).
Proof. reflexivity. Qed.

Lemma visit_stmt_IfStmt (self : ScopeAnalyzer.t) (cond : Expr)
    (if_block else_block : list Stmt) :
  ScopeAnalyzer.visit_stmt self (IfStmt cond if_block else_block)
  = (let* self1 :=
       ScopeAnalyzer.visit_stmts
         (ScopeAnalyzer.enter_scope (ScopeAnalyzer.visit_expr self cond) "block")
         if_block in
     match else_block with
     | [] => Ok (ScopeAnalyzer.exit_scope self1)
     | _ :: _ =>
         let* self2 :=
           ScopeAnalyzer.visit_stmts
             (ScopeAnalyzer.enter_scope (ScopeAnalyzer.exit_scope self1) "block")
             else_block in
         Ok (ScopeAnalyzer.exit_scope self2)
     end).
Proof. reflexivity. Qed.

Lemma visit_stmt_ForStmt (self : ScopeAnalyzer.t) (init : option ForInit)
    (cond updt : option Expr) (block : list Stmt) :
  ScopeAnalyzer.visit_stmt self (ForStmt init cond updt block)
  = (let* self1 :=
       match init with
       | Some (InitVarDecl var) =>
           ScopeAnalyzer.visit_var_decl (ScopeAnalyzer.enter_scope self "block") var
       | Some (InitExprStmt e) =>
           Ok (ScopeAnalyzer.visit_expr (ScopeAnalyzer.enter_scope self "block") e)
       | None => Ok (ScopeAnalyzer.enter_scope self "block")
       end in
     let self2 :=
       match cond with Some e => ScopeAnalyzer.visit_expr self1 e | None => self1 end in
     let self3 :=
       match updt with Some e => ScopeAnalyzer.visit_expr self2 e | None => self2 end in
     let* self4 := ScopeAnalyzer.visit_stmts self3 block in
     Ok (ScopeAnalyzer.exit_scope self4)).
Proof. reflexivity. Qed.






Lemma visit_item_ItemStmt (self : ScopeAnalyzer.t) (s : Stmt) :
  ScopeAnalyzer.visit_item self (ItemStmt s) = ScopeAnalyzer.visit_stmt self s.
Proof. destruct s; reflexivity. Qed.




(** *** Well-scoped programs leave the error list empty *)


























(** *** Every violation is recorded, in the order of the walk *)

Lemma chain_mirrors_nonempty (c : Chain) (sc : ScopeNode.t) :
  chain_mirrors c sc -> c <> [].
Proof. destruct c; [intros [] | congruence]. Qed.

























(** *** Well scoped is: without a violation *)


Lemma app_not_nil_r {A : Type} (l l' : list A) : l' <> [] -> l ++ l' <> [].
Proof. destruct l; [auto | discriminate]. Qed.

















(** *** What [parse] puts into a [Program] *)





(** Two violations in one body, [int x = foo(5)] and [return y], are both
    in the message of the one [ScopeError]. *)
Example analyze_reports_every_violation :
  analyze_scope
    (Program.mk
       [ItemFnDecl
          (FnDecl.mk "Int" "main" []
             [VarTuple (VarDecl.mk "Int" "x"
                          (Some (Call (Identifier "foo") [Literal (VInt 5)])));
              ReturnStmt (Some (Identifier "y"))])])
  = Raise (ScopeError_
             (String.concat (String (Ascii.ascii_of_nat 10) "")
                ["UndefinedFunctionCalled: Function 'foo' is not defined";
                 "UndeclaredVariableAccessed: Variable 'y' is not declared"])).
Proof. vm_compute. reflexivity. Qed.

(** ** The parser *)

(** *** No read past the end of the token list *)


Lemma peek_past_end (tokens : list Token.t) (pos : nat) :
  List.length tokens <= pos ->
  Parser._peek tokens pos = Ok (Token.mk "EOF" VNone None).
Proof.
  intros Hle. unfold Parser._peek.
  destruct (Nat.leb_spec (List.length tokens) pos); [reflexivity | lia].
Qed.

Lemma peek_total (tokens : list Token.t) (pos : nat) :
  exists tok, Parser._peek tokens pos = Ok tok.
Proof.
  unfold Parser._peek.
  destruct (Nat.leb_spec (List.length tokens) pos) as [Hle | Hlt]; [eauto|].
  destruct (tokens !! pos) as [tok|] eqn:Hlook; [eauto|].
  apply lookup_ge_None in Hlook. lia.
Qed.

Lemma safe_bind {A B : Type} (m : result ParseExc A) (k : A -> result ParseExc B) :
  raises_IndexError m = false ->
  (forall a, raises_IndexError (k a) = false) ->
  raises_IndexError (bind m k) = false.
Proof. intros Hm Hk. destruct m as [a|e]; [apply Hk | exact Hm]. Qed.

Lemma peek_safe (tokens : list Token.t) (pos : nat) :
  raises_IndexError (Parser._peek tokens pos) = false.
Proof. destruct (peek_total tokens pos) as [tok ->]. reflexivity. Qed.

(** One step through a method body: a sequenced call, a test, or a
    returned value or raised parse error. *)
Ltac safe_step :=
  match goal with
  | |- raises_IndexError (Ok _) = false => reflexivity
  | |- raises_IndexError (Raise _) = false => reflexivity
  | |- raises_IndexError (Parser._peek _ _) = false => apply peek_safe
  | H : _ |- raises_IndexError _ = false => apply H
  | |- raises_IndexError (bind _ _) = false => apply safe_bind; [| intros ?]
  | |- raises_IndexError (if ?b then _ else _) = false => destruct b
  | |- raises_IndexError (match ?x with _ => _ end) = false => destruct x
  end.

Lemma next_safe (tokens : list Token.t) (pos : nat) :
  raises_IndexError (Parser.next tokens pos) = false.
Proof. unfold Parser.next. repeat safe_step. Qed.

Lemma match_safe (tokens : list Token.t) (types : list string) (pos : nat) :
  raises_IndexError (Parser.match_ tokens types pos) = false.
Proof.
  pose proof (next_safe tokens) as Hnext.
  unfold Parser.match_. repeat safe_step.
Qed.

Lemma expect_safe (tokens : list Token.t) (ttype : string) (pos : nat) :
  raises_IndexError (Parser.expect tokens ttype pos) = false.
Proof.
  pose proof (next_safe tokens) as Hnext.
  unfold Parser.expect. repeat safe_step.
Qed.

Lemma expect_identifier_safe (tokens : list Token.t) (pos : nat) :
  raises_IndexError (Parser.expect_identifier tokens pos) = false.
Proof.
  pose proof (next_safe tokens) as Hnext.
  unfold Parser.expect_identifier. repeat safe_step.
Qed.

(** A method body is walked step by step; the calls of the token-level
    methods are closed by the lemmas above. *)
Ltac safe_walk :=
  repeat first
    [ apply next_safe | apply match_safe | apply expect_safe
    | apply expect_identifier_safe | safe_step ].

Section ParserSafety.
Variable tokens : list Token.t.

Lemma expression_parsers_safe (fuel : nat) :
  (forall pos, raises_IndexError (Parser.parse_expr tokens fuel pos) = false)
  /\ (forall pos, raises_IndexError (Parser.parse_assignment tokens fuel pos) = false)
  /\ (forall pos, raises_IndexError (Parser.parse_logical_or tokens fuel pos) = false)
  /\ (forall node pos,
         raises_IndexError (Parser.parse_logical_or_loop tokens fuel node pos) = false)
  /\ (forall pos, raises_IndexError (Parser.parse_logical_and tokens fuel pos) = false)
  /\ (forall node pos,
         raises_IndexError (Parser.parse_logical_and_loop tokens fuel node pos) = false)
  /\ (forall pos, raises_IndexError (Parser.parse_equality tokens fuel pos) = false)
  /\ (forall node pos,
         raises_IndexError (Parser.parse_equality_loop tokens fuel node pos) = false)
  /\ (forall pos, raises_IndexError (Parser.parse_comparison tokens fuel pos) = false)
  /\ (forall node pos,
         raises_IndexError (Parser.parse_comparison_loop tokens fuel node pos) = false)
  /\ (forall pos, raises_IndexError (Parser.parse_add tokens fuel pos) = false)
  /\ (forall node pos,
         raises_IndexError (Parser.parse_add_loop tokens fuel node pos) = false)
  /\ (forall pos, raises_IndexError (Parser.parse_mul tokens fuel pos) = false)
  /\ (forall node pos,
         raises_IndexError (Parser.parse_mul_loop tokens fuel node pos) = false)
  /\ (forall pos, raises_IndexError (Parser.parse_unary tokens fuel pos) = false)
  /\ (forall pos, raises_IndexError (Parser.parse_call tokens fuel pos) = false)
  /\ (forall node pos,
         raises_IndexError (Parser.parse_call_loop tokens fuel node pos) = false)
  /\ (forall args pos,
         raises_IndexError (Parser.parse_args_loop tokens fuel args pos) = false)
  /\ (forall pos, raises_IndexError (Parser.parse_primary tokens fuel pos) = false).
Proof.
  induction fuel as [|fuel IH].
  - repeat split; intros; reflexivity.
  - destruct IH as (I1 & I2 & I3 & I4 & I5 & I6 & I7 & I8 & I9 & I10 & I11 & I12
                    & I13 & I14 & I15 & I16 & I17 & I18 & I19).
    repeat split; intros;
      cbn [Parser.parse_expr Parser.parse_assignment Parser.parse_logical_or
           Parser.parse_logical_or_loop Parser.parse_logical_and
           Parser.parse_logical_and_loop Parser.parse_equality
           Parser.parse_equality_loop Parser.parse_comparison
           Parser.parse_comparison_loop Parser.parse_add Parser.parse_add_loop
           Parser.parse_mul Parser.parse_mul_loop Parser.parse_unary
           Parser.parse_call Parser.parse_call_loop Parser.parse_args_loop
           Parser.parse_primary];
      safe_walk.
Qed.

Lemma parse_expr_safe (fuel pos : nat) :
  raises_IndexError (Parser.parse_expr tokens fuel pos) = false.
Proof. apply expression_parsers_safe. Qed.

Lemma parse_var_decl_safe (fuel pos : nat) :
  raises_IndexError (Parser.parse_var_decl tokens fuel pos) = false.
Proof.
  pose proof (parse_expr_safe fuel) as Hexpr.
  unfold Parser.parse_var_decl. safe_walk.
Qed.

Lemma parse_param_safe (pos : nat) :
  raises_IndexError (Parser.parse_param tokens pos) = false.
Proof. unfold Parser.parse_param. safe_walk. Qed.

Lemma statement_parsers_safe (fuel : nat) :
  (forall pos, raises_IndexError (Parser.parse_stmt tokens fuel pos) = false)
  /\ (forall block pos,
         raises_IndexError (Parser.parse_block tokens fuel block pos) = false)
  /\ (forall pos, raises_IndexError (Parser.parse_if tokens fuel pos) = false)
  /\ (forall pos, raises_IndexError (Parser.parse_for tokens fuel pos) = false).
Proof.
  induction fuel as [|fuel IH].
  - repeat split; intros; reflexivity.
  - destruct IH as (I1 & I2 & I3 & I4).
    pose proof (parse_expr_safe fuel) as Hexpr.
    pose proof (parse_var_decl_safe fuel) as Hvar.
    repeat split; intros;
      cbn [Parser.parse_stmt Parser.parse_block Parser.parse_if Parser.parse_for];
      safe_walk.
Qed.

Lemma parse_params_loop_safe (fuel : nat) :
  forall params pos,
    raises_IndexError (Parser.parse_params_loop tokens fuel params pos) = false.
Proof.
  pose proof parse_param_safe as Hparam.
  induction fuel as [|fuel IH]; intros params pos; [reflexivity|].
  cbn [Parser.parse_params_loop]. safe_walk.
Qed.

Lemma parse_fn_decl_safe (fuel pos : nat) :
  raises_IndexError (Parser.parse_fn_decl tokens fuel pos) = false.
Proof.
  pose proof parse_param_safe as Hparam.
  pose proof (parse_params_loop_safe fuel) as Hparams.
  destruct (statement_parsers_safe fuel) as (_ & Hblock & _).
  unfold Parser.parse_fn_decl. safe_walk.
Qed.

Lemma parse_items_safe (fuel : nat) :
  forall items pos,
    raises_IndexError (Parser.parse_items tokens fuel items pos) = false.
Proof.
  induction fuel as [|fuel IH]; intros items pos; [reflexivity|].
  pose proof (parse_fn_decl_safe fuel) as Hfn.
  pose proof (parse_var_decl_safe fuel) as Hvar.
  destruct (statement_parsers_safe fuel) as (Hstmt & _).
  cbn [Parser.parse_items]. safe_walk.
Qed.

Lemma parse_safe (fuel : nat) :
  raises_IndexError (Parser.parse tokens fuel) = false.
Proof.
  pose proof (parse_items_safe fuel) as Hitems.
  unfold Parser.parse. safe_walk.
Qed.

End ParserSafety.

(** *** The expression parser does not tell the terminators apart *)


Lemma neutral_inv (tok : Token.t) :
  neutral tok = true ->
  Token.type tok = "Dot" \/ Token.type tok = "Semicolon" \/ Token.type tok = "BraceR".
Proof.
  unfold neutral, str_in. cbn [existsb].
  rewrite !orb_true_iff, !String.eqb_eq. intros [H | [H | [H | H]]]; auto.
  discriminate H.
Qed.

Lemma next_agree (t1 t2 : list Token.t) (pos : nat) (a : Token.t) :
  Parser._peek t1 pos = Ok a ->
  Parser._peek t2 pos = Ok a ->
  Parser.next t2 pos = Parser.next t1 pos.
Proof. intros H1 H2. unfold Parser.next. rewrite H1, H2. reflexivity. Qed.

Lemma bind_assoc {E A B C : Type} (m : result E A) (k1 : A -> result E B)
    (k2 : B -> result E C) :
  bind (bind m k1) k2 = bind m (fun a => bind (k1 a) k2).
Proof. destruct m; reflexivity. Qed.

Section Blind.
Variables t1 t2 : list Token.t.
Hypothesis Hblind : blind t1 t2.

(** Split on what the two lists show at [pos]; in the terminator case the
    two token kinds are made explicit. *)
Ltac peek_cases pos :=
  destruct (Hblind pos) as (a & b & Ha & Hb & [<- | [Na Nb]]);
  [| apply neutral_inv in Na; apply neutral_inv in Nb;
     destruct a as [tya va pa], b as [tyb vb pb];
     cbn [Token.type] in Na, Nb;
     destruct Na as [-> | [-> | ->]]; destruct Nb as [-> | [-> | ->]]].

Lemma match_blind (types : list string) (pos : nat) (r : option Token.t * nat) :
  forallb (fun n => negb (str_in n types)) ["Dot"; "Semicolon"; "BraceR"] = true ->
  Parser.match_ t1 types pos = Ok r ->
  Parser.match_ t2 types pos = Ok r.
Proof.
  intros Hdisj. cbn [forallb] in Hdisj.
  rewrite !andb_true_iff, !negb_true_iff in Hdisj.
  destruct Hdisj as (Hd & Hs & Hb' & _).
  unfold Parser.match_.
  peek_cases pos; rewrite Ha, Hb; cbn [bind Token.type];
    rewrite ?Hd, ?Hs, ?Hb'; try (intros H; exact H).
  rewrite (next_agree t1 t2 pos a Ha Hb). intros H; exact H.
Qed.

Lemma expect_blind (ttype : string) (pos : nat) (r : Token.t * nat) :
  negb (str_in ttype ["Dot"; "Semicolon"; "BraceR"]) = true ->
  Parser.expect t1 ttype pos = Ok r ->
  Parser.expect t2 ttype pos = Ok r.
Proof.
  intros Hnot. apply negb_true_iff in Hnot. unfold str_in in Hnot.
  cbn [existsb] in Hnot. rewrite !orb_false_iff in Hnot.
  destruct Hnot as (Hd & Hs & Hb' & _).
  rewrite String.eqb_sym in Hd. rewrite String.eqb_sym in Hs.
  rewrite String.eqb_sym in Hb'.
  unfold Parser.expect.
  peek_cases pos; rewrite Ha, Hb; cbn [bind Token.type];
    rewrite ?Hd, ?Hs, ?Hb'; try discriminate.
  rewrite (next_agree t1 t2 pos a Ha Hb). intros H; exact H.
Qed.

(** One step through the body of an expression method that succeeded on
    [t1]: the same call on [t2] gives the same value. *)
Ltac blind_step :=
  match goal with
  | |- Raise _ = Ok _ -> _ => discriminate
  | |- ?x = Ok _ -> ?x = Ok _ => exact (fun H => H)
  | IH : _ |- _ = Ok _ -> _ = Ok _ => solve [apply IH]
  | |- bind (Parser.match_ t1 ?types ?pos) _ = Ok _ -> _ =>
      let E := fresh "E" in
      destruct (Parser.match_ t1 types pos) as [[? ?]|?] eqn:E;
      cbn [bind]; [| discriminate];
      rewrite (match_blind types pos _ eq_refl E); cbn [bind]
  | |- bind (Parser.expect t1 ?ttype ?pos) _ = Ok _ -> _ =>
      let E := fresh "E" in
      destruct (Parser.expect t1 ttype pos) as [[? ?]|?] eqn:E;
      cbn [bind]; [| discriminate];
      rewrite (expect_blind ttype pos _ eq_refl E); cbn [bind]
  | Ha : Parser._peek t1 ?pos = Ok ?a, Hb : Parser._peek t2 ?pos = Ok ?a
    |- bind (Parser.next t1 ?pos) _ = Ok _ -> bind (Parser.next t2 ?pos) _ = Ok _ =>
      rewrite (next_agree t1 t2 pos a Ha Hb)
  | |- bind ?m _ = Ok _ -> bind ?m _ = Ok _ =>
      destruct m as [[? ?]|?]; cbn [bind]; [| discriminate]
  | |- bind (Parser._peek t1 ?pos) _ = Ok _ -> _ =>
      peek_cases pos;
      match goal with
      | Ha : Parser._peek t1 pos = Ok _, Hb : Parser._peek t2 pos = Ok _ |- _ =>
          rewrite Ha, Hb
      end;
      cbn [bind Token.type str_in existsb];
      cbn [String.eqb Ascii.eqb Bool.eqb orb andb negb]
  | |- bind (if ?b then _ else _) _ = Ok _ -> _ => destruct b
  | |- bind (bind _ _) _ = Ok _ -> _ => rewrite !bind_assoc
  | |- bind (Ok _) _ = Ok _ -> _ => cbn [bind]
  | |- bind ?m _ = Ok _ -> _ =>
      let E := fresh "E" in
      destruct m as [[? ?]|?] eqn:E; cbn [bind]; [| discriminate];
      match goal with
      | IH : _ |- _ => apply IH in E; rewrite E; cbn [bind]
      end
  | |- (if ?b then _ else _) = Ok _ -> _ => destruct b
  | |- match ?x with _ => _ end = Ok _ -> _ => destruct x
  end.

Lemma expression_parsers_blind (fuel : nat) :
  (forall pos r, Parser.parse_expr t1 fuel pos = Ok r ->
                 Parser.parse_expr t2 fuel pos = Ok r)
  /\ (forall pos r, Parser.parse_assignment t1 fuel pos = Ok r ->
                    Parser.parse_assignment t2 fuel pos = Ok r)
  /\ (forall pos r, Parser.parse_logical_or t1 fuel pos = Ok r ->
                    Parser.parse_logical_or t2 fuel pos = Ok r)
  /\ (forall node pos r, Parser.parse_logical_or_loop t1 fuel node pos = Ok r ->
                         Parser.parse_logical_or_loop t2 fuel node pos = Ok r)
  /\ (forall pos r, Parser.parse_logical_and t1 fuel pos = Ok r ->
                    Parser.parse_logical_and t2 fuel pos = Ok r)
  /\ (forall node pos r, Parser.parse_logical_and_loop t1 fuel node pos = Ok r ->
                         Parser.parse_logical_and_loop t2 fuel node pos = Ok r)
  /\ (forall pos r, Parser.parse_equality t1 fuel pos = Ok r ->
                    Parser.parse_equality t2 fuel pos = Ok r)
  /\ (forall node pos r, Parser.parse_equality_loop t1 fuel node pos = Ok r ->
                         Parser.parse_equality_loop t2 fuel node pos = Ok r)
  /\ (forall pos r, Parser.parse_comparison t1 fuel pos = Ok r ->
                    Parser.parse_comparison t2 fuel pos = Ok r)
  /\ (forall node pos r, Parser.parse_comparison_loop t1 fuel node pos = Ok r ->
                         Parser.parse_comparison_loop t2 fuel node pos = Ok r)
  /\ (forall pos r, Parser.parse_add t1 fuel pos = Ok r ->
                    Parser.parse_add t2 fuel pos = Ok r)
  /\ (forall node pos r, Parser.parse_add_loop t1 fuel node pos = Ok r ->
                         Parser.parse_add_loop t2 fuel node pos = Ok r)
  /\ (forall pos r, Parser.parse_mul t1 fuel pos = Ok r ->
                    Parser.parse_mul t2 fuel pos = Ok r)
  /\ (forall node pos r, Parser.parse_mul_loop t1 fuel node pos = Ok r ->
                         Parser.parse_mul_loop t2 fuel node pos = Ok r)
  /\ (forall pos r, Parser.parse_unary t1 fuel pos = Ok r ->
                    Parser.parse_unary t2 fuel pos = Ok r)
  /\ (forall pos r, Parser.parse_call t1 fuel pos = Ok r ->
                    Parser.parse_call t2 fuel pos = Ok r)
  /\ (forall node pos r, Parser.parse_call_loop t1 fuel node pos = Ok r ->
                         Parser.parse_call_loop t2 fuel node pos = Ok r)
  /\ (forall args pos r, Parser.parse_args_loop t1 fuel args pos = Ok r ->
                         Parser.parse_args_loop t2 fuel args pos = Ok r)
  /\ (forall pos r, Parser.parse_primary t1 fuel pos = Ok r ->
                    Parser.parse_primary t2 fuel pos = Ok r).
Proof.
  induction fuel as [|fuel IH].
  - repeat split; intros; discriminate.
  - destruct IH as (I1 & I2 & I3 & I4 & I5 & I6 & I7 & I8 & I9 & I10 & I11 & I12
                    & I13 & I14 & I15 & I16 & I17 & I18 & I19).
    repeat split; intros until r;
      cbn [Parser.parse_expr Parser.parse_assignment Parser.parse_logical_or
           Parser.parse_logical_or_loop Parser.parse_logical_and
           Parser.parse_logical_and_loop Parser.parse_equality
           Parser.parse_equality_loop Parser.parse_comparison
           Parser.parse_comparison_loop Parser.parse_add Parser.parse_add_loop
           Parser.parse_mul Parser.parse_mul_loop Parser.parse_unary
           Parser.parse_call Parser.parse_call_loop Parser.parse_args_loop
           Parser.parse_primary];
      repeat blind_step.
Qed.

End Blind.

(** *** An expression never starts with a terminator *)

Lemma bind_Ok_inv {E A B : Type} (m : result E A) (k : A -> result E B) (b : B) :
  bind m k = Ok b -> exists a, m = Ok a /\ k a = Ok b.
Proof. destruct m as [a|e]; [eauto | discriminate]. Qed.

Section FirstToken.
Variable tokens : list Token.t.


Lemma match_inv (types : list string) (pos : nat) (m : option Token.t) (pos' : nat) :
  Parser.match_ tokens types pos = Ok (m, pos') ->
  exists tok,
    Parser._peek tokens pos = Ok tok
    /\ match m with
       | Some tok' =>
           str_in (Token.type tok) types = true /\ tok' = tok /\ pos' = pos + 1
       | None => str_in (Token.type tok) types = false /\ pos' = pos
       end.
Proof.
  unfold Parser.match_, Parser.next. intros H.
  apply bind_Ok_inv in H as [tok [Hpeek H]]. exists tok. split; [exact Hpeek|].
  rewrite Hpeek in H. cbn [bind] in H.
  destruct (str_in (Token.type tok) types).
  - destruct (String.eqb (Token.type tok) "EOF"); [discriminate|].
    cbn [bind] in H. injection H as <- <-. auto.
  - injection H as <- <-. auto.
Qed.

Lemma starts_by_match (op : string) (pos : nat) (tok : Token.t) (pos' : nat) :
  negb (str_in op ["Dot"; "Semicolon"; "BraceR"]) = true ->
  Parser.match_ tokens [op] pos = Ok (Some tok, pos') ->
  starts_expr tokens pos.
Proof.
  intros Hop H. apply match_inv in H as [tok0 [Hpeek [Hin _]]].
  exists tok0. split; [exact Hpeek|].
  unfold str_in in Hin. cbn [existsb] in Hin. rewrite orb_false_r in Hin.
  apply String.eqb_eq in Hin. unfold neutral. rewrite Hin.
  apply negb_true_iff. exact Hop.
Qed.

Lemma expression_parsers_start (fuel : nat) :
  (forall pos r, Parser.parse_expr tokens fuel pos = Ok r -> starts_expr tokens pos)
  /\ (forall pos r, Parser.parse_assignment tokens fuel pos = Ok r -> starts_expr tokens pos)
  /\ (forall pos r, Parser.parse_logical_or tokens fuel pos = Ok r -> starts_expr tokens pos)
  /\ (forall pos r, Parser.parse_logical_and tokens fuel pos = Ok r -> starts_expr tokens pos)
  /\ (forall pos r, Parser.parse_equality tokens fuel pos = Ok r -> starts_expr tokens pos)
  /\ (forall pos r, Parser.parse_comparison tokens fuel pos = Ok r -> starts_expr tokens pos)
  /\ (forall pos r, Parser.parse_add tokens fuel pos = Ok r -> starts_expr tokens pos)
  /\ (forall pos r, Parser.parse_mul tokens fuel pos = Ok r -> starts_expr tokens pos)
  /\ (forall pos r, Parser.parse_unary tokens fuel pos = Ok r -> starts_expr tokens pos)
  /\ (forall pos r, Parser.parse_call tokens fuel pos = Ok r -> starts_expr tokens pos)
  /\ (forall pos r, Parser.parse_primary tokens fuel pos = Ok r -> starts_expr tokens pos).
Proof.
  induction fuel as [|fuel IH].
  - repeat split; intros; discriminate.
  - destruct IH as (I1 & I2 & I3 & I4 & I5 & I6 & I7 & I8 & I9 & I10 & I11).
    repeat split; intros pos r H.
    + cbn [Parser.parse_expr] in H. eauto.
    + cbn [Parser.parse_assignment] in H. apply bind_Ok_inv in H as [[x p] [H _]]. eauto.
    + cbn [Parser.parse_logical_or] in H. apply bind_Ok_inv in H as [[x p] [H _]]. eauto.
    + cbn [Parser.parse_logical_and] in H. apply bind_Ok_inv in H as [[x p] [H _]]. eauto.
    + cbn [Parser.parse_equality] in H. apply bind_Ok_inv in H as [[x p] [H _]]. eauto.
    + cbn [Parser.parse_comparison] in H. apply bind_Ok_inv in H as [[x p] [H _]]. eauto.
    + cbn [Parser.parse_add] in H. apply bind_Ok_inv in H as [[x p] [H _]]. eauto.
    + cbn [Parser.parse_mul] in H. apply bind_Ok_inv in H as [[x p] [H _]]. eauto.
    + cbn [Parser.parse_unary] in H.
      apply bind_Ok_inv in H as [[[tok|] p] [Hm H]].
      * apply (starts_by_match "SubOp" pos tok p eq_refl Hm).
      * pose proof (match_inv _ _ _ _ Hm) as [_ [_ [_ ->]]].
        apply bind_Ok_inv in H as [[[tok|] p'] [Hm' H]].
        -- apply (starts_by_match "NotOp" pos tok p' eq_refl Hm').
        -- pose proof (match_inv _ _ _ _ Hm') as [_ [_ [_ ->]]]. eauto.
    + cbn [Parser.parse_call] in H. apply bind_Ok_inv in H as [[x p] [H _]]. eauto.
    + cbn [Parser.parse_primary] in H.
      apply bind_Ok_inv in H as [tok [Hpeek H]].
      exists tok. split; [exact Hpeek|].
      destruct (neutral tok) eqn:Hn; [|reflexivity].
      apply neutral_inv in Hn. destruct tok as [ty v p]. cbn [Token.type] in *.
      destruct Hn as [-> | [-> | ->]]; discriminate H.
Qed.

End FirstToken.

(** *** The three ways to end [return x] *)

Lemma peek_middle (l r : list Token.t) (a : Token.t) :
  Parser._peek (l ++ a :: r) (List.length l) = Ok a.
Proof.
  unfold Parser._peek.
  destruct (Nat.leb_spec (List.length (l ++ a :: r)) (List.length l)) as [Hle | _].
  - rewrite length_app in Hle. cbn in Hle. lia.
  - rewrite list_lookup_middle by reflexivity. reflexivity.
Qed.

Lemma peek_elsewhere (l r : list Token.t) (a b : Token.t) (pos : nat) :
  pos <> List.length l ->
  Parser._peek (l ++ b :: r) pos = Parser._peek (l ++ a :: r) pos.
Proof.
  intros Hne. unfold Parser._peek. rewrite !length_app. cbn [List.length].
  destruct (Nat.leb_spec (List.length l + S (List.length r)) pos); [reflexivity|].
  destruct (Nat.lt_ge_cases pos (List.length l)) as [Hlt | Hge].
  - rewrite !lookup_app_l by exact Hlt. reflexivity.
  - rewrite !lookup_app_r by exact Hge.
    destruct (pos - List.length l) as [|k] eqn:Hk; [lia | reflexivity].
Qed.

Lemma blind_one_terminator (l r : list Token.t) (a b : Token.t) :
  neutral a = true -> neutral b = true ->
  blind (l ++ a :: r) (l ++ b :: r).
Proof.
  intros Na Nb pos. destruct (Nat.eq_dec pos (List.length l)) as [-> | Hne].
  - exists a, b. rewrite !peek_middle. auto.
  - destruct (peek_total (l ++ a :: r) pos) as [tok Htok].
    exists tok, tok. rewrite (peek_elsewhere l r a b pos Hne), Htok. auto.
Qed.

Lemma match_taken (tokens : list Token.t) (types : list string) (pos : nat)
    (tok : Token.t) :
  Parser._peek tokens pos = Ok tok ->
  str_in (Token.type tok) types = true ->
  String.eqb (Token.type tok) "EOF" = false ->
  Parser.match_ tokens types pos = Ok (Some tok, pos + 1).
Proof.
  intros Hpeek Hin Heof. unfold Parser.match_, Parser.next.
  rewrite Hpeek. cbn [bind]. rewrite Hin, Heof. reflexivity.
Qed.

Lemma match_left (tokens : list Token.t) (types : list string) (pos : nat)
    (tok : Token.t) :
  Parser._peek tokens pos = Ok tok ->
  str_in (Token.type tok) types = false ->
  Parser.match_ tokens types pos = Ok (None, pos).
Proof.
  intros Hpeek Hin. unfold Parser.match_. rewrite Hpeek. cbn [bind].
  rewrite Hin. reflexivity.
Qed.

(** [parse_stmt] on a [return] followed by an expression: what remains
    after the expression is the optional terminator. *)
Lemma parse_stmt_return (tokens : list Token.t) (fuel pos : nat) (ret : Token.t)
    (x : Expr) (pos' : nat) :
  Parser._peek tokens pos = Ok ret ->
  Token.type ret = "Return" ->
  Parser.parse_expr tokens fuel (pos + 1) = Ok (x, pos') ->
  Parser.parse_stmt tokens (S fuel) pos
  = (let* (_, p) := Parser.match_ tokens ["Dot"; "Semicolon"] pos' in
     Ok (ReturnStmt (Some x), p)).
Proof.
  intros Hpeek Hret Hexpr.
  destruct (expression_parsers_start tokens fuel) as (Hstart & _).
  destruct (Hstart _ _ Hexpr) as [first [Hfirst Hn]].
  assert (Hterm : str_in (Token.type first) ["Dot"; "Semicolon"] = false).
  { unfold neutral, str_in in Hn. cbn [existsb] in Hn.
    rewrite !orb_false_iff in Hn. destruct Hn as (Hd & Hs & _).
    unfold str_in. cbn [existsb]. rewrite Hd, Hs. reflexivity. }
  cbn [Parser.parse_stmt]. unfold Parser.next.
  rewrite Hpeek. cbn [bind]. rewrite Hret. cbn [bind].
  change (str_in "Return" type_tokens) with false.
  change (str_in "Return" ["Return"; "wapsi"]) with true.
  change (String.eqb "Return" "EOF") with false.
  cbv iota. cbn [bind]. rewrite Hfirst. cbn [bind]. rewrite Hterm, Hexpr.
  reflexivity.
Qed.

(** When the tokens [xs] are an expression [x] (the expression parser
    reads exactly them into [x] when a period follows), the statement
    [return xs] parses to [ReturnStmt x] whether it ends with a period, with
    a semicolon, or with nothing before a closing brace; the period and the
    semicolon are consumed, the brace is left for the enclosing block. *)
Lemma return_terminators_parse_alike :
  forall (pre xs rest : list Token.t) (ret dot semi brace : Token.t)
         (fuel : nat) (x : Expr),
    Token.type ret = "Return" ->
    Token.type dot = "Dot" ->
    Token.type semi = "Semicolon" ->
    Token.type brace = "BraceR" ->
    Parser.parse_expr (pre ++ ret :: xs ++ dot :: rest) fuel (List.length pre + 1)
    = Ok (x, List.length pre + 1 + List.length xs) ->
    Parser.parse_stmt (pre ++ ret :: xs ++ dot :: rest) (S fuel) (List.length pre)
    = Ok (ReturnStmt (Some x), List.length pre + 1 + List.length xs + 1)
    /\ Parser.parse_stmt (pre ++ ret :: xs ++ semi :: rest) (S fuel) (List.length pre)
       = Ok (ReturnStmt (Some x), List.length pre + 1 + List.length xs + 1)
    /\ Parser.parse_stmt (pre ++ ret :: xs ++ brace :: rest) (S fuel) (List.length pre)
       = Ok (ReturnStmt (Some x), List.length pre + 1 + List.length xs).
Proof.
  intros pre xs rest ret dot semi brace fuel x Hret Hdot Hsemi Hbrace Hexpr.
  assert (Hshape : forall term,
             pre ++ ret :: xs ++ term :: rest = (pre ++ ret :: xs) ++ term :: rest).
  { intros term. rewrite <- app_assoc. reflexivity. }
  assert (Hend : List.length (pre ++ ret :: xs) = List.length pre + 1 + List.length xs).
  { rewrite length_app. cbn [List.length]. lia. }
  assert (Nd : neutral dot = true) by (unfold neutral; rewrite Hdot; reflexivity).
  assert (Ns : neutral semi = true) by (unfold neutral; rewrite Hsemi; reflexivity).
  assert (Nb : neutral brace = true) by (unfold neutral; rewrite Hbrace; reflexivity).
  assert (Hpeek_ret : forall term,
             Parser._peek (pre ++ ret :: xs ++ term :: rest) (List.length pre) = Ok ret)
    by (intros term; apply peek_middle).
  assert (Hpeek_term : forall term,
             Parser._peek (pre ++ ret :: xs ++ term :: rest)
               (List.length pre + 1 + List.length xs) = Ok term).
  { intros term. rewrite Hshape, <- Hend. apply peek_middle. }
  assert (Hexpr_any : forall term,
             neutral term = true ->
             Parser.parse_expr (pre ++ ret :: xs ++ term :: rest) fuel
               (List.length pre + 1)
             = Ok (x, List.length pre + 1 + List.length xs)).
  { intros term Nt.
    destruct (expression_parsers_blind
                (pre ++ ret :: xs ++ dot :: rest) (pre ++ ret :: xs ++ term :: rest)
                ltac:(rewrite !Hshape; apply blind_one_terminator; assumption) fuel)
      as (Hblind & _).
    apply Hblind. exact Hexpr. }
  repeat split.
  - rewrite (parse_stmt_return _ fuel _ ret x _ (Hpeek_ret dot) Hret (Hexpr_any dot Nd)).
    rewrite (match_taken _ _ _ dot (Hpeek_term dot)) by (rewrite Hdot; reflexivity).
    reflexivity.
  - rewrite (parse_stmt_return _ fuel _ ret x _ (Hpeek_ret semi) Hret (Hexpr_any semi Ns)).
    rewrite (match_taken _ _ _ semi (Hpeek_term semi)) by (rewrite Hsemi; reflexivity).
    reflexivity.
  - rewrite (parse_stmt_return _ fuel _ ret x _ (Hpeek_ret brace) Hret
               (Hexpr_any brace Nb)).
    rewrite (match_left _ _ _ brace (Hpeek_term brace)) by (rewrite Hbrace; reflexivity).
    reflexivity.
Qed.

(** [{ return a + b . }], [{ return a + b ; }] and [{ return a + b }]. *)
Example return_terminators_sample :
  Parser.parse_stmt
    ([tok "BraceL"] ++ tok "Return" :: [ident "a"; tok "AddOp"; ident "b"]
       ++ tok "Dot" :: [tok "BraceR"; tok "EOF"]) 21 1
  = Ok (ReturnStmt (Some (Binary "AddOp" (Identifier "a") (Identifier "b"))), 6)
  /\ Parser.parse_stmt
       ([tok "BraceL"] ++ tok "Return" :: [ident "a"; tok "AddOp"; ident "b"]
          ++ tok "Semicolon" :: [tok "BraceR"; tok "EOF"]) 21 1
     = Ok (ReturnStmt (Some (Binary "AddOp" (Identifier "a") (Identifier "b"))), 6)
  /\ Parser.parse_stmt
       ([tok "BraceL"] ++ tok "Return" :: [ident "a"; tok "AddOp"; ident "b"]
          ++ tok "BraceR" :: [tok "BraceR"; tok "EOF"]) 21 1
     = Ok (ReturnStmt (Some (Binary "AddOp" (Identifier "a") (Identifier "b"))), 5).
Proof.
  apply (return_terminators_parse_alike
           [tok "BraceL"] [ident "a"; tok "AddOp"; ident "b"]
           [tok "BraceR"; tok "EOF"]
           (tok "Return") (tok "Dot") (tok "Semicolon") (tok "BraceR") 20
           (Binary "AddOp" (Identifier "a") (Identifier "b")));
    vm_compute; reflexivity.
Qed.

(** [{ return . }] parses, [{ return }] does not: a [return] without an
    expression is recognized by the terminator that follows it. *)
Example bare_return_before_brace :
  Parser.parse [tok "BraceL"; tok "Return"; tok "Dot"; tok "BraceR"; tok "EOF"] 10
  = Ok (Program.mk [ItemStmt (BlockTuple [ReturnStmt None])])
  /\ Parser.parse [tok "BraceL"; tok "Return"; tok "BraceR"; tok "EOF"] 30
     = Raise (ExpectedExpr "Expected primary expression, got BraceR at (1, 1)").
Proof. split; vm_compute; reflexivity. Qed.

(** *** A [return] without an expression *)

(** No expression starts with a terminator: [parse_primary] refuses it. *)
Lemma parse_expr_refuses_terminator (tokens : list Token.t) (fuel pos : nat)
    (term : Token.t) :
  Parser._peek tokens pos = Ok term ->
  neutral term = true ->
  Parser.parse_expr tokens (11 + fuel) pos
  = Raise (ExpectedExpr
             ("Expected primary expression, got " +:+ Token.type term
              +:+ " at " +:+ fmt_pos (Token.pos term))).
Proof.
  intros Hpeek Hterm.
  assert (Hkind : Token.type term = "Dot" \/ Token.type term = "Semicolon"
                  \/ Token.type term = "BraceR").
  { unfold neutral, str_in in Hterm. cbn [existsb] in Hterm.
    rewrite !orb_true_iff in Hterm.
    destruct Hterm as [H | [H | [H | H]]]; [| | | discriminate H];
      apply String.eqb_eq in H; auto. }
  set (refusal := Raise (ExpectedExpr
                           ("Expected primary expression, got " +:+ Token.type term
                            +:+ " at " +:+ fmt_pos (Token.pos term)))).
  assert (Hmatch : forall types,
             str_in (Token.type term) types = false ->
             Parser.match_ tokens types pos = Ok (None, pos)).
  { intros types Hout. unfold Parser.match_. rewrite Hpeek. cbn [bind].
    rewrite Hout. reflexivity. }
  assert (H1 : forall n, Parser.parse_primary tokens (S n) pos = refusal).
  { intros n. cbn [Parser.parse_primary]. rewrite Hpeek. cbn [bind].
    unfold refusal. destruct Hkind as [H | [H | H]]; rewrite H; reflexivity. }
  assert (H2 : forall n, Parser.parse_call tokens (2 + n) pos = refusal).
  { intros n. cbn [Nat.add Parser.parse_call]. rewrite H1. reflexivity. }
  assert (H3 : forall n, Parser.parse_unary tokens (3 + n) pos = refusal).
  { intros n. change (3 + n) with (S (2 + n)). cbn [Parser.parse_unary].
    rewrite !Hmatch by (destruct Hkind as [H | [H | H]]; rewrite H; reflexivity).
    cbn [bind]. rewrite !Hmatch
      by (destruct Hkind as [H | [H | H]]; rewrite H; reflexivity).
    cbn [bind]. apply H2. }
  assert (H4 : forall n, Parser.parse_mul tokens (4 + n) pos = refusal).
  { intros n. change (4 + n) with (S (3 + n)). cbn [Parser.parse_mul].
    rewrite H3. reflexivity. }
  assert (H5 : forall n, Parser.parse_add tokens (5 + n) pos = refusal).
  { intros n. change (5 + n) with (S (4 + n)). cbn [Parser.parse_add].
    rewrite H4. reflexivity. }
  assert (H6 : forall n, Parser.parse_comparison tokens (6 + n) pos = refusal).
  { intros n. change (6 + n) with (S (5 + n)). cbn [Parser.parse_comparison].
    rewrite H5. reflexivity. }
  assert (H7 : forall n, Parser.parse_equality tokens (7 + n) pos = refusal).
  { intros n. change (7 + n) with (S (6 + n)). cbn [Parser.parse_equality].
    rewrite H6. reflexivity. }
  assert (H8 : forall n, Parser.parse_logical_and tokens (8 + n) pos = refusal).
  { intros n. change (8 + n) with (S (7 + n)). cbn [Parser.parse_logical_and].
    rewrite H7. reflexivity. }
  assert (H9 : forall n, Parser.parse_logical_or tokens (9 + n) pos = refusal).
  { intros n. change (9 + n) with (S (8 + n)). cbn [Parser.parse_logical_or].
    rewrite H8. reflexivity. }
  assert (H10 : forall n, Parser.parse_assignment tokens (10 + n) pos = refusal).
  { intros n. change (10 + n) with (S (9 + n)). cbn [Parser.parse_assignment].
    rewrite H9. reflexivity. }
  change (11 + fuel) with (S (10 + fuel)). cbn [Parser.parse_expr]. apply H10.
Qed.

(** [break] ends in the three ways: the period and the semicolon are
    consumed, the brace is left for the enclosing block. *)
Lemma break_terminators_parse_alike (tokens : list Token.t) (fuel pos : nat)
    (brk term : Token.t) :
  Parser._peek tokens pos = Ok brk ->
  Token.type brk = "Break" \/ Token.type brk = "toro" ->
  Parser._peek tokens (pos + 1) = Ok term ->
  (Token.type term = "Dot" \/ Token.type term = "Semicolon" ->
   Parser.parse_stmt tokens (S fuel) pos = Ok (BreakStmt, pos + 2))
  /\ (Token.type term = "BraceR" ->
      Parser.parse_stmt tokens (S fuel) pos = Ok (BreakStmt, pos + 1)).
Proof.
  intros Hpeek Hbrk Hnext.
  assert (Hhead : Parser.parse_stmt tokens (S fuel) pos
                  = (let* (_, p) := Parser.match_ tokens ["Dot"; "Semicolon"] (pos + 1) in
                     Ok (BreakStmt, p))).
  { cbn [Parser.parse_stmt]. unfold Parser.next. rewrite Hpeek. cbn [bind].
    destruct Hbrk as [-> | ->]; reflexivity. }
  rewrite Hhead. split; intros Hterm.
  - rewrite (match_taken _ _ _ term Hnext)
      by (destruct Hterm as [-> | ->]; reflexivity).
    cbn [bind]. rewrite <- Nat.add_assoc. reflexivity.
  - rewrite (match_left _ _ _ term Hnext) by (rewrite Hterm; reflexivity).
    reflexivity.
Qed.

(** C9, where the code departs from it: [return] and [wapsi] without an
    expression are a statement when a period or a semicolon follows, but
    before a closing brace, the third way to end a statement, [parse_stmt]
    takes the brace for the start of the returned expression and raises
    [ExpectedExpr]. *)
Theorem C9_bare_return_before_a_closing_brace_is_refused :
  forall (tokens : list Token.t) (fuel pos : nat) (ret term : Token.t),
    Parser._peek tokens pos = Ok ret ->
    Token.type ret = "Return" \/ Token.type ret = "wapsi" ->
    Parser._peek tokens (pos + 1) = Ok term ->
    (Token.type term = "Dot" \/ Token.type term = "Semicolon" ->
     Parser.parse_stmt tokens (S fuel) pos = Ok (ReturnStmt None, pos + 2))
    /\ (Token.type term = "BraceR" ->
        Parser.parse_stmt tokens (12 + fuel) pos
        = Raise (ExpectedExpr
                   ("Expected primary expression, got BraceR at "
                    +:+ fmt_pos (Token.pos term)))).
Proof.
  intros tokens fuel pos ret term Hpeek Hret Hnext.
  assert (Hhead : forall n,
             Parser.parse_stmt tokens (S n) pos
             = (let* after := Parser._peek tokens (pos + 1) in
                if str_in (Token.type after) ["Dot"; "Semicolon"] then
                  let* (_, p) := Parser.match_ tokens ["Dot"; "Semicolon"] (pos + 1) in
                  Ok (ReturnStmt None, p)
                else
                  let* (expr, p) := Parser.parse_expr tokens n (pos + 1) in
                  let* (_, p) := Parser.match_ tokens ["Dot"; "Semicolon"] p in
                  Ok (ReturnStmt (Some expr), p))).
  { intros n. cbn [Parser.parse_stmt]. unfold Parser.next. rewrite Hpeek. cbn [bind].
    destruct Hret as [-> | ->]; reflexivity. }
  split; intros Hterm.
  - rewrite Hhead, Hnext. cbn [bind].
    assert (Hin : str_in (Token.type term) ["Dot"; "Semicolon"] = true)
      by (destruct Hterm as [-> | ->]; reflexivity).
    rewrite Hin.
    rewrite (match_taken _ _ _ term Hnext Hin)
      by (destruct Hterm as [-> | ->]; reflexivity).
    cbn [bind]. rewrite <- Nat.add_assoc. reflexivity.
  - change (12 + fuel) with (S (11 + fuel)). rewrite Hhead, Hnext. cbn [bind].
    rewrite (parse_expr_refuses_terminator tokens fuel (pos + 1) term Hnext)
      by (unfold neutral; rewrite Hterm; reflexivity).
    rewrite Hterm. reflexivity.
Qed.

(** [function int f() { return }]: the statement of the body, which starts
    at the seventh token. *)
Lemma C9_witness :
  Parser.parse_stmt
    [tok "Function"; tok "Int"; ident "f"; tok "ParenL"; tok "ParenR";
     tok "BraceL"; tok "Return"; tok "BraceR"; tok "EOF"] 12 6
  = Raise (ExpectedExpr "Expected primary expression, got BraceR at (1, 1)").
Proof.
  apply (C9_bare_return_before_a_closing_brace_is_refused
           [tok "Function"; tok "Int"; ident "f"; tok "ParenL"; tok "ParenR";
            tok "BraceL"; tok "Return"; tok "BraceR"; tok "EOF"] 0 6
           (tok "Return") (tok "BraceR")).
  - vm_compute. reflexivity.
  - left. reflexivity.
  - vm_compute. reflexivity.
  - reflexivity.
Defined.

(** [function int f() { return . }] parses, [function int f() { return }]
    does not, while [function int f() { break }] does. *)
Example bare_return_in_a_function_body :
  Parser.parse
    [tok "Function"; tok "Int"; ident "f"; tok "ParenL"; tok "ParenR";
     tok "BraceL"; tok "Return"; tok "Dot"; tok "BraceR"; tok "EOF"] 30
  = Ok (Program.mk [ItemFnDecl (FnDecl.mk "Int" "f" [] [ReturnStmt None])])
  /\ Parser.parse
       [tok "Function"; tok "Int"; ident "f"; tok "ParenL"; tok "ParenR";
        tok "BraceL"; tok "Return"; tok "BraceR"; tok "EOF"] 30
     = Raise (ExpectedExpr "Expected primary expression, got BraceR at (1, 1)")
  /\ Parser.parse
       [tok "Function"; tok "Int"; ident "f"; tok "ParenL"; tok "ParenR";
        tok "BraceL"; tok "Break"; tok "BraceR"; tok "EOF"] 30
     = Ok (Program.mk [ItemFnDecl (FnDecl.mk "Int" "f" [] [BreakStmt])]).
Proof. repeat split; vm_compute; reflexivity. Qed.

(** *** Every method consumes tokens of the list, one after the other *)

Section Progress.
Variable tokens : list Token.t.

Lemma next_steps (pos : nat) (tok : Token.t) (pos' : nat) :
  Parser.next tokens pos = Ok (tok, pos') -> steps tokens pos pos'.
Proof.
  unfold Parser.next, Parser._peek. intros H.
  destruct (Nat.leb_spec (List.length tokens) pos) as [Hle | Hlt].
  - discriminate H.
  - apply bind_Ok_inv in H as [t [_ H]].
    destruct (String.eqb (Token.type t) "EOF"); [discriminate|].
    injection H as _ <-. unfold steps. lia.
Qed.

Lemma match_stays (types : list string) (pos : nat) (m : option Token.t) (pos' : nat) :
  Parser.match_ tokens types pos = Ok (m, pos') ->
  match m with
  | Some _ => steps tokens pos pos'
  | None => pos' = pos
  end.
Proof.
  unfold Parser.match_. intros H. apply bind_Ok_inv in H as [t [_ H]].
  destruct (str_in (Token.type t) types).
  - apply bind_Ok_inv in H as [[t' p] [Hn H]]. injection H as <- <-.
    apply (next_steps _ _ _ Hn).
  - injection H as <- <-. reflexivity.
Qed.

Lemma expect_steps (ttype : string) (pos : nat) (tok : Token.t) (pos' : nat) :
  Parser.expect tokens ttype pos = Ok (tok, pos') -> steps tokens pos pos'.
Proof.
  unfold Parser.expect. intros H. apply bind_Ok_inv in H as [t [_ H]].
  destruct (String.eqb (Token.type t) ttype); [|discriminate].
  apply (next_steps _ _ _ H).
Qed.

Lemma expect_identifier_steps (pos : nat) (name : string) (pos' : nat) :
  Parser.expect_identifier tokens pos = Ok (name, pos') -> steps tokens pos pos'.
Proof.
  unfold Parser.expect_identifier. intros H. apply bind_Ok_inv in H as [t [_ H]].
  destruct (String.eqb (Token.type t) "Identifier"); [|discriminate].
  apply bind_Ok_inv in H as [[t' p] [Hn H]]. injection H as _ <-.
  apply (next_steps _ _ _ Hn).
Qed.

(** Take a successful method body apart, call by call, and replace each
    call by what it says about the positions. *)
Ltac progress_step :=
  match goal with
  | H : Raise _ = Ok _ |- _ => discriminate H
  | H : Ok _ = Ok _ |- _ => injection H as ? ?; subst
  | H : bind _ _ = Ok _ |- _ =>
      let E := fresh "E" in
      apply bind_Ok_inv in H as [? [E H]]
  | H : (let '(_, _) := ?a in _) = Ok _ |- _ => destruct a
  | H : (if ?b then _ else _) = Ok _ |- _ => destruct b
  | H : match ?x with _ => _ end = Ok _ |- _ => destruct x
  | H : Parser.next tokens _ = Ok _ |- _ => apply next_steps in H
  | H : Parser.match_ tokens _ _ = Ok (?m, _) |- _ =>
      apply match_stays in H; try (is_var m; destruct m)
  | H : Parser.expect tokens _ _ = Ok _ |- _ => apply expect_steps in H
  | H : Parser.expect_identifier tokens _ = Ok _ |- _ =>
      apply expect_identifier_steps in H
  | H : Parser._peek tokens _ = Ok _ |- _ => clear H
  | IH : forall _ _ _, _ = Ok _ -> _, H : _ = Ok _ |- _ => apply IH in H
  | IH : forall _ _ _ _, _ = Ok _ -> _, H : _ = Ok _ |- _ => apply IH in H
  end.

Ltac progress_walk := repeat progress_step; unfold stays, steps in *; lia.

Lemma expression_parsers_progress (fuel : nat) :
  (forall pos x pos', Parser.parse_expr tokens fuel pos = Ok (x, pos') ->
                      steps tokens pos pos')
  /\ (forall pos x pos', Parser.parse_assignment tokens fuel pos = Ok (x, pos') ->
                         steps tokens pos pos')
  /\ (forall pos x pos', Parser.parse_logical_or tokens fuel pos = Ok (x, pos') ->
                         steps tokens pos pos')
  /\ (forall node pos x pos',
         Parser.parse_logical_or_loop tokens fuel node pos = Ok (x, pos') ->
         stays tokens pos pos')
  /\ (forall pos x pos', Parser.parse_logical_and tokens fuel pos = Ok (x, pos') ->
                         steps tokens pos pos')
  /\ (forall node pos x pos',
         Parser.parse_logical_and_loop tokens fuel node pos = Ok (x, pos') ->
         stays tokens pos pos')
  /\ (forall pos x pos', Parser.parse_equality tokens fuel pos = Ok (x, pos') ->
                         steps tokens pos pos')
  /\ (forall node pos x pos',
         Parser.parse_equality_loop tokens fuel node pos = Ok (x, pos') ->
         stays tokens pos pos')
  /\ (forall pos x pos', Parser.parse_comparison tokens fuel pos = Ok (x, pos') ->
                         steps tokens pos pos')
  /\ (forall node pos x pos',
         Parser.parse_comparison_loop tokens fuel node pos = Ok (x, pos') ->
         stays tokens pos pos')
  /\ (forall pos x pos', Parser.parse_add tokens fuel pos = Ok (x, pos') ->
                         steps tokens pos pos')
  /\ (forall node pos x pos',
         Parser.parse_add_loop tokens fuel node pos = Ok (x, pos') ->
         stays tokens pos pos')
  /\ (forall pos x pos', Parser.parse_mul tokens fuel pos = Ok (x, pos') ->
                         steps tokens pos pos')
  /\ (forall node pos x pos',
         Parser.parse_mul_loop tokens fuel node pos = Ok (x, pos') ->
         stays tokens pos pos')
  /\ (forall pos x pos', Parser.parse_unary tokens fuel pos = Ok (x, pos') ->
                         steps tokens pos pos')
  /\ (forall pos x pos', Parser.parse_call tokens fuel pos = Ok (x, pos') ->
                         steps tokens pos pos')
  /\ (forall node pos x pos',
         Parser.parse_call_loop tokens fuel node pos = Ok (x, pos') ->
         stays tokens pos pos')
  /\ (forall args pos x pos',
         Parser.parse_args_loop tokens fuel args pos = Ok (x, pos') ->
         stays tokens pos pos')
  /\ (forall pos x pos', Parser.parse_primary tokens fuel pos = Ok (x, pos') ->
                         steps tokens pos pos').
Proof.
  induction fuel as [|fuel IH].
  - repeat match goal with |- _ /\ _ => split end; intros; discriminate.
  - destruct IH as (I1 & I2 & I3 & I4 & I5 & I6 & I7 & I8 & I9 & I10 & I11 & I12
                    & I13 & I14 & I15 & I16 & I17 & I18 & I19).
    repeat match goal with |- _ /\ _ => split end; intros until pos'; intros H;
      cbn [Parser.parse_expr Parser.parse_assignment Parser.parse_logical_or
           Parser.parse_logical_or_loop Parser.parse_logical_and
           Parser.parse_logical_and_loop Parser.parse_equality
           Parser.parse_equality_loop Parser.parse_comparison
           Parser.parse_comparison_loop Parser.parse_add Parser.parse_add_loop
           Parser.parse_mul Parser.parse_mul_loop Parser.parse_unary
           Parser.parse_call Parser.parse_call_loop Parser.parse_args_loop
           Parser.parse_primary] in H;
      progress_walk.
Qed.

Lemma parse_expr_steps (fuel pos : nat) (x : Expr) (pos' : nat) :
  Parser.parse_expr tokens fuel pos = Ok (x, pos') -> steps tokens pos pos'.
Proof. apply expression_parsers_progress. Qed.

Lemma parse_var_decl_steps (fuel pos : nat) (var : VarDecl.t) (pos' : nat) :
  Parser.parse_var_decl tokens fuel pos = Ok (var, pos') -> steps tokens pos pos'.
Proof.
  pose proof (parse_expr_steps fuel) as Hexpr.
  unfold Parser.parse_var_decl. intros H. progress_walk.
Qed.

Lemma parse_param_steps (pos : nat) (param : Param.t) (pos' : nat) :
  Parser.parse_param tokens pos = Ok (param, pos') -> steps tokens pos pos'.
Proof. unfold Parser.parse_param. intros H. progress_walk. Qed.

Lemma statement_parsers_progress (fuel : nat) :
  (forall pos x pos', Parser.parse_stmt tokens fuel pos = Ok (x, pos') ->
                      steps tokens pos pos')
  /\ (forall block pos x pos',
         Parser.parse_block tokens fuel block pos = Ok (x, pos') ->
         stays tokens pos pos')
  /\ (forall pos x pos', Parser.parse_if tokens fuel pos = Ok (x, pos') ->
                         steps tokens pos pos')
  /\ (forall pos x pos', Parser.parse_for tokens fuel pos = Ok (x, pos') ->
                         steps tokens pos pos').
Proof.
  induction fuel as [|fuel IH].
  - repeat match goal with |- _ /\ _ => split end; intros; discriminate.
  - destruct IH as (I1 & I2 & I3 & I4).
    pose proof (parse_expr_steps fuel) as Hexpr.
    pose proof (parse_var_decl_steps fuel) as Hvar.
    repeat match goal with |- _ /\ _ => split end; intros until pos'; intros H;
      cbn [Parser.parse_stmt Parser.parse_block Parser.parse_if Parser.parse_for] in H;
      progress_walk.
Qed.

Lemma parse_params_loop_stays (fuel : nat) :
  forall params pos x pos',
    Parser.parse_params_loop tokens fuel params pos = Ok (x, pos') ->
    stays tokens pos pos'.
Proof.
  pose proof parse_param_steps as Hparam.
  induction fuel as [|fuel IH]; intros params pos x pos' H; [discriminate|].
  cbn [Parser.parse_params_loop] in H. progress_walk.
Qed.

Lemma parse_fn_decl_steps (fuel pos : nat) (fn : FnDecl.t) (pos' : nat) :
  Parser.parse_fn_decl tokens fuel pos = Ok (fn, pos') -> steps tokens pos pos'.
Proof.
  pose proof parse_param_steps as Hparam.
  pose proof (parse_params_loop_stays fuel) as Hparams.
  destruct (statement_parsers_progress fuel) as (_ & Hblock & _).
  unfold Parser.parse_fn_decl. intros H. progress_walk.
Qed.

End Progress.

(** *** Enough fuel: every run of the model ends with a value or an
    exception

    The fuel is the budget of the model for the loops and the calls of
    the parser.  It does not stand for the recursion limit of the
    interpreter, which the model leaves out. *)

Lemma settled_bind {A B : Type} (m : result ParseExc A) (k : A -> result ParseExc B) :
  settled m = true ->
  (forall a, m = Ok a -> settled (k a) = true) ->
  settled (bind m k) = true.
Proof. intros Hm Hk. destruct m as [a|e]; [apply Hk; reflexivity | exact Hm]. Qed.

Section Settled.
Variable tokens : list Token.t.

Lemma peek_settled (pos : nat) : settled (Parser._peek tokens pos) = true.
Proof. destruct (peek_total tokens pos) as [tok ->]. reflexivity. Qed.

Lemma next_settled (pos : nat) : settled (Parser.next tokens pos) = true.
Proof.
  unfold Parser.next. destruct (peek_total tokens pos) as [tok ->]. cbn [bind].
  destruct (String.eqb (Token.type tok) "EOF"); reflexivity.
Qed.

Lemma match_settled (types : list string) (pos : nat) :
  settled (Parser.match_ tokens types pos) = true.
Proof.
  unfold Parser.match_. destruct (peek_total tokens pos) as [tok ->]. cbn [bind].
  destruct (str_in (Token.type tok) types); [|reflexivity].
  pose proof (next_settled pos) as Hn.
  destruct (Parser.next tokens pos) as [[t p]|e]; [reflexivity | exact Hn].
Qed.

Lemma expect_settled (ttype : string) (pos : nat) :
  settled (Parser.expect tokens ttype pos) = true.
Proof.
  unfold Parser.expect. destruct (peek_total tokens pos) as [tok ->]. cbn [bind].
  destruct (String.eqb (Token.type tok) ttype); [apply next_settled | reflexivity].
Qed.

Lemma expect_identifier_settled (pos : nat) :
  settled (Parser.expect_identifier tokens pos) = true.
Proof.
  unfold Parser.expect_identifier. destruct (peek_total tokens pos) as [tok ->].
  cbn [bind]. destruct (String.eqb (Token.type tok) "Identifier"); [|reflexivity].
  pose proof (next_settled pos) as Hn.
  destruct (Parser.next tokens pos) as [[t p]|e]; [reflexivity | exact Hn].
Qed.

(** What a successful call says about the positions. *)
Ltac note_progress E :=
  first
    [ apply next_steps in E
    | apply expect_steps in E
    | apply expect_identifier_steps in E
    | match type of E with
      | Parser.match_ _ _ _ = Ok (?m, _) =>
          apply match_stays in E; try (is_var m; destruct m)
      end
    | match goal with
      | P : forall _ _ _, _ = Ok _ -> _ |- _ => apply P in E
      | P : forall _ _ _ _, _ = Ok _ -> _ |- _ => apply P in E
      end
    | clear E ].

(** The fuel left is enough for the call in the goal. *)
Ltac enough_fuel :=
  first
    [ apply peek_settled | apply next_settled | apply match_settled
    | apply expect_settled | apply expect_identifier_settled
    | match goal with
      | IH : forall _, settled _ = true |- settled _ = true => apply IH
      | IH : forall _, _ -> settled _ = true |- settled _ = true =>
          apply IH; unfold stays, steps in *; cbn beta iota in *; lia
      | IH : forall _ _, _ -> settled _ = true |- settled _ = true =>
          apply IH; unfold stays, steps in *; cbn beta iota in *; lia
      end ].

Ltac settle_step :=
  match goal with
  | |- settled (Ok _) = true => reflexivity
  | |- settled (Raise _) = true => reflexivity
  | |- settled (bind (bind _ _) _) = true => rewrite bind_assoc
  | |- settled (bind (if ?b then _ else _) _) = true => destruct b
  | |- settled (bind (match ?x with _ => _ end) _) = true => destruct x
  | |- settled (bind (Ok _) _) = true => cbn [bind]
  | |- settled (bind ?m _) = true =>
      let E := fresh "E" in
      let a := fresh "a" in
      apply settled_bind;
      [ enough_fuel
      | intros a E; try (destruct a as [? ?]); note_progress E; cbn beta iota ]
  | |- settled (let '(_, _) := ?a in _) = true => destruct a
  | |- settled (if ?b then _ else _) = true => destruct b
  | |- settled (match ?x with _ => _ end) = true => destruct x
  | |- settled _ = true => enough_fuel
  end.

Lemma expression_parsers_settle (fuel : nat) :
  (forall pos, 20 * (List.length tokens - pos) + 19 < fuel ->
               settled (Parser.parse_expr tokens fuel pos) = true)
  /\ (forall pos, 20 * (List.length tokens - pos) + 18 < fuel ->
                  settled (Parser.parse_assignment tokens fuel pos) = true)
  /\ (forall pos, 20 * (List.length tokens - pos) + 17 < fuel ->
                  settled (Parser.parse_logical_or tokens fuel pos) = true)
  /\ (forall node pos, 20 * (List.length tokens - pos) + 16 < fuel ->
                       settled (Parser.parse_logical_or_loop tokens fuel node pos) = true)
  /\ (forall pos, 20 * (List.length tokens - pos) + 15 < fuel ->
                  settled (Parser.parse_logical_and tokens fuel pos) = true)
  /\ (forall node pos, 20 * (List.length tokens - pos) + 14 < fuel ->
                       settled (Parser.parse_logical_and_loop tokens fuel node pos) = true)
  /\ (forall pos, 20 * (List.length tokens - pos) + 13 < fuel ->
                  settled (Parser.parse_equality tokens fuel pos) = true)
  /\ (forall node pos, 20 * (List.length tokens - pos) + 12 < fuel ->
                       settled (Parser.parse_equality_loop tokens fuel node pos) = true)
  /\ (forall pos, 20 * (List.length tokens - pos) + 11 < fuel ->
                  settled (Parser.parse_comparison tokens fuel pos) = true)
  /\ (forall node pos, 20 * (List.length tokens - pos) + 10 < fuel ->
                       settled (Parser.parse_comparison_loop tokens fuel node pos) = true)
  /\ (forall pos, 20 * (List.length tokens - pos) + 9 < fuel ->
                  settled (Parser.parse_add tokens fuel pos) = true)
  /\ (forall node pos, 20 * (List.length tokens - pos) + 8 < fuel ->
                       settled (Parser.parse_add_loop tokens fuel node pos) = true)
  /\ (forall pos, 20 * (List.length tokens - pos) + 7 < fuel ->
                  settled (Parser.parse_mul tokens fuel pos) = true)
  /\ (forall node pos, 20 * (List.length tokens - pos) + 6 < fuel ->
                       settled (Parser.parse_mul_loop tokens fuel node pos) = true)
  /\ (forall pos, 20 * (List.length tokens - pos) + 5 < fuel ->
                  settled (Parser.parse_unary tokens fuel pos) = true)
  /\ (forall pos, 20 * (List.length tokens - pos) + 4 < fuel ->
                  settled (Parser.parse_call tokens fuel pos) = true)
  /\ (forall node pos, 20 * (List.length tokens - pos) + 3 < fuel ->
                       settled (Parser.parse_call_loop tokens fuel node pos) = true)
  /\ (forall args pos, 20 * (List.length tokens - pos) + 2 < fuel ->
                       settled (Parser.parse_args_loop tokens fuel args pos) = true)
  /\ (forall pos, 20 * (List.length tokens - pos) + 1 < fuel ->
                  settled (Parser.parse_primary tokens fuel pos) = true).
Proof.
  induction fuel as [|fuel IH].
  - repeat match goal with |- _ /\ _ => split end; intros; lia.
  - destruct IH as (I1 & I2 & I3 & I4 & I5 & I6 & I7 & I8 & I9 & I10 & I11 & I12
                    & I13 & I14 & I15 & I16 & I17 & I18 & I19).
    destruct (expression_parsers_progress tokens fuel)
      as (P1 & P2 & P3 & P4 & P5 & P6 & P7 & P8 & P9 & P10 & P11 & P12
          & P13 & P14 & P15 & P16 & P17 & P18 & P19).
    repeat match goal with |- _ /\ _ => split end; intros;
      cbn [Parser.parse_expr Parser.parse_assignment Parser.parse_logical_or
           Parser.parse_logical_or_loop Parser.parse_logical_and
           Parser.parse_logical_and_loop Parser.parse_equality
           Parser.parse_equality_loop Parser.parse_comparison
           Parser.parse_comparison_loop Parser.parse_add Parser.parse_add_loop
           Parser.parse_mul Parser.parse_mul_loop Parser.parse_unary
           Parser.parse_call Parser.parse_call_loop Parser.parse_args_loop
           Parser.parse_primary];
      repeat settle_step.
Qed.

Lemma parse_expr_settles (fuel pos : nat) :
  20 * (List.length tokens - pos) + 19 < fuel ->
  settled (Parser.parse_expr tokens fuel pos) = true.
Proof. apply expression_parsers_settle. Qed.

Lemma parse_var_decl_settles (fuel pos : nat) :
  20 * (List.length tokens - pos) + 19 < fuel ->
  settled (Parser.parse_var_decl tokens fuel pos) = true.
Proof.
  intros Hfuel. pose proof (parse_expr_settles fuel) as Hexpr.
  unfold Parser.parse_var_decl. repeat settle_step.
Qed.

Lemma parse_param_settles (pos : nat) :
  settled (Parser.parse_param tokens pos) = true.
Proof. unfold Parser.parse_param. repeat settle_step. Qed.

Lemma statement_parsers_settle (fuel : nat) :
  (forall pos, 20 * (List.length tokens - pos) + 22 < fuel ->
               settled (Parser.parse_stmt tokens fuel pos) = true)
  /\ (forall block pos, 20 * (List.length tokens - pos) + 23 < fuel ->
                        settled (Parser.parse_block tokens fuel block pos) = true)
  /\ (forall pos, 20 * (List.length tokens - pos) + 21 < fuel ->
                  settled (Parser.parse_if tokens fuel pos) = true)
  /\ (forall pos, 20 * (List.length tokens - pos) + 21 < fuel ->
                  settled (Parser.parse_for tokens fuel pos) = true).
Proof.
  induction fuel as [|fuel IH].
  - repeat match goal with |- _ /\ _ => split end; intros; lia.
  - destruct IH as (I1 & I2 & I3 & I4).
    destruct (statement_parsers_progress tokens fuel) as (P1 & P2 & P3 & P4).
    pose proof (parse_expr_settles fuel) as Hexpr.
    pose proof (parse_var_decl_settles fuel) as Hvar.
    pose proof (parse_expr_steps tokens fuel) as Pexpr.
    pose proof (parse_var_decl_steps tokens fuel) as Pvar.
    repeat match goal with |- _ /\ _ => split end; intros;
      cbn [Parser.parse_stmt Parser.parse_block Parser.parse_if Parser.parse_for];
      repeat settle_step.
Qed.

Lemma parse_params_loop_settles (fuel : nat) :
  forall params pos,
    20 * (List.length tokens - pos) + 1 < fuel ->
    settled (Parser.parse_params_loop tokens fuel params pos) = true.
Proof.
  pose proof parse_param_settles as Hparam.
  pose proof (parse_param_steps tokens) as Pparam.
  induction fuel as [|fuel IH]; intros params pos Hfuel; [lia|].
  cbn [Parser.parse_params_loop]. repeat settle_step.
Qed.

Lemma parse_fn_decl_settles (fuel pos : nat) :
  20 * (List.length tokens - pos) + 23 < fuel ->
  settled (Parser.parse_fn_decl tokens fuel pos) = true.
Proof.
  intros Hfuel.
  pose proof parse_param_settles as Hparam.
  pose proof (parse_param_steps tokens) as Pparam.
  pose proof (parse_params_loop_settles fuel) as Hparams.
  pose proof (parse_params_loop_stays tokens fuel) as Pparams.
  destruct (statement_parsers_settle fuel) as (_ & Hblock & _).
  destruct (statement_parsers_progress tokens fuel) as (_ & Pblock & _).
  unfold Parser.parse_fn_decl. repeat settle_step.
Qed.

Lemma parse_items_settles (fuel : nat) :
  forall items pos,
    20 * (List.length tokens - pos) + 24 < fuel ->
    settled (Parser.parse_items tokens fuel items pos) = true.
Proof.
  induction fuel as [|fuel IH]; intros items pos Hfuel; [lia|].
  pose proof (parse_fn_decl_settles fuel) as Hfn.
  pose proof (parse_fn_decl_steps tokens fuel) as Pfn.
  pose proof (parse_var_decl_settles fuel) as Hvar.
  pose proof (parse_var_decl_steps tokens fuel) as Pvar.
  destruct (statement_parsers_settle fuel) as (Hstmt & _).
  destruct (statement_parsers_progress tokens fuel) as (Pstmt & _).
  cbn [Parser.parse_items]. repeat settle_step.
Qed.

(** With fuel beyond [20 * len(tokens) + 24] the model of [parse] always
    ends as the method does. *)
Lemma parse_settles (fuel : nat) :
  20 * List.length tokens + 24 < fuel ->
  settled (Parser.parse tokens fuel) = true.
Proof.
  intros Hfuel. unfold Parser.parse.
  apply settled_bind.
  - apply parse_items_settles. lia.
  - intros [items pos] _. reflexivity.
Qed.

End Settled.

(** *** More fuel does not change a settled outcome *)

Section FuelMonotone.
Variable tokens : list Token.t.

Ltac mono_step :=
  match goal with
  | |- ?x = ?r -> settled ?r = true -> ?x = ?r => exact (fun H _ => H)
  | IH : _ |- _ = ?r -> settled ?r = true -> _ = ?r =>
      solve [intros ? ?; apply IH; assumption]
  | |- bind (bind _ _) _ = _ -> _ => rewrite !bind_assoc
  | |- bind (if ?b then _ else _) _ = _ -> _ => destruct b
  | |- bind (match ?x with _ => _ end) _ = _ -> _ => destruct x
  | |- bind (Ok _) _ = _ -> _ => cbn [bind]
  | |- bind ?m _ = ?r -> settled ?r = true -> bind ?m _ = ?r =>
      destruct m as [?|?]; cbn [bind]
  | |- bind ?m _ = ?r -> settled ?r = true -> _ =>
      let E := fresh "E" in
      let Hs := fresh "Hs" in
      destruct m as [?|?] eqn:E; cbn [bind];
      [ match goal with
        | IH : _ |- _ => apply IH in E; [rewrite E; cbn [bind] | reflexivity]
        end
      | intros <- Hs;
        match goal with
        | IH : _ |- _ => apply IH in E; [rewrite E; reflexivity | exact Hs]
        end ]
  | |- (let '(_, _) := ?a in _) = _ -> _ => destruct a
  | |- (if ?b then _ else _) = _ -> _ => destruct b
  | |- match ?x with _ => _ end = _ -> _ => destruct x
  end.

Lemma expression_parsers_monotone (fuel : nat) :
  (forall pos r, Parser.parse_expr tokens fuel pos = r -> settled r = true ->
                 Parser.parse_expr tokens (S fuel) pos = r)
  /\ (forall pos r, Parser.parse_assignment tokens fuel pos = r -> settled r = true ->
                    Parser.parse_assignment tokens (S fuel) pos = r)
  /\ (forall pos r, Parser.parse_logical_or tokens fuel pos = r -> settled r = true ->
                    Parser.parse_logical_or tokens (S fuel) pos = r)
  /\ (forall node pos r,
         Parser.parse_logical_or_loop tokens fuel node pos = r -> settled r = true ->
         Parser.parse_logical_or_loop tokens (S fuel) node pos = r)
  /\ (forall pos r, Parser.parse_logical_and tokens fuel pos = r -> settled r = true ->
                    Parser.parse_logical_and tokens (S fuel) pos = r)
  /\ (forall node pos r,
         Parser.parse_logical_and_loop tokens fuel node pos = r -> settled r = true ->
         Parser.parse_logical_and_loop tokens (S fuel) node pos = r)
  /\ (forall pos r, Parser.parse_equality tokens fuel pos = r -> settled r = true ->
                    Parser.parse_equality tokens (S fuel) pos = r)
  /\ (forall node pos r,
         Parser.parse_equality_loop tokens fuel node pos = r -> settled r = true ->
         Parser.parse_equality_loop tokens (S fuel) node pos = r)
  /\ (forall pos r, Parser.parse_comparison tokens fuel pos = r -> settled r = true ->
                    Parser.parse_comparison tokens (S fuel) pos = r)
  /\ (forall node pos r,
         Parser.parse_comparison_loop tokens fuel node pos = r -> settled r = true ->
         Parser.parse_comparison_loop tokens (S fuel) node pos = r)
  /\ (forall pos r, Parser.parse_add tokens fuel pos = r -> settled r = true ->
                    Parser.parse_add tokens (S fuel) pos = r)
  /\ (forall node pos r,
         Parser.parse_add_loop tokens fuel node pos = r -> settled r = true ->
         Parser.parse_add_loop tokens (S fuel) node pos = r)
  /\ (forall pos r, Parser.parse_mul tokens fuel pos = r -> settled r = true ->
                    Parser.parse_mul tokens (S fuel) pos = r)
  /\ (forall node pos r,
         Parser.parse_mul_loop tokens fuel node pos = r -> settled r = true ->
         Parser.parse_mul_loop tokens (S fuel) node pos = r)
  /\ (forall pos r, Parser.parse_unary tokens fuel pos = r -> settled r = true ->
                    Parser.parse_unary tokens (S fuel) pos = r)
  /\ (forall pos r, Parser.parse_call tokens fuel pos = r -> settled r = true ->
                    Parser.parse_call tokens (S fuel) pos = r)
  /\ (forall node pos r,
         Parser.parse_call_loop tokens fuel node pos = r -> settled r = true ->
         Parser.parse_call_loop tokens (S fuel) node pos = r)
  /\ (forall args pos r,
         Parser.parse_args_loop tokens fuel args pos = r -> settled r = true ->
         Parser.parse_args_loop tokens (S fuel) args pos = r)
  /\ (forall pos r, Parser.parse_primary tokens fuel pos = r -> settled r = true ->
                    Parser.parse_primary tokens (S fuel) pos = r).
Proof.
  induction fuel as [|fuel IH].
  - repeat match goal with |- _ /\ _ => split end; intros until r;
      intros <-; discriminate.
  - destruct IH as (I1 & I2 & I3 & I4 & I5 & I6 & I7 & I8 & I9 & I10 & I11 & I12
                    & I13 & I14 & I15 & I16 & I17 & I18 & I19).
    repeat match goal with |- _ /\ _ => split end; intros until r; intros H Hs;
      cbn [Parser.parse_expr Parser.parse_assignment Parser.parse_logical_or
           Parser.parse_logical_or_loop Parser.parse_logical_and
           Parser.parse_logical_and_loop Parser.parse_equality
           Parser.parse_equality_loop Parser.parse_comparison
           Parser.parse_comparison_loop Parser.parse_add Parser.parse_add_loop
           Parser.parse_mul Parser.parse_mul_loop Parser.parse_unary
           Parser.parse_call Parser.parse_call_loop Parser.parse_args_loop
           Parser.parse_primary] in H;
      remember (S fuel) as fuel' eqn:Hfuel' in *; clear Hfuel';
      cbn [Parser.parse_expr Parser.parse_assignment Parser.parse_logical_or
           Parser.parse_logical_or_loop Parser.parse_logical_and
           Parser.parse_logical_and_loop Parser.parse_equality
           Parser.parse_equality_loop Parser.parse_comparison
           Parser.parse_comparison_loop Parser.parse_add Parser.parse_add_loop
           Parser.parse_mul Parser.parse_mul_loop Parser.parse_unary
           Parser.parse_call Parser.parse_call_loop Parser.parse_args_loop
           Parser.parse_primary];
      revert H Hs; repeat mono_step.
Qed.

Lemma parse_expr_monotone (fuel pos : nat) (r : Parser.P Expr) :
  Parser.parse_expr tokens fuel pos = r -> settled r = true ->
  Parser.parse_expr tokens (S fuel) pos = r.
Proof. apply expression_parsers_monotone. Qed.

Lemma parse_var_decl_monotone (fuel pos : nat) (r : Parser.P VarDecl.t) :
  Parser.parse_var_decl tokens fuel pos = r -> settled r = true ->
  Parser.parse_var_decl tokens (S fuel) pos = r.
Proof.
  pose proof (parse_expr_monotone fuel) as Hexpr.
  unfold Parser.parse_var_decl. repeat mono_step.
Qed.

Lemma statement_parsers_monotone (fuel : nat) :
  (forall pos r, Parser.parse_stmt tokens fuel pos = r -> settled r = true ->
                 Parser.parse_stmt tokens (S fuel) pos = r)
  /\ (forall block pos r,
         Parser.parse_block tokens fuel block pos = r -> settled r = true ->
         Parser.parse_block tokens (S fuel) block pos = r)
  /\ (forall pos r, Parser.parse_if tokens fuel pos = r -> settled r = true ->
                    Parser.parse_if tokens (S fuel) pos = r)
  /\ (forall pos r, Parser.parse_for tokens fuel pos = r -> settled r = true ->
                    Parser.parse_for tokens (S fuel) pos = r).
Proof.
  induction fuel as [|fuel IH].
  - repeat match goal with |- _ /\ _ => split end; intros until r;
      intros <-; discriminate.
  - destruct IH as (I1 & I2 & I3 & I4).
    pose proof (parse_expr_monotone fuel) as Hexpr.
    pose proof (parse_var_decl_monotone fuel) as Hvar.
    repeat match goal with |- _ /\ _ => split end; intros until r; intros H Hs;
      cbn [Parser.parse_stmt Parser.parse_block Parser.parse_if Parser.parse_for] in H;
      remember (S fuel) as fuel' eqn:Hfuel' in *; clear Hfuel';
      cbn [Parser.parse_stmt Parser.parse_block Parser.parse_if Parser.parse_for];
      revert H Hs; repeat mono_step.
Qed.

Lemma parse_params_loop_monotone (fuel : nat) :
  forall params pos r,
    Parser.parse_params_loop tokens fuel params pos = r -> settled r = true ->
    Parser.parse_params_loop tokens (S fuel) params pos = r.
Proof.
  induction fuel as [|fuel IH]; intros params pos r H Hs.
  - subst r. discriminate Hs.
  - cbn [Parser.parse_params_loop] in H.
    remember (S fuel) as fuel' eqn:Hfuel' in *. clear Hfuel'.
    cbn [Parser.parse_params_loop]. revert H Hs. repeat mono_step.
Qed.

Lemma parse_fn_decl_monotone (fuel pos : nat) (r : Parser.P FnDecl.t) :
  Parser.parse_fn_decl tokens fuel pos = r -> settled r = true ->
  Parser.parse_fn_decl tokens (S fuel) pos = r.
Proof.
  pose proof (parse_params_loop_monotone fuel) as Hparams.
  destruct (statement_parsers_monotone fuel) as (_ & Hblock & _).
  unfold Parser.parse_fn_decl. repeat mono_step.
Qed.

Lemma parse_items_monotone (fuel : nat) :
  forall items pos r,
    Parser.parse_items tokens fuel items pos = r -> settled r = true ->
    Parser.parse_items tokens (S fuel) items pos = r.
Proof.
  induction fuel as [|fuel IH]; intros items pos r H Hs.
  - subst r. discriminate Hs.
  - pose proof (parse_fn_decl_monotone fuel) as Hfn.
    pose proof (parse_var_decl_monotone fuel) as Hvar.
    destruct (statement_parsers_monotone fuel) as (Hstmt & _).
    cbn [Parser.parse_items] in H.
    remember (S fuel) as fuel' eqn:Hfuel' in *. clear Hfuel'.
    cbn [Parser.parse_items]. revert H Hs. repeat mono_step.
Qed.

Lemma parse_monotone (fuel : nat) (r : result ParseExc Program.t) :
  Parser.parse tokens fuel = r -> settled r = true ->
  Parser.parse tokens (S fuel) = r.
Proof.
  pose proof (parse_items_monotone fuel) as Hitems.
  unfold Parser.parse. repeat mono_step.
Qed.

(** The outcome of [parse] is the same for every fuel beyond the bound. *)
Lemma parse_fuel_irrelevant (fuel : nat) :
  20 * List.length tokens + 24 < fuel ->
  Parser.parse tokens fuel = Parser.parse tokens (20 * List.length tokens + 25).
Proof.
  intros Hfuel.
  replace fuel with ((fuel - (20 * List.length tokens + 25))
                     + (20 * List.length tokens + 25)) by lia.
  induction (fuel - (20 * List.length tokens + 25)) as [|k IH]; [reflexivity|].
  cbn [Nat.add]. apply parse_monotone; [exact IH|].
  apply parse_settles. lia.
Qed.

End FuelMonotone.

(** *** [next] is only called on a token that was looked at *)

Lemma quiet_bind {A B : Type} (m : result ParseExc A) (k : A -> result ParseExc B) :
  raises_UnexpectedEOF m = false ->
  (forall a, raises_UnexpectedEOF (k a) = false) ->
  raises_UnexpectedEOF (bind m k) = false.
Proof. intros Hm Hk. destruct m as [a|e]; [apply Hk | exact Hm]. Qed.

Lemma str_in_not_EOF (t : string) (types : list string) :
  str_in t types = true ->
  str_in "EOF" types = false ->
  String.eqb t "EOF" = false.
Proof.
  intros Hin Hout. destruct (String.eqb_spec t "EOF") as [-> | _]; [|reflexivity].
  congruence.
Qed.

Section Quiet.
Variable tokens : list Token.t.

Lemma next_Ok (pos : nat) (tok : Token.t) :
  Parser._peek tokens pos = Ok tok ->
  String.eqb (Token.type tok) "EOF" = false ->
  Parser.next tokens pos = Ok (tok, pos + 1).
Proof. intros Hpeek Hne. unfold Parser.next. rewrite Hpeek. cbn [bind]. rewrite Hne. reflexivity. Qed.

Lemma match_quiet (types : list string) (pos : nat) :
  str_in "EOF" types = false ->
  raises_UnexpectedEOF (Parser.match_ tokens types pos) = false.
Proof.
  intros Hout. unfold Parser.match_.
  destruct (peek_total tokens pos) as [tok Htok]. rewrite Htok. cbn [bind].
  destruct (str_in (Token.type tok) types) eqn:Hin; [|reflexivity].
  rewrite (next_Ok pos tok Htok (str_in_not_EOF _ _ Hin Hout)). reflexivity.
Qed.

Lemma expect_quiet (ttype : string) (pos : nat) :
  String.eqb ttype "EOF" = false ->
  raises_UnexpectedEOF (Parser.expect tokens ttype pos) = false.
Proof.
  intros Hne. unfold Parser.expect.
  destruct (peek_total tokens pos) as [tok Htok]. rewrite Htok. cbn [bind].
  destruct (String.eqb_spec (Token.type tok) ttype) as [Heq | _]; [|reflexivity].
  rewrite (next_Ok pos tok Htok) by (rewrite Heq; exact Hne). reflexivity.
Qed.

Lemma expect_identifier_quiet (pos : nat) :
  raises_UnexpectedEOF (Parser.expect_identifier tokens pos) = false.
Proof.
  unfold Parser.expect_identifier.
  destruct (peek_total tokens pos) as [tok Htok]. rewrite Htok. cbn [bind].
  destruct (String.eqb_spec (Token.type tok) "Identifier") as [Heq | _]; [|reflexivity].
  rewrite (next_Ok pos tok Htok) by (rewrite Heq; reflexivity). reflexivity.
Qed.

(** The token in front of a call of [next] passed a test that [EOF] fails. *)
Ltac not_EOF :=
  first
    [ assumption
    | match goal with
      | Hin : str_in (Token.type ?tok) ?types = true
        |- String.eqb (Token.type ?tok) "EOF" = false =>
          apply (str_in_not_EOF _ types Hin); reflexivity
      | Heq : String.eqb (Token.type ?tok) ?c = true
        |- String.eqb (Token.type ?tok) "EOF" = false =>
          apply String.eqb_eq in Heq; rewrite Heq; reflexivity
      end ].

Ltac quiet_step :=
  match goal with
  | |- raises_UnexpectedEOF (Ok _) = false => reflexivity
  | |- raises_UnexpectedEOF (Raise _) = false => reflexivity
  | |- raises_UnexpectedEOF (bind (bind _ _) _) = false => rewrite bind_assoc
  | |- raises_UnexpectedEOF (bind (Ok _) _) = false => cbn [bind]
  | Htok : Parser._peek tokens ?pos = Ok _
    |- raises_UnexpectedEOF (bind (Parser._peek tokens ?pos) _) = false =>
      rewrite Htok; cbn [bind]
  | |- raises_UnexpectedEOF (bind (Parser._peek tokens ?pos) _) = false =>
      let tok := fresh "tok" in
      let Htok := fresh "Htok" in
      destruct (peek_total tokens pos) as [tok Htok]; rewrite Htok; cbn [bind]
  | Htok : Parser._peek tokens ?pos = Ok ?tok
    |- raises_UnexpectedEOF (bind (Parser.next tokens ?pos) _) = false =>
      rewrite (next_Ok pos tok Htok) by not_EOF; cbn [bind]
  | |- raises_UnexpectedEOF (bind (Parser.match_ tokens _ _) _) = false =>
      apply quiet_bind; [apply match_quiet; reflexivity | intros [? ?]]
  | |- raises_UnexpectedEOF (bind (Parser.expect tokens _ _) _) = false =>
      apply quiet_bind; [apply expect_quiet; reflexivity | intros [? ?]]
  | |- raises_UnexpectedEOF (bind (Parser.expect_identifier tokens _) _) = false =>
      apply quiet_bind; [apply expect_identifier_quiet | intros [? ?]]
  | |- raises_UnexpectedEOF (bind (if ?b then _ else _) _) = false =>
      let Hb := fresh "Hb" in destruct b eqn:Hb
  | |- raises_UnexpectedEOF (bind _ _) = false =>
      apply quiet_bind;
      [ match goal with
        | IH : _ |- _ => solve [eapply IH; first [eassumption | not_EOF]]
        | IH : _ |- _ => solve [apply IH]
        end
      | intros [? ?] ]
  | |- raises_UnexpectedEOF (if negb ?b then _ else _) = false =>
      let Hb := fresh "Hb" in destruct b eqn:Hb; cbn [negb]
  | |- raises_UnexpectedEOF (if ?b then _ else _) = false =>
      let Hb := fresh "Hb" in destruct b eqn:Hb
  | |- raises_UnexpectedEOF (match ?x with _ => _ end) = false => destruct x
  | IH : _ |- raises_UnexpectedEOF _ = false =>
      solve [eapply IH; first [eassumption | not_EOF]]
  | IH : _ |- raises_UnexpectedEOF _ = false => solve [apply IH]
  | |- raises_UnexpectedEOF (Parser.match_ tokens _ _) = false =>
      apply match_quiet; reflexivity
  | |- raises_UnexpectedEOF (Parser.expect tokens _ _) = false =>
      apply expect_quiet; reflexivity
  end.

Lemma expression_parsers_quiet (fuel : nat) :
  (forall pos, raises_UnexpectedEOF (Parser.parse_expr tokens fuel pos) = false)
  /\ (forall pos, raises_UnexpectedEOF (Parser.parse_assignment tokens fuel pos) = false)
  /\ (forall pos, raises_UnexpectedEOF (Parser.parse_logical_or tokens fuel pos) = false)
  /\ (forall node pos,
         raises_UnexpectedEOF (Parser.parse_logical_or_loop tokens fuel node pos) = false)
  /\ (forall pos, raises_UnexpectedEOF (Parser.parse_logical_and tokens fuel pos) = false)
  /\ (forall node pos,
         raises_UnexpectedEOF (Parser.parse_logical_and_loop tokens fuel node pos) = false)
  /\ (forall pos, raises_UnexpectedEOF (Parser.parse_equality tokens fuel pos) = false)
  /\ (forall node pos,
         raises_UnexpectedEOF (Parser.parse_equality_loop tokens fuel node pos) = false)
  /\ (forall pos, raises_UnexpectedEOF (Parser.parse_comparison tokens fuel pos) = false)
  /\ (forall node pos,
         raises_UnexpectedEOF (Parser.parse_comparison_loop tokens fuel node pos) = false)
  /\ (forall pos, raises_UnexpectedEOF (Parser.parse_add tokens fuel pos) = false)
  /\ (forall node pos,
         raises_UnexpectedEOF (Parser.parse_add_loop tokens fuel node pos) = false)
  /\ (forall pos, raises_UnexpectedEOF (Parser.parse_mul tokens fuel pos) = false)
  /\ (forall node pos,
         raises_UnexpectedEOF (Parser.parse_mul_loop tokens fuel node pos) = false)
  /\ (forall pos, raises_UnexpectedEOF (Parser.parse_unary tokens fuel pos) = false)
  /\ (forall pos, raises_UnexpectedEOF (Parser.parse_call tokens fuel pos) = false)
  /\ (forall node pos,
         raises_UnexpectedEOF (Parser.parse_call_loop tokens fuel node pos) = false)
  /\ (forall args pos,
         raises_UnexpectedEOF (Parser.parse_args_loop tokens fuel args pos) = false)
  /\ (forall pos, raises_UnexpectedEOF (Parser.parse_primary tokens fuel pos) = false).
Proof.
  induction fuel as [|fuel IH].
  - repeat match goal with |- _ /\ _ => split end; intros; reflexivity.
  - destruct IH as (I1 & I2 & I3 & I4 & I5 & I6 & I7 & I8 & I9 & I10 & I11 & I12
                    & I13 & I14 & I15 & I16 & I17 & I18 & I19).
    repeat match goal with |- _ /\ _ => split end; intros;
      cbn [Parser.parse_expr Parser.parse_assignment Parser.parse_logical_or
           Parser.parse_logical_or_loop Parser.parse_logical_and
           Parser.parse_logical_and_loop Parser.parse_equality
           Parser.parse_equality_loop Parser.parse_comparison
           Parser.parse_comparison_loop Parser.parse_add Parser.parse_add_loop
           Parser.parse_mul Parser.parse_mul_loop Parser.parse_unary
           Parser.parse_call Parser.parse_call_loop Parser.parse_args_loop
           Parser.parse_primary];
      repeat quiet_step.
Qed.

Lemma parse_expr_quiet (fuel pos : nat) :
  raises_UnexpectedEOF (Parser.parse_expr tokens fuel pos) = false.
Proof. apply expression_parsers_quiet. Qed.

Lemma parse_var_decl_quiet (fuel pos : nat) :
  raises_UnexpectedEOF (Parser.parse_var_decl tokens fuel pos) = false.
Proof.
  pose proof (parse_expr_quiet fuel) as Hexpr.
  unfold Parser.parse_var_decl. repeat quiet_step.
Qed.

Lemma parse_param_quiet (pos : nat) :
  raises_UnexpectedEOF (Parser.parse_param tokens pos) = false.
Proof. unfold Parser.parse_param. repeat quiet_step. Qed.

(** [parse_if] and [parse_for] start with [next]: their caller has looked
    at the keyword. *)
Lemma statement_parsers_quiet (fuel : nat) :
  (forall pos, raises_UnexpectedEOF (Parser.parse_stmt tokens fuel pos) = false)
  /\ (forall block pos,
         raises_UnexpectedEOF (Parser.parse_block tokens fuel block pos) = false)
  /\ (forall pos tok,
         Parser._peek tokens pos = Ok tok ->
         String.eqb (Token.type tok) "EOF" = false ->
         raises_UnexpectedEOF (Parser.parse_if tokens fuel pos) = false)
  /\ (forall pos tok,
         Parser._peek tokens pos = Ok tok ->
         String.eqb (Token.type tok) "EOF" = false ->
         raises_UnexpectedEOF (Parser.parse_for tokens fuel pos) = false).
Proof.
  induction fuel as [|fuel IH].
  - repeat match goal with |- _ /\ _ => split end; intros; reflexivity.
  - destruct IH as (I1 & I2 & I3 & I4).
    pose proof (parse_expr_quiet fuel) as Hexpr.
    pose proof (parse_var_decl_quiet fuel) as Hvar.
    repeat match goal with |- _ /\ _ => split end; intros;
      cbn [Parser.parse_stmt Parser.parse_block Parser.parse_if Parser.parse_for];
      repeat quiet_step.
Qed.

Lemma parse_params_loop_quiet (fuel : nat) :
  forall params pos,
    raises_UnexpectedEOF (Parser.parse_params_loop tokens fuel params pos) = false.
Proof.
  pose proof parse_param_quiet as Hparam.
  induction fuel as [|fuel IH]; intros params pos; [reflexivity|].
  cbn [Parser.parse_params_loop]. repeat quiet_step.
Qed.

Lemma parse_fn_decl_quiet (fuel pos : nat) :
  raises_UnexpectedEOF (Parser.parse_fn_decl tokens fuel pos) = false.
Proof.
  pose proof parse_param_quiet as Hparam.
  pose proof (parse_params_loop_quiet fuel) as Hparams.
  destruct (statement_parsers_quiet fuel) as (_ & Hblock & _).
  unfold Parser.parse_fn_decl. repeat quiet_step.
Qed.

Lemma parse_items_quiet (fuel : nat) :
  forall items pos,
    raises_UnexpectedEOF (Parser.parse_items tokens fuel items pos) = false.
Proof.
  induction fuel as [|fuel IH]; intros items pos; [reflexivity|].
  pose proof (parse_fn_decl_quiet fuel) as Hfn.
  pose proof (parse_var_decl_quiet fuel) as Hvar.
  destruct (statement_parsers_quiet fuel) as (Hstmt & _).
  cbn [Parser.parse_items]. repeat quiet_step.
Qed.

Lemma parse_quiet (fuel : nat) :
  raises_UnexpectedEOF (Parser.parse tokens fuel) = false.
Proof.
  pose proof (parse_items_quiet fuel) as Hitems.
  unfold Parser.parse. repeat quiet_step.
Qed.

End Quiet.

(** *** Token lists without an end marker *)

Lemma next_past_end (tokens : list Token.t) (pos : nat) :
  List.length tokens <= pos ->
  Parser.next tokens pos = Raise (UnexpectedEOF "Unexpected EOF").
Proof.
  intros Hle. unfold Parser.next. rewrite (peek_past_end tokens pos Hle).
  reflexivity.
Qed.

(** The claim C10 as stated fails: without an end marker, the empty list
    and the single token [5] parse to a [Program], and the lone keyword
    [return] fails with [ExpectedExpr]; none ends in [UnexpectedEOF]. *)
Lemma C10_counterexample :
  Parser.parse [] 1 = Ok (Program.mk [])
  /\ Parser.parse [int_lit 5] 20 = Ok (Program.mk [ItemStmt (ExprStmt (Literal (VInt 5)))])
  /\ Parser.parse [tok "Return"] 20
     = Raise (ExpectedExpr "Expected primary expression, got EOF at None")
  /\ ~ (exists msg, Parser.parse [] 1 = Raise (UnexpectedEOF msg)).
Proof.
  repeat split; try (vm_compute; reflexivity).
  intros [msg H]. vm_compute in H. discriminate H.
Qed.

(** C10 (amended): [_peek] never reads outside the list: at or past the
    end it returns the synthesized [EOF] token, where [next] raises
    [UnexpectedEOF]; but [parse] only calls [next] on a token it has looked
    at, so no run of [parse] ends in [UnexpectedEOF] or in an [IndexError],
    with or without an end marker; on the empty list the synthesized [EOF]
    ends the loop of [parse] with the empty [Program]. *)
Theorem C10_parser_never_reads_past_the_end :
  forall tokens : list Token.t,
    (forall pos,
        List.length tokens <= pos ->
        Parser._peek tokens pos = Ok (Token.mk "EOF" VNone None))
    /\ (forall pos,
           List.length tokens <= pos ->
           Parser.next tokens pos = Raise (UnexpectedEOF "Unexpected EOF"))
    /\ (forall pos, exists tok, Parser._peek tokens pos = Ok tok)
    /\ (forall fuel, raises_IndexError (Parser.parse tokens fuel) = false)
    /\ (forall fuel, raises_UnexpectedEOF (Parser.parse tokens fuel) = false)
    /\ (forall fuel, Parser.parse [] (S fuel) = Ok (Program.mk [])).
Proof.
  intros tokens.
  split; [apply peek_past_end|].
  split; [apply next_past_end|].
  split; [apply peek_total|].
  split; [intros fuel; apply parse_safe|].
  split; [intros fuel; apply parse_quiet|].
  intros fuel. reflexivity.
Qed.

Lemma C10_witness :
  Parser._peek [int_lit 5] 1 = Ok (Token.mk "EOF" VNone None)
  /\ Parser.next [int_lit 5] 3 = Raise (UnexpectedEOF "Unexpected EOF").
Proof.
  destruct (C10_parser_never_reads_past_the_end [int_lit 5])
    as (Hpeek & Hnext & _).
  split; [apply Hpeek; cbn; lia|].
  apply Hnext; cbn; lia.
Defined.

(** * Further properties *)

(** ** The resolver's frames after a walk *)

Lemma extends_refl (sc : ScopeNode.t) : extends sc sc.
Proof. unfold extends. auto. Qed.

Lemma extends_trans (a b c : ScopeNode.t) : extends a b -> extends b c -> extends a c.
Proof.
  unfold extends. intros (P1 & T1 & L1 & S1) (P2 & T2 & L2 & S2).
  repeat split; try congruence. etrans; eauto.
Qed.

Lemma try_define_symbol_extends (self : ScopeAnalyzer.t) (name kind type_tok : string)
    (params : option (list Param.t)) :
  exists self',
    ScopeAnalyzer.try_define_symbol self name kind type_tok params = Ok self'
    /\ extends (ScopeAnalyzer.current_scope self) (ScopeAnalyzer.current_scope self')
    /\ forall x,
        ScopeNode.symbols (ScopeAnalyzer.current_scope self') !! x
        = match ScopeNode.symbols (ScopeAnalyzer.current_scope self) !! x with
          | Some s => Some s
          | None =>
              if String.eqb name x
              then Some (Symbol.mk name kind type_tok params
                           (ScopeNode.level (ScopeAnalyzer.current_scope self)))
              else None
          end.
Proof.
  destruct (ScopeNode.symbols (ScopeAnalyzer.current_scope self) !! name)
    as [existing|] eqn:Hsym.
  - eexists. split; [apply (try_define_symbol_taken _ _ _ _ _ _ Hsym)|].
    cbn [ScopeAnalyzer.append_error ScopeAnalyzer.current_scope].
    split; [apply extends_refl|].
    intros x. destruct (ScopeNode.symbols (ScopeAnalyzer.current_scope self) !! x) eqn:Hx;
      [reflexivity|].
    destruct (String.eqb_spec name x) as [<- | _]; [congruence | reflexivity].
  - eexists. split.
    { rewrite (try_define_symbol_free _ _ _ _ _ Hsym).
      apply (define_symbol_free _ _ _ _ _ Hsym). }
    cbn [ScopeAnalyzer.current_scope ScopeNode.symbols ScopeNode.parent
         ScopeNode.scope_type ScopeNode.level].
    split.
    + unfold extends. cbn. repeat split. apply insert_subseteq. exact Hsym.
    + intros x. destruct (String.eqb_spec name x) as [<- | Hne].
      * rewrite lookup_insert_eq, Hsym. reflexivity.
      * rewrite lookup_insert_ne by exact Hne.
        destruct (ScopeNode.symbols (ScopeAnalyzer.current_scope self) !! x); reflexivity.
Qed.

Lemma visit_var_decl_extends (self : ScopeAnalyzer.t) (node : VarDecl.t) :
  exists self',
    ScopeAnalyzer.visit_var_decl self node = Ok self'
    /\ extends (ScopeAnalyzer.current_scope self) (ScopeAnalyzer.current_scope self')
    /\ forall x,
        ScopeNode.symbols (ScopeAnalyzer.current_scope self') !! x
        = match ScopeNode.symbols (ScopeAnalyzer.current_scope self) !! x with
          | Some s => Some s
          | None =>
              if String.eqb (VarDecl.name node) x
              then Some (Symbol.mk (VarDecl.name node) "var" (VarDecl.type_tok node) None
                           (ScopeNode.level (ScopeAnalyzer.current_scope self)))
              else None
          end.
Proof.
  unfold ScopeAnalyzer.visit_var_decl.
  set (self1 := match VarDecl.expr node with
                | Some e => ScopeAnalyzer.visit_expr self e
                | None => self
                end).
  assert (H1 : ScopeAnalyzer.current_scope self1 = ScopeAnalyzer.current_scope self).
  { subst self1. destruct (VarDecl.expr node); [apply visit_expr_scope | reflexivity]. }
  destruct (try_define_symbol_extends self1 (VarDecl.name node) "var"
              (VarDecl.type_tok node) None) as (self' & Hdef & Hext & Hsym).
  exists self'. rewrite H1 in *. auto.
Qed.

Lemma visit_stmts_extends (block : list Stmt) :
  Forall stmt_frame block ->
  forall self,
  exists self',
    ScopeAnalyzer.visit_stmts self block = Ok self'
    /\ extends (ScopeAnalyzer.current_scope self) (ScopeAnalyzer.current_scope self').
Proof.
  induction 1 as [|s block Hs _ IH]; intros self.
  - exists self. split; [reflexivity | apply extends_refl].
  - destruct (Hs self) as (self1 & H1 & E1 & _).
    destruct (IH self1) as (self2 & H2 & E2).
    exists self2. cbn [ScopeAnalyzer.visit_stmts]. rewrite H1. cbn [bind].
    split; [exact H2 | exact (extends_trans _ _ _ E1 E2)].
Qed.

(** Opening a frame, walking a block in it and closing it again leaves
    the frames as they were. *)
Lemma scoped_block_restores (scope_type : string) (block : list Stmt) :
  Forall stmt_frame block ->
  forall self,
  exists self1,
    ScopeAnalyzer.visit_stmts (ScopeAnalyzer.enter_scope self scope_type) block = Ok self1
    /\ ScopeAnalyzer.current_scope (ScopeAnalyzer.exit_scope self1)
       = ScopeAnalyzer.current_scope self.
Proof.
  intros Hb self.
  destruct (visit_stmts_extends block Hb (ScopeAnalyzer.enter_scope self scope_type))
    as (self1 & H1 & (P1 & _)).
  exists self1. split; [exact H1|].
  unfold ScopeAnalyzer.exit_scope. rewrite P1. reflexivity.
Qed.

Lemma exit_after_extends (self self1 : ScopeAnalyzer.t) (scope_type : string) :
  extends (ScopeAnalyzer.current_scope (ScopeAnalyzer.enter_scope self scope_type))
          (ScopeAnalyzer.current_scope self1) ->
  ScopeAnalyzer.current_scope (ScopeAnalyzer.exit_scope self1)
  = ScopeAnalyzer.current_scope self.
Proof.
  intros (P1 & _). unfold ScopeAnalyzer.exit_scope. rewrite P1. reflexivity.
Qed.

Lemma visit_opt_expr_scope (self : ScopeAnalyzer.t) (e : option Expr) :
  ScopeAnalyzer.current_scope
    (match e with Some e' => ScopeAnalyzer.visit_expr self e' | None => self end)
  = ScopeAnalyzer.current_scope self.
Proof. destruct e; [apply visit_expr_scope | reflexivity]. Qed.

Lemma visit_stmt_frame (s : Stmt) : stmt_frame s.
Proof.
  induction s as [var | block IH | e | e | cond b1 b2 IH1 IH2
                  | init cond updt block IH | ] using Stmt_block_ind; intros self.
  - destruct (visit_var_decl_extends self var) as (self' & H & E & _).
    exists self'. auto.
  - destruct (scoped_block_restores "block" block IH self) as (self1 & H1 & R1).
    exists (ScopeAnalyzer.exit_scope self1).
    rewrite visit_stmt_BlockTuple, H1. cbn [bind].
    split; [reflexivity|]. rewrite R1. split; [apply extends_refl | reflexivity].
  - eexists. split; [reflexivity|]. rewrite visit_expr_scope.
    split; [apply extends_refl | reflexivity].
  - destruct e as [e|]; (eexists; split; [reflexivity|]);
      rewrite ?visit_expr_scope; (split; [apply extends_refl | reflexivity]).
  - rewrite visit_stmt_IfStmt.
    destruct (scoped_block_restores "block" b1 IH1 (ScopeAnalyzer.visit_expr self cond))
      as (self1 & H1 & R1).
    rewrite H1. cbn [bind]. rewrite visit_expr_scope in R1.
    destruct b2 as [|s2 b2].
    + eexists. split; [reflexivity|]. rewrite R1.
      split; [apply extends_refl | reflexivity].
    + destruct (scoped_block_restores "block" (s2 :: b2) IH2
                  (ScopeAnalyzer.exit_scope self1)) as (self2 & H2 & R2).
      rewrite H2. cbn [bind]. eexists. split; [reflexivity|].
      rewrite R2, R1. split; [apply extends_refl | reflexivity].
  - rewrite visit_stmt_ForStmt.
    assert (Hinit : exists self1,
               match init with
               | Some (InitVarDecl var) =>
                   ScopeAnalyzer.visit_var_decl (ScopeAnalyzer.enter_scope self "block") var
               | Some (InitExprStmt e) =>
                   Ok (ScopeAnalyzer.visit_expr (ScopeAnalyzer.enter_scope self "block") e)
               | None => Ok (ScopeAnalyzer.enter_scope self "block")
               end = Ok self1
               /\ extends (ScopeAnalyzer.current_scope
                             (ScopeAnalyzer.enter_scope self "block"))
                          (ScopeAnalyzer.current_scope self1)).
    { destruct init as [[var | e]|].
      - destruct (visit_var_decl_extends (ScopeAnalyzer.enter_scope self "block") var)
          as (self1 & H & E & _). eauto.
      - eexists. split; [reflexivity|]. rewrite visit_expr_scope. apply extends_refl.
      - eexists. split; [reflexivity | apply extends_refl]. }
    destruct Hinit as (self1 & H1 & E1). rewrite H1. cbn [bind]. cbv zeta.
    set (self3 := match updt with
                  | Some e => ScopeAnalyzer.visit_expr _ e
                  | None => _
                  end).
    assert (E3 : ScopeAnalyzer.current_scope self3 = ScopeAnalyzer.current_scope self1).
    { subst self3. rewrite !visit_opt_expr_scope. reflexivity. }
    destruct (visit_stmts_extends block IH self3) as (self4 & H4 & E4).
    rewrite H4. cbn [bind]. eexists. split; [reflexivity|].
    rewrite E3 in E4.
    rewrite (exit_after_extends self self4 "block" (extends_trans _ _ _ E1 E4)).
    split; [apply extends_refl | reflexivity].
  - exists self. split; [reflexivity|]. split; [apply extends_refl | reflexivity].
Qed.

Lemma define_params_extends (params : list Param.t) :
  forall self,
  exists self',
    ScopeAnalyzer.define_params self params = Ok self'
    /\ extends (ScopeAnalyzer.current_scope self) (ScopeAnalyzer.current_scope self').
Proof.
  induction params as [|p params IH]; intros self.
  - exists self. split; [reflexivity | apply extends_refl].
  - destruct (try_define_symbol_extends self (Param.name p) "param" (Param.type_tok p) None)
      as (self1 & H1 & E1 & _).
    destruct (IH self1) as (self2 & H2 & E2).
    exists self2. cbn [ScopeAnalyzer.define_params]. rewrite H1. cbn [bind].
    split; [exact H2 | exact (extends_trans _ _ _ E1 E2)].
Qed.

Lemma all_stmts_frame (block : list Stmt) : Forall stmt_frame block.
Proof. apply Forall_forall. intros s _. apply visit_stmt_frame. Qed.

Lemma visit_fn_decl_restores (self : ScopeAnalyzer.t) (node : FnDecl.t) :
  exists self',
    ScopeAnalyzer.visit_fn_decl self node = Ok self'
    /\ ScopeAnalyzer.current_scope self' = ScopeAnalyzer.current_scope self.
Proof.
  unfold ScopeAnalyzer.visit_fn_decl.
  destruct (define_params_extends (FnDecl.params node)
              (ScopeAnalyzer.enter_scope self "function")) as (self1 & H1 & E1).
  rewrite H1. cbn [bind].
  destruct (visit_stmts_extends (FnDecl.body node) (all_stmts_frame _) self1)
    as (self2 & H2 & E2).
  rewrite H2. cbn [bind]. eexists. split; [reflexivity|].
  apply (exit_after_extends self self2 "function" (extends_trans _ _ _ E1 E2)).
Qed.

Lemma collect_functions_table (items : list Item) :
  forall self,
    ScopeNode.level (ScopeAnalyzer.current_scope self) = 0 ->
    exists self',
      ScopeAnalyzer.collect_functions self items = Ok self'
      /\ extends (ScopeAnalyzer.current_scope self) (ScopeAnalyzer.current_scope self')
      /\ forall x,
          ScopeNode.symbols (ScopeAnalyzer.current_scope self') !! x
          = match ScopeNode.symbols (ScopeAnalyzer.current_scope self) !! x with
            | Some s => Some s
            | None => fn_symbol <$> find_fn x items
            end.
Proof.
  induction items as [|item items IH]; intros self Hlevel.
  - exists self. split; [reflexivity|]. split; [apply extends_refl|].
    intros x. destruct (_ !! x); reflexivity.
  - destruct item as [fn | var | s]; cbn [ScopeAnalyzer.collect_functions find_fn];
      try (apply IH; exact Hlevel).
    destruct (try_define_symbol_extends self (FnDecl.name fn) "function"
                (FnDecl.type_tok fn) (Some (FnDecl.params fn)))
      as (self1 & H1 & E1 & S1).
    rewrite H1. cbn [bind].
    assert (Hlevel1 : ScopeNode.level (ScopeAnalyzer.current_scope self1) = 0).
    { destruct E1 as (_ & _ & L1 & _). congruence. }
    destruct (IH self1 Hlevel1) as (self2 & H2 & E2 & S2).
    exists self2. split; [exact H2|]. split; [exact (extends_trans _ _ _ E1 E2)|].
    intros x. rewrite S2, S1, Hlevel.
    destruct (ScopeNode.symbols (ScopeAnalyzer.current_scope self) !! x); [reflexivity|].
    destruct (String.eqb (FnDecl.name fn) x); reflexivity.
Qed.

Lemma visit_item_table (item : Item) (self : ScopeAnalyzer.t) :
  ScopeNode.level (ScopeAnalyzer.current_scope self) = 0 ->
  exists self',
    ScopeAnalyzer.visit_item self item = Ok self'
    /\ extends (ScopeAnalyzer.current_scope self) (ScopeAnalyzer.current_scope self')
    /\ forall x,
        ScopeNode.symbols (ScopeAnalyzer.current_scope self') !! x
        = match ScopeNode.symbols (ScopeAnalyzer.current_scope self) !! x with
          | Some s => Some s
          | None => var_symbol <$> find_var x [item]
          end.
Proof.
  intros Hlevel.
  assert (Hsame : forall self',
             ScopeAnalyzer.current_scope self' = ScopeAnalyzer.current_scope self ->
             extends (ScopeAnalyzer.current_scope self) (ScopeAnalyzer.current_scope self')
             /\ forall x,
                 ScopeNode.symbols (ScopeAnalyzer.current_scope self') !! x
                 = match ScopeNode.symbols (ScopeAnalyzer.current_scope self) !! x with
                   | Some s => Some s
                   | None => None
                   end).
  { intros self' ->. split; [apply extends_refl|].
    intros x. destruct (_ !! x); reflexivity. }
  destruct item as [fn | var | s].
  - destruct (visit_fn_decl_restores self fn) as (self' & H & R).
    exists self'. split; [exact H|]. apply (Hsame _ R).
  - exists self. split; [reflexivity|]. apply (Hsame _ eq_refl).
  - rewrite visit_item_ItemStmt.
    destruct (visit_stmt_frame s self) as (self' & H & E & R).
    exists self'. split; [exact H|].
    destruct s as [var | block | e | e | cond b1 b2 | init cond updt block | ];
      try apply (Hsame _ R).
    destruct (visit_var_decl_extends self var) as (self'' & H' & E' & S').
    cbn [ScopeAnalyzer.visit_stmt] in H. rewrite H' in H. injection H as <-.
    split; [exact E'|]. intros x. rewrite S', Hlevel. cbn [find_var].
    destruct (ScopeNode.symbols (ScopeAnalyzer.current_scope self) !! x); [reflexivity|].
    destruct (String.eqb (VarDecl.name var) x); reflexivity.
Qed.

Lemma find_var_cons (x : string) (item : Item) (items : list Item) :
  find_var x (item :: items)
  = match find_var x [item] with
    | Some var => Some var
    | None => find_var x items
    end.
Proof.
  destruct item as [fn | var | s]; try reflexivity.
  destruct s; try reflexivity. cbn [find_var].
  destruct (String.eqb (VarDecl.name var) x); reflexivity.
Qed.

Lemma visit_items_table (items : list Item) :
  forall self,
    ScopeNode.level (ScopeAnalyzer.current_scope self) = 0 ->
    exists self',
      ScopeAnalyzer.visit_items self items = Ok self'
      /\ extends (ScopeAnalyzer.current_scope self) (ScopeAnalyzer.current_scope self')
      /\ forall x,
          ScopeNode.symbols (ScopeAnalyzer.current_scope self') !! x
          = match ScopeNode.symbols (ScopeAnalyzer.current_scope self) !! x with
            | Some s => Some s
            | None => var_symbol <$> find_var x items
            end.
Proof.
  induction items as [|item items IH]; intros self Hlevel.
  - exists self. split; [reflexivity|]. split; [apply extends_refl|].
    intros x. destruct (_ !! x); reflexivity.
  - destruct (visit_item_table item self Hlevel) as (self1 & H1 & E1 & S1).
    assert (Hlevel1 : ScopeNode.level (ScopeAnalyzer.current_scope self1) = 0).
    { destruct E1 as (_ & _ & L1 & _). congruence. }
    destruct (IH self1 Hlevel1) as (self2 & H2 & E2 & S2).
    exists self2. cbn [ScopeAnalyzer.visit_items]. rewrite H1. cbn [bind].
    split; [exact H2|]. split; [exact (extends_trans _ _ _ E1 E2)|].
    intros x. rewrite S2, S1, (find_var_cons x item items).
    destruct (ScopeNode.symbols (ScopeAnalyzer.current_scope self) !! x); [reflexivity|].
    destruct (find_var x [item]); reflexivity.
Qed.

Lemma visit_program_table (p : Program.t) :
  exists analyzer,
    ScopeAnalyzer.visit_program ScopeAnalyzer.init p = Ok analyzer
    /\ extends (ScopeNode.new None "global") (ScopeAnalyzer.current_scope analyzer)
    /\ forall x,
        ScopeAnalyzer.lookup_symbol analyzer x = global_symbol (Program.items p) x.
Proof.
  unfold ScopeAnalyzer.visit_program.
  destruct (collect_functions_table (Program.items p) ScopeAnalyzer.init eq_refl)
    as (self1 & H1 & E1 & S1).
  rewrite H1. cbn [bind].
  assert (Hlevel1 : ScopeNode.level (ScopeAnalyzer.current_scope self1) = 0).
  { destruct E1 as (_ & _ & L1 & _). exact L1. }
  destruct (visit_items_table (Program.items p) self1 Hlevel1) as (self2 & H2 & E2 & S2).
  exists self2. split; [exact H2|].
  pose proof (extends_trans _ _ _ E1 E2) as E. split; [exact E|].
  intros x. unfold ScopeAnalyzer.lookup_symbol.
  destruct E as (P & _). cbn in P.
  destruct (ScopeAnalyzer.current_scope self2) as [parent ty syms lvl] eqn:Hsc.
  cbn in P. subst parent. cbn [ScopeNode.lookup ScopeNode.symbols ScopeNode.parent].
  specialize (S2 x). cbn [ScopeNode.symbols] in S2.
  rewrite S2, S1. cbn [ScopeAnalyzer.init ScopeAnalyzer.current_scope ScopeNode.new
                       ScopeNode.symbols].
  rewrite lookup_empty. unfold global_symbol.
  destruct (find_fn x (Program.items p)); cbn [fmap option_fmap option_map].
  - reflexivity.
  - destruct (find_var x (Program.items p)); reflexivity.
Qed.

(** ** The type checker, statement by statement *)

Lemma check_stmt_IfStmt (self : TypeChecker.t) (cond : Expr)
    (if_block else_block : list Stmt) :
  TypeChecker.check_stmt self (IfStmt cond if_block else_block)
  = (let* cond_type := TypeChecker.check_expr self cond in
     if negb (String.eqb cond_type "Bool")
     then Raise (ExpectedBooleanExpression "If condition must be boolean")
     else
       let* self1 := check_stmts (TypeChecker.enter_scope self "if") if_block in
       let* self2 := TypeChecker.exit_scope self1 in
       match else_block with
       | [] => Ok self2
       | _ :: _ =>
           let* self3 := check_stmts (TypeChecker.enter_scope self2 "else") else_block in
           TypeChecker.exit_scope self3
       end).
Proof. reflexivity. Qed.

Lemma check_stmt_ForStmt (self : TypeChecker.t) (init : option ForInit)
    (cond updt : option Expr) (block : list Stmt) :
  TypeChecker.check_stmt self (ForStmt init cond updt block)
  = (let* _ :=
       match init with
       | Some (InitVarDecl var) =>
           TypeChecker.check_var_decl (TypeChecker.enter_scope self "for") var
       | Some (InitExprStmt e) =>
           let* _ := TypeChecker.check_expr (TypeChecker.enter_scope self "for") e in Ok ()
       | None => Ok ()
       end in
     let* _ :=
       match cond with
       | Some e =>
           let* cond_type := TypeChecker.check_expr (TypeChecker.enter_scope self "for") e in
           if negb (String.eqb cond_type "Bool")
           then Raise (NonBooleanCondStmt "For loop condition must be boolean")
           else Ok ()
       | None => Ok ()
       end in
     let* _ :=
       match updt with
       | Some e =>
           let* _ := TypeChecker.check_expr (TypeChecker.enter_scope self "for") e in Ok ()
       | None => Ok ()
       end in
     let* self1 := check_stmts (TypeChecker.enter_scope self "for") block in
     TypeChecker.exit_scope self1).
Proof. reflexivity. Qed.

Lemma check_stmts_neutral (block : list Stmt) :
  Forall stmt_neutral block ->
  forall (self self' : TypeChecker.t) (sc : ScopeNode.t),
    TypeChecker.current_scope self = Some sc ->
    check_stmts self block = Ok self' ->
    self' = self.
Proof.
  induction 1 as [|s block Hs _ IH]; intros self self' sc Hsc H.
  - injection H as <-. reflexivity.
  - cbn [check_stmts] in H. apply bind_Ok_inv in H as [self1 [H1 H]].
    pose proof (Hs _ _ _ Hsc H1) as ->. eapply IH; eauto.
Qed.

(** Entering a frame, checking a block in it and leaving it. *)
Lemma framed_block_neutral (scope_type : string) (block : list Stmt) :
  Forall stmt_neutral block ->
  forall (self self1 self2 : TypeChecker.t) (sc : ScopeNode.t),
    TypeChecker.current_scope self = Some sc ->
    check_stmts (TypeChecker.enter_scope self scope_type) block = Ok self1 ->
    TypeChecker.exit_scope self1 = Ok self2 ->
    self2 = self.
Proof.
  intros Hb self self1 self2 sc Hsc H1 H2.
  assert (Hin : TypeChecker.current_scope (TypeChecker.enter_scope self scope_type)
                = Some (ScopeNode.new (TypeChecker.current_scope self) scope_type))
    by reflexivity.
  pose proof (check_stmts_neutral block Hb _ _ _ Hin H1) as ->.
  unfold TypeChecker.exit_scope, TypeChecker.enter_scope in H2.
  cbn in H2. rewrite Hsc in H2. cbn in H2. injection H2 as <-.
  destruct self as [sa cs cf]. cbn in *. subst cs. reflexivity.
Qed.

Lemma check_stmt_neutral (s : Stmt) : stmt_neutral s.
Proof.
  induction s as [var | block IH | e | e | cond b1 b2 IH1 IH2
                  | init cond updt block IH | ] using Stmt_block_ind;
    intros self self' sc Hsc H.
  - injection H as <-. reflexivity.
  - injection H as <-. reflexivity.
  - cbn [TypeChecker.check_stmt] in H. apply bind_Ok_inv in H as [ty [_ H]].
    injection H as <-. reflexivity.
  - cbn [TypeChecker.check_stmt] in H. apply bind_Ok_inv in H as [ty [_ H]].
    destruct (TypeChecker.current_function self); [|discriminate].
    destruct (negb _); [discriminate|]. injection H as <-. reflexivity.
  - rewrite check_stmt_IfStmt in H. apply bind_Ok_inv in H as [ty [_ H]].
    destruct (negb _); [discriminate|].
    apply bind_Ok_inv in H as [self1 [H1 H]].
    apply bind_Ok_inv in H as [self2 [H2 H]].
    pose proof (framed_block_neutral "if" b1 IH1 _ _ _ _ Hsc H1 H2) as ->.
    destruct b2 as [|s2 b2]; [injection H as <-; reflexivity|].
    apply bind_Ok_inv in H as [self3 [H3 H]].
    apply (framed_block_neutral "else" _ IH2 _ _ _ _ Hsc H3 H).
  - rewrite check_stmt_ForStmt in H.
    apply bind_Ok_inv in H as [? [_ H]].
    apply bind_Ok_inv in H as [? [_ H]].
    apply bind_Ok_inv in H as [? [_ H]].
    apply bind_Ok_inv in H as [self1 [H1 H]].
    apply (framed_block_neutral "for" _ IH _ _ _ _ Hsc H1 H).
  - cbn [TypeChecker.check_stmt] in H. destruct (negb _); [discriminate|].
    injection H as <-. reflexivity.
Qed.

Lemma all_stmts_neutral (block : list Stmt) : Forall stmt_neutral block.
Proof. apply Forall_forall. intros s _. apply check_stmt_neutral. Qed.

(** *** No stray break passes *)

Lemma in_loop_enter (self : TypeChecker.t) (scope_type : string) (sc : ScopeNode.t) :
  TypeChecker.current_scope self = Some sc ->
  TypeChecker.in_loop (TypeChecker.enter_scope self scope_type)
  = String.eqb scope_type "for" || TypeChecker.in_loop self.
Proof.
  intros Hsc. unfold TypeChecker.in_loop, TypeChecker.enter_scope.
  cbn. rewrite Hsc. cbn.
  destruct (String.eqb scope_type "for"); reflexivity.
Qed.

Lemma check_stmts_no_stray (block : list Stmt) :
  Forall stmt_no_stray block ->
  forall (self self' : TypeChecker.t) (sc : ScopeNode.t),
    TypeChecker.current_scope self = Some sc ->
    TypeChecker.in_loop self = false ->
    check_stmts self block = Ok self' ->
    existsb stray_break block = false.
Proof.
  induction 1 as [|s block Hs _ IH]; intros self self' sc Hsc Hloop H.
  - reflexivity.
  - cbn [check_stmts] in H. apply bind_Ok_inv in H as [self1 [H1 H]].
    cbn [existsb]. rewrite (Hs _ _ _ Hsc Hloop H1).
    pose proof (check_stmt_neutral s _ _ _ Hsc H1) as ->.
    apply (IH _ _ _ Hsc Hloop H).
Qed.

Lemma check_stmt_no_stray (s : Stmt) : stmt_no_stray s.
Proof.
  induction s as [var | block IH | e | e | cond b1 b2 IH1 IH2
                  | init cond updt block IH | ] using Stmt_block_ind;
    intros self self' sc Hsc Hloop H; try reflexivity.
  - rewrite check_stmt_IfStmt in H. apply bind_Ok_inv in H as [ty [_ H]].
    destruct (negb _); [discriminate|].
    apply bind_Ok_inv in H as [self1 [H1 H]].
    apply bind_Ok_inv in H as [self2 [H2 H]].
    cbn [stray_break].
    assert (Hif : TypeChecker.in_loop (TypeChecker.enter_scope self "if") = false).
    { rewrite (in_loop_enter _ _ _ Hsc). exact Hloop. }
    assert (Hin : forall ty',
               TypeChecker.current_scope (TypeChecker.enter_scope self ty')
               = Some (ScopeNode.new (TypeChecker.current_scope self) ty'))
      by reflexivity.
    rewrite (check_stmts_no_stray b1 IH1 _ _ _ (Hin "if") Hif H1). cbn [orb].
    pose proof (framed_block_neutral "if" b1 (all_stmts_neutral _) _ _ _ _ Hsc H1 H2) as ->.
    destruct b2 as [|s2 b2]; [reflexivity|].
    apply bind_Ok_inv in H as [self3 [H3 H]].
    assert (Helse : TypeChecker.in_loop (TypeChecker.enter_scope self "else") = false).
    { rewrite (in_loop_enter _ _ _ Hsc). exact Hloop. }
    apply (check_stmts_no_stray _ IH2 _ _ _ (Hin "else") Helse H3).
  - cbn [TypeChecker.check_stmt] in H. rewrite Hloop in H. discriminate H.
Qed.

(** *** A literal never checks *)

Lemma check_args_Ok (self : TypeChecker.t) (f : string) :
  forall (args : list Expr) (ps : list Param.t),
    List.length args = List.length ps ->
    TypeChecker.check_args self f args ps = Ok () ->
    Forall (fun arg => exists ty, TypeChecker.check_expr self arg = Ok ty) args.
Proof.
  induction args as [|arg args IH]; intros ps Hlen H; [constructor|].
  destruct ps as [|p ps]; [discriminate Hlen|].
  cbn [TypeChecker.check_args] in H. apply bind_Ok_inv in H as [ty [Harg H]].
  destruct (negb _); [discriminate|].
  constructor; [eauto|]. apply (IH ps); [cbn in Hlen; lia | exact H].
Qed.

(** A call that checks: its callee is the name of a symbol with a
    parameter list of the length of the argument list, and every argument
    checks. *)
Lemma check_expr_call_inv (self : TypeChecker.t) (callee : Expr) (args : list Expr)
    (ty : string) :
  TypeChecker.check_expr self (Call callee args) = Ok ty ->
  exists f fn ps,
    callee = Identifier f
    /\ ScopeAnalyzer.lookup_symbol (TypeChecker.scope_analyzer self) f = Some fn
    /\ Symbol.params fn = Some ps
    /\ List.length args = List.length ps
    /\ TypeChecker.check_args self f args ps = Ok ()
    /\ ty = Symbol.type_tok fn.
Proof.
  intros H.
  destruct callee as [op l r | op e' | v | f | c a];
    try (cbn [TypeChecker.check_expr] in H; discriminate H).
  destruct (ScopeAnalyzer.lookup_symbol (TypeChecker.scope_analyzer self) f)
    as [fn|] eqn:Hf; [|cbn [TypeChecker.check_expr] in H; rewrite Hf in H; discriminate H].
  destruct (Symbol.params fn) as [ps|] eqn:Hps.
  - destruct (Nat.eq_dec (List.length args) (List.length ps)) as [Hlen | Hlen].
    + rewrite (check_expr_call_args self f args fn ps Hf Hps Hlen) in H.
      apply bind_Ok_inv in H as [[] [Hargs H]]. injection H as <-.
      exists f, fn, ps. repeat split; assumption.
    + rewrite (check_expr_call_arity self f args fn ps Hf Hps Hlen) in H. discriminate H.
  - cbn [TypeChecker.check_expr] in H. rewrite Hf, Hps in H. cbv zeta in H.
    destruct (negb _); discriminate H.
Qed.

Lemma check_expr_no_literal (e : Expr) :
  forall (self : TypeChecker.t) (ty : string),
    TypeChecker.check_expr self e = Ok ty -> has_literal e = false.
Proof.
  induction e as [op lhs rhs IHl IHr | op e IH | value | name | callee args IHc IHargs]
    using Expr_args_ind; intros self ty H.
  - cbn [TypeChecker.check_expr] in H.
    apply bind_Ok_inv in H as [tl [Hl H]]. apply bind_Ok_inv in H as [tr [Hr H]].
    cbn [has_literal]. rewrite (IHl _ _ Hl), (IHr _ _ Hr). reflexivity.
  - cbn [TypeChecker.check_expr] in H. apply bind_Ok_inv in H as [t [He H]].
    cbn [has_literal]. eauto.
  - discriminate H.
  - reflexivity.
  - apply check_expr_call_inv in H as (f & fn & ps & -> & _ & _ & Hlen & Hargs & _).
    cbn [has_literal orb].
    apply check_args_Ok in Hargs; [|exact Hlen].
    clear Hlen. induction args as [|arg args IHa]; [reflexivity|].
    inversion IHargs as [|? ? Harg Hrest]; subst.
    inversion Hargs as [|? ? [t Ht] Hrest']; subst.
    cbn [existsb]. rewrite (Harg _ _ Ht). cbn [orb]. apply IHa; assumption.
Qed.

(** *** Parsed operator expressions get the type of their first name *)

Lemma first_unbound_app (self : TypeChecker.t) (l r : list string) :
  first_unbound self (l ++ r)
  = match first_unbound self l with
    | Some x => Some x
    | None => first_unbound self r
    end.
Proof.
  unfold first_unbound. induction l as [|x l IH]; [reflexivity|].
  cbn [app List.find]. destruct (ScopeAnalyzer.lookup_symbol _ x); [exact IH | reflexivity].
Qed.

Lemma parser_op_unknown (op : string) :
  str_in op parser_binary_ops = true ->
  str_in op ["+"; "-"; "*"; "/"; "**"] = false /\ str_in op ["&&"; "||"] = false.
Proof.
  unfold str_in, parser_binary_ops. cbn [existsb].
  rewrite !orb_true_iff, !String.eqb_eq.
  intros H. repeat (destruct H as [-> | H]; [split; reflexivity|]). discriminate H.
Qed.

Lemma check_expr_operator (e : Expr) (self : TypeChecker.t) :
  operator_expr e = true ->
  match first_unbound self (idents e) with
  | Some x =>
      TypeChecker.check_expr self e
      = Raise (ExpressionTypeMismatch ("Undeclared variable '" +:+ x +:+ "'"))
  | None =>
      exists x rest sym,
        idents e = x :: rest
        /\ ScopeAnalyzer.lookup_symbol (TypeChecker.scope_analyzer self) x = Some sym
        /\ TypeChecker.check_expr self e = Ok (Symbol.type_tok sym)
  end.
Proof.
  induction e as [op lhs IHl rhs IHr | op e IH | value | name | callee args];
    intros Hop; try discriminate Hop.
  - cbn [operator_expr] in Hop. apply andb_true_iff in Hop as [Hop Hr].
    apply andb_true_iff in Hop as [Hop Hl].
    apply parser_op_unknown in Hop as [Ha Hb].
    specialize (IHl Hl). specialize (IHr Hr).
    cbn [idents TypeChecker.check_expr]. rewrite first_unbound_app.
    destruct (first_unbound self (idents lhs)) as [x|].
    + rewrite IHl. reflexivity.
    + destruct IHl as (x & rest & sym & Hids & Hsym & Hcheck). rewrite Hcheck. cbn [bind].
      destruct (first_unbound self (idents rhs)) as [y|].
      * rewrite IHr. reflexivity.
      * destruct IHr as (y & rest' & sym' & _ & _ & Hcheck'). rewrite Hcheck'. cbn [bind].
        rewrite Ha, Hb. exists x, (rest ++ idents rhs), sym.
        rewrite Hids. auto.
  - cbn [operator_expr] in Hop. specialize (IH Hop).
    cbn [idents TypeChecker.check_expr].
    destruct (first_unbound self (idents e)) as [x|].
    + rewrite IH. reflexivity.
    + destruct IH as (x & rest & sym & Hids & Hsym & Hcheck).
      rewrite Hcheck. exists x, rest, sym. auto.
  - cbn [idents first_unbound List.find TypeChecker.check_expr].
    destruct (ScopeAnalyzer.lookup_symbol (TypeChecker.scope_analyzer self) name)
      as [sym|] eqn:Hsym; [|reflexivity].
    exists name, [], sym. auto.
Qed.

(** ** Statements of the further properties *)




(** X3: a statement that type-checks leaves the checker as it found it:
    every frame [check_stmt] enters for an [if], an [else] or a [for] is
    left again, and the current function is not touched, so the statements
    of a block are all checked in the same state. *)
Theorem X3_check_stmt_restores_the_checker :
  forall (s : Stmt) (self self' : TypeChecker.t) (sc : ScopeNode.t),
    TypeChecker.current_scope self = Some sc ->
    TypeChecker.check_stmt self s = Ok self' ->
    self' = self.
Proof. intros s. apply check_stmt_neutral. Qed.

Lemma X3_witness :
  exists self',
    TypeChecker.check_stmt sample_checker
      (ForStmt None None None [IfStmt (Identifier "flag") [BreakStmt] []])
    = Ok self'
    /\ self' = sample_checker.
Proof.
  eexists. split.
  - vm_compute. reflexivity.
  - eapply (X3_check_stmt_restores_the_checker
              (ForStmt None None None [IfStmt (Identifier "flag") [BreakStmt] []])
              sample_checker).
    + reflexivity.
    + vm_compute. reflexivity.
Defined.

(** X4: no [break] outside a loop passes.  When the checker is in no [for]
    frame, a statement that checks holds no [break] that [check_stmt]
    reaches without entering a [for] (it descends into the branches of
    [if] statements and into loop bodies, not into bare blocks); in
    particular a program that passes [check_program] after scope analysis
    has no such [break] among its top-level statements.  Inside a [for]
    frame a [break] is accepted. *)
Theorem X4_no_break_outside_a_loop_passes :
  (forall (s : Stmt) (self self' : TypeChecker.t) (sc : ScopeNode.t),
      TypeChecker.current_scope self = Some sc ->
      TypeChecker.in_loop self = false ->
      TypeChecker.check_stmt self s = Ok self' ->
      stray_break s = false)
  /\ (forall (p : Program.t) (analyzer : ScopeAnalyzer.t) (tc : TypeChecker.t) (s : Stmt),
         analyze_scope p = Ok analyzer ->
         TypeChecker.check_program (TypeChecker.new analyzer) p = Ok tc ->
         In (ItemStmt s) (Program.items p) ->
         stray_break s = false)
  /\ (forall self : TypeChecker.t,
         TypeChecker.in_loop self = true ->
         TypeChecker.check_stmt self BreakStmt = Ok self).
Proof.
  split; [intros s; apply check_stmt_no_stray|]. split.
  - intros p analyzer tc s Han Hcheck Hin.
    destruct (visit_program_table p) as (a & Hv & (P & T & _) & _).
    assert (a = analyzer) as ->.
    { revert Han. unfold analyze_scope, ScopeAnalyzer.analyze. rewrite Hv. cbn [bind].
      destruct (ScopeAnalyzer.errors a); [|discriminate].
      intros H. injection H as <-. reflexivity. }
    assert (Hroot : ScopeAnalyzer.global_scope analyzer
                    = ScopeAnalyzer.current_scope analyzer).
    { unfold ScopeAnalyzer.global_scope.
      destruct (ScopeAnalyzer.current_scope analyzer) as [parent ty syms lvl].
      cbn in P. subst parent. reflexivity. }
    assert (Hsc : TypeChecker.current_scope (TypeChecker.new analyzer)
                  = Some (ScopeAnalyzer.current_scope analyzer)).
    { unfold TypeChecker.new. cbn [TypeChecker.current_scope]. rewrite Hroot. reflexivity. }
    assert (Hloop : TypeChecker.in_loop (TypeChecker.new analyzer) = false).
    { unfold TypeChecker.in_loop. rewrite Hsc.
      destruct (ScopeAnalyzer.current_scope analyzer) as [parent ty syms lvl].
      cbn in P, T. subst parent ty. reflexivity. }
    unfold TypeChecker.check_program in Hcheck.
    revert Hcheck Hin. generalize (Program.items p) as items.
    generalize dependent (TypeChecker.new analyzer). intros self Hsc Hloop.
    induction items as [|item items IH]; intros Hcheck Hin; [destruct Hin|].
    cbn [TypeChecker.check_items] in Hcheck.
    apply bind_Ok_inv in Hcheck as [self1 [H1 Hcheck]].
    assert (self1 = self) as ->.
    { destruct item as [fn | var | s0].
      - discriminate H1.
      - cbn [TypeChecker.check_item] in H1. apply bind_Ok_inv in H1 as [[] [_ H1]].
        injection H1 as <-. reflexivity.
      - apply (check_stmt_neutral s0 _ _ _ Hsc H1). }
    destruct Hin as [-> | Hin]; [|apply (IH Hcheck Hin)].
    apply (check_stmt_no_stray s _ _ _ Hsc Hloop H1).
  - intros self Hloop. cbn [TypeChecker.check_stmt]. rewrite Hloop. reflexivity.
Qed.

Lemma X4_witness :
  stray_break (ForStmt None None None [IfStmt (Identifier "flag") [BreakStmt] []]) = false
  /\ TypeChecker.check_stmt
       (TypeChecker.enter_scope sample_checker "for") BreakStmt
     = Ok (TypeChecker.enter_scope sample_checker "for").
Proof.
  destruct X4_no_break_outside_a_loop_passes as (Hstmt & _ & Hbreak).
  split.
  - eapply (Hstmt _ sample_checker).
    + reflexivity.
    + reflexivity.
    + vm_compute. reflexivity.
  - apply Hbreak. reflexivity.
Defined.

(** X5: no expression that holds a literal type-checks: [check_expr]
    visits every node of the expression it accepts, and a [Literal] has no
    [type_tok] to return. *)
Theorem X5_no_expression_with_a_literal_checks :
  forall (e : Expr) (self : TypeChecker.t) (ty : string),
    TypeChecker.check_expr self e = Ok ty ->
    has_literal e = false.
Proof. apply check_expr_no_literal. Qed.

Lemma X5_witness :
  has_literal (Call (Identifier "add") [Identifier "a"; Unary "SubOp" (Identifier "a")])
  = false.
Proof.
  apply (X5_no_expression_with_a_literal_checks
           (Call (Identifier "add") [Identifier "a"; Unary "SubOp" (Identifier "a")])
           sample_checker "Int").
  vm_compute. reflexivity.
Defined.

(** X6: the type of a parsed operator expression.  For an expression built
    from identifiers with the operators the parser writes, [check_expr]
    raises the undeclared-variable error of the first unbound name in
    reading order; when every name is bound, the expression gets the
    declared type of its first name, whatever the operators are: a
    comparison of two [Int] variables has the type [Int], and used as the
    condition of an [if] it raises [ExpectedBooleanExpression]. *)
Theorem X6_operator_expression_has_the_type_of_its_first_name :
  forall (e : Expr) (self : TypeChecker.t),
    operator_expr e = true ->
    (forall x,
        first_unbound self (idents e) = Some x ->
        TypeChecker.check_expr self e
        = Raise (ExpressionTypeMismatch ("Undeclared variable '" +:+ x +:+ "'")))
    /\ (first_unbound self (idents e) = None ->
        exists x rest sym,
          idents e = x :: rest
          /\ ScopeAnalyzer.lookup_symbol (TypeChecker.scope_analyzer self) x = Some sym
          /\ TypeChecker.check_expr self e = Ok (Symbol.type_tok sym)
          /\ (Symbol.type_tok sym <> "Bool" ->
              forall if_block else_block,
                TypeChecker.check_stmt self (IfStmt e if_block else_block)
                = Raise (ExpectedBooleanExpression "If condition must be boolean"))).
Proof.
  intros e self Hop. pose proof (check_expr_operator e self Hop) as H.
  split.
  - intros x Hx. rewrite Hx in H. exact H.
  - intros Hnone. rewrite Hnone in H. destruct H as (x & rest & sym & Hids & Hsym & Hcheck).
    exists x, rest, sym. repeat split; try assumption.
    intros Hne if_block else_block. rewrite check_stmt_IfStmt, Hcheck. cbn [bind].
    apply String.eqb_neq in Hne. rewrite Hne. reflexivity.
Qed.

Lemma X6_witness :
  TypeChecker.check_expr sample_checker (Binary "LessThan" (Identifier "a") (Identifier "a"))
  = Ok "Int"
  /\ TypeChecker.check_expr sample_checker
       (Binary "AddOp" (Identifier "flag") (Binary "MulOp" (Identifier "u") (Identifier "v")))
     = Raise (ExpressionTypeMismatch "Undeclared variable 'u'").
Proof.
  split.
  - destruct (X6_operator_expression_has_the_type_of_its_first_name
                (Binary "LessThan" (Identifier "a") (Identifier "a")) sample_checker eq_refl)
      as [_ Hbound].
    destruct (Hbound eq_refl) as (x & rest & sym & Hids & Hsym & Hcheck & _).
    injection Hids as <- _. vm_compute in Hsym. injection Hsym as <-. exact Hcheck.
  - destruct (X6_operator_expression_has_the_type_of_its_first_name
                (Binary "AddOp" (Identifier "flag")
                   (Binary "MulOp" (Identifier "u") (Identifier "v")))
                sample_checker eq_refl) as [Hunbound _].
    apply (Hunbound "u"). reflexivity.
Defined.

(** X7: the call rule on a callee given by name.  An unbound name raises
    [FnCallParamCount] ("not defined").  For a name bound to a symbol with
    a parameter list, a different number of arguments raises
    [FnCallParamCount] with both counts; with the same number, the
    arguments are checked left to right, the first one whose type differs
    from its parameter's raises [FnCallParamType] naming that parameter,
    and when all agree the call has the symbol's type.  A name bound to a
    variable or a parameter has no parameter list: the call raises
    [FnCallParamCount] when it has arguments and the [TypeError] of
    [zip(args, None)] when it has none. *)
Theorem X7_call_rule :
  forall (self : TypeChecker.t) (f : string) (args : list Expr),
    (ScopeAnalyzer.lookup_symbol (TypeChecker.scope_analyzer self) f = None ->
     TypeChecker.check_expr self (Call (Identifier f) args)
     = Raise (FnCallParamCount ("Function '" +:+ f +:+ "' not defined")))
    /\ (forall fn ps,
           ScopeAnalyzer.lookup_symbol (TypeChecker.scope_analyzer self) f = Some fn ->
           Symbol.params fn = Some ps ->
           (List.length args <> List.length ps ->
            TypeChecker.check_expr self (Call (Identifier f) args)
            = Raise (FnCallParamCount
                       ("Function '" +:+ f +:+ "' expects " +:+ pretty (List.length ps)
                        +:+ " args, got " +:+ pretty (List.length args))))
           /\ (Forall2 (fun arg p => TypeChecker.check_expr self arg = Ok (Param.type_tok p))
                       args ps ->
               TypeChecker.check_expr self (Call (Identifier f) args)
               = Ok (Symbol.type_tok fn))
           /\ (forall pre arg post qs p qs' arg_type,
                  args = pre ++ arg :: post ->
                  ps = qs ++ p :: qs' ->
                  List.length post = List.length qs' ->
                  Forall2 (fun arg p =>
                             TypeChecker.check_expr self arg = Ok (Param.type_tok p))
                          pre qs ->
                  TypeChecker.check_expr self arg = Ok arg_type ->
                  arg_type <> Param.type_tok p ->
                  TypeChecker.check_expr self (Call (Identifier f) args)
                  = Raise (FnCallParamType
                             ("Function '" +:+ f +:+ "' argument '" +:+ Param.name p
                              +:+ "' expects '" +:+ Param.type_tok p +:+ "', got '"
                              +:+ arg_type +:+ "'"))))
    /\ (forall fn,
           ScopeAnalyzer.lookup_symbol (TypeChecker.scope_analyzer self) f = Some fn ->
           Symbol.params fn = None ->
           TypeChecker.check_expr self (Call (Identifier f) args)
           = match args with
             | [] => Raise (TypeError_not_iterable "NoneType")
             | _ :: _ =>
                 Raise (FnCallParamCount
                          ("Function '" +:+ f +:+ "' expects 0 args, got "
                           +:+ pretty (List.length args)))
             end).
Proof.
  intros self f args. split; [|split].
  - intros Hf. cbn [TypeChecker.check_expr]. rewrite Hf. reflexivity.
  - intros fn ps Hf Hps. split; [|split].
    + apply (check_expr_call_arity self f args fn ps Hf Hps).
    + intros Hall.
      rewrite (check_expr_call_args self f args fn ps Hf Hps (Forall2_length _ _ _ Hall)).
      rewrite (check_args_all_match self f args ps Hall). reflexivity.
    + intros pre arg post qs p qs' arg_type -> -> Hlen Hpre Harg Hne.
      rewrite (check_expr_call_args self f _ fn _ Hf Hps).
      * rewrite (check_args_first_mismatch self f pre post qs qs' arg p arg_type
                   Hpre Harg Hne).
        reflexivity.
      * rewrite !length_app. cbn [List.length].
        rewrite (Forall2_length _ _ _ Hpre), Hlen. reflexivity.
  - intros fn Hf Hps. cbn [TypeChecker.check_expr]. rewrite Hf, Hps. cbv zeta.
    destruct args; reflexivity.
Qed.

Lemma X7_witness :
  TypeChecker.check_expr sample_checker (Call (Identifier "g") [])
  = Raise (FnCallParamCount "Function 'g' not defined")
  /\ TypeChecker.check_expr sample_checker (Call (Identifier "add") [Identifier "a"])
     = Raise (FnCallParamCount "Function 'add' expects 2 args, got 1")
  /\ TypeChecker.check_expr sample_checker
       (Call (Identifier "add") [Identifier "a"; Identifier "a"])
     = Ok "Int"
  /\ TypeChecker.check_expr sample_checker
       (Call (Identifier "add") [Identifier "a"; Identifier "flag"])
     = Raise (FnCallParamType "Function 'add' argument 'b' expects 'Int', got 'Bool'")
  /\ TypeChecker.check_expr sample_checker (Call (Identifier "a") [])
     = Raise (TypeError_not_iterable "NoneType").
Proof.
  split; [|split; [|split; [|split]]].
  - apply (X7_call_rule sample_checker "g" []). reflexivity.
  - destruct (X7_call_rule sample_checker "add" [Identifier "a"]) as (_ & Hfn & _).
    destruct (Hfn (Symbol.mk "add" "function" "Int"
                     (Some [Param.mk "Int" "a"; Param.mk "Int" "b"]) 0)
                [Param.mk "Int" "a"; Param.mk "Int" "b"] eq_refl eq_refl)
      as (Hcount & _).
    apply Hcount. cbn. lia.
  - destruct (X7_call_rule sample_checker "add" [Identifier "a"; Identifier "a"])
      as (_ & Hfn & _).
    destruct (Hfn (Symbol.mk "add" "function" "Int"
                     (Some [Param.mk "Int" "a"; Param.mk "Int" "b"]) 0)
                [Param.mk "Int" "a"; Param.mk "Int" "b"] eq_refl eq_refl)
      as (_ & Hall & _).
    apply Hall. repeat constructor.
  - destruct (X7_call_rule sample_checker "add" [Identifier "a"; Identifier "flag"])
      as (_ & Hfn & _).
    destruct (Hfn (Symbol.mk "add" "function" "Int"
                     (Some [Param.mk "Int" "a"; Param.mk "Int" "b"]) 0)
                [Param.mk "Int" "a"; Param.mk "Int" "b"] eq_refl eq_refl)
      as (_ & _ & Hfirst).
    apply (Hfirst [Identifier "a"] (Identifier "flag") [] [Param.mk "Int" "a"]
             (Param.mk "Int" "b") [] "Bool"); try reflexivity.
    + repeat constructor.
    + discriminate.
  - destruct (X7_call_rule sample_checker "a" []) as (_ & _ & Hvar).
    apply (Hvar (Symbol.mk "a" "var" "Int" None 0)); reflexivity.
Defined.

(** ** What the parser reads *)

Section Openers.
Variable tokens : list Token.t.

Lemma opens_by_match (op : string) (pos : nat) (tok : Token.t) (pos' : nat) :
  str_in op expr_openers = true ->
  Parser.match_ tokens [op] pos = Ok (Some tok, pos') ->
  opens_expr tokens pos.
Proof.
  intros Hop H. apply match_inv in H as [tok0 [Hpeek [Hin _]]].
  exists tok0. split; [exact Hpeek|].
  unfold str_in in Hin. cbn [existsb] in Hin. rewrite orb_false_r in Hin.
  apply String.eqb_eq in Hin. rewrite Hin. exact Hop.
Qed.

Lemma expression_parsers_open (fuel : nat) :
  (forall pos r, Parser.parse_expr tokens fuel pos = Ok r -> opens_expr tokens pos)
  /\ (forall pos r, Parser.parse_assignment tokens fuel pos = Ok r -> opens_expr tokens pos)
  /\ (forall pos r, Parser.parse_logical_or tokens fuel pos = Ok r -> opens_expr tokens pos)
  /\ (forall pos r, Parser.parse_logical_and tokens fuel pos = Ok r -> opens_expr tokens pos)
  /\ (forall pos r, Parser.parse_equality tokens fuel pos = Ok r -> opens_expr tokens pos)
  /\ (forall pos r, Parser.parse_comparison tokens fuel pos = Ok r -> opens_expr tokens pos)
  /\ (forall pos r, Parser.parse_add tokens fuel pos = Ok r -> opens_expr tokens pos)
  /\ (forall pos r, Parser.parse_mul tokens fuel pos = Ok r -> opens_expr tokens pos)
  /\ (forall pos r, Parser.parse_unary tokens fuel pos = Ok r -> opens_expr tokens pos)
  /\ (forall pos r, Parser.parse_call tokens fuel pos = Ok r -> opens_expr tokens pos)
  /\ (forall pos r, Parser.parse_primary tokens fuel pos = Ok r -> opens_expr tokens pos).
Proof.
  induction fuel as [|fuel IH].
  - repeat split; intros; discriminate.
  - destruct IH as (I1 & I2 & I3 & I4 & I5 & I6 & I7 & I8 & I9 & I10 & I11).
    repeat split; intros pos r H.
    + cbn [Parser.parse_expr] in H. eauto.
    + cbn [Parser.parse_assignment] in H. apply bind_Ok_inv in H as [[x p] [H _]]. eauto.
    + cbn [Parser.parse_logical_or] in H. apply bind_Ok_inv in H as [[x p] [H _]]. eauto.
    + cbn [Parser.parse_logical_and] in H. apply bind_Ok_inv in H as [[x p] [H _]]. eauto.
    + cbn [Parser.parse_equality] in H. apply bind_Ok_inv in H as [[x p] [H _]]. eauto.
    + cbn [Parser.parse_comparison] in H. apply bind_Ok_inv in H as [[x p] [H _]]. eauto.
    + cbn [Parser.parse_add] in H. apply bind_Ok_inv in H as [[x p] [H _]]. eauto.
    + cbn [Parser.parse_mul] in H. apply bind_Ok_inv in H as [[x p] [H _]]. eauto.
    + cbn [Parser.parse_unary] in H.
      apply bind_Ok_inv in H as [[[tok|] p] [Hm H]].
      * apply (opens_by_match "SubOp" pos tok p eq_refl Hm).
      * pose proof (match_inv _ _ _ _ _ Hm) as [_ [_ [_ ->]]].
        apply bind_Ok_inv in H as [[[tok|] p'] [Hm' H]].
        -- apply (opens_by_match "NotOp" pos tok p' eq_refl Hm').
        -- pose proof (match_inv _ _ _ _ _ Hm') as [_ [_ [_ ->]]]. eauto.
    + cbn [Parser.parse_call] in H. apply bind_Ok_inv in H as [[x p] [H _]]. eauto.
    + cbn [Parser.parse_primary] in H.
      apply bind_Ok_inv in H as [tok [Hpeek H]].
      exists tok. split; [exact Hpeek|].
      unfold expr_openers, str_in in *. cbn [existsb] in *.
      repeat match type of H with
             | context [String.eqb ?a ?b] =>
                 destruct (String.eqb a b); cbn [orb] in *; [reflexivity|]
             end.
      discriminate H.
Qed.

(** On a token that cannot begin an expression, [parse_expr] goes down to
    [parse_primary], which raises [ExpectedExpr] for this token. *)
Lemma parse_expr_rejects (fuel pos : nat) (tok : Token.t) :
  Parser._peek tokens pos = Ok tok ->
  str_in (Token.type tok) expr_openers = false ->
  10 < fuel ->
  Parser.parse_expr tokens fuel pos
  = Raise (ExpectedExpr
             ("Expected primary expression, got " +:+ Token.type tok
              +:+ " at " +:+ fmt_pos (Token.pos tok))).
Proof.
  intros Hpeek Hno Hfuel.
  unfold expr_openers, str_in in Hno. cbn [existsb] in Hno.
  rewrite !orb_false_iff in Hno.
  destruct Hno as (E1 & E2 & E3 & E4 & E5 & E6 & E7 & E8 & _).
  do 11 (destruct fuel as [|fuel]; [lia|]).
  cbn [Parser.parse_expr Parser.parse_assignment Parser.parse_logical_or
       Parser.parse_logical_and Parser.parse_equality Parser.parse_comparison
       Parser.parse_add Parser.parse_mul Parser.parse_unary Parser.parse_call
       Parser.parse_primary].
  unfold Parser.match_, str_in. cbn [existsb].
  repeat (rewrite ?Hpeek, ?E1, ?E2, ?E3, ?E4, ?E5, ?E6, ?E7, ?E8; cbn [orb bind]).
  reflexivity.
Qed.

End Openers.

Lemma str_in_For_cases (ty : string) :
  str_in ty ["For"; "duhrao"] = true -> ty = "For" \/ ty = "duhrao".
Proof.
  unfold str_in. cbn [existsb]. rewrite !orb_true_iff, !String.eqb_eq.
  intros [H | [H | H]]; auto. discriminate H.
Qed.

Lemma next_at (tokens : list Token.t) (pos : nat) (tok : Token.t) :
  Parser._peek tokens pos = Ok tok ->
  String.eqb (Token.type tok) "EOF" = false ->
  Parser.next tokens pos = Ok (tok, pos + 1).
Proof. intros Hpeek Heof. unfold Parser.next. rewrite Hpeek. cbn [bind]. rewrite Heof. reflexivity. Qed.

Lemma expect_at (tokens : list Token.t) (ttype : string) (pos : nat) (tok : Token.t) :
  Parser._peek tokens pos = Ok tok ->
  Token.type tok = ttype ->
  String.eqb ttype "EOF" = false ->
  Parser.expect tokens ttype pos = Ok (tok, pos + 1).
Proof.
  intros Hpeek Hty Heof. unfold Parser.expect. rewrite Hpeek. cbn [bind].
  rewrite Hty, String.eqb_refl. apply next_at; [exact Hpeek | rewrite Hty; exact Heof].
Qed.

(** [parse_stmt] on a [for] keyword followed by an opening parenthesis and
    a period: what is left is the header from its second clause on. *)
Lemma parse_stmt_for_header (tokens : list Token.t) (fuel pos : nat) (kw lp dot : Token.t) :
  Parser._peek tokens pos = Ok kw ->
  str_in (Token.type kw) ["For"; "duhrao"] = true ->
  Parser._peek tokens (pos + 1) = Ok lp ->
  Token.type lp = "ParenL" ->
  Parser._peek tokens (pos + 2) = Ok dot ->
  Token.type dot = "Dot" ->
  Parser.parse_stmt tokens (S (S fuel)) pos
  = (let* tok := Parser._peek tokens (pos + 3) in
     let* (cond, pos) :=
       if negb (String.eqb (Token.type tok) "Dot") then
         let* (cond, pos) := Parser.parse_expr tokens fuel (pos + 3) in
         Ok (Some cond, pos)
       else Ok (None, pos + 3) in
     let* (_, pos) := Parser.match_ tokens ["Dot"; "Semicolon"] pos in
     let* tok := Parser._peek tokens pos in
     let* (updt, pos) :=
       if negb (String.eqb (Token.type tok) "ParenR") then
         let* (updt, pos) := Parser.parse_expr tokens fuel pos in
         Ok (Some updt, pos)
       else Ok (None, pos) in
     let* (_, pos) := Parser.expect tokens "ParenR" pos in
     let* (_, pos) := Parser.expect tokens "BraceL" pos in
     let* (block, pos) := Parser.parse_block tokens fuel [] pos in
     let* (_, pos) := Parser.expect tokens "BraceR" pos in
     let* (_, pos) := Parser.match_ tokens ["Dot"; "Semicolon"] pos in
     Ok (ForStmt None cond updt block, pos)).
Proof.
  intros Hkw Hfor Hlp Hparen Hdot Hd.
  replace (pos + 2) with (pos + 1 + 1) in Hdot by lia.
  replace (pos + 3) with (pos + 1 + 1 + 1) by lia.
  assert (Hnext : Parser.next tokens pos = Ok (kw, pos + 1)).
  { apply next_at; [exact Hkw|].
    apply str_in_For_cases in Hfor as [-> | ->]; reflexivity. }
  cbn [Parser.parse_stmt Parser.parse_for]. rewrite Hkw. cbn [bind].
  replace (str_in (Token.type kw) type_tokens) with false
    by (apply str_in_For_cases in Hfor as [-> | ->]; reflexivity).
  replace (str_in (Token.type kw) ["Return"; "wapsi"]) with false
    by (apply str_in_For_cases in Hfor as [-> | ->]; reflexivity).
  replace (str_in (Token.type kw) ["If"; "agar"]) with false
    by (apply str_in_For_cases in Hfor as [-> | ->]; reflexivity).
  rewrite Hfor, Hnext. cbn [bind].
  rewrite (expect_at tokens "ParenL" _ lp Hlp Hparen eq_refl). cbn [bind].
  rewrite Hdot. cbn [bind]. rewrite Hd.
  change (str_in "Dot" type_tokens) with false.
  change (negb (String.eqb "Dot" "Dot")) with false. cbv iota.
  rewrite (match_taken tokens _ _ dot Hdot) by (rewrite Hd; reflexivity).
  cbn [bind]. reflexivity.
Qed.

Lemma parse_stmt_for_semicolon (tokens : list Token.t) (fuel pos : nat) (kw lp semi : Token.t) :
  Parser._peek tokens pos = Ok kw ->
  str_in (Token.type kw) ["For"; "duhrao"] = true ->
  Parser._peek tokens (pos + 1) = Ok lp ->
  Token.type lp = "ParenL" ->
  Parser._peek tokens (pos + 2) = Ok semi ->
  Token.type semi = "Semicolon" ->
  12 < fuel ->
  Parser.parse_stmt tokens fuel pos
  = Raise (ExpectedExpr
             ("Expected primary expression, got Semicolon at "
              +:+ fmt_pos (Token.pos semi))).
Proof.
  intros Hkw Hfor Hlp Hparen Hsemi Hs Hfuel.
  destruct fuel as [|[|fuel]]; try lia.
  replace (pos + 2) with (pos + 1 + 1) in Hsemi by lia.
  assert (Hnext : Parser.next tokens pos = Ok (kw, pos + 1)).
  { apply next_at; [exact Hkw|].
    apply str_in_For_cases in Hfor as [-> | ->]; reflexivity. }
  assert (Hrej : Parser.parse_expr tokens fuel (pos + 1 + 1)
                 = Raise (ExpectedExpr
                            ("Expected primary expression, got Semicolon at "
                             +:+ fmt_pos (Token.pos semi)))).
  { rewrite (parse_expr_rejects tokens fuel _ semi Hsemi); [rewrite Hs; reflexivity | | lia].
    rewrite Hs. reflexivity. }
  cbn [Parser.parse_stmt Parser.parse_for]. rewrite Hkw. cbn [bind].
  replace (str_in (Token.type kw) type_tokens) with false
    by (apply str_in_For_cases in Hfor as [-> | ->]; reflexivity).
  replace (str_in (Token.type kw) ["Return"; "wapsi"]) with false
    by (apply str_in_For_cases in Hfor as [-> | ->]; reflexivity).
  replace (str_in (Token.type kw) ["If"; "agar"]) with false
    by (apply str_in_For_cases in Hfor as [-> | ->]; reflexivity).
  rewrite Hfor, Hnext. cbn [bind].
  rewrite (expect_at tokens "ParenL" _ lp Hlp Hparen eq_refl). cbn [bind].
  rewrite Hsemi. cbn [bind]. rewrite Hs.
  change (str_in "Semicolon" type_tokens) with false.
  change (negb (String.eqb "Semicolon" "Dot")) with true. cbv iota.
  rewrite Hrej. reflexivity.
Qed.

(** X8: every parsing method that returns has consumed at least one token
    and stopped inside the list: the position it returns is larger than
    the one it started at and at most [len(tokens)]. *)
Theorem X8_parse_methods_consume_tokens_of_the_list :
  forall (tokens : list Token.t) (fuel pos pos' : nat),
    (forall x, Parser.parse_expr tokens fuel pos = Ok (x, pos') ->
               pos < pos' <= List.length tokens)
    /\ (forall x, Parser.parse_var_decl tokens fuel pos = Ok (x, pos') ->
                  pos < pos' <= List.length tokens)
    /\ (forall x, Parser.parse_param tokens pos = Ok (x, pos') ->
                  pos < pos' <= List.length tokens)
    /\ (forall x, Parser.parse_stmt tokens fuel pos = Ok (x, pos') ->
                  pos < pos' <= List.length tokens)
    /\ (forall x, Parser.parse_fn_decl tokens fuel pos = Ok (x, pos') ->
                  pos < pos' <= List.length tokens).
Proof.
  intros tokens fuel pos pos'.
  split; [intros x; apply parse_expr_steps|].
  split; [intros x; apply parse_var_decl_steps|].
  split; [intros x; apply parse_param_steps|].
  split; [intros x; apply statement_parsers_progress|].
  intros x; apply parse_fn_decl_steps.
Qed.

Lemma X8_witness :
  Parser.parse_expr [ident "a"; tok "AddOp"; ident "b"; tok "Dot"] 20 0
  = Ok (Binary "AddOp" (Identifier "a") (Identifier "b"), 3)
  /\ 0 < 3 <= List.length [ident "a"; tok "AddOp"; ident "b"; tok "Dot"].
Proof.
  split; [vm_compute; reflexivity|].
  destruct (X8_parse_methods_consume_tokens_of_the_list
              [ident "a"; tok "AddOp"; ident "b"; tok "Dot"] 20 0 3) as (Hexpr & _).
  apply (Hexpr (Binary "AddOp" (Identifier "a") (Identifier "b"))).
  vm_compute. reflexivity.
Defined.

(** X9: where an expression can begin.  When [parse_expr] returns, the
    token it started at is a literal, an identifier, an opening
    parenthesis, a minus sign or a negation; on any other token (a
    terminator, a keyword, a closing bracket, the end of the input)
    [parse_expr] raises [ExpectedExpr] naming the kind and the position of
    that token. *)
Theorem X9_where_an_expression_can_begin :
  forall (tokens : list Token.t) (fuel pos : nat),
    (forall r, Parser.parse_expr tokens fuel pos = Ok r -> opens_expr tokens pos)
    /\ (forall tok,
           Parser._peek tokens pos = Ok tok ->
           str_in (Token.type tok) expr_openers = false ->
           10 < fuel ->
           Parser.parse_expr tokens fuel pos
           = Raise (ExpectedExpr
                      ("Expected primary expression, got " +:+ Token.type tok
                       +:+ " at " +:+ fmt_pos (Token.pos tok)))).
Proof.
  intros tokens fuel pos. split.
  - apply expression_parsers_open.
  - intros tok. apply parse_expr_rejects.
Qed.

Lemma X9_witness :
  opens_expr [tok "SubOp"; ident "a"; tok "Dot"] 0
  /\ Parser.parse_expr [tok "BraceR"] 11 0
     = Raise (ExpectedExpr "Expected primary expression, got BraceR at (1, 1)")
  /\ Parser.parse_expr [tok "BraceR"] 11 1
     = Raise (ExpectedExpr "Expected primary expression, got EOF at None").
Proof.
  split; [|split].
  - destruct (X9_where_an_expression_can_begin [tok "SubOp"; ident "a"; tok "Dot"] 20 0)
      as (Hopen & _).
    apply (Hopen (Unary "SubOp" (Identifier "a"), 2)). vm_compute. reflexivity.
  - destruct (X9_where_an_expression_can_begin [tok "BraceR"] 11 0) as (_ & Hrej).
    apply (Hrej (tok "BraceR")); [reflexivity | reflexivity | lia].
  - destruct (X9_where_an_expression_can_begin [tok "BraceR"] 11 1) as (_ & Hrej).
    apply (Hrej (Token.mk "EOF" VNone None)); [reflexivity | reflexivity | lia].
Defined.

(** X10: in the header of a [for] an omitted clause has to end with a
    period.  After [for (] a semicolon makes [parse_stmt] raise
    [ExpectedExpr] for that semicolon, since only a period is taken for an
    empty initializer; after [for ( .] a semicolon does the same for the
    condition; [for ( . . ) { }] parses to a loop without initializer,
    condition and update. *)
Theorem X10_for_header_clauses_end_with_a_period :
  forall (tokens : list Token.t) (fuel pos : nat) (kw lp t2 : Token.t),
    Parser._peek tokens pos = Ok kw ->
    str_in (Token.type kw) ["For"; "duhrao"] = true ->
    Parser._peek tokens (pos + 1) = Ok lp ->
    Token.type lp = "ParenL" ->
    Parser._peek tokens (pos + 2) = Ok t2 ->
    12 < fuel ->
    (Token.type t2 = "Semicolon" ->
     Parser.parse_stmt tokens fuel pos
     = Raise (ExpectedExpr
                ("Expected primary expression, got Semicolon at "
                 +:+ fmt_pos (Token.pos t2))))
    /\ (Token.type t2 = "Dot" ->
        forall t3,
          Parser._peek tokens (pos + 3) = Ok t3 ->
          Token.type t3 = "Semicolon" ->
          Parser.parse_stmt tokens fuel pos
          = Raise (ExpectedExpr
                     ("Expected primary expression, got Semicolon at "
                      +:+ fmt_pos (Token.pos t3))))
    /\ (Token.type t2 = "Dot" ->
        forall t3 rp bl br,
          Parser._peek tokens (pos + 3) = Ok t3 ->
          Token.type t3 = "Dot" ->
          Parser._peek tokens (pos + 4) = Ok rp ->
          Token.type rp = "ParenR" ->
          Parser._peek tokens (pos + 5) = Ok bl ->
          Token.type bl = "BraceL" ->
          Parser._peek tokens (pos + 6) = Ok br ->
          Token.type br = "BraceR" ->
          Parser.parse_stmt tokens fuel pos
          = (let* (_, p) := Parser.match_ tokens ["Dot"; "Semicolon"] (pos + 7) in
             Ok (ForStmt None None None [], p))).
Proof.
  intros tokens fuel pos kw lp t2 Hkw Hfor Hlp Hparen Ht2 Hfuel.
  split; [|split].
  - intros Hs. apply (parse_stmt_for_semicolon tokens fuel pos kw lp t2); assumption.
  - intros Hd t3 Ht3 Hs.
    destruct fuel as [|[|fuel]]; try lia.
    rewrite (parse_stmt_for_header tokens fuel pos kw lp t2 Hkw Hfor Hlp Hparen Ht2 Hd).
    rewrite Ht3. cbn [bind]. rewrite Hs.
    change (negb (String.eqb "Semicolon" "Dot")) with true. cbv iota.
    rewrite (parse_expr_rejects tokens fuel _ t3 Ht3); [rewrite Hs; reflexivity | | lia].
    rewrite Hs. reflexivity.
  - intros Hd t3 rp bl br Ht3 Hd3 Hrp Hr Hbl Hl Hbr Hb.
    destruct fuel as [|[|[|fuel]]]; try lia.
    rewrite (parse_stmt_for_header tokens _ pos kw lp t2 Hkw Hfor Hlp Hparen Ht2 Hd).
    replace (pos + 4) with (pos + 3 + 1) in Hrp by lia.
    replace (pos + 5) with (pos + 3 + 1 + 1) in Hbl by lia.
    replace (pos + 6) with (pos + 3 + 1 + 1 + 1) in Hbr by lia.
    replace (pos + 7) with (pos + 3 + 1 + 1 + 1 + 1) by lia.
    rewrite Ht3. cbn [bind]. rewrite Hd3.
    change (negb (String.eqb "Dot" "Dot")) with false. cbv iota. cbn [bind].
    rewrite (match_taken tokens _ _ t3 Ht3) by (rewrite Hd3; reflexivity). cbn [bind].
    rewrite Hrp. cbn [bind]. rewrite Hr.
    change (negb (String.eqb "ParenR" "ParenR")) with false. cbv iota. cbn [bind].
    rewrite (expect_at tokens "ParenR" _ rp Hrp Hr eq_refl). cbn [bind].
    rewrite (expect_at tokens "BraceL" _ bl Hbl Hl eq_refl). cbn [bind].
    cbn [Parser.parse_block]. rewrite Hbr. cbn [bind]. rewrite Hb.
    change (negb (String.eqb "BraceR" "BraceR")) with false. cbv iota. cbn [bind].
    rewrite (expect_at tokens "BraceR" _ br Hbr Hb eq_refl). cbn [bind].
    reflexivity.
Qed.

Lemma X10_witness :
  Parser.parse_stmt
    [tok "For"; tok "ParenL"; tok "Semicolon"; tok "Semicolon"; tok "ParenR";
     tok "BraceL"; tok "BraceR"] 13 0
  = Raise (ExpectedExpr "Expected primary expression, got Semicolon at (1, 1)")
  /\ Parser.parse_stmt
       [tok "For"; tok "ParenL"; tok "Dot"; tok "Dot"; tok "ParenR";
        tok "BraceL"; tok "BraceR"] 13 0
     = Ok (ForStmt None None None [], 7).
Proof.
  split.
  - destruct (X10_for_header_clauses_end_with_a_period
                [tok "For"; tok "ParenL"; tok "Semicolon"; tok "Semicolon"; tok "ParenR";
                 tok "BraceL"; tok "BraceR"] 13 0 (tok "For") (tok "ParenL")
                (tok "Semicolon") eq_refl eq_refl eq_refl eq_refl eq_refl
                ltac:(lia)) as (Hsemi & _).
    apply Hsemi. reflexivity.
  - destruct (X10_for_header_clauses_end_with_a_period
                [tok "For"; tok "ParenL"; tok "Dot"; tok "Dot"; tok "ParenR";
                 tok "BraceL"; tok "BraceR"] 13 0 (tok "For") (tok "ParenL")
                (tok "Dot") eq_refl eq_refl eq_refl eq_refl eq_refl
                ltac:(lia)) as (_ & _ & Hdots).
    rewrite (Hdots eq_refl (tok "Dot") (tok "ParenR") (tok "BraceL") (tok "BraceR")
               eq_refl eq_refl eq_refl eq_refl eq_refl eq_refl eq_refl eq_refl).
    reflexivity.
Defined.

(** ** The parser and the end marker *)

Lemma alike_Ok {A : Type} (k : nat) (x : A) (pos : nat) :
  pos <= k -> alike k (Ok (x, pos)) (Ok (x, pos)).
Proof. intros Hle. split; [reflexivity|]. intros y p H. injection H as _ <-. exact Hle. Qed.

Lemma alike_Raise {A : Type} (k : nat) (e : ParseExc) :
  alike (A := A) k (Raise e) (Raise e).
Proof. split; [reflexivity | discriminate]. Qed.

Lemma alike_bind {A B : Type} (k : nat) (m1 m2 : Parser.P A)
    (f1 f2 : A * nat -> Parser.P B) :
  alike k m1 m2 ->
  (forall x pos, pos <= k -> alike k (f1 (x, pos)) (f2 (x, pos))) ->
  alike k (bind m1 f1) (bind m2 f2).
Proof.
  intros [<- Hle] Hf. destruct m1 as [[x pos]|e]; cbn [bind].
  - apply Hf. apply (Hle x pos eq_refl).
  - apply alike_Raise.
Qed.

Section Locality.
Variables (k : nat) (t1 t2 : list Token.t).
Hypothesis Hsame : same_upto k t1 t2.

Lemma peek_alike (pos : nat) :
  pos <= k -> Parser._peek t1 pos = Parser._peek t2 pos.
Proof. apply Hsame. Qed.

Lemma next_alike (pos : nat) :
  pos <= k -> alike k (Parser.next t1 pos) (Parser.next t2 pos).
Proof.
  intros Hle. unfold Parser.next. rewrite <- (peek_alike pos Hle).
  destruct (Parser._peek t1 pos) as [tok|e] eqn:Hpeek; cbn [bind];
    [|apply alike_Raise].
  destruct (String.eqb (Token.type tok) "EOF") eqn:Heof; [apply alike_Raise|].
  apply alike_Ok.
  destruct Hsame as [_ (eof & Hk & Hty)].
  destruct (Nat.eq_dec pos k) as [-> | Hne]; [|lia].
  rewrite Hk in Hpeek. injection Hpeek as <-. rewrite Hty in Heof. discriminate Heof.
Qed.

Lemma match_alike (types : list string) (pos : nat) :
  pos <= k -> alike k (Parser.match_ t1 types pos) (Parser.match_ t2 types pos).
Proof.
  intros Hle. unfold Parser.match_. rewrite <- (peek_alike pos Hle).
  destruct (Parser._peek t1 pos) as [tok|e]; cbn [bind]; [|apply alike_Raise].
  destruct (str_in (Token.type tok) types); [|apply alike_Ok; exact Hle].
  apply alike_bind; [apply next_alike; exact Hle|].
  intros x p Hp. apply alike_Ok. exact Hp.
Qed.

Lemma expect_alike (ttype : string) (pos : nat) :
  pos <= k -> alike k (Parser.expect t1 ttype pos) (Parser.expect t2 ttype pos).
Proof.
  intros Hle. unfold Parser.expect. rewrite <- (peek_alike pos Hle).
  destruct (Parser._peek t1 pos) as [tok|e]; cbn [bind]; [|apply alike_Raise].
  destruct (String.eqb (Token.type tok) ttype); [|apply alike_Raise].
  apply next_alike. exact Hle.
Qed.

Lemma expect_identifier_alike (pos : nat) :
  pos <= k ->
  alike k (Parser.expect_identifier t1 pos) (Parser.expect_identifier t2 pos).
Proof.
  intros Hle. unfold Parser.expect_identifier. rewrite <- (peek_alike pos Hle).
  destruct (Parser._peek t1 pos) as [tok|e]; cbn [bind]; [|apply alike_Raise].
  destruct (String.eqb (Token.type tok) "Identifier"); [|apply alike_Raise].
  apply alike_bind; [apply next_alike; exact Hle|].
  intros x p Hp. apply alike_Ok. exact Hp.
Qed.

(** One step through the bodies of the same method run on both lists. *)
Ltac alike_step :=
  match goal with
  | |- alike _ (Ok _) (Ok _) => apply alike_Ok; lia
  | |- alike _ (Raise _) (Raise _) => apply alike_Raise
  | |- alike _ (bind (Parser._peek t1 ?pos) _) (bind (Parser._peek t2 ?pos) _) =>
      rewrite <- (peek_alike pos) by lia;
      destruct (Parser._peek t1 pos); cbn [bind]
  | |- alike _ (Parser.next t1 _) _ => apply next_alike; lia
  | |- alike _ (Parser.match_ t1 _ _) _ => apply match_alike; lia
  | |- alike _ (Parser.expect t1 _ _) _ => apply expect_alike; lia
  | |- alike _ (Parser.expect_identifier t1 _) _ => apply expect_identifier_alike; lia
  | |- alike _ (bind _ _) (bind _ _) =>
      apply alike_bind; [| intros ? ? ?; cbn beta iota]
  | |- alike _ (if ?b then _ else _) (if ?b then _ else _) => destruct b
  | |- alike _ (match ?x with _ => _ end) (match ?x with _ => _ end) => destruct x
  | |- alike _ _ _ => match goal with IH : _ |- _ => solve [apply IH; lia] end
  end.

Lemma expression_parsers_alike (fuel : nat) :
  (forall pos, pos <= k ->
     alike k (Parser.parse_expr t1 fuel pos) (Parser.parse_expr t2 fuel pos))
  /\ (forall pos, pos <= k ->
        alike k (Parser.parse_assignment t1 fuel pos) (Parser.parse_assignment t2 fuel pos))
  /\ (forall pos, pos <= k ->
        alike k (Parser.parse_logical_or t1 fuel pos) (Parser.parse_logical_or t2 fuel pos))
  /\ (forall node pos, pos <= k ->
        alike k (Parser.parse_logical_or_loop t1 fuel node pos)
                (Parser.parse_logical_or_loop t2 fuel node pos))
  /\ (forall pos, pos <= k ->
        alike k (Parser.parse_logical_and t1 fuel pos) (Parser.parse_logical_and t2 fuel pos))
  /\ (forall node pos, pos <= k ->
        alike k (Parser.parse_logical_and_loop t1 fuel node pos)
                (Parser.parse_logical_and_loop t2 fuel node pos))
  /\ (forall pos, pos <= k ->
        alike k (Parser.parse_equality t1 fuel pos) (Parser.parse_equality t2 fuel pos))
  /\ (forall node pos, pos <= k ->
        alike k (Parser.parse_equality_loop t1 fuel node pos)
                (Parser.parse_equality_loop t2 fuel node pos))
  /\ (forall pos, pos <= k ->
        alike k (Parser.parse_comparison t1 fuel pos) (Parser.parse_comparison t2 fuel pos))
  /\ (forall node pos, pos <= k ->
        alike k (Parser.parse_comparison_loop t1 fuel node pos)
                (Parser.parse_comparison_loop t2 fuel node pos))
  /\ (forall pos, pos <= k ->
        alike k (Parser.parse_add t1 fuel pos) (Parser.parse_add t2 fuel pos))
  /\ (forall node pos, pos <= k ->
        alike k (Parser.parse_add_loop t1 fuel node pos)
                (Parser.parse_add_loop t2 fuel node pos))
  /\ (forall pos, pos <= k ->
        alike k (Parser.parse_mul t1 fuel pos) (Parser.parse_mul t2 fuel pos))
  /\ (forall node pos, pos <= k ->
        alike k (Parser.parse_mul_loop t1 fuel node pos)
                (Parser.parse_mul_loop t2 fuel node pos))
  /\ (forall pos, pos <= k ->
        alike k (Parser.parse_unary t1 fuel pos) (Parser.parse_unary t2 fuel pos))
  /\ (forall pos, pos <= k ->
        alike k (Parser.parse_call t1 fuel pos) (Parser.parse_call t2 fuel pos))
  /\ (forall node pos, pos <= k ->
        alike k (Parser.parse_call_loop t1 fuel node pos)
                (Parser.parse_call_loop t2 fuel node pos))
  /\ (forall args pos, pos <= k ->
        alike k (Parser.parse_args_loop t1 fuel args pos)
                (Parser.parse_args_loop t2 fuel args pos))
  /\ (forall pos, pos <= k ->
        alike k (Parser.parse_primary t1 fuel pos) (Parser.parse_primary t2 fuel pos)).
Proof.
  induction fuel as [|fuel IH].
  - repeat match goal with |- _ /\ _ => split end; intros; apply alike_Raise.
  - destruct IH as (I1 & I2 & I3 & I4 & I5 & I6 & I7 & I8 & I9 & I10 & I11 & I12
                    & I13 & I14 & I15 & I16 & I17 & I18 & I19).
    repeat match goal with |- _ /\ _ => split end; intros;
      cbn [Parser.parse_expr Parser.parse_assignment Parser.parse_logical_or
           Parser.parse_logical_or_loop Parser.parse_logical_and
           Parser.parse_logical_and_loop Parser.parse_equality
           Parser.parse_equality_loop Parser.parse_comparison
           Parser.parse_comparison_loop Parser.parse_add Parser.parse_add_loop
           Parser.parse_mul Parser.parse_mul_loop Parser.parse_unary
           Parser.parse_call Parser.parse_call_loop Parser.parse_args_loop
           Parser.parse_primary];
      repeat alike_step.
Qed.

Lemma parse_expr_alike (fuel pos : nat) :
  pos <= k -> alike k (Parser.parse_expr t1 fuel pos) (Parser.parse_expr t2 fuel pos).
Proof. apply expression_parsers_alike. Qed.

Lemma parse_var_decl_alike (fuel pos : nat) :
  pos <= k ->
  alike k (Parser.parse_var_decl t1 fuel pos) (Parser.parse_var_decl t2 fuel pos).
Proof.
  intros Hle. pose proof (parse_expr_alike fuel) as Hexpr.
  unfold Parser.parse_var_decl. repeat alike_step.
Qed.

Lemma parse_param_alike (pos : nat) :
  pos <= k -> alike k (Parser.parse_param t1 pos) (Parser.parse_param t2 pos).
Proof. intros Hle. unfold Parser.parse_param. repeat alike_step. Qed.

Lemma statement_parsers_alike (fuel : nat) :
  (forall pos, pos <= k ->
     alike k (Parser.parse_stmt t1 fuel pos) (Parser.parse_stmt t2 fuel pos))
  /\ (forall block pos, pos <= k ->
        alike k (Parser.parse_block t1 fuel block pos) (Parser.parse_block t2 fuel block pos))
  /\ (forall pos, pos <= k ->
        alike k (Parser.parse_if t1 fuel pos) (Parser.parse_if t2 fuel pos))
  /\ (forall pos, pos <= k ->
        alike k (Parser.parse_for t1 fuel pos) (Parser.parse_for t2 fuel pos)).
Proof.
  induction fuel as [|fuel IH].
  - repeat match goal with |- _ /\ _ => split end; intros; apply alike_Raise.
  - destruct IH as (I1 & I2 & I3 & I4).
    pose proof (parse_expr_alike fuel) as Hexpr.
    pose proof (parse_var_decl_alike fuel) as Hvar.
    repeat match goal with |- _ /\ _ => split end; intros;
      cbn [Parser.parse_stmt Parser.parse_block Parser.parse_if Parser.parse_for];
      repeat alike_step.
Qed.

Lemma parse_params_loop_alike (fuel : nat) :
  forall params pos, pos <= k ->
    alike k (Parser.parse_params_loop t1 fuel params pos)
            (Parser.parse_params_loop t2 fuel params pos).
Proof.
  pose proof parse_param_alike as Hparam.
  induction fuel as [|fuel IH]; intros params pos Hle; [apply alike_Raise|].
  cbn [Parser.parse_params_loop]. repeat alike_step.
Qed.

Lemma parse_fn_decl_alike (fuel pos : nat) :
  pos <= k ->
  alike k (Parser.parse_fn_decl t1 fuel pos) (Parser.parse_fn_decl t2 fuel pos).
Proof.
  intros Hle.
  pose proof parse_param_alike as Hparam.
  pose proof (parse_params_loop_alike fuel) as Hparams.
  destruct (statement_parsers_alike fuel) as (_ & Hblock & _).
  unfold Parser.parse_fn_decl. repeat alike_step.
Qed.

Lemma parse_items_alike (fuel : nat) :
  forall items pos, pos <= k ->
    alike k (Parser.parse_items t1 fuel items pos) (Parser.parse_items t2 fuel items pos).
Proof.
  induction fuel as [|fuel IH]; intros items pos Hle; [apply alike_Raise|].
  pose proof (parse_fn_decl_alike fuel) as Hfn.
  pose proof (parse_var_decl_alike fuel) as Hvar.
  destruct (statement_parsers_alike fuel) as (Hstmt & _).
  cbn [Parser.parse_items]. repeat alike_step.
Qed.

Lemma parse_alike (fuel : nat) : Parser.parse t1 fuel = Parser.parse t2 fuel.
Proof.
  unfold Parser.parse.
  destruct (parse_items_alike fuel [] 0 ltac:(lia)) as [-> _]. reflexivity.
Qed.

End Locality.

Lemma same_upto_marker (pre rest rest' : list Token.t) (eof : Token.t) :
  Token.type eof = "EOF" ->
  same_upto (List.length pre) (pre ++ eof :: rest) (pre ++ eof :: rest').
Proof.
  intros Hty. split.
  - intros pos Hle. unfold Parser._peek. rewrite !length_app. cbn [List.length].
    destruct (Nat.leb_spec (List.length pre + S (List.length rest)) pos); [lia|].
    destruct (Nat.leb_spec (List.length pre + S (List.length rest')) pos); [lia|].
    destruct (Nat.eq_dec pos (List.length pre)) as [-> | Hne].
    + rewrite !list_lookup_middle by reflexivity. reflexivity.
    + rewrite !lookup_app_l by lia. reflexivity.
  - exists eof. split; [apply peek_middle | exact Hty].
Qed.

(** X11: [parse] never looks behind the end marker.  Whatever follows the
    first [EOF] token of the list, the outcome of [parse] (the program or
    the error, with its message) is the same, and every method that
    returns stops at or before that token. *)
Theorem X11_parse_never_looks_behind_the_end_marker :
  forall (pre rest rest' : list Token.t) (eof : Token.t) (fuel : nat),
    Token.type eof = "EOF" ->
    Parser.parse (pre ++ eof :: rest) fuel = Parser.parse (pre ++ eof :: rest') fuel
    /\ (forall pos stmt pos',
           pos <= List.length pre ->
           Parser.parse_stmt (pre ++ eof :: rest) fuel pos = Ok (stmt, pos') ->
           pos' <= List.length pre
           /\ Parser.parse_stmt (pre ++ eof :: rest') fuel pos = Ok (stmt, pos'))
    /\ (forall pos e pos',
           pos <= List.length pre ->
           Parser.parse_expr (pre ++ eof :: rest) fuel pos = Ok (e, pos') ->
           pos' <= List.length pre
           /\ Parser.parse_expr (pre ++ eof :: rest') fuel pos = Ok (e, pos')).
Proof.
  intros pre rest rest' eof fuel Hty.
  pose proof (same_upto_marker pre rest rest' eof Hty) as Hsame.
  split; [apply (parse_alike _ _ _ Hsame)|]. split.
  - intros pos stmt pos' Hle H.
    destruct (statement_parsers_alike _ _ _ Hsame fuel) as (Hstmt & _).
    destruct (Hstmt pos Hle) as [Heq Hpos]. split; [apply (Hpos _ _ H)|].
    rewrite <- Heq. exact H.
  - intros pos e pos' Hle H.
    destruct (parse_expr_alike _ _ _ Hsame fuel pos Hle) as [Heq Hpos].
    split; [apply (Hpos _ _ H)|]. rewrite <- Heq. exact H.
Qed.

Lemma X11_witness :
  Parser.parse ([ident "a"; tok "Dot"] ++ tok "EOF" :: [tok "BraceR"; ident "b"]) 30
  = Parser.parse ([ident "a"; tok "Dot"] ++ tok "EOF" :: []) 30.
Proof.
  apply (X11_parse_never_looks_behind_the_end_marker
           [ident "a"; tok "Dot"] [tok "BraceR"; ident "b"] [] (tok "EOF") 30).
  reflexivity.
Defined.

(** ** Precedence *)

Lemma parse_expr_more_fuel (tokens : list Token.t) (fuel k pos : nat) (r : Parser.P Expr) :
  Parser.parse_expr tokens fuel pos = r -> settled r = true ->
  Parser.parse_expr tokens (k + fuel) pos = r.
Proof.
  intros H Hs. induction k as [|k IH]; [exact H|].
  cbn [Nat.add]. apply parse_expr_monotone; assumption.
Qed.

Lemma parse_expr_from (tokens : list Token.t) (fuel0 fuel pos : nat) (r : Parser.P Expr) :
  Parser.parse_expr tokens fuel0 pos = r -> settled r = true -> fuel0 <= fuel ->
  Parser.parse_expr tokens fuel pos = r.
Proof.
  intros H Hs Hle. replace fuel with ((fuel - fuel0) + fuel0) by lia.
  apply parse_expr_more_fuel; assumption.
Qed.

Ltac split_In H :=
  repeat (destruct H as [H | H]; [try (injection H as <- <-); try subst|]);
  [..|destruct H].

Lemma two_operators (op1 op2 : string) (l1 l2 : nat) (a b c : string)
    (pa pb pc : option (nat * nat)) (stop : Token.t) (rest : list Token.t) :
  In (op1, l1) binary_levels ->
  In (op2, l2) binary_levels ->
  In (Token.type stop) closers ->
  Parser.parse_expr
    ([name_token a pa; tok op1; name_token b pb; tok op2; name_token c pc] ++ stop :: rest)
    40 0
  = Ok (if Nat.leb l2 l1
        then Binary op2 (Binary op1 (Identifier a) (Identifier b)) (Identifier c)
        else Binary op1 (Identifier a) (Binary op2 (Identifier b) (Identifier c)),
        5).
Proof.
  intros H1 H2 Hstop. destruct stop as [ty v p]. cbn [Token.type] in Hstop.
  unfold binary_levels in H1, H2. unfold closers in Hstop.
  split_In Hstop; split_In H1; split_In H2; reflexivity.
Qed.

Lemma assignment_is_loosest (op : string) (l : nat) (a b c : string)
    (pa pb pc : option (nat * nat)) (stop : Token.t) (rest : list Token.t) :
  In (op, l) binary_levels ->
  In (Token.type stop) closers ->
  Parser.parse_expr
    ([name_token a pa; tok "AssignOp"; name_token b pb; tok op; name_token c pc]
     ++ stop :: rest) 40 0
  = Ok (Binary "AssignOp" (Identifier a) (Binary op (Identifier b) (Identifier c)), 5)
  /\ Parser.parse_expr
       ([name_token a pa; tok op; name_token b pb; tok "AssignOp"; name_token c pc]
        ++ stop :: rest) 40 0
     = Raise (UnexpectedToken "Left side of assignment must be identifier").
Proof.
  intros H Hstop. destruct stop as [ty v p]. cbn [Token.type] in Hstop.
  unfold binary_levels in H. unfold closers in Hstop.
  split_In Hstop; split_In H; split; reflexivity.
Qed.

Lemma assignment_chain (a b c : string) (pa pb pc : option (nat * nat))
    (stop : Token.t) (rest : list Token.t) :
  In (Token.type stop) closers ->
  Parser.parse_expr
    ([name_token a pa; tok "AssignOp"; name_token b pb; tok "AssignOp"; name_token c pc]
     ++ stop :: rest) 40 0
  = Ok (Binary "AssignOp" (Identifier a) (Binary "AssignOp" (Identifier b) (Identifier c)),
        5).
Proof.
  intros Hstop. destruct stop as [ty v p]. cbn [Token.type] in Hstop.
  unfold closers in Hstop. split_In Hstop; reflexivity.
Qed.

Lemma unary_is_tightest (u op : string) (l : nat) (a b : string)
    (pa pb : option (nat * nat)) (stop : Token.t) (rest : list Token.t) :
  In u ["SubOp"; "NotOp"] ->
  In (op, l) binary_levels ->
  In (Token.type stop) closers ->
  Parser.parse_expr
    ([tok u; name_token a pa; tok op; name_token b pb] ++ stop :: rest) 40 0
  = Ok (Binary op (Unary u (Identifier a)) (Identifier b), 4).
Proof.
  intros Hu H Hstop. destruct stop as [ty v p]. cbn [Token.type] in Hstop.
  unfold binary_levels in H. unfold closers in Hstop.
  split_In Hstop; split_In Hu; split_In H; reflexivity.
Qed.

(** X12: precedence and associativity.  On three names joined by two
    binary operators and followed by a token that ends an expression,
    [parse_expr] groups the operator of the higher level first, and two
    operators of the same level from the left: the levels rise from [OrOp]
    over [AndOp], the equalities, the comparisons and the additive
    operators to the multiplicative ones.  An assignment takes the whole
    operator expression on its right and groups to the right, and raises
    [UnexpectedToken] when its left side is an operator expression; a
    unary minus or negation applies to the name behind it alone. *)
Theorem X12_precedence_and_associativity :
  forall (a b c : string) (pa pb pc : option (nat * nat)) (stop : Token.t)
         (rest : list Token.t) (fuel : nat),
    In (Token.type stop) closers ->
    40 <= fuel ->
    (forall op1 l1 op2 l2,
        In (op1, l1) binary_levels ->
        In (op2, l2) binary_levels ->
        Parser.parse_expr
          ([name_token a pa; tok op1; name_token b pb; tok op2; name_token c pc]
           ++ stop :: rest) fuel 0
        = Ok (if Nat.leb l2 l1
              then Binary op2 (Binary op1 (Identifier a) (Identifier b)) (Identifier c)
              else Binary op1 (Identifier a) (Binary op2 (Identifier b) (Identifier c)),
              5))
    /\ (forall op l,
           In (op, l) binary_levels ->
           Parser.parse_expr
             ([name_token a pa; tok "AssignOp"; name_token b pb; tok op; name_token c pc]
              ++ stop :: rest) fuel 0
           = Ok (Binary "AssignOp" (Identifier a)
                   (Binary op (Identifier b) (Identifier c)), 5)
           /\ Parser.parse_expr
                ([name_token a pa; tok op; name_token b pb; tok "AssignOp";
                  name_token c pc] ++ stop :: rest) fuel 0
              = Raise (UnexpectedToken "Left side of assignment must be identifier"))
    /\ Parser.parse_expr
         ([name_token a pa; tok "AssignOp"; name_token b pb; tok "AssignOp";
           name_token c pc] ++ stop :: rest) fuel 0
       = Ok (Binary "AssignOp" (Identifier a)
               (Binary "AssignOp" (Identifier b) (Identifier c)), 5)
    /\ (forall u op l,
           In u ["SubOp"; "NotOp"] ->
           In (op, l) binary_levels ->
           Parser.parse_expr
             ([tok u; name_token a pa; tok op; name_token b pb] ++ stop :: rest) fuel 0
           = Ok (Binary op (Unary u (Identifier a)) (Identifier b), 4)).
Proof.
  intros a b c pa pb pc stop rest fuel Hstop Hfuel.
  split; [|split; [|split]].
  - intros op1 l1 op2 l2 H1 H2.
    apply (parse_expr_from _ 40); [|reflexivity | exact Hfuel].
    apply two_operators; assumption.
  - intros op l H.
    destruct (assignment_is_loosest op l a b c pa pb pc stop rest H Hstop) as [Hr Hl].
    split; (apply (parse_expr_from _ 40); [assumption | reflexivity | exact Hfuel]).
  - apply (parse_expr_from _ 40); [|reflexivity | exact Hfuel].
    apply assignment_chain. exact Hstop.
  - intros u op l Hu H.
    apply (parse_expr_from _ 40); [|reflexivity | exact Hfuel].
    apply (unary_is_tightest u op l); assumption.
Qed.

Lemma X12_witness :
  Parser.parse_expr
    ([name_token "a" None; tok "AddOp"; name_token "b" None; tok "MulOp";
      name_token "c" None] ++ tok "Dot" :: []) 50 0
  = Ok (if Nat.leb 6 5
        then Binary "MulOp" (Binary "AddOp" (Identifier "a") (Identifier "b"))
               (Identifier "c")
        else Binary "AddOp" (Identifier "a")
               (Binary "MulOp" (Identifier "b") (Identifier "c")),
        5).
Proof.
  apply (proj1 (X12_precedence_and_associativity "a" "b" "c" None None None
                  (tok "Dot") [] 50 ltac:(right; left; reflexivity) ltac:(lia))
           "AddOp" 5 "MulOp" 6).
  - do 8 right. left. reflexivity.
  - do 10 right. left. reflexivity.
Defined.

(** ** The kinds of the tokens the parser reads *)

Section Kinds.
Variable tokens : list Token.t.

Lemma str_in_sub (x : string) (l l' : list string) :
  str_in x l = true -> forallb (fun y => str_in y l') l = true -> str_in x l' = true.
Proof.
  unfold str_in at 1. intros Hin Hall.
  apply existsb_exists in Hin as (y & Hy & Heq). apply String.eqb_eq in Heq. subst y.
  rewrite forallb_forall in Hall. apply Hall. exact Hy.
Qed.

Lemma peek_lookup (pos : nat) (tok : Token.t) :
  Parser._peek tokens pos = Ok tok ->
  String.eqb (Token.type tok) "EOF" = false ->
  tokens !! pos = Some tok.
Proof.
  unfold Parser._peek. intros H Hne.
  destruct (Nat.leb (List.length tokens) pos).
  - injection H as <-. discriminate Hne.
  - destruct (tokens !! pos) as [t|]; [injection H as ->; reflexivity | discriminate].
Qed.

Lemma next_after_peek (pos : nat) (t tok : Token.t) (pos' : nat) :
  Parser._peek tokens pos = Ok t ->
  Parser.next tokens pos = Ok (tok, pos') ->
  str_in (Token.type t) parser_kinds = true ->
  taken tokens pos pos'.
Proof.
  unfold Parser.next. intros Hpeek H Hkind. rewrite Hpeek in H. cbn [bind] in H.
  destruct (String.eqb (Token.type t) "EOF") eqn:Hne; [discriminate|].
  injection H as <- <-. split; [lia|]. intros k Hk.
  replace k with pos by lia. exists t. split; [|exact Hkind].
  apply (peek_lookup _ _ Hpeek Hne).
Qed.

Lemma next_of_kind (pos : nat) (tok : Token.t) (pos' : nat) :
  peek_kind tokens pos ->
  Parser.next tokens pos = Ok (tok, pos') ->
  taken tokens pos pos'.
Proof.
  intros Hkind H. pose proof H as H'. unfold Parser.next in H'.
  apply bind_Ok_inv in H' as [t [Hpeek _]].
  apply (next_after_peek _ _ _ _ Hpeek H (Hkind t Hpeek)).
Qed.

Lemma match_of_kind (types : list string) (pos : nat) (m : option Token.t) (pos' : nat) :
  Parser.match_ tokens types pos = Ok (m, pos') ->
  forallb (fun y => str_in y parser_kinds) types = true ->
  taken tokens pos pos'.
Proof.
  intros H Hall. unfold Parser.match_ in H. apply bind_Ok_inv in H as [t [Hpeek H]].
  destruct (str_in (Token.type t) types) eqn:Hin.
  - apply bind_Ok_inv in H as [[t' p] [Hn H]]. injection H as _ <-.
    apply (next_after_peek _ _ _ _ Hpeek Hn). apply (str_in_sub _ _ _ Hin Hall).
  - injection H as _ <-. split; [lia|]. intros k Hk. lia.
Qed.

Lemma expect_of_kind (ttype : string) (pos : nat) (tok : Token.t) (pos' : nat) :
  Parser.expect tokens ttype pos = Ok (tok, pos') ->
  str_in ttype parser_kinds = true ->
  taken tokens pos pos'.
Proof.
  intros H Hkind. unfold Parser.expect in H. apply bind_Ok_inv in H as [t [Hpeek H]].
  destruct (String.eqb_spec (Token.type t) ttype) as [Heq | _]; [|discriminate].
  apply (next_after_peek _ _ _ _ Hpeek H). rewrite Heq. exact Hkind.
Qed.

Lemma expect_identifier_of_kind (pos : nat) (name : string) (pos' : nat) :
  Parser.expect_identifier tokens pos = Ok (name, pos') -> taken tokens pos pos'.
Proof.
  intros H. unfold Parser.expect_identifier in H. apply bind_Ok_inv in H as [t [Hpeek H]].
  destruct (String.eqb_spec (Token.type t) "Identifier") as [Heq | _]; [|discriminate].
  apply bind_Ok_inv in H as [[t' p] [Hn H]]. injection H as _ <-.
  apply (next_after_peek _ _ _ _ Hpeek Hn). rewrite Heq. reflexivity.
Qed.

(** The kind of a token that passed a test of the parser. *)
Ltac kind_solve :=
  match goal with
  | C : str_in (Token.type ?t) ?l = true |- str_in (Token.type ?t) parser_kinds = true =>
      apply (str_in_sub _ l); [exact C | reflexivity]
  | C : String.eqb (Token.type ?t) ?x = true
    |- str_in (Token.type ?t) parser_kinds = true =>
      apply String.eqb_eq in C; rewrite C; reflexivity
  end.

Ltac peek_kind_solve :=
  match goal with
  | E : Parser._peek tokens ?p = Ok ?t |- peek_kind tokens ?p =>
      let t' := fresh "t" in
      let Ht := fresh "Ht" in
      intros t' Ht; rewrite E in Ht; injection Ht as <-; kind_solve
  end.

(** Take a successful method body apart, call by call, and replace each
    call by the stretch of tokens it has read. *)
Ltac kinds_step :=
  match goal with
  | H : Raise _ = Ok _ |- _ => discriminate H
  | H : Ok _ = Ok _ |- _ => injection H as ? ?; subst
  | H : bind _ _ = Ok _ |- _ =>
      let E := fresh "E" in
      apply bind_Ok_inv in H as [? [E H]]
  | H : (let '(_, _) := ?a in _) = Ok _ |- _ => destruct a
  | H : (if negb ?b then _ else _) = Ok _ |- _ =>
      let C := fresh "C" in destruct b eqn:C; cbn [negb] in H
  | H : (if ?b then _ else _) = Ok _ |- _ =>
      let C := fresh "C" in destruct b eqn:C
  | H : match ?x with _ => _ end = Ok _ |- _ => destruct x
  | H : Parser.match_ tokens _ _ = Ok _ |- _ =>
      apply match_of_kind in H; [|reflexivity]
  | H : Parser.expect tokens _ _ = Ok _ |- _ =>
      apply expect_of_kind in H; [|reflexivity]
  | H : Parser.expect_identifier tokens _ = Ok _ |- _ =>
      apply expect_identifier_of_kind in H
  | Hk : peek_kind tokens ?p, H : Parser.next tokens ?p = Ok _ |- _ =>
      apply (next_of_kind _ _ _ Hk) in H
  | E : Parser._peek tokens ?p = Ok _, H : Parser.next tokens ?p = Ok _ |- _ =>
      apply (next_after_peek _ _ _ _ E) in H; [|kind_solve]
  | IH : forall _ _ _, peek_kind _ _ -> _ = Ok _ -> taken _ _ _, H : _ = Ok _ |- _ =>
      apply IH in H; [|peek_kind_solve]
  | IH : forall _ _ _, _ = Ok _ -> taken _ _ _, H : _ = Ok _ |- _ =>
      apply IH in H; [idtac]
  | IH : forall _ _ _ _, _ = Ok _ -> taken _ _ _, H : _ = Ok _ |- _ =>
      apply IH in H; [idtac]
  end.

(** Join the stretches, which follow each other. *)
Ltac taken_join :=
  unfold taken in *;
  repeat match goal with H : _ <= _ /\ _ |- _ => destruct H end;
  split; [lia|];
  let k := fresh "k" in
  let Hlow := fresh "Hlow" in
  let Hhigh := fresh "Hhigh" in
  intros k [Hlow Hhigh];
  repeat match goal with
         | L : ?a <= k, H : forall j, ?a <= j < ?b -> taken_kind tokens j |- _ =>
             let Hc := fresh "Hc" in
             destruct (Nat.lt_ge_cases k b) as [Hc | Hc];
             [apply H; lia | clear H L]
         end;
  lia.

Ltac kinds_walk := repeat kinds_step; taken_join.

Lemma expression_parsers_kinds (fuel : nat) :
  (forall pos x pos', Parser.parse_expr tokens fuel pos = Ok (x, pos') ->
                      taken tokens pos pos')
  /\ (forall pos x pos', Parser.parse_assignment tokens fuel pos = Ok (x, pos') ->
                         taken tokens pos pos')
  /\ (forall pos x pos', Parser.parse_logical_or tokens fuel pos = Ok (x, pos') ->
                         taken tokens pos pos')
  /\ (forall node pos x pos',
         Parser.parse_logical_or_loop tokens fuel node pos = Ok (x, pos') ->
         taken tokens pos pos')
  /\ (forall pos x pos', Parser.parse_logical_and tokens fuel pos = Ok (x, pos') ->
                         taken tokens pos pos')
  /\ (forall node pos x pos',
         Parser.parse_logical_and_loop tokens fuel node pos = Ok (x, pos') ->
         taken tokens pos pos')
  /\ (forall pos x pos', Parser.parse_equality tokens fuel pos = Ok (x, pos') ->
                         taken tokens pos pos')
  /\ (forall node pos x pos',
         Parser.parse_equality_loop tokens fuel node pos = Ok (x, pos') ->
         taken tokens pos pos')
  /\ (forall pos x pos', Parser.parse_comparison tokens fuel pos = Ok (x, pos') ->
                         taken tokens pos pos')
  /\ (forall node pos x pos',
         Parser.parse_comparison_loop tokens fuel node pos = Ok (x, pos') ->
         taken tokens pos pos')
  /\ (forall pos x pos', Parser.parse_add tokens fuel pos = Ok (x, pos') ->
                         taken tokens pos pos')
  /\ (forall node pos x pos',
         Parser.parse_add_loop tokens fuel node pos = Ok (x, pos') ->
         taken tokens pos pos')
  /\ (forall pos x pos', Parser.parse_mul tokens fuel pos = Ok (x, pos') ->
                         taken tokens pos pos')
  /\ (forall node pos x pos',
         Parser.parse_mul_loop tokens fuel node pos = Ok (x, pos') ->
         taken tokens pos pos')
  /\ (forall pos x pos', Parser.parse_unary tokens fuel pos = Ok (x, pos') ->
                         taken tokens pos pos')
  /\ (forall pos x pos', Parser.parse_call tokens fuel pos = Ok (x, pos') ->
                         taken tokens pos pos')
  /\ (forall node pos x pos',
         Parser.parse_call_loop tokens fuel node pos = Ok (x, pos') ->
         taken tokens pos pos')
  /\ (forall args pos x pos',
         Parser.parse_args_loop tokens fuel args pos = Ok (x, pos') ->
         taken tokens pos pos')
  /\ (forall pos x pos', Parser.parse_primary tokens fuel pos = Ok (x, pos') ->
                         taken tokens pos pos').
Proof.
  induction fuel as [|fuel IH].
  - repeat match goal with |- _ /\ _ => split end; intros until pos'; discriminate.
  - destruct IH as (I1 & I2 & I3 & I4 & I5 & I6 & I7 & I8 & I9 & I10 & I11 & I12
                    & I13 & I14 & I15 & I16 & I17 & I18 & I19).
    repeat match goal with |- _ /\ _ => split end; intros until pos'; intros H;
      cbn [Parser.parse_expr Parser.parse_assignment Parser.parse_logical_or
           Parser.parse_logical_or_loop Parser.parse_logical_and
           Parser.parse_logical_and_loop Parser.parse_equality
           Parser.parse_equality_loop Parser.parse_comparison
           Parser.parse_comparison_loop Parser.parse_add Parser.parse_add_loop
           Parser.parse_mul Parser.parse_mul_loop Parser.parse_unary
           Parser.parse_call Parser.parse_call_loop Parser.parse_args_loop
           Parser.parse_primary] in H;
      kinds_walk.
Qed.

Lemma parse_expr_kinds (fuel pos : nat) (x : Expr) (pos' : nat) :
  Parser.parse_expr tokens fuel pos = Ok (x, pos') -> taken tokens pos pos'.
Proof. apply expression_parsers_kinds. Qed.

Lemma parse_var_decl_kinds (fuel pos : nat) (x : VarDecl.t) (pos' : nat) :
  Parser.parse_var_decl tokens fuel pos = Ok (x, pos') -> taken tokens pos pos'.
Proof.
  pose proof (parse_expr_kinds fuel) as Hexpr.
  unfold Parser.parse_var_decl. intros H. kinds_walk.
Qed.

Lemma parse_param_kinds (pos : nat) (x : Param.t) (pos' : nat) :
  Parser.parse_param tokens pos = Ok (x, pos') -> taken tokens pos pos'.
Proof. unfold Parser.parse_param. intros H. kinds_walk. Qed.

Lemma statement_parsers_kinds (fuel : nat) :
  (forall pos x pos', Parser.parse_stmt tokens fuel pos = Ok (x, pos') ->
                      taken tokens pos pos')
  /\ (forall block pos x pos',
         Parser.parse_block tokens fuel block pos = Ok (x, pos') ->
         taken tokens pos pos')
  /\ (forall pos x pos',
         peek_kind tokens pos ->
         Parser.parse_if tokens fuel pos = Ok (x, pos') ->
         taken tokens pos pos')
  /\ (forall pos x pos',
         peek_kind tokens pos ->
         Parser.parse_for tokens fuel pos = Ok (x, pos') ->
         taken tokens pos pos').
Proof.
  induction fuel as [|fuel IH].
  - repeat match goal with |- _ /\ _ => split end; intros until pos';
      first [intros _ H; discriminate H | intros H; discriminate H].
  - destruct IH as (I1 & I2 & I3 & I4).
    pose proof (parse_expr_kinds fuel) as Hexpr.
    pose proof (parse_var_decl_kinds fuel) as Hvar.
    repeat match goal with |- _ /\ _ => split end; intros until pos';
      first [intros Hkind H | intros H];
      cbn [Parser.parse_stmt Parser.parse_block Parser.parse_if Parser.parse_for] in H;
      kinds_walk.
Qed.

Lemma parse_params_loop_kinds (fuel : nat) :
  forall params pos x pos',
    Parser.parse_params_loop tokens fuel params pos = Ok (x, pos') ->
    taken tokens pos pos'.
Proof.
  induction fuel as [|fuel IH]; intros params pos x pos' H; [discriminate|].
  pose proof parse_param_kinds as Hparam.
  cbn [Parser.parse_params_loop] in H. kinds_walk.
Qed.

Lemma parse_fn_decl_kinds (fuel pos : nat) (x : FnDecl.t) (pos' : nat) :
  Parser.parse_fn_decl tokens fuel pos = Ok (x, pos') -> taken tokens pos pos'.
Proof.
  pose proof parse_param_kinds as Hparam.
  pose proof (parse_params_loop_kinds fuel) as Hparams.
  destruct (statement_parsers_kinds fuel) as (_ & Hblock & _).
  unfold Parser.parse_fn_decl. intros H. kinds_walk.
Qed.

Lemma parse_items_kinds (fuel : nat) :
  forall items pos x pos',
    Parser.parse_items tokens fuel items pos = Ok (x, pos') ->
    taken tokens pos pos'.
Proof.
  induction fuel as [|fuel IH]; intros items pos x pos' H; [discriminate|].
  pose proof (parse_fn_decl_kinds fuel) as Hfn.
  pose proof (parse_var_decl_kinds fuel) as Hvar.
  destruct (statement_parsers_kinds fuel) as (Hstmt & _).
  cbn [Parser.parse_items] in H. kinds_walk.
Qed.

End Kinds.

(** ** The lexer without regular expressions *)

Lemma get_None (s : string) : forall n, String.get n s = None <-> String.length s <= n.
Proof.
  induction s as [|c s IH]; intros n.
  - cbn. split; [lia | reflexivity].
  - destruct n as [|n]; cbn.
    + split; [discriminate | lia].
    + rewrite IH. lia.
Qed.

Lemma get_Some (s : string) (n : nat) :
  n < String.length s -> exists c, String.get n s = Some c.
Proof.
  intros Hlt. destruct (String.get n s) as [c|] eqn:H; [eauto|].
  apply get_None in H. lia.
Qed.

Section Lexer.
Variable src : string.

Local Abbreviation len := (NoRegexLexer.len src).
Local Abbreviation _peek := (NoRegexLexer._peek src).
Local Abbreviation _next := (NoRegexLexer._next src).

Lemma peek_get (self : NoRegexLexer.t) :
  _peek self = String.get (NoRegexLexer.i self) src.
Proof.
  unfold NoRegexLexer._peek, NoRegexLexer.len.
  destruct (Nat.ltb_spec (NoRegexLexer.i self) (String.length src)) as [_ | Hle];
    [reflexivity|].
  symmetry. apply get_None. exact Hle.
Qed.

Lemma peek_Some (self : NoRegexLexer.t) (ch : ascii) :
  _peek self = Some ch -> NoRegexLexer.i self < len.
Proof.
  rewrite peek_get. intros H. unfold NoRegexLexer.len.
  destruct (Nat.lt_ge_cases (NoRegexLexer.i self) (String.length src)) as [Hlt | Hge];
    [exact Hlt|].
  apply get_None in Hge. congruence.
Qed.

Lemma peek_None (self : NoRegexLexer.t) :
  _peek self = None -> len <= NoRegexLexer.i self.
Proof. rewrite peek_get. apply get_None. Qed.

Lemma next_i (self : NoRegexLexer.t) :
  NoRegexLexer.i (snd (_next self)) = NoRegexLexer.i self + 1.
Proof.
  unfold NoRegexLexer._next. destruct (_peek self) as [c|]; [|reflexivity].
  destruct c as [[] [] [] [] [] [] [] []]; reflexivity.
Qed.

Lemma next_fst (self : NoRegexLexer.t) : fst (_next self) = _peek self.
Proof.
  unfold NoRegexLexer._next. destruct (_peek self) as [c|]; [|reflexivity].
  destruct c as [[] [] [] [] [] [] [] []]; reflexivity.
Qed.

Lemma advance_succ (n : nat) :
  forall (line col : nat) (s : string),
    advance line col (n + 1) s
    = (let (l, c) := advance line col n s in
       match String.get n s with
       | Some ch => if Ascii.eqb ch "010"%char then (l + 1, 1) else (l, c + 1)
       | None => (l, c + 1)
       end).
Proof.
  induction n as [|n IH]; intros line col s.
  - destruct s as [|ch s]; cbn; [reflexivity|].
    destruct (Ascii.eqb ch "010"%char); reflexivity.
  - destruct s as [|ch s]; cbn [Nat.add advance String.get].
    + rewrite IH. destruct (advance line (col + 1) n ""). reflexivity.
    + destruct (Ascii.eqb ch "010"%char); rewrite IH; reflexivity.
Qed.

Lemma next_sync (self : NoRegexLexer.t) :
  in_sync src self -> in_sync src (snd (_next self)).
Proof.
  unfold in_sync, position. intros H. rewrite next_i, advance_succ, <- H.
  unfold NoRegexLexer._next. rewrite peek_get.
  destruct (String.get (NoRegexLexer.i self) src) as [c|]; [|reflexivity].
  destruct c as [[] [] [] [] [] [] [] []]; reflexivity.
Qed.


Lemma lex_steps_refl (self : NoRegexLexer.t) : lex_steps src self self.
Proof. unfold lex_steps. repeat split; [lia | lia | auto]. Qed.

Lemma lex_steps_trans (a b c : NoRegexLexer.t) :
  lex_steps src a b -> lex_steps src b c -> lex_steps src a c.
Proof.
  unfold lex_steps. intros (H1 & H2 & H3) (H4 & H5 & H6).
  repeat split; [lia | lia | auto].
Qed.

Lemma lex_steps_next (self : NoRegexLexer.t) (ch : ascii) :
  _peek self = Some ch -> lex_steps src self (snd (_next self)).
Proof.
  intros Hpeek. apply peek_Some in Hpeek. unfold lex_steps. rewrite next_i.
  repeat split; [lia | lia | apply next_sync].
Qed.

(** *** The inner loops *)

Lemma skip_line_steps (fuel : nat) :
  forall self self',
    NoRegexLexer.skip_line src fuel self = Ok self' ->
    lex_steps src self self'
    /\ (forall ch, _peek self = Some ch -> ch <> "010"%char ->
                   NoRegexLexer.i self < NoRegexLexer.i self').
Proof.
  induction fuel as [|fuel IH]; intros self self' H; [discriminate|].
  cbn [NoRegexLexer.skip_line] in H.
  destruct (_peek self) as [ch|] eqn:Hpeek.
  - destruct (Ascii.eqb_spec ch "010"%char) as [-> | Hne]; cbn [negb] in H.
    + injection H as <-. split; [apply lex_steps_refl|].
      intros c Hc Hn. congruence.
    + apply IH in H as [Hsteps _].
      pose proof (lex_steps_next self ch Hpeek) as Hnext.
      split; [exact (lex_steps_trans _ _ _ Hnext Hsteps)|].
      intros _ _ _. destruct Hsteps as (Hle & _). rewrite next_i in Hle. lia.
  - injection H as <-. split; [apply lex_steps_refl|]. intros c Hc. discriminate Hc.
Qed.

Lemma skip_line_settles (fuel : nat) :
  forall self,
    len - NoRegexLexer.i self < fuel ->
    lex_settled (NoRegexLexer.skip_line src fuel self) = true.
Proof.
  induction fuel as [|fuel IH]; intros self Hfuel; [lia|].
  cbn [NoRegexLexer.skip_line].
  destruct (_peek self) as [ch|] eqn:Hpeek; [|reflexivity].
  destruct (negb (Ascii.eqb ch "010"%char)); [|reflexivity].
  apply IH. rewrite next_i. apply peek_Some in Hpeek. lia.
Qed.

Lemma skip_comment_steps (fuel : nat) :
  forall self self',
    NoRegexLexer.skip_comment src fuel self = Ok self' ->
    lex_steps src self self'
    /\ NoRegexLexer._peek_two src self' = "*/".
Proof.
  induction fuel as [|fuel IH]; intros self self' H; [discriminate|].
  cbn [NoRegexLexer.skip_comment] in H.
  destruct (String.eqb_spec (NoRegexLexer._peek_two src self) "*/") as [Heq | Hne];
    cbn [negb] in H.
  - injection H as <-. split; [apply lex_steps_refl | exact Heq].
  - destruct (_peek self) as [ch|] eqn:Hpeek; [|discriminate].
    apply IH in H as [Hsteps Htwo].
    split; [|exact Htwo].
    exact (lex_steps_trans _ _ _ (lex_steps_next self ch Hpeek) Hsteps).
Qed.

Lemma skip_comment_settles (fuel : nat) :
  forall self,
    len - NoRegexLexer.i self < fuel ->
    lex_settled (NoRegexLexer.skip_comment src fuel self) = true.
Proof.
  induction fuel as [|fuel IH]; intros self Hfuel; [lia|].
  cbn [NoRegexLexer.skip_comment].
  destruct (negb _); [|reflexivity].
  destruct (_peek self) as [ch|] eqn:Hpeek; [|reflexivity].
  apply IH. rewrite next_i. apply peek_Some in Hpeek. lia.
Qed.

Lemma next_pair (self : NoRegexLexer.t) : _next self = (_peek self, snd (_next self)).
Proof. rewrite <- next_fst. destruct (_next self). reflexivity. Qed.

Lemma read_string_steps (fuel : nat) :
  forall self buf buf' self',
    NoRegexLexer.read_string src fuel self buf = Ok (buf', self') ->
    lex_steps src self self' /\ NoRegexLexer.i self < NoRegexLexer.i self'.
Proof.
  induction fuel as [|fuel IH]; intros self buf buf' self' H; [discriminate|].
  cbn [NoRegexLexer.read_string] in H.
  destruct (_peek self) as [c|] eqn:Hpeek; [|discriminate].
  pose proof (lex_steps_next self c Hpeek) as Hnext.
  assert (Hgo : forall st b,
             lex_steps src (snd (_next self)) st ->
             NoRegexLexer.read_string src fuel st b = Ok (buf', self') ->
             lex_steps src self self' /\ NoRegexLexer.i self < NoRegexLexer.i self').
  { intros st b Hst Hrun. apply IH in Hrun as [Hsteps Hlt].
    split; [exact (lex_steps_trans _ _ _ Hnext (lex_steps_trans _ _ _ Hst Hsteps))|].
    destruct Hst as (Hle & _). rewrite next_i in Hle. lia. }
  destruct (Ascii.eqb c "034"%char).
  { injection H as _ <-. split; [exact Hnext | rewrite next_i; lia]. }
  destruct (Ascii.eqb c "\"%char).
  - set (self1 := snd (_next self)) in *.
    destruct (_peek self1) as [esc|] eqn:Hesc.
    + pose proof (lex_steps_next self1 esc Hesc) as Hnext1.
      rewrite (next_pair self1) in H.
      repeat match type of H with
             | (if ?b then _ else _) = _ => destruct b
             | match ?x with _ => _ end = _ => destruct x
             end; eapply Hgo; eauto.
    + rewrite (next_pair self1) in H.
      destruct fuel as [|fuel']; [discriminate|].
      cbn [NoRegexLexer.read_string] in H.
      assert (Hend : _peek (snd (_next self1)) = None).
      { rewrite peek_get, next_i. apply get_None.
        apply peek_None in Hesc. unfold NoRegexLexer.len in Hesc. lia. }
      rewrite Hend in H. discriminate H.
  - rewrite (next_pair self) in H. eapply Hgo; [apply lex_steps_refl | exact H].
Qed.

Lemma read_string_settles (fuel : nat) :
  forall self buf,
    len - NoRegexLexer.i self < fuel ->
    lex_settled (NoRegexLexer.read_string src fuel self buf) = true.
Proof.
  induction fuel as [|fuel IH]; intros self buf Hfuel; [lia|].
  cbn [NoRegexLexer.read_string].
  destruct (_peek self) as [c|] eqn:Hpeek; [|reflexivity].
  pose proof (peek_Some self c Hpeek) as Hlt.
  destruct (Ascii.eqb c "034"%char); [reflexivity|].
  destruct (Ascii.eqb c "\"%char).
  - set (self1 := snd (_next self)).
    assert (H1 : NoRegexLexer.i self1 = NoRegexLexer.i self + 1) by apply next_i.
    rewrite (next_pair self1).
    destruct (_peek self1) as [esc|] eqn:Hesc.
    + pose proof (peek_Some self1 esc Hesc) as Hlt1.
      repeat match goal with
             | |- lex_settled (if ?b then _ else _) = _ => destruct b
             | |- lex_settled (match ?x with _ => _ end) = _ => destruct x
             end; apply IH; cbn [snd]; rewrite next_i; lia.
    + destruct fuel as [|fuel']; [lia|].
      cbn [NoRegexLexer.read_string].
      assert (Hend : _peek (snd (_next self1)) = None).
      { rewrite peek_get, next_i. apply get_None.
        apply peek_None in Hesc. unfold NoRegexLexer.len in Hesc. lia. }
      rewrite Hend. reflexivity.
  - rewrite (next_pair self). apply IH. rewrite next_i. lia.
Qed.

Lemma read_number_steps (fuel : nat) :
  forall self buf dot_count buf' dot_count' self',
    NoRegexLexer.read_number src fuel self buf dot_count = Ok (buf', dot_count', self') ->
    lex_steps src self self'
    /\ (forall ch, _peek self = Some ch -> isdigit ch || Ascii.eqb ch "."%char = true ->
                   NoRegexLexer.i self < NoRegexLexer.i self').
Proof.
  induction fuel as [|fuel IH]; intros self buf dc buf' dc' self' H; [discriminate|].
  cbn [NoRegexLexer.read_number] in H.
  destruct (_peek self) as [c|] eqn:Hpeek.
  - destruct (isdigit c || Ascii.eqb c "."%char) eqn:Hc.
    + rewrite (next_pair self) in H. apply IH in H as [Hsteps _].
      split; [exact (lex_steps_trans _ _ _ (lex_steps_next self c Hpeek) Hsteps)|].
      intros _ _ _. destruct Hsteps as (Hle & _). rewrite next_i in Hle. lia.
    + injection H as _ _ <-. split; [apply lex_steps_refl|].
      intros ch Hch Hd. injection Hch as <-. congruence.
  - injection H as _ _ <-. split; [apply lex_steps_refl|]. intros ch Hch. discriminate Hch.
Qed.

Lemma read_number_settles (fuel : nat) :
  forall self buf dot_count,
    len - NoRegexLexer.i self < fuel ->
    lex_settled (NoRegexLexer.read_number src fuel self buf dot_count) = true.
Proof.
  induction fuel as [|fuel IH]; intros self buf dc Hfuel; [lia|].
  cbn [NoRegexLexer.read_number].
  destruct (_peek self) as [c|] eqn:Hpeek; [|reflexivity].
  destruct (isdigit c || Ascii.eqb c "."%char); [|reflexivity].
  rewrite (next_pair self). apply IH. rewrite next_i. apply peek_Some in Hpeek. lia.
Qed.

Lemma read_ident_steps (fuel : nat) :
  forall self buf buf' self',
    NoRegexLexer.read_ident src fuel self buf = Ok (buf', self') ->
    lex_steps src self self'
    /\ (forall ch, _peek self = Some ch -> is_ident_part ch = true ->
                   NoRegexLexer.i self < NoRegexLexer.i self').
Proof.
  induction fuel as [|fuel IH]; intros self buf buf' self' H; [discriminate|].
  cbn [NoRegexLexer.read_ident] in H.
  destruct (_peek self) as [c|] eqn:Hpeek.
  - destruct (is_ident_part c) eqn:Hc.
    + rewrite (next_pair self) in H. apply IH in H as [Hsteps _].
      split; [exact (lex_steps_trans _ _ _ (lex_steps_next self c Hpeek) Hsteps)|].
      intros _ _ _. destruct Hsteps as (Hle & _). rewrite next_i in Hle. lia.
    + injection H as _ <-. split; [apply lex_steps_refl|].
      intros ch Hch Hd. injection Hch as <-. congruence.
  - injection H as _ <-. split; [apply lex_steps_refl|]. intros ch Hch. discriminate Hch.
Qed.

Lemma read_ident_settles (fuel : nat) :
  forall self buf,
    len - NoRegexLexer.i self < fuel ->
    lex_settled (NoRegexLexer.read_ident src fuel self buf) = true.
Proof.
  induction fuel as [|fuel IH]; intros self buf Hfuel; [lia|].
  cbn [NoRegexLexer.read_ident].
  destruct (_peek self) as [c|] eqn:Hpeek; [|reflexivity].
  destruct (is_ident_part c); [|reflexivity].
  rewrite (next_pair self). apply IH. rewrite next_i. apply peek_Some in Hpeek. lia.
Qed.

Lemma ident_start_part (ch : ascii) : is_ident_start ch = true -> is_ident_part ch = true.
Proof.
  unfold is_ident_start, is_ident_part.
  destruct (Ascii.eqb ch "_"%char); [reflexivity|].
  rewrite !orb_true_iff. intros [H | H]; auto.
Qed.

Lemma isspace_newline (ch : ascii) : isspace ch = false -> ch <> "010"%char.
Proof. intros H ->. discriminate H. Qed.

Lemma peek_two_length (self : NoRegexLexer.t) :
  NoRegexLexer._peek_two src self <> "" -> NoRegexLexer.i self + 1 < len.
Proof.
  unfold NoRegexLexer._peek_two.
  destruct (Nat.ltb_spec (NoRegexLexer.i self + 1) len); [auto | congruence].
Qed.

(** *** One round of the loop of [tokenize] *)

Lemma KEYWORDS_kinds (w kt : string) :
  KEYWORDS !! w = Some kt ->
  String.eqb kt "BoolLit" = false ->
  str_in kt plain_kinds = true.
Proof.
  intros Hw Hb. unfold KEYWORDS in Hw. apply elem_of_list_to_map_2 in Hw.
  repeat (apply elem_of_cons in Hw as [Hw | Hw];
          [injection Hw as _ ->; first [reflexivity | discriminate Hb]|]).
  apply elem_of_nil in Hw. destruct Hw.
Qed.

Lemma SINGLE_CHARS_kinds (ch : ascii) (tname : string) :
  SINGLE_CHARS !! ch = Some tname -> str_in tname plain_kinds = true.
Proof.
  intros Hc. unfold SINGLE_CHARS in Hc. apply elem_of_list_to_map_2 in Hc.
  repeat (apply elem_of_cons in Hc as [Hc | Hc]; [injection Hc as _ ->; reflexivity|]).
  apply elem_of_nil in Hc. destruct Hc.
Qed.

Lemma map2_kinds (two kind : string) :
  NoRegexLexer.map2 !! two = Some kind -> str_in kind plain_kinds = true.
Proof.
  intros Hc. unfold NoRegexLexer.map2 in Hc. apply elem_of_list_to_map_2 in Hc.
  repeat (apply elem_of_cons in Hc as [Hc | Hc]; [injection Hc as _ ->; reflexivity|]).
  apply elem_of_nil in Hc. destruct Hc.
Qed.

Lemma map2_two (two kind : string) :
  NoRegexLexer.map2 !! two = Some kind -> two <> "".
Proof.
  intros Hc ->. vm_compute in Hc. discriminate Hc.
Qed.

Lemma map_single_kinds (ch : ascii) (kind : string) :
  NoRegexLexer.map_single !! ch = Some kind -> str_in kind plain_kinds = true.
Proof.
  intros Hc. unfold NoRegexLexer.map_single in Hc. apply elem_of_list_to_map_2 in Hc.
  repeat (apply elem_of_cons in Hc as [Hc | Hc]; [injection Hc as _ ->; reflexivity|]).
  apply elem_of_nil in Hc. destruct Hc.
Qed.



(** *** What the inner loops raise *)

Lemma skip_line_raises (fuel : nat) :
  forall self e,
    NoRegexLexer.skip_line src fuel self = Raise e -> e = NoRegexLexer.OutOfFuel.
Proof.
  induction fuel as [|fuel IH]; intros self e H; [injection H as <-; reflexivity|].
  cbn [NoRegexLexer.skip_line] in H.
  destruct (_peek self) as [ch|]; [|discriminate].
  destruct (negb _); [|discriminate]. apply (IH _ _ H).
Qed.

Lemma skip_comment_raises (fuel : nat) :
  forall self e,
    NoRegexLexer.skip_comment src fuel self = Raise e ->
    e = NoRegexLexer.OutOfFuel \/ e = NoRegexLexer.SyntaxError "Unterminated comment".
Proof.
  induction fuel as [|fuel IH]; intros self e H; [injection H as <-; auto|].
  cbn [NoRegexLexer.skip_comment] in H.
  destruct (negb _); [|discriminate].
  destruct (_peek self) as [ch|]; [apply (IH _ _ H) | injection H as <-; auto].
Qed.

Lemma read_string_raises (fuel : nat) :
  forall self buf e,
    NoRegexLexer.read_string src fuel self buf = Raise e ->
    e = NoRegexLexer.OutOfFuel
    \/ e = NoRegexLexer.SyntaxError "Unterminated string literal".
Proof.
  induction fuel as [|fuel IH]; intros self buf e H; [injection H as <-; auto|].
  cbn [NoRegexLexer.read_string] in H.
  destruct (_peek self) as [c|]; [|injection H as <-; auto].
  destruct (Ascii.eqb c "034"%char); [discriminate|].
  destruct (Ascii.eqb c "\"%char).
  - cbv zeta in H.
    destruct (_peek (snd (_next self))) as [esc|].
    + destruct esc as [[] [] [] [] [] [] [] []];
        first [ apply (IH _ _ _ H)
              | destruct (_next (snd (_next self))); apply (IH _ _ _ H) ].
    + destruct (_next (snd (_next self))). apply (IH _ _ _ H).
  - destruct (_next self). apply (IH _ _ _ H).
Qed.

Lemma read_number_raises (fuel : nat) :
  forall self buf dc e,
    NoRegexLexer.read_number src fuel self buf dc = Raise e -> e = NoRegexLexer.OutOfFuel.
Proof.
  induction fuel as [|fuel IH]; intros self buf dc e H; [injection H as <-; reflexivity|].
  cbn [NoRegexLexer.read_number] in H.
  destruct (_peek self) as [c|]; [|discriminate].
  destruct (isdigit c || Ascii.eqb c "."%char); [|discriminate].
  destruct (_next self). apply (IH _ _ _ _ H).
Qed.

Lemma read_ident_raises (fuel : nat) :
  forall self buf e,
    NoRegexLexer.read_ident src fuel self buf = Raise e -> e = NoRegexLexer.OutOfFuel.
Proof.
  induction fuel as [|fuel IH]; intros self buf e H; [injection H as <-; reflexivity|].
  cbn [NoRegexLexer.read_ident] in H.
  destruct (_peek self) as [c|]; [|discriminate].
  destruct (is_ident_part c); [|discriminate].
  destruct (_next self). apply (IH _ _ _ H).
Qed.

(** *** What the buffers hold *)

Lemma all_chars_app (p : ascii -> bool) (a b : string) :
  all_chars p (a +:+ b) = all_chars p a && all_chars p b.
Proof.
  induction a as [|c a IH]; [reflexivity|].
  change (String c a +:+ b) with (String c (a +:+ b)). cbn [all_chars].
  rewrite IH, andb_assoc. reflexivity.
Qed.

Lemma count_dots_app (a b : string) :
  count_dots (a +:+ b) = count_dots a + count_dots b.
Proof.
  induction a as [|c a IH]; [reflexivity|].
  change (String c a +:+ b) with (String c (a +:+ b)). cbn [count_dots].
  rewrite IH. lia.
Qed.

Lemma string_of_list_snoc (buf : list ascii) (c : ascii) :
  String.string_of_list_ascii (buf ++ [c])
  = String.string_of_list_ascii buf +:+ String c "".
Proof.
  induction buf as [|b buf IH]; [reflexivity|].
  cbn [app String.string_of_list_ascii]. rewrite IH. reflexivity.
Qed.

Lemma read_number_buf (fuel : nat) :
  forall self buf dc buf' dc' self',
    NoRegexLexer.read_number src fuel self buf dc = Ok (buf', dc', self') ->
    all_chars number_char (String.string_of_list_ascii buf) = true ->
    dc = count_dots (String.string_of_list_ascii buf) ->
    all_chars number_char (String.string_of_list_ascii buf') = true
    /\ dc' = count_dots (String.string_of_list_ascii buf').
Proof.
  induction fuel as [|fuel IH]; intros self buf dc buf' dc' self' H Hall Hdc;
    [discriminate|].
  cbn [NoRegexLexer.read_number] in H.
  destruct (_peek self) as [c|] eqn:Hpeek; [|injection H as <- <- <-; auto].
  destruct (isdigit c || Ascii.eqb c "."%char) eqn:Hc; [|injection H as <- <- <-; auto].
  rewrite (next_pair self), Hpeek in H. cbn [NoRegexLexer.append] in H.
  apply IH in H; [exact H | |].
  - rewrite string_of_list_snoc, all_chars_app, Hall. cbn [all_chars andb].
    unfold number_char. rewrite Hc. reflexivity.
  - rewrite string_of_list_snoc, count_dots_app, Hdc. cbn [count_dots].
    destruct (Ascii.eqb c "."%char); lia.
Qed.

Lemma read_ident_buf (fuel : nat) :
  forall self buf buf' self',
    NoRegexLexer.read_ident src fuel self buf = Ok (buf', self') ->
    exists more, buf' = buf ++ more.
Proof.
  induction fuel as [|fuel IH]; intros self buf buf' self' H; [discriminate|].
  cbn [NoRegexLexer.read_ident] in H.
  destruct (_peek self) as [c|] eqn:Hpeek;
    [|injection H as <- <-; exists []; rewrite app_nil_r; reflexivity].
  destruct (is_ident_part c);
    [|injection H as <- <-; exists []; rewrite app_nil_r; reflexivity].
  rewrite (next_pair self), Hpeek in H. cbn [NoRegexLexer.append] in H.
  apply IH in H as [more ->]. exists (c :: more). rewrite <- app_assoc. reflexivity.
Qed.

(** The first character of a word is the character the branch was
    entered on, which is no digit. *)
Lemma read_ident_first (fuel : nat) (self : NoRegexLexer.t) (ch : ascii)
    (buf : list ascii) (self' : NoRegexLexer.t) :
  _peek self = Some ch ->
  is_ident_start ch = true ->
  NoRegexLexer.read_ident src fuel self [] = Ok (buf, self') ->
  exists more, buf = ch :: more.
Proof.
  intros Hpeek Hstart H. destruct fuel as [|fuel]; [discriminate|].
  cbn [NoRegexLexer.read_ident] in H. rewrite Hpeek, (ident_start_part ch Hstart) in H.
  rewrite (next_pair self), Hpeek in H. cbn [NoRegexLexer.append app] in H.
  apply read_ident_buf in H as [more ->]. exists more. reflexivity.
Qed.

Lemma ident_start_no_digit (ch : ascii) : is_ident_start ch = true -> isdigit ch = false.
Proof. destruct ch as [[] [] [] [] [] [] [] []]; vm_compute; congruence. Qed.

Lemma loop_round (fuel : nat) (self : NoRegexLexer.t) (tokens : list Token.t) :
  round_outcome src fuel self tokens.
Proof.
  unfold round_outcome. cbn [NoRegexLexer.tokenize_loop].
  destruct (_peek self) as [ch|] eqn:Hpeek; [|reflexivity].
  pose proof (lex_steps_next self ch Hpeek) as Hnext.
  pose proof (peek_Some self ch Hpeek) as Hlt.
  assert (Hskip : forall self1,
             lex_steps src self self1 ->
             NoRegexLexer.i self < NoRegexLexer.i self1 ->
             exists self2 new,
               NoRegexLexer.tokenize_loop src fuel self1 tokens
               = NoRegexLexer.tokenize_loop src fuel self2 (tokens ++ new)
               /\ lex_steps src self self2
               /\ NoRegexLexer.i self < NoRegexLexer.i self2
               /\ List.length new <= 1
               /\ Forall (fun t =>
                            Token.pos t
                            = Some (NoRegexLexer.line self, NoRegexLexer.col self)
                            /\ lexer_token t = true) new).
  { intros self1 Hs Hi. exists self1, []. rewrite app_nil_r.
    split; [reflexivity|]. split; [exact Hs|]. split; [exact Hi|].
    split; [cbn; lia | constructor]. }
  assert (Htok : forall self1 t,
             lex_steps src self self1 ->
             NoRegexLexer.i self < NoRegexLexer.i self1 ->
             Token.pos t = Some (NoRegexLexer.line self, NoRegexLexer.col self) ->
             lexer_token t = true ->
             exists self2 new,
               NoRegexLexer.tokenize_loop src fuel self1 (tokens ++ [t])
               = NoRegexLexer.tokenize_loop src fuel self2 (tokens ++ new)
               /\ lex_steps src self self2
               /\ NoRegexLexer.i self < NoRegexLexer.i self2
               /\ List.length new <= 1
               /\ Forall (fun t =>
                            Token.pos t
                            = Some (NoRegexLexer.line self, NoRegexLexer.col self)
                            /\ lexer_token t = true) new).
  { intros self1 t Hs Hi Hpos Hok. exists self1, [t].
    split; [reflexivity|]. split; [exact Hs|]. split; [exact Hi|].
    split; [cbn; lia | repeat constructor; assumption]. }
  assert (Hraise : forall (e : NoRegexLexer.Exc),
             lexer_error e = true ->
             exists e',
               Raise (A := list Token.t * NoRegexLexer.t) e = Raise e'
               /\ (len - NoRegexLexer.i self < fuel -> lexer_error e' = true)).
  { intros e He. exists e. auto. }
  assert (Hnext2 : forall st,
             lex_steps src self st -> NoRegexLexer.i st < len ->
             lex_steps src self (snd (_next st))
             /\ NoRegexLexer.i self < NoRegexLexer.i (snd (_next st))).
  { intros st Hst Hin. destruct (get_Some src (NoRegexLexer.i st) Hin) as [c Hc].
    rewrite <- peek_get in Hc. split.
    - exact (lex_steps_trans _ _ _ Hst (lex_steps_next st c Hc)).
    - rewrite next_i. destruct Hst as (Hle & _). lia. }
  destruct (isspace ch) eqn:Hspace.
  { right. apply Hskip; [exact Hnext | rewrite next_i; lia]. }
  pose proof (isspace_newline ch Hspace) as Hnl.
  destruct (String.eqb (NoRegexLexer._peek_two src self) "//").
  { destruct (NoRegexLexer.skip_line src fuel self) as [self1|e] eqn:Hline; cbn [bind].
    - right. apply skip_line_steps in Hline as [Hs Hi].
      apply Hskip; [exact Hs | exact (Hi ch Hpeek Hnl)].
    - left. exists e. split; [reflexivity|]. intros Hfuel.
      pose proof (skip_line_settles fuel self Hfuel) as Hset.
      rewrite Hline in Hset. apply skip_line_raises in Hline as ->.
      discriminate Hset. }
  destruct (String.eqb_spec (NoRegexLexer._peek_two src self) "/*") as [Htwo | _].
  { assert (Hin : NoRegexLexer.i self + 1 < len)
      by (apply peek_two_length; rewrite Htwo; discriminate).
    destruct (Hnext2 (snd (_next self)) Hnext ltac:(rewrite next_i; exact Hin))
      as [Hs2 Hi2].
    destruct (NoRegexLexer.skip_comment src fuel (snd (_next (snd (_next self)))))
      as [self1|e] eqn:Hcom; cbn [bind].
    - right. apply skip_comment_steps in Hcom as [Hs Htwo'].
      assert (Hin' : NoRegexLexer.i self1 + 1 < len)
        by (apply peek_two_length; rewrite Htwo'; discriminate).
      pose proof (lex_steps_trans _ _ _ Hs2 Hs) as Hs1.
      destruct (Hnext2 self1 Hs1 ltac:(lia)) as [Hs3 Hi3].
      destruct (Hnext2 (snd (_next self1)) Hs3 ltac:(rewrite next_i; exact Hin'))
        as [Hs4 Hi4].
      apply Hskip; assumption.
    - left. exists e. split; [reflexivity|]. intros Hfuel.
      pose proof (skip_comment_settles fuel (snd (_next (snd (_next self))))) as Hset.
      rewrite Hcom in Hset. rewrite !next_i in Hset.
      apply skip_comment_raises in Hcom as [-> | ->]; [|reflexivity].
      discriminate Hset; lia. }
  destruct (Ascii.eqb ch "#"%char) eqn:Hhash.
  { destruct (NoRegexLexer.skip_line src fuel self) as [self1|e] eqn:Hline; cbn [bind].
    - right. apply skip_line_steps in Hline as [Hs Hi].
      apply Hskip; [exact Hs | exact (Hi ch Hpeek Hnl)].
    - left. exists e. split; [reflexivity|]. intros Hfuel.
      pose proof (skip_line_settles fuel self Hfuel) as Hset.
      rewrite Hline in Hset. apply skip_line_raises in Hline as ->.
      discriminate Hset. }
  destruct (Ascii.eqb ch "034"%char) eqn:Hquote.
  { destruct (NoRegexLexer.read_string src fuel (snd (_next self)) [])
      as [[buf self1]|e] eqn:Hstr; cbn [bind].
    - right. apply read_string_steps in Hstr as [Hs Hi].
      apply Htok; [exact (lex_steps_trans _ _ _ Hnext Hs) | | reflexivity | reflexivity].
      rewrite next_i in Hi. lia.
    - left. exists e. split; [reflexivity|]. intros Hfuel.
      pose proof (read_string_settles fuel (snd (_next self)) []) as Hset.
      rewrite Hstr, next_i in Hset.
      apply read_string_raises in Hstr as [-> | ->]; [|reflexivity].
      discriminate Hset; lia. }
  match goal with |- context [if ?c then _ else _] => destruct c eqn:Hnum end.
  { destruct (NoRegexLexer.read_number src fuel self [] 0)
      as [[[buf dc] self1]|e] eqn:Hrun; cbn [bind].
    - destruct (read_number_buf _ _ _ _ _ _ _ Hrun eq_refl eq_refl) as [Hall Hdc].
      apply read_number_steps in Hrun as [Hs Hi].
      assert (Hbad : numeral (String.string_of_list_ascii buf) = None ->
                     lexer_error
                       (NoRegexLexer.ValueError (String.string_of_list_ascii buf))
                     = true).
      { intros Hn. cbn [lexer_error]. rewrite Hall, Hn. reflexivity. }
      unfold numeral in Hbad. rewrite <- Hdc in Hbad.
      assert (Hi' : NoRegexLexer.i self < NoRegexLexer.i self1).
      { apply (Hi ch Hpeek). apply orb_true_iff in Hnum as [Hd | Hd].
        - rewrite Hd. reflexivity.
        - apply andb_true_iff in Hd as [Hd _]. rewrite Hd. apply orb_true_r. }
      destruct (Nat.eqb dc 0).
      + destruct (int_ _) as [n|];
          [right | left; apply Hraise; apply Hbad; reflexivity].
        apply Htok; [exact Hs | exact Hi' | reflexivity | reflexivity].
      + destruct (float_ _) as [x|];
          [right | left; apply Hraise; apply Hbad; reflexivity].
        apply Htok; [exact Hs | exact Hi' | reflexivity | reflexivity].
    - left. exists e. split; [reflexivity|]. intros Hfuel.
      pose proof (read_number_settles fuel self [] 0 Hfuel) as Hset.
      rewrite Hrun in Hset. apply read_number_raises in Hrun as ->.
      discriminate Hset. }
  destruct (is_ident_start ch) eqn:Hstart.
  { destruct (NoRegexLexer.read_ident src fuel self []) as [[buf self1]|e] eqn:Hrun;
      cbn [bind].
    - destruct (read_ident_first _ _ _ _ _ Hpeek Hstart Hrun) as [more ->].
      apply read_ident_steps in Hrun as [Hs Hi].
      pose proof (Hi ch Hpeek (ident_start_part ch Hstart)) as Hi'.
      destruct (KEYWORDS !! _) as [kt|] eqn:Hkw.
      + destruct (String.eqb kt "BoolLit") eqn:Hbool; right.
        * apply Htok; [exact Hs | exact Hi' | reflexivity | reflexivity].
        * apply Htok; [exact Hs | exact Hi' | reflexivity|].
          apply (KEYWORDS_kinds _ _ Hkw Hbool).
      + rewrite (ident_start_no_digit ch Hstart). right.
        apply Htok; [exact Hs | exact Hi' | reflexivity | reflexivity].
    - left. exists e. split; [reflexivity|]. intros Hfuel.
      pose proof (read_ident_settles fuel self [] Hfuel) as Hset.
      rewrite Hrun in Hset. apply read_ident_raises in Hrun as ->.
      discriminate Hset. }
  cbv zeta.
  destruct (NoRegexLexer.map2 !! NoRegexLexer._peek_two src self) as [kind|] eqn:Hmap2.
  { right.
    assert (Hin : NoRegexLexer.i self + 1 < len)
      by (apply peek_two_length; apply (map2_two _ _ Hmap2)).
    destruct (Hnext2 (snd (_next self)) Hnext ltac:(rewrite next_i; exact Hin))
      as [Hs2 Hi2].
    apply Htok; [exact Hs2 | exact Hi2 | reflexivity | apply (map2_kinds _ _ Hmap2)]. }
  destruct (SINGLE_CHARS !! ch) as [tname|] eqn:Hsingle.
  { right. apply Htok; [exact Hnext | rewrite next_i; lia | reflexivity|].
    apply (SINGLE_CHARS_kinds _ _ Hsingle). }
  destruct (NoRegexLexer.map_single !! ch) as [kind|] eqn:Hfallback.
  { right. apply Htok; [exact Hnext | rewrite next_i; lia | reflexivity|].
    apply (map_single_kinds _ _ Hfallback). }
  left. apply Hraise. cbn [lexer_error]. unfold unknown_char.
  apply orb_false_iff in Hnum as [Hdigit _].
  rewrite Hspace, Hhash, Hquote, Hdigit, Hstart, Hsingle. reflexivity.
Qed.

(** *** The whole loop *)

Lemma tokenize_loop_settles (fuel : nat) :
  forall self tokens,
    len - NoRegexLexer.i self + 1 < fuel ->
    lex_settled (NoRegexLexer.tokenize_loop src fuel self tokens) = true.
Proof.
  induction fuel as [|fuel IH]; intros self tokens Hfuel; [lia|].
  pose proof (loop_round fuel self tokens) as Hround. unfold round_outcome in Hround.
  destruct (_peek self) as [ch|] eqn:Hpeek.
  - apply peek_Some in Hpeek.
    destruct Hround as [(e & -> & He) | (self1 & new & -> & _ & Hi & _)].
    + destruct e; try reflexivity. discriminate He. lia.
    + apply IH. lia.
  - rewrite Hround. reflexivity.
Qed.

Lemma tokenize_loop_raises (fuel : nat) :
  forall self tokens e,
    len - NoRegexLexer.i self + 1 < fuel ->
    NoRegexLexer.tokenize_loop src fuel self tokens = Raise e ->
    lexer_error e = true.
Proof.
  induction fuel as [|fuel IH]; intros self tokens e Hfuel H; [lia|].
  pose proof (loop_round fuel self tokens) as Hround. unfold round_outcome in Hround.
  destruct (_peek self) as [ch|] eqn:Hpeek.
  - apply peek_Some in Hpeek.
    destruct Hround as [(e' & He' & Herr) | (self1 & new & Heq & _ & Hi & _)].
    + rewrite He' in H. injection H as <-. apply Herr.
      unfold NoRegexLexer.len in *. lia.
    + rewrite Heq in H. refine (IH _ _ _ _ H). lia.
  - rewrite Hround in H. discriminate H.
Qed.

Lemma located_weaken (lo hi hi' : nat) (tokens : list Token.t) :
  hi <= hi' -> located src lo hi tokens -> located src lo hi' tokens.
Proof.
  intros Hle. revert lo. induction tokens as [|t tokens IH]; intros lo H; [exact I|].
  destruct H as (k & Hk & Hpos & Hrest). exists k.
  split; [lia|]. split; [exact Hpos | apply IH; exact Hrest].
Qed.

Lemma located_snoc (lo hi hi' k : nat) (tokens : list Token.t) (t : Token.t) :
  lo <= k -> hi <= k -> k < hi' ->
  Token.pos t = Some (position src k) ->
  located src lo hi tokens ->
  located src lo hi' (tokens ++ [t]).
Proof.
  intros Hlo Hhi Hk Hpos. revert lo Hlo.
  induction tokens as [|t0 tokens IH]; intros lo Hlo H.
  - exists k. split; [lia|]. split; [exact Hpos | exact I].
  - destruct H as (k0 & Hk0 & Hpos0 & Hrest). exists k0.
    split; [lia|]. split; [exact Hpos0|]. apply IH; [lia | exact Hrest].
Qed.

Lemma tokenize_loop_inv (fuel : nat) :
  forall self tokens tokens' self',
    NoRegexLexer.tokenize_loop src fuel self tokens = Ok (tokens', self') ->
    NoRegexLexer.i self <= len ->
    in_sync src self ->
    located src 0 (NoRegexLexer.i self) tokens ->
    Forall (fun t => lexer_token t = true) tokens ->
    NoRegexLexer.i self' = len
    /\ in_sync src self'
    /\ located src 0 len tokens'
    /\ Forall (fun t => lexer_token t = true) tokens'.
Proof.
  induction fuel as [|fuel IH]; intros self tokens tokens' self' H Hle Hsync Hloc Hok;
    [discriminate|].
  pose proof (loop_round fuel self tokens) as Hround. unfold round_outcome in Hround.
  destruct (_peek self) as [ch|] eqn:Hpeek.
  - destruct Hround as [(e & He & _) | (self1 & new & Heq & Hs & Hi & Hlen & Hnew)].
    + rewrite He in H. discriminate H.
    + rewrite Heq in H. destruct Hs as (_ & Hmax & Hsync1).
      apply (IH _ _ _ _ H); [lia | auto | |].
      * destruct new as [|t [|t' new]]; [| |cbn in Hlen; lia].
        -- rewrite app_nil_r.
           apply (located_weaken 0 (NoRegexLexer.i self) (NoRegexLexer.i self1));
             [lia | exact Hloc].
        -- inversion Hnew as [|? ? [Hpos _] _]; subst.
           apply (located_snoc 0 (NoRegexLexer.i self) _ (NoRegexLexer.i self));
             [lia | lia | lia | | exact Hloc].
           rewrite Hpos. f_equal. exact Hsync.
      * apply Forall_app. split; [exact Hok|].
        eapply Forall_impl; [exact Hnew|]. intros t [_ Ht]. exact Ht.
  - rewrite Hround in H. injection H as <- <-.
    apply peek_None in Hpeek.
    assert (Heq : NoRegexLexer.i self = len) by lia.
    rewrite <- Heq. auto.
Qed.

End Lexer.

Lemma lexer_token_not_EOF (t : Token.t) :
  lexer_token t = true -> Token.type t <> "EOF".
Proof.
  unfold lexer_token. intros H Heof. rewrite Heof in H.
  destruct (Token.value t); discriminate H.
Qed.

(** [tokenize] never stops on the budget of the model. *)
Lemma tokenize_settles (code : string) :
  lex_settled (NoRegexLexer.tokenize code) = true.
Proof.
  unfold NoRegexLexer.tokenize.
  pose proof (tokenize_loop_settles code (String.length code + 2) NoRegexLexer.new [])
    as Hset.
  destruct (NoRegexLexer.tokenize_loop code (String.length code + 2) NoRegexLexer.new [])
    as [[tokens self]|e]; cbn [bind]; [reflexivity|].
  apply Hset. unfold NoRegexLexer.len. cbn. lia.
Qed.

Lemma tokenize_shape (code : string) (tokens : list Token.t) :
  NoRegexLexer.tokenize code = Ok tokens ->
  exists body,
    tokens = body ++ [Token.mk "EOF" VNone (Some (position code (String.length code)))]
    /\ located code 0 (String.length code) body
    /\ Forall (fun t => lexer_token t = true) body.
Proof.
  unfold NoRegexLexer.tokenize. intros H.
  apply bind_Ok_inv in H as [[body self] [Hloop H]]. injection H as <-.
  apply tokenize_loop_inv in Hloop as (Hi & Hsync & Hloc & Hok);
    [| cbn; lia | reflexivity | exact I | constructor].
  exists body. unfold in_sync in Hsync. rewrite Hsync, Hi.
  split; [reflexivity|]. split; assumption.
Qed.

Lemma tokenize_raises (code : string) (e : NoRegexLexer.Exc) :
  NoRegexLexer.tokenize code = Raise e -> lexer_error e = true.
Proof.
  unfold NoRegexLexer.tokenize. intros H.
  destruct (NoRegexLexer.tokenize_loop code (String.length code + 2) NoRegexLexer.new [])
    as [[tokens self]|e'] eqn:Hloop; cbn [bind] in H; [discriminate|].
  injection H as <-.
  refine (tokenize_loop_raises code _ _ _ _ _ Hloop).
  unfold NoRegexLexer.len. cbn. lia.
Qed.

Lemma get_append_here (pre rest : string) :
  String.get (String.length pre) (pre +:+ rest) = String.get 0 rest.
Proof. rewrite (String.append_correct2 pre rest 0). reflexivity. Qed.

Lemma substring_append_here (pre rest : string) (m : nat) :
  String.substring (String.length pre) m (pre +:+ rest) = String.substring 0 m rest.
Proof. induction pre as [|c pre IH]; [reflexivity | exact IH]. Qed.

Lemma length_append (a b : string) :
  String.length (a +:+ b) = String.length a + String.length b.
Proof. induction a as [|c a IH]; simpl; [reflexivity | f_equal; exact IH]. Qed.

Lemma append_assoc (a b c : string) : (a +:+ b) +:+ c = a +:+ (b +:+ c).
Proof.
  induction a as [|x a IH]; [reflexivity|].
  change (String x ((a +:+ b) +:+ c) = String x (a +:+ (b +:+ c))). f_equal. exact IH.
Qed.

Section Cursor.
Variable src : string.

Lemma cursor_new : at_cursor src NoRegexLexer.new src.
Proof. exists "". split; reflexivity. Qed.

Lemma cursor_peek (self : NoRegexLexer.t) (rest : string) :
  at_cursor src self rest ->
  NoRegexLexer._peek src self
  = match rest with String ch _ => Some ch | EmptyString => None end.
Proof.
  intros (pre & -> & Hi). rewrite peek_get, Hi, get_append_here.
  destruct rest; reflexivity.
Qed.

Lemma cursor_peek_ahead (self : NoRegexLexer.t) (rest : string) :
  at_cursor src self rest ->
  NoRegexLexer._peek_ahead src self
  = match rest with String _ (String ch _) => Some ch | _ => None end.
Proof.
  intros (pre & -> & Hi). unfold NoRegexLexer._peek_ahead, NoRegexLexer.len.
  rewrite Hi, length_append.
  rewrite (Nat.add_comm (String.length pre) 1).
  rewrite <- (String.append_correct2 pre rest 1).
  destruct rest as [|a [|b rest]]; cbn [String.length String.get].
  - destruct (Nat.ltb_spec (1 + String.length pre) (String.length pre + 0));
      [lia | reflexivity].
  - destruct (Nat.ltb_spec (1 + String.length pre) (String.length pre + 1));
      [lia | reflexivity].
  - destruct (Nat.ltb_spec (1 + String.length pre)
                (String.length pre + S (S (String.length rest)))); [reflexivity | lia].
Qed.

Lemma cursor_peek_two (self : NoRegexLexer.t) (rest : string) :
  at_cursor src self rest ->
  NoRegexLexer._peek_two src self
  = match rest with
    | String a (String b _) => String a (String b "")
    | _ => ""
    end.
Proof.
  intros (pre & -> & Hi). unfold NoRegexLexer._peek_two, NoRegexLexer.len.
  rewrite Hi, length_append, substring_append_here.
  destruct rest as [|a [|b rest]]; cbn [String.length].
  - destruct (Nat.ltb_spec (String.length pre + 1) (String.length pre + 0));
      [lia | reflexivity].
  - destruct (Nat.ltb_spec (String.length pre + 1) (String.length pre + 1));
      [lia | reflexivity].
  - destruct (Nat.ltb_spec (String.length pre + 1)
                (String.length pre + S (S (String.length rest)))); [|lia].
    cbn. destruct rest; reflexivity.
Qed.

Lemma cursor_next (self : NoRegexLexer.t) (ch : ascii) (rest : string) :
  at_cursor src self (String ch rest) ->
  at_cursor src (snd (NoRegexLexer._next src self)) rest.
Proof.
  intros (pre & -> & Hi). exists (pre +:+ String ch "").
  split.
  - rewrite append_assoc. reflexivity.
  - rewrite next_i, Hi, length_append. reflexivity.
Qed.

(** Reading a character that is no line feed moves one column on. *)
Lemma cursor_next_column (self : NoRegexLexer.t) (ch : ascii) (rest : string) :
  at_cursor src self (String ch rest) ->
  ch <> "010"%char ->
  snd (NoRegexLexer._next src self) = skip_columns self 1.
Proof.
  intros Hcur Hne. unfold NoRegexLexer._next. rewrite (cursor_peek _ _ Hcur).
  destruct ch as [[] [] [] [] [] [] [] []]; try reflexivity.
  contradiction Hne. reflexivity.
Qed.

Lemma skip_columns_0 (self : NoRegexLexer.t) : skip_columns self 0 = self.
Proof. destruct self. unfold skip_columns. cbn. rewrite !Nat.add_0_r. reflexivity. Qed.

Lemma skip_columns_add (self : NoRegexLexer.t) (n m : nat) :
  skip_columns (skip_columns self n) m = skip_columns self (n + m).
Proof. unfold skip_columns. cbn. rewrite !Nat.add_assoc. reflexivity. Qed.

End Cursor.

(** *** Numerals *)

Lemma number_char_plain (ch : ascii) :
  number_char ch = true ->
  isspace ch = false
  /\ ch <> "010"%char
  /\ Ascii.eqb ch "/"%char = false
  /\ Ascii.eqb ch "#"%char = false
  /\ Ascii.eqb ch "034"%char = false.
Proof.
  destruct ch as [[] [] [] [] [] [] [] []]; vm_compute; intros H;
    try discriminate H; repeat split; discriminate.
Qed.

Lemma string_of_list_app_char (buf : list ascii) (ch : ascii) (s : string) :
  buf ++ String.list_ascii_of_string (String ch s)
  = (buf ++ [ch]) ++ String.list_ascii_of_string s.
Proof. cbn. rewrite <- app_assoc. reflexivity. Qed.

Section Runs.
Variable src : string.

Lemma read_number_run (num : string) :
  forall fuel self buf dot_count rest,
    at_cursor src self (num +:+ rest) ->
    all_chars number_char num = true ->
    stops number_char rest = true ->
    String.length num < fuel ->
    NoRegexLexer.read_number src fuel self buf dot_count
    = Ok (buf ++ String.list_ascii_of_string num, dot_count + count_dots num,
          skip_columns self (String.length num)).
Proof.
  induction num as [|ch num IH]; intros fuel self buf dc rest Hcur Hall Hstop Hfuel.
  - destruct fuel as [|fuel]; [cbn in Hfuel; lia|].
    change ("" +:+ rest) with rest in Hcur.
    cbn [NoRegexLexer.read_number]. rewrite (cursor_peek _ _ _ Hcur).
    cbn [String.list_ascii_of_string count_dots String.length].
    rewrite app_nil_r, Nat.add_0_r, skip_columns_0.
    destruct rest as [|c rest]; [reflexivity|].
    cbn [stops] in Hstop. apply negb_true_iff in Hstop.
    unfold number_char in Hstop. rewrite Hstop. reflexivity.
  - destruct fuel as [|fuel]; [cbn in Hfuel; lia|].
    cbn [all_chars] in Hall. apply andb_true_iff in Hall as [Hch Hall].
    destruct (number_char_plain ch Hch) as (_ & Hnl & _).
    change (String ch num +:+ rest) with (String ch (num +:+ rest)) in Hcur.
    cbn [NoRegexLexer.read_number]. rewrite (cursor_peek _ _ _ Hcur).
    unfold number_char in Hch. rewrite Hch.
    rewrite (next_pair src self), (cursor_peek _ _ _ Hcur).
    rewrite (cursor_next_column _ _ _ _ Hcur Hnl).
    cbn [NoRegexLexer.append].
    rewrite (IH fuel (skip_columns self 1) (buf ++ [ch]) _ rest);
      [| rewrite <- (cursor_next_column _ _ _ _ Hcur Hnl); apply (cursor_next _ _ _ _ Hcur)
       | exact Hall | exact Hstop | cbn in Hfuel; lia].
    rewrite skip_columns_add, string_of_list_app_char.
    cbn [count_dots String.length].
    replace ((if Ascii.eqb ch "."%char then dc + 1 else dc) + count_dots num)
      with (dc + ((if Ascii.eqb ch "."%char then 1 else 0) + count_dots num))
      by (destruct (Ascii.eqb ch "."%char); lia).
    reflexivity.
Qed.

(** X14 core: one round of the loop on a numeral. *)
Lemma tokenize_loop_number (fuel : nat) (self : NoRegexLexer.t) (tokens : list Token.t)
    (num rest : string) :
  at_cursor src self (num +:+ rest) ->
  opens_number num = true ->
  all_chars number_char num = true ->
  stops number_char rest = true ->
  String.length num < fuel ->
  NoRegexLexer.tokenize_loop src (S fuel) self tokens
  = (if Nat.eqb (count_dots num) 0 then
       match int_ num with
       | Some n =>
           NoRegexLexer.tokenize_loop src fuel (skip_columns self (String.length num))
             (tokens ++ [Token.mk "IntLit" (VInt n)
                           (Some (NoRegexLexer.line self, NoRegexLexer.col self))])
       | None => Raise (NoRegexLexer.ValueError num)
       end
     else
       match float_ num with
       | Some x =>
           NoRegexLexer.tokenize_loop src fuel (skip_columns self (String.length num))
             (tokens ++ [Token.mk "FloatLit" (VFloat x)
                           (Some (NoRegexLexer.line self, NoRegexLexer.col self))])
       | None => Raise (NoRegexLexer.ValueError num)
       end).
Proof.
  intros Hcur Hopen Hall Hstop Hfuel.
  destruct num as [|ch num]; [discriminate Hopen|].
  pose proof Hall as Hall'. cbn [all_chars] in Hall'.
  apply andb_true_iff in Hall' as [Hch _].
  destruct (number_char_plain ch Hch) as (Hspace & _ & Hslash & Hhash & Hquote).
  pose proof Hcur as Hcur'.
  change (String ch num +:+ rest) with (String ch (num +:+ rest)) in Hcur'.
  cbn [NoRegexLexer.tokenize_loop].
  rewrite (cursor_peek _ _ _ Hcur'), (cursor_peek_two _ _ _ Hcur'),
    (cursor_peek_ahead _ _ _ Hcur').
  rewrite Hspace.
  assert (Htwo : forall x,
             String.eqb
               match num +:+ rest with
               | String b _ => String ch (String b "")
               | EmptyString => ""
               end (String "/"%char x) = false).
  { intros x. destruct (num +:+ rest); [reflexivity|].
    cbn [String.eqb]. rewrite Hslash. reflexivity. }
  rewrite !Htwo, Hhash, Hquote.
  match goal with
  | |- context [isdigit ch || ?c] => assert (Hcond : isdigit ch || c = true)
  end.
  { cbn [opens_number] in Hopen. apply orb_true_iff in Hopen as [Hd | Hd];
      [rewrite Hd; reflexivity|].
    apply andb_true_iff in Hd as [Hdot Hd]. rewrite Hdot.
    destruct num as [|c num]; [discriminate Hd|].
    change (String c num +:+ rest) with (String c (num +:+ rest)).
    cbv iota. rewrite Hd. apply orb_true_r. }
  rewrite Hcond.
  rewrite (read_number_run (String ch num) fuel self [] 0 rest Hcur Hall Hstop Hfuel).
  cbn [bind app]. rewrite String.string_of_list_ascii_of_string, Nat.add_0_l.
  reflexivity.
Qed.

(** *** Words *)

Lemma ident_part_plain (ch : ascii) : is_ident_part ch = true -> ch <> "010"%char.
Proof. intros H ->. discriminate H. Qed.

Lemma ident_start_plain (ch : ascii) :
  is_ident_start ch = true ->
  isspace ch = false
  /\ Ascii.eqb ch "/"%char = false
  /\ Ascii.eqb ch "#"%char = false
  /\ Ascii.eqb ch "034"%char = false
  /\ isdigit ch = false
  /\ Ascii.eqb ch "."%char = false.
Proof.
  destruct ch as [[] [] [] [] [] [] [] []]; vm_compute; intros H;
    try discriminate H; repeat split; discriminate.
Qed.

Lemma read_ident_run (w : string) :
  forall fuel self buf rest,
    at_cursor src self (w +:+ rest) ->
    all_chars is_ident_part w = true ->
    stops is_ident_part rest = true ->
    String.length w < fuel ->
    NoRegexLexer.read_ident src fuel self buf
    = Ok (buf ++ String.list_ascii_of_string w, skip_columns self (String.length w)).
Proof.
  induction w as [|ch w IH]; intros fuel self buf rest Hcur Hall Hstop Hfuel.
  - destruct fuel as [|fuel]; [cbn in Hfuel; lia|].
    change ("" +:+ rest) with rest in Hcur.
    cbn [NoRegexLexer.read_ident]. rewrite (cursor_peek _ _ _ Hcur).
    cbn [String.list_ascii_of_string String.length].
    rewrite app_nil_r, skip_columns_0.
    destruct rest as [|c rest]; [reflexivity|].
    cbn [stops] in Hstop. apply negb_true_iff in Hstop. rewrite Hstop. reflexivity.
  - destruct fuel as [|fuel]; [cbn in Hfuel; lia|].
    cbn [all_chars] in Hall. apply andb_true_iff in Hall as [Hch Hall].
    pose proof (ident_part_plain ch Hch) as Hnl.
    change (String ch w +:+ rest) with (String ch (w +:+ rest)) in Hcur.
    cbn [NoRegexLexer.read_ident]. rewrite (cursor_peek _ _ _ Hcur), Hch.
    rewrite (next_pair src self), (cursor_peek _ _ _ Hcur).
    rewrite (cursor_next_column _ _ _ _ Hcur Hnl).
    cbn [NoRegexLexer.append].
    rewrite (IH fuel (skip_columns self 1) (buf ++ [ch]) rest);
      [| rewrite <- (cursor_next_column _ _ _ _ Hcur Hnl); apply (cursor_next _ _ _ _ Hcur)
       | exact Hall | exact Hstop | cbn in Hfuel; lia].
    rewrite skip_columns_add, string_of_list_app_char. reflexivity.
Qed.

(** X15 core: one round of the loop on a word. *)
Lemma tokenize_loop_word (fuel : nat) (self : NoRegexLexer.t) (tokens : list Token.t)
    (ch : ascii) (w rest : string) :
  at_cursor src self (String ch w +:+ rest) ->
  is_ident_start ch = true ->
  all_chars is_ident_part w = true ->
  stops is_ident_part rest = true ->
  S (String.length w) < fuel ->
  NoRegexLexer.tokenize_loop src (S fuel) self tokens
  = NoRegexLexer.tokenize_loop src fuel (skip_columns self (S (String.length w)))
      (tokens ++ [word_token (String ch w)
                    (NoRegexLexer.line self, NoRegexLexer.col self)]).
Proof.
  intros Hcur Hstart Hall Hstop Hfuel.
  destruct (ident_start_plain ch Hstart) as (Hspace & Hslash & Hhash & Hquote & Hdigit & Hdot).
  pose proof Hcur as Hcur'.
  change (String ch w +:+ rest) with (String ch (w +:+ rest)) in Hcur'.
  cbn [NoRegexLexer.tokenize_loop].
  rewrite (cursor_peek _ _ _ Hcur'), (cursor_peek_two _ _ _ Hcur').
  rewrite Hspace.
  assert (Htwo : forall x,
             String.eqb
               match w +:+ rest with
               | String b _ => String ch (String b "")
               | EmptyString => ""
               end (String "/"%char x) = false).
  { intros x. destruct (w +:+ rest); [reflexivity|].
    cbn [String.eqb]. rewrite Hslash. reflexivity. }
  rewrite !Htwo, Hhash, Hquote, Hdigit, Hdot, Hstart. cbn [orb andb].
  assert (Hall' : all_chars is_ident_part (String ch w) = true).
  { cbn [all_chars]. rewrite (ident_start_part ch Hstart), Hall. reflexivity. }
  rewrite (read_ident_run (String ch w) fuel self [] rest Hcur Hall' Hstop Hfuel).
  cbn [bind app]. rewrite String.string_of_list_ascii_of_string.
  unfold word_token. cbn [String.list_ascii_of_string String.length].
  destruct (KEYWORDS !! String ch w) as [kt|].
  - destruct (String.eqb kt "BoolLit"); reflexivity.
  - rewrite Hdigit. reflexivity.
Qed.

(** *** String literals *)

Lemma escape_char_cases (ch : ascii) :
  (exists esc dec,
      escape_char ch = String "\"%char (String esc "")
      /\ In (esc, dec) [("n"%char, "010"%char); ("t"%char, "009"%char);
                        ("r"%char, "013"%char); ("034"%char, "034"%char);
                        ("\"%char, "\"%char)]
      /\ ch = dec)
  \/ (escape_char ch = String ch ""
      /\ Ascii.eqb ch "034"%char = false
      /\ Ascii.eqb ch "\"%char = false
      /\ ch <> "010"%char).
Proof.
  unfold escape_char.
  destruct (Ascii.eqb_spec ch "010"%char) as [-> | Hnl].
  { left. exists "n"%char, "010"%char. cbn. auto 10. }
  destruct (Ascii.eqb_spec ch "009"%char) as [-> | _].
  { left. exists "t"%char, "009"%char. cbn. auto 10. }
  destruct (Ascii.eqb_spec ch "013"%char) as [-> | _].
  { left. exists "r"%char, "013"%char. cbn. auto 10. }
  destruct (Ascii.eqb_spec ch "034"%char) as [-> | _].
  { left. exists "034"%char, "034"%char. cbn. auto 10. }
  destruct (Ascii.eqb_spec ch "\"%char) as [-> | _].
  { left. exists "\"%char, "\"%char. cbn. auto 10. }
  right. auto.
Qed.

Lemma read_string_run (s : string) :
  forall fuel self buf rest,
    at_cursor src self (escape s +:+ String "034"%char rest) ->
    String.length (escape s) < fuel ->
    NoRegexLexer.read_string src fuel self buf
    = Ok (buf ++ String.list_ascii_of_string s,
          skip_columns self (String.length (escape s) + 1)).
Proof.
  induction s as [|ch s IH]; intros fuel self buf rest Hcur Hfuel.
  - destruct fuel as [|fuel]; [cbn in Hfuel; lia|].
    change (escape "" +:+ String "034"%char rest) with (String "034"%char rest) in Hcur.
    cbn [NoRegexLexer.read_string]. rewrite (cursor_peek _ _ _ Hcur).
    change (Ascii.eqb "034"%char "034"%char) with true. cbv iota.
    rewrite (cursor_next_column _ _ _ _ Hcur) by discriminate.
    cbn [String.list_ascii_of_string escape String.length]. rewrite app_nil_r.
    reflexivity.
  - destruct fuel as [|fuel]; [cbn in Hfuel; lia|].
    cbn [escape] in Hcur, Hfuel |- *. rewrite append_assoc in Hcur.
    rewrite length_append in Hfuel |- *.
    destruct (escape_char_cases ch)
      as [(esc & dec & Hesc & Hin & ->) | (Hesc & Hq & Hb & Hnl)];
      rewrite Hesc in Hcur, Hfuel |- *.
    + change (String "\"%char (String esc "") +:+ (escape s +:+ String "034"%char rest))
        with (String "\"%char (String esc (escape s +:+ String "034"%char rest))) in Hcur.
      cbn [NoRegexLexer.read_string]. rewrite (cursor_peek _ _ _ Hcur).
      change (Ascii.eqb "\"%char "034"%char) with false.
      change (Ascii.eqb "\"%char "\"%char) with true. cbv iota zeta.
      pose proof (cursor_next _ _ _ _ Hcur) as Hcur1.
      rewrite (cursor_next_column _ _ _ _ Hcur) in Hcur1 |- * by discriminate.
      rewrite (cursor_peek _ _ _ Hcur1).
      pose proof (cursor_next _ _ _ _ Hcur1) as Hcur2.
      assert (Hne : esc <> "010"%char).
      { cbn in Hin. intros ->.
        repeat (destruct Hin as [Hin | Hin]; [discriminate Hin|]). destruct Hin. }
      rewrite (cursor_next_column _ _ _ _ Hcur1 Hne) in Hcur2.
      assert (Hgo : NoRegexLexer.read_string src fuel
                      (snd (NoRegexLexer._next src (skip_columns self 1)))
                      (buf ++ [dec])
                    = Ok (buf ++ String.list_ascii_of_string (String dec s),
                          skip_columns self
                            (String.length (String "\"%char (String esc ""))
                             + String.length (escape s) + 1))).
      { rewrite (cursor_next_column _ _ _ _ Hcur1 Hne).
        rewrite (IH fuel _ (buf ++ [dec]) rest Hcur2) by (cbn in Hfuel; lia).
        rewrite !skip_columns_add, string_of_list_app_char. cbn [String.length].
        match goal with
        | |- Ok (_, skip_columns _ ?a) = Ok (_, skip_columns _ ?b) =>
            replace a with b by lia
        end.
        reflexivity. }
      cbn in Hin.
      repeat (destruct Hin as [Hin | Hin];
              [injection Hin as <- <-; cbv iota; exact Hgo|]).
      destruct Hin.
    + change (String ch "" +:+ (escape s +:+ String "034"%char rest))
        with (String ch (escape s +:+ String "034"%char rest)) in Hcur.
      cbn [NoRegexLexer.read_string]. rewrite (cursor_peek _ _ _ Hcur), Hq, Hb.
      rewrite (next_pair src self), (cursor_peek _ _ _ Hcur).
      pose proof (cursor_next _ _ _ _ Hcur) as Hcur1.
      rewrite (cursor_next_column _ _ _ _ Hcur Hnl) in Hcur1 |- *.
      cbn [NoRegexLexer.append].
      rewrite (IH fuel _ (buf ++ [ch]) rest Hcur1) by (cbn in Hfuel; lia).
      rewrite skip_columns_add, string_of_list_app_char. cbn [String.length].
      match goal with
      | |- Ok (_, skip_columns _ ?a) = Ok (_, skip_columns _ ?b) =>
          replace a with b by lia
      end.
      reflexivity.
Qed.

Lemma read_string_open (s : string) :
  forall fuel self buf,
    at_cursor src self (escape s) ->
    String.length (escape s) < fuel ->
    NoRegexLexer.read_string src fuel self buf
    = Raise (NoRegexLexer.SyntaxError "Unterminated string literal").
Proof.
  induction s as [|ch s IH]; intros fuel self buf Hcur Hfuel.
  - destruct fuel as [|fuel]; [cbn in Hfuel; lia|].
    cbn [NoRegexLexer.read_string]. rewrite (cursor_peek _ _ _ Hcur). reflexivity.
  - destruct fuel as [|fuel]; [cbn in Hfuel; lia|].
    cbn [escape] in Hcur, Hfuel. rewrite length_append in Hfuel.
    destruct (escape_char_cases ch)
      as [(esc & dec & Hesc & Hin & ->) | (Hesc & Hq & Hb & Hnl)];
      rewrite Hesc in Hcur, Hfuel.
    + change (String "\"%char (String esc "") +:+ escape s)
        with (String "\"%char (String esc (escape s))) in Hcur.
      cbn [NoRegexLexer.read_string]. rewrite (cursor_peek _ _ _ Hcur).
      change (Ascii.eqb "\"%char "034"%char) with false.
      change (Ascii.eqb "\"%char "\"%char) with true. cbv iota zeta.
      pose proof (cursor_next _ _ _ _ Hcur) as Hcur1.
      rewrite (cursor_peek _ _ _ Hcur1).
      pose proof (cursor_next _ _ _ _ Hcur1) as Hcur2.
      assert (Hgo : forall b,
                 NoRegexLexer.read_string src fuel
                   (snd (NoRegexLexer._next src (snd (NoRegexLexer._next src self)))) b
                 = Raise (NoRegexLexer.SyntaxError "Unterminated string literal")).
      { intros b. apply IH; [exact Hcur2 | cbn in Hfuel; lia]. }
      cbn in Hin.
      repeat (destruct Hin as [Hin | Hin];
              [injection Hin as <- <-; cbv iota; apply Hgo|]).
      destruct Hin.
    + change (String ch "" +:+ escape s) with (String ch (escape s)) in Hcur.
      cbn [NoRegexLexer.read_string]. rewrite (cursor_peek _ _ _ Hcur), Hq, Hb.
      rewrite (next_pair src self).
      apply IH; [apply (cursor_next _ _ _ _ Hcur) | cbn in Hfuel; lia].
Qed.

(** X13 core: one round of the loop on a string literal. *)
Lemma tokenize_loop_string (fuel : nat) (self : NoRegexLexer.t) (tokens : list Token.t)
    (s rest : string) :
  at_cursor src self (String "034"%char (escape s +:+ String "034"%char rest)) ->
  String.length (escape s) < fuel ->
  NoRegexLexer.tokenize_loop src (S fuel) self tokens
  = NoRegexLexer.tokenize_loop src fuel
      (skip_columns self (String.length (escape s) + 2))
      (tokens ++ [Token.mk "StringLit" (VStr s)
                    (Some (NoRegexLexer.line self, NoRegexLexer.col self))]).
Proof.
  intros Hcur Hfuel.
  cbn [NoRegexLexer.tokenize_loop].
  rewrite (cursor_peek _ _ _ Hcur), (cursor_peek_two _ _ _ Hcur).
  change (isspace "034"%char) with false. cbv iota.
  assert (Htwo : forall x,
             String.eqb
               match escape s +:+ String "034"%char rest with
               | String b _ => String "034"%char (String b "")
               | EmptyString => ""
               end (String "/"%char x) = false).
  { intros x. destruct (escape s +:+ String "034"%char rest); reflexivity. }
  rewrite !Htwo.
  change (Ascii.eqb "034"%char "#"%char) with false.
  change (Ascii.eqb "034"%char "034"%char) with true. cbv iota zeta.
  pose proof (cursor_next _ _ _ _ Hcur) as Hcur1.
  rewrite (cursor_next_column _ _ _ _ Hcur) in Hcur1 |- * by discriminate.
  rewrite (read_string_run s fuel _ [] rest Hcur1 Hfuel).
  cbn [bind app]. rewrite String.string_of_list_ascii_of_string, skip_columns_add.
  replace (1 + (String.length (escape s) + 1)) with (String.length (escape s) + 2) by lia.
  reflexivity.
Qed.

Lemma tokenize_loop_string_open (fuel : nat) (self : NoRegexLexer.t)
    (tokens : list Token.t) (s : string) :
  at_cursor src self (String "034"%char (escape s)) ->
  String.length (escape s) < fuel ->
  NoRegexLexer.tokenize_loop src (S fuel) self tokens
  = Raise (NoRegexLexer.SyntaxError "Unterminated string literal").
Proof.
  intros Hcur Hfuel.
  cbn [NoRegexLexer.tokenize_loop].
  rewrite (cursor_peek _ _ _ Hcur), (cursor_peek_two _ _ _ Hcur).
  change (isspace "034"%char) with false. cbv iota.
  assert (Htwo : forall x,
             String.eqb
               match escape s with
               | String b _ => String "034"%char (String b "")
               | EmptyString => ""
               end (String "/"%char x) = false).
  { intros x. destruct (escape s); reflexivity. }
  rewrite !Htwo.
  change (Ascii.eqb "034"%char "#"%char) with false.
  change (Ascii.eqb "034"%char "034"%char) with true. cbv iota zeta.
  rewrite (read_string_open s fuel _ [] (cursor_next _ _ _ _ Hcur) Hfuel).
  reflexivity.
Qed.

(** *** Comments *)

Lemma skip_line_run (text : string) :
  forall fuel self rest,
    at_cursor src self (text +:+ rest) ->
    all_chars line_char text = true ->
    stops line_char rest = true ->
    String.length text < fuel ->
    NoRegexLexer.skip_line src fuel self = Ok (skip_columns self (String.length text)).
Proof.
  induction text as [|ch text IH]; intros fuel self rest Hcur Hall Hstop Hfuel.
  - destruct fuel as [|fuel]; [cbn in Hfuel; lia|].
    change ("" +:+ rest) with rest in Hcur.
    cbn [NoRegexLexer.skip_line]. rewrite (cursor_peek _ _ _ Hcur).
    cbn [String.length]. rewrite skip_columns_0.
    destruct rest as [|c rest]; [reflexivity|].
    cbn [stops] in Hstop. apply negb_true_iff in Hstop. unfold line_char in Hstop.
    rewrite Hstop. reflexivity.
  - destruct fuel as [|fuel]; [cbn in Hfuel; lia|].
    cbn [all_chars] in Hall. apply andb_true_iff in Hall as [Hch Hall].
    change (String ch text +:+ rest) with (String ch (text +:+ rest)) in Hcur.
    cbn [NoRegexLexer.skip_line]. rewrite (cursor_peek _ _ _ Hcur).
    unfold line_char in Hch. rewrite Hch.
    assert (Hnl : ch <> "010"%char) by (intros ->; discriminate Hch).
    pose proof (cursor_next _ _ _ _ Hcur) as Hcur1.
    rewrite (cursor_next_column _ _ _ _ Hcur Hnl) in Hcur1 |- *.
    rewrite (IH fuel _ rest Hcur1 Hall Hstop) by (cbn in Hfuel; lia).
    rewrite skip_columns_add. reflexivity.
Qed.

Lemma skip_comment_run (body : string) :
  forall fuel self rest,
    at_cursor src self (body +:+ String "*"%char (String "/"%char rest)) ->
    closes_comment (body +:+ "*") = false ->
    String.length body < fuel ->
    exists self',
      NoRegexLexer.skip_comment src fuel self = Ok self'
      /\ at_cursor src self' (String "*"%char (String "/"%char rest)).
Proof.
  induction body as [|ch body IH]; intros fuel self rest Hcur Hopen Hfuel.
  - destruct fuel as [|fuel]; [cbn in Hfuel; lia|].
    change ("" +:+ String "*"%char (String "/"%char rest))
      with (String "*"%char (String "/"%char rest)) in Hcur.
    cbn [NoRegexLexer.skip_comment]. rewrite (cursor_peek_two _ _ _ Hcur).
    exists self. split; [reflexivity | exact Hcur].
  - destruct fuel as [|fuel]; [cbn in Hfuel; lia|].
    change (String ch body +:+ String "*"%char (String "/"%char rest))
      with (String ch (body +:+ String "*"%char (String "/"%char rest))) in Hcur.
    change (String ch body +:+ "*") with (String ch (body +:+ "*")) in Hopen.
    cbn [NoRegexLexer.skip_comment].
    rewrite (cursor_peek_two _ _ _ Hcur), (cursor_peek _ _ _ Hcur).
    assert (Hfirst : exists b tail,
               body +:+ String "*"%char (String "/"%char rest) = String b tail
               /\ body +:+ "*" = String b (match body with
                                           | EmptyString => ""
                                           | String _ body' => body' +:+ "*"
                                           end)).
    { destruct body as [|b body]; [exists "*"%char, (String "/"%char rest)
                                  | exists b, (body +:+ String "*"%char (String "/"%char rest))];
        split; reflexivity. }
    destruct Hfirst as (b & tail & Htail & Hstar).
    rewrite Htail. rewrite Hstar in Hopen. cbn [closes_comment] in Hopen.
    apply orb_false_iff in Hopen as [Hpair Hopen].
    assert (Hneq : String.eqb (String ch (String b "")) "*/" = false).
    { cbn [String.eqb]. destruct (Ascii.eqb ch "*"%char); [|reflexivity].
      cbn [andb] in Hpair. rewrite Hpair. reflexivity. }
    rewrite Hneq. cbn [negb].
    apply (IH fuel _ rest (cursor_next _ _ _ _ Hcur)); [|cbn in Hfuel; lia].
    rewrite Hstar. exact Hopen.
Qed.

Lemma skip_comment_open (body : string) :
  forall fuel self,
    at_cursor src self body ->
    closes_comment body = false ->
    String.length body < fuel ->
    NoRegexLexer.skip_comment src fuel self
    = Raise (NoRegexLexer.SyntaxError "Unterminated comment").
Proof.
  induction body as [|ch body IH]; intros fuel self Hcur Hopen Hfuel.
  - destruct fuel as [|fuel]; [cbn in Hfuel; lia|].
    cbn [NoRegexLexer.skip_comment].
    rewrite (cursor_peek_two _ _ _ Hcur), (cursor_peek _ _ _ Hcur). reflexivity.
  - destruct fuel as [|fuel]; [cbn in Hfuel; lia|].
    cbn [NoRegexLexer.skip_comment].
    rewrite (cursor_peek_two _ _ _ Hcur), (cursor_peek _ _ _ Hcur).
    cbn [closes_comment] in Hopen.
    destruct body as [|b body].
    + cbn [String.eqb negb].
      apply (IH fuel _ (cursor_next _ _ _ _ Hcur)); [reflexivity | cbn in Hfuel |- *; lia].
    + apply orb_false_iff in Hopen as [Hpair Hopen].
      assert (Hneq : String.eqb (String ch (String b "")) "*/" = false).
      { cbn [String.eqb]. destruct (Ascii.eqb ch "*"%char); [|reflexivity].
        cbn [andb] in Hpair. rewrite Hpair. reflexivity. }
      rewrite Hneq. cbn [negb].
      apply (IH fuel _ (cursor_next _ _ _ _ Hcur)); [exact Hopen | cbn in Hfuel |- *; lia].
Qed.

End Runs.

(** *** A larger budget does not change a settled outcome *)

Section LexerFuel.
Variable src : string.

Ltac lex_mono_step :=
  match goal with
  | |- ?x = ?r -> lex_settled ?r = true -> ?x = ?r => exact (fun H _ => H)
  | IH : _ |- _ = ?r -> lex_settled ?r = true -> _ = ?r =>
      solve [intros ? ?; apply IH; assumption]
  | |- bind (Ok _) _ = _ -> _ => cbn [bind]
  | |- bind ?m _ = ?r -> lex_settled ?r = true -> _ =>
      let E := fresh "E" in
      let Hs := fresh "Hs" in
      destruct m as [?|?] eqn:E; cbn [bind];
      [ match goal with
        | IH : _ |- _ => apply IH in E; [rewrite E; cbn [bind] | reflexivity]
        end
      | intros <- Hs;
        match goal with
        | IH : _ |- _ => apply IH in E; [rewrite E; reflexivity | exact Hs]
        end ]
  | |- (let '(_, _) := ?a in _) = _ -> _ => destruct a
  | |- (if ?b then _ else _) = _ -> _ => destruct b
  | |- match ?x with _ => _ end = _ -> _ => destruct x
  end.

Lemma skip_line_monotone (fuel : nat) :
  forall self r,
    NoRegexLexer.skip_line src fuel self = r -> lex_settled r = true ->
    NoRegexLexer.skip_line src (S fuel) self = r.
Proof.
  induction fuel as [|fuel IH]; intros self r H Hs.
  - subst r. discriminate Hs.
  - cbn [NoRegexLexer.skip_line] in H.
    remember (S fuel) as fuel' eqn:Hfuel' in *. clear Hfuel'.
    cbn [NoRegexLexer.skip_line]. revert H Hs. repeat lex_mono_step.
Qed.

Lemma skip_comment_monotone (fuel : nat) :
  forall self r,
    NoRegexLexer.skip_comment src fuel self = r -> lex_settled r = true ->
    NoRegexLexer.skip_comment src (S fuel) self = r.
Proof.
  induction fuel as [|fuel IH]; intros self r H Hs.
  - subst r. discriminate Hs.
  - cbn [NoRegexLexer.skip_comment] in H.
    remember (S fuel) as fuel' eqn:Hfuel' in *. clear Hfuel'.
    cbn [NoRegexLexer.skip_comment]. revert H Hs. repeat lex_mono_step.
Qed.

Lemma read_string_monotone (fuel : nat) :
  forall self buf r,
    NoRegexLexer.read_string src fuel self buf = r -> lex_settled r = true ->
    NoRegexLexer.read_string src (S fuel) self buf = r.
Proof.
  induction fuel as [|fuel IH]; intros self buf r H Hs.
  - subst r. discriminate Hs.
  - cbn [NoRegexLexer.read_string] in H.
    remember (S fuel) as fuel' eqn:Hfuel' in *. clear Hfuel'.
    cbn [NoRegexLexer.read_string]. revert H Hs. cbv zeta. repeat lex_mono_step.
Qed.

Lemma read_number_monotone (fuel : nat) :
  forall self buf dc r,
    NoRegexLexer.read_number src fuel self buf dc = r -> lex_settled r = true ->
    NoRegexLexer.read_number src (S fuel) self buf dc = r.
Proof.
  induction fuel as [|fuel IH]; intros self buf dc r H Hs.
  - subst r. discriminate Hs.
  - cbn [NoRegexLexer.read_number] in H.
    remember (S fuel) as fuel' eqn:Hfuel' in *. clear Hfuel'.
    cbn [NoRegexLexer.read_number]. revert H Hs. cbv zeta. repeat lex_mono_step.
Qed.

Lemma read_ident_monotone (fuel : nat) :
  forall self buf r,
    NoRegexLexer.read_ident src fuel self buf = r -> lex_settled r = true ->
    NoRegexLexer.read_ident src (S fuel) self buf = r.
Proof.
  induction fuel as [|fuel IH]; intros self buf r H Hs.
  - subst r. discriminate Hs.
  - cbn [NoRegexLexer.read_ident] in H.
    remember (S fuel) as fuel' eqn:Hfuel' in *. clear Hfuel'.
    cbn [NoRegexLexer.read_ident]. revert H Hs. repeat lex_mono_step.
Qed.

Lemma tokenize_loop_monotone (fuel : nat) :
  forall self tokens r,
    NoRegexLexer.tokenize_loop src fuel self tokens = r -> lex_settled r = true ->
    NoRegexLexer.tokenize_loop src (S fuel) self tokens = r.
Proof.
  induction fuel as [|fuel IH]; intros self tokens r H Hs.
  - subst r. discriminate Hs.
  - pose proof (skip_line_monotone fuel) as Hline.
    pose proof (skip_comment_monotone fuel) as Hcomment.
    pose proof (read_string_monotone fuel) as Hstring.
    pose proof (read_number_monotone fuel) as Hnumber.
    pose proof (read_ident_monotone fuel) as Hident.
    cbn [NoRegexLexer.tokenize_loop] in H.
    remember (S fuel) as fuel' eqn:Hfuel' in *. clear Hfuel'.
    cbn [NoRegexLexer.tokenize_loop]. revert H Hs. cbv zeta. repeat lex_mono_step.
Qed.

(** Every budget beyond the characters left gives the outcome of
    [lex_loop]. *)
Lemma tokenize_loop_lex_loop (fuel : nat) (self : NoRegexLexer.t) (tokens : list Token.t) :
  String.length src - NoRegexLexer.i self + 1 < fuel ->
  fuel <= String.length src + 2 ->
  NoRegexLexer.tokenize_loop src fuel self tokens = lex_loop src self tokens.
Proof.
  intros Hfuel Hle. unfold lex_loop.
  replace (String.length src + 2) with ((String.length src + 2 - fuel) + fuel) by lia.
  induction (String.length src + 2 - fuel) as [|k IH]; [reflexivity|].
  cbn [Nat.add]. symmetry. apply tokenize_loop_monotone; [symmetry; exact IH|].
  apply tokenize_loop_settles. exact Hfuel.
Qed.

End LexerFuel.

(** *** Rounds of the loop, without the budget *)

Lemma at_cursor_length (src : string) (self : NoRegexLexer.t) (rest : string) :
  at_cursor src self rest ->
  NoRegexLexer.i self + String.length rest = String.length src.
Proof. intros (pre & -> & ->). rewrite length_append. reflexivity. Qed.

Lemma at_cursor_skip (src : string) (self : NoRegexLexer.t) (lit rest : string) :
  at_cursor src self (lit +:+ rest) ->
  at_cursor src (skip_columns self (String.length lit)) rest.
Proof.
  intros (pre & -> & Hi). exists (pre +:+ lit).
  split; [rewrite append_assoc; reflexivity|].
  unfold skip_columns. cbn. rewrite Hi, length_append. reflexivity.
Qed.

Section Rounds.
Variable src : string.

Lemma lex_loop_unfold (self : NoRegexLexer.t) (tokens : list Token.t) :
  lex_loop src self tokens
  = NoRegexLexer.tokenize_loop src (S (String.length src + 1)) self tokens.
Proof. unfold lex_loop. f_equal. lia. Qed.

Lemma lex_loop_end (self : NoRegexLexer.t) (tokens : list Token.t) :
  at_cursor src self "" -> lex_loop src self tokens = Ok (tokens, self).
Proof.
  intros Hcur. rewrite lex_loop_unfold. cbn [NoRegexLexer.tokenize_loop].
  rewrite (cursor_peek _ _ _ Hcur). reflexivity.
Qed.

Lemma lex_loop_resume (self : NoRegexLexer.t) (tokens : list Token.t) :
  0 < NoRegexLexer.i self ->
  NoRegexLexer.i self <= String.length src ->
  NoRegexLexer.tokenize_loop src (String.length src + 1) self tokens
  = lex_loop src self tokens.
Proof. intros Hpos Hle. apply tokenize_loop_lex_loop; lia. Qed.

Lemma lex_loop_string (self : NoRegexLexer.t) (tokens : list Token.t) (s rest : string) :
  at_cursor src self (String "034"%char (escape s +:+ String "034"%char rest)) ->
  lex_loop src self tokens
  = lex_loop src (skip_columns self (String.length (escape s) + 2))
      (tokens ++ [Token.mk "StringLit" (VStr s)
                    (Some (NoRegexLexer.line self, NoRegexLexer.col self))]).
Proof.
  intros Hcur. pose proof (at_cursor_length _ _ _ Hcur) as Hlen.
  cbn [String.length] in Hlen. rewrite length_append in Hlen. cbn [String.length] in Hlen.
  rewrite lex_loop_unfold.
  rewrite (tokenize_loop_string src _ self tokens s rest Hcur) by lia.
  apply lex_loop_resume; cbn; lia.
Qed.

Lemma lex_loop_string_open (self : NoRegexLexer.t) (tokens : list Token.t) (s : string) :
  at_cursor src self (String "034"%char (escape s)) ->
  lex_loop src self tokens
  = Raise (NoRegexLexer.SyntaxError "Unterminated string literal").
Proof.
  intros Hcur. pose proof (at_cursor_length _ _ _ Hcur) as Hlen.
  cbn [String.length] in Hlen. rewrite lex_loop_unfold.
  apply (tokenize_loop_string_open src _ self tokens s Hcur). lia.
Qed.

Lemma lex_loop_number (self : NoRegexLexer.t) (tokens : list Token.t) (num rest : string) :
  at_cursor src self (num +:+ rest) ->
  opens_number num = true ->
  all_chars number_char num = true ->
  stops number_char rest = true ->
  lex_loop src self tokens
  = match numeral num with
    | Some (kind, value) =>
        lex_loop src (skip_columns self (String.length num))
          (tokens ++ [Token.mk kind value
                        (Some (NoRegexLexer.line self, NoRegexLexer.col self))])
    | None => Raise (NoRegexLexer.ValueError num)
    end.
Proof.
  intros Hcur Hopen Hall Hstop. pose proof (at_cursor_length _ _ _ Hcur) as Hlen.
  rewrite length_append in Hlen.
  assert (Hnum : 0 < String.length num) by (destruct num; [discriminate Hopen | cbn; lia]).
  rewrite lex_loop_unfold.
  rewrite (tokenize_loop_number src _ self tokens num rest Hcur Hopen Hall Hstop) by lia.
  unfold numeral. destruct (Nat.eqb (count_dots num) 0).
  - destruct (int_ num); [|reflexivity]. apply lex_loop_resume; cbn; lia.
  - destruct (float_ num); [|reflexivity]. apply lex_loop_resume; cbn; lia.
Qed.

Lemma lex_loop_word (self : NoRegexLexer.t) (tokens : list Token.t)
    (ch : ascii) (w rest : string) :
  at_cursor src self (String ch w +:+ rest) ->
  is_ident_start ch = true ->
  all_chars is_ident_part w = true ->
  stops is_ident_part rest = true ->
  lex_loop src self tokens
  = lex_loop src (skip_columns self (S (String.length w)))
      (tokens ++ [word_token (String ch w)
                    (NoRegexLexer.line self, NoRegexLexer.col self)]).
Proof.
  intros Hcur Hstart Hall Hstop. pose proof (at_cursor_length _ _ _ Hcur) as Hlen.
  rewrite length_append in Hlen. cbn [String.length] in Hlen.
  rewrite lex_loop_unfold.
  rewrite (tokenize_loop_word src _ self tokens ch w rest Hcur Hstart Hall Hstop) by lia.
  apply lex_loop_resume; cbn; lia.
Qed.

End Rounds.

Section CommentRounds.
Variable src : string.

Lemma lex_loop_line_comment (self : NoRegexLexer.t) (tokens : list Token.t)
    (opener text rest : string) :
  opener = "//" \/ opener = "#" ->
  at_cursor src self (opener +:+ text +:+ rest) ->
  all_chars line_char text = true ->
  stops line_char rest = true ->
  lex_loop src self tokens
  = lex_loop src (skip_columns self (String.length opener + String.length text)) tokens.
Proof.
  intros Hopen Hcur Hall Hstop. rewrite <- append_assoc in Hcur.
  pose proof (at_cursor_length _ _ _ Hcur) as Hlen.
  rewrite !length_append in Hlen.
  assert (Hall' : all_chars line_char (opener +:+ text) = true).
  { rewrite all_chars_app, Hall. destruct Hopen as [-> | ->]; reflexivity. }
  assert (Hpos : 0 < String.length opener) by (destruct Hopen as [-> | ->]; cbn; lia).
  assert (Hrun : NoRegexLexer.skip_line src (String.length src + 1) self
                 = Ok (skip_columns self (String.length opener + String.length text))).
  { rewrite <- length_append.
    apply (skip_line_run src _ _ self rest Hcur Hall' Hstop).
    rewrite length_append. lia. }
  assert (Hres : NoRegexLexer.tokenize_loop src (String.length src + 1)
                   (skip_columns self (String.length opener + String.length text)) tokens
                 = lex_loop src
                     (skip_columns self (String.length opener + String.length text))
                     tokens).
  { apply lex_loop_resume; cbn; lia. }
  rewrite lex_loop_unfold. cbn [NoRegexLexer.tokenize_loop].
  destruct Hopen as [-> | ->].
  - change (("//" +:+ text) +:+ rest)
      with (String "/"%char (String "/"%char (text +:+ rest))) in Hcur.
    rewrite (cursor_peek _ _ _ Hcur), (cursor_peek_two _ _ _ Hcur).
    change (isspace "/"%char) with false. cbv iota.
    change (String.eqb "//" "//") with true. cbv iota.
    rewrite Hrun. cbn [bind]. exact Hres.
  - change (("#" +:+ text) +:+ rest) with (String "#"%char (text +:+ rest)) in Hcur.
    rewrite (cursor_peek _ _ _ Hcur), (cursor_peek_two _ _ _ Hcur).
    change (isspace "#"%char) with false. cbv iota.
    assert (Htwo : forall x,
               String.eqb
                 match text +:+ rest with
                 | String b _ => String "#"%char (String b "")
                 | EmptyString => ""
                 end (String "/"%char x) = false).
    { intros x. destruct (text +:+ rest); reflexivity. }
    rewrite !Htwo. change (Ascii.eqb "#"%char "#"%char) with true. cbv iota.
    rewrite Hrun. cbn [bind]. exact Hres.
Qed.

Lemma lex_loop_block_comment (self : NoRegexLexer.t) (tokens : list Token.t)
    (body rest : string) :
  at_cursor src self ("/*" +:+ body +:+ "*/" +:+ rest) ->
  closes_comment (body +:+ "*") = false ->
  exists self',
    lex_loop src self tokens = lex_loop src self' tokens
    /\ at_cursor src self' rest
    /\ (in_sync src self -> in_sync src self').
Proof.
  intros Hcur Hbody.
  change ("/*" +:+ body +:+ "*/" +:+ rest)
    with (String "/"%char (String "*"%char
            (body +:+ String "*"%char (String "/"%char rest)))) in Hcur.
  pose proof (at_cursor_length _ _ _ Hcur) as Hlen.
  cbn [String.length] in Hlen. rewrite length_append in Hlen. cbn [String.length] in Hlen.
  pose proof (cursor_next _ _ _ _ Hcur) as Hcur1.
  pose proof (cursor_next _ _ _ _ Hcur1) as Hcur2.
  destruct (skip_comment_run src body (String.length src + 1) _ rest Hcur2 Hbody
              ltac:(lia)) as (self1 & Hrun & Hcur3).
  pose proof (cursor_next _ _ _ _ Hcur3) as Hcur4.
  pose proof (cursor_next _ _ _ _ Hcur4) as Hcur5.
  exists (snd (NoRegexLexer._next src (snd (NoRegexLexer._next src self1)))).
  split; [|split; [exact Hcur5|]].
  - rewrite lex_loop_unfold. cbn [NoRegexLexer.tokenize_loop].
    rewrite (cursor_peek _ _ _ Hcur), (cursor_peek_two _ _ _ Hcur).
    change (isspace "/"%char) with false. cbv iota.
    change (String.eqb "/*" "//") with false. change (String.eqb "/*" "/*") with true.
    cbv iota zeta. rewrite Hrun. cbn [bind].
    pose proof (at_cursor_length _ _ _ Hcur5) as Hlen5.
    apply lex_loop_resume; lia.
  - intros Hsync.
    pose proof (lex_steps_next src self _ (cursor_peek _ _ _ Hcur)) as (_ & _ & S1).
    pose proof (lex_steps_next src _ _ (cursor_peek _ _ _ Hcur1)) as (_ & _ & S2).
    pose proof (skip_comment_steps src _ _ _ Hrun) as ((_ & _ & S3) & _).
    pose proof (lex_steps_next src _ _ (cursor_peek _ _ _ Hcur3)) as (_ & _ & S4).
    pose proof (lex_steps_next src _ _ (cursor_peek _ _ _ Hcur4)) as (_ & _ & S5).
    exact (S5 (S4 (S3 (S2 (S1 Hsync))))).
Qed.

Lemma lex_loop_block_comment_open (self : NoRegexLexer.t) (tokens : list Token.t)
    (body : string) :
  at_cursor src self ("/*" +:+ body) ->
  closes_comment body = false ->
  lex_loop src self tokens = Raise (NoRegexLexer.SyntaxError "Unterminated comment").
Proof.
  intros Hcur Hbody.
  change ("/*" +:+ body) with (String "/"%char (String "*"%char body)) in Hcur.
  pose proof (at_cursor_length _ _ _ Hcur) as Hlen. cbn [String.length] in Hlen.
  pose proof (cursor_next _ _ _ _ Hcur) as Hcur1.
  pose proof (cursor_next _ _ _ _ Hcur1) as Hcur2.
  rewrite lex_loop_unfold. cbn [NoRegexLexer.tokenize_loop].
  rewrite (cursor_peek _ _ _ Hcur), (cursor_peek_two _ _ _ Hcur).
  change (isspace "/"%char) with false. cbv iota.
  change (String.eqb "/*" "//") with false. change (String.eqb "/*" "/*") with true.
  cbv iota zeta.
  rewrite (skip_comment_open src body _ _ Hcur2 Hbody) by lia. reflexivity.
Qed.

End CommentRounds.

(** *** Whole sources *)

Lemma tokenize_lex_loop (code : string) :
  NoRegexLexer.tokenize code
  = let* (tokens, self) := lex_loop code NoRegexLexer.new [] in
    Ok (tokens ++ [Token.mk "EOF" VNone
                     (Some (NoRegexLexer.line self, NoRegexLexer.col self))]).
Proof. reflexivity. Qed.

(** A source that is one construct: the loop goes from the start to the
    end in one round. *)
Lemma tokenize_one_round (code : string) (self : NoRegexLexer.t) (tokens : list Token.t) :
  lex_loop code NoRegexLexer.new [] = lex_loop code self tokens ->
  at_cursor code self "" ->
  NoRegexLexer.tokenize code
  = Ok (tokens ++ [Token.mk "EOF" VNone
                     (Some (NoRegexLexer.line self, NoRegexLexer.col self))]).
Proof.
  intros Hround Hcur. rewrite tokenize_lex_loop, Hround, (lex_loop_end _ _ _ Hcur).
  reflexivity.
Qed.

Lemma append_empty (s : string) : s +:+ "" = s.
Proof.
  induction s as [|c s IH]; [reflexivity|].
  change (String c s +:+ "") with (String c (s +:+ "")). rewrite IH. reflexivity.
Qed.

Lemma at_cursor_whole (code lit : string) :
  code = lit ->
  at_cursor code (skip_columns NoRegexLexer.new (String.length lit)) "".
Proof.
  intros ->. apply (at_cursor_skip lit NoRegexLexer.new lit "").
  rewrite append_empty. apply cursor_new.
Qed.

(** *** Decimal numerals *)

Lemma digit_value_isdigit (ch : ascii) (d : Z) :
  digit_value ch = Some d -> isdigit ch = true /\ Ascii.eqb ch "."%char = false.
Proof.
  destruct ch as [[] [] [] [] [] [] [] []]; vm_compute; intros H;
    first [discriminate H | split; reflexivity].
Qed.

Lemma digits_value_chars (cs : list ascii) :
  forall acc n,
    digits_value acc cs = Some n ->
    all_chars isdigit (String.string_of_list_ascii cs) = true
    /\ count_dots (String.string_of_list_ascii cs) = 0
    /\ split_at_dot (cs ++ ["."%char]) = (cs, Some []).
Proof.
  induction cs as [|c cs IH]; intros acc n H.
  - repeat split; reflexivity.
  - cbn [digits_value] in H. destruct (digit_value c) as [d|] eqn:Hd; [|discriminate].
    destruct (digit_value_isdigit c d Hd) as [Hdig Hdot].
    destruct (IH _ _ H) as (Hall & Hcount & Hsplit).
    cbn [String.string_of_list_ascii all_chars count_dots app split_at_dot].
    rewrite Hdig, Hdot, Hall, Hcount, Hsplit. repeat split; reflexivity.
Qed.

Lemma digits_value_period (cs : list ascii) :
  forall acc, In "."%char cs -> digits_value acc cs = None.
Proof.
  induction cs as [|c cs IH]; intros acc Hin; [destruct Hin|].
  cbn [digits_value]. destruct Hin as [-> | Hin]; [reflexivity|].
  destruct (digit_value c); [apply IH; exact Hin | reflexivity].
Qed.

Lemma split_at_dot_spec (cs : list ascii) :
  match split_at_dot cs with
  | (before, Some after) =>
      count_dots (String.string_of_list_ascii cs)
      = S (count_dots (String.string_of_list_ascii after))
  | (_, None) => count_dots (String.string_of_list_ascii cs) = 0
  end.
Proof.
  induction cs as [|c cs IH]; [reflexivity|].
  cbn [split_at_dot String.string_of_list_ascii count_dots].
  destruct (Ascii.eqb c "."%char); [reflexivity|].
  destruct (split_at_dot cs) as [before [after|]]; exact IH.
Qed.

Lemma count_dots_In (cs : list ascii) :
  0 < count_dots (String.string_of_list_ascii cs) -> In "."%char cs.
Proof.
  induction cs as [|c cs IH]; cbn [String.string_of_list_ascii count_dots]; [lia|].
  destruct (Ascii.eqb_spec c "."%char) as [-> | _]; [left; reflexivity|].
  intros H. right. apply IH. exact H.
Qed.

(** [float] refuses a string with two periods. *)
Lemma float_two_periods (num : string) : 2 <= count_dots num -> float_ num = None.
Proof.
  intros Hdots. unfold float_.
  pose proof (split_at_dot_spec (String.list_ascii_of_string num)) as Hsplit.
  rewrite String.string_of_list_ascii_of_string in Hsplit.
  destruct (split_at_dot (String.list_ascii_of_string num)) as [before [after|]];
    [|reflexivity].
  assert (Hin : In "."%char (before ++ after)).
  { apply in_or_app. right. apply count_dots_In. lia. }
  destruct (before ++ after) as [|c cs] eqn:Hcs; [reflexivity|].
  rewrite (digits_value_period _ 0 Hin). reflexivity.
Qed.

Lemma numeral_two_periods (num : string) : 2 <= count_dots num -> numeral num = None.
Proof.
  intros Hdots. unfold numeral. rewrite (float_two_periods num Hdots).
  destruct (Nat.eqb_spec (count_dots num) 0); [lia | reflexivity].
Qed.

Lemma list_of_append (a b : string) :
  String.list_ascii_of_string (a +:+ b)
  = String.list_ascii_of_string a ++ String.list_ascii_of_string b.
Proof.
  induction a as [|c a IH]; [reflexivity|].
  change (String c a +:+ b) with (String c (a +:+ b)).
  cbn [String.list_ascii_of_string app]. rewrite IH. reflexivity.
Qed.

(** An integer numeral followed by a period is a [float] numeral. *)
Lemma numeral_integer_period (ds : string) (n : Z) :
  int_ ds = Some n ->
  opens_number (ds +:+ ".") = true
  /\ all_chars number_char (ds +:+ ".") = true
  /\ numeral (ds +:+ ".") = Some ("FloatLit", VFloat (binary64_of_ratio n 1)).
Proof.
  unfold int_. intros Hint.
  destruct (String.list_ascii_of_string ds) as [|c cs] eqn:Hcs; [discriminate|].
  destruct (Nat.ltb int_max_str_digits (List.length (c :: cs))); [discriminate|].
  destruct (digits_value_chars _ _ _ Hint) as (Hall & Hcount & Hsplit).
  rewrite <- Hcs, String.string_of_list_ascii_of_string in Hall, Hcount.
  rewrite <- Hcs in Hsplit, Hint.
  split; [|split].
  - destruct ds as [|d ds]; [discriminate Hcs|].
    cbn [all_chars] in Hall. apply andb_true_iff in Hall as [Hd _].
    change (String d ds +:+ ".") with (String d (ds +:+ ".")).
    cbn [opens_number]. rewrite Hd. reflexivity.
  - rewrite all_chars_app. apply andb_true_iff. split; [|reflexivity].
    clear -Hall. induction ds as [|d ds IH]; [reflexivity|].
    cbn [all_chars] in *. apply andb_true_iff in Hall as [Hd Hall].
    unfold number_char at 1. rewrite Hd, (IH Hall). reflexivity.
  - unfold numeral, float_. rewrite count_dots_app, Hcount. cbn [count_dots Nat.add Nat.eqb].
    change (Ascii.eqb "."%char "."%char) with true. cbn [Nat.add Nat.eqb].
    rewrite list_of_append. change (String.list_ascii_of_string ".") with ["."%char].
    rewrite Hsplit, app_nil_r, Hcs. rewrite Hcs in Hint. rewrite Hint. reflexivity.
Qed.

(** *** The parser on the tokens of the lexer *)

Lemma parse_items_stops_at_EOF (tokens : list Token.t) (fuel : nat) :
  forall items pos items' pos',
    Parser.parse_items tokens fuel items pos = Ok (items', pos') ->
    exists tok, Parser._peek tokens pos' = Ok tok /\ Token.type tok = "EOF".
Proof.
  induction fuel as [|fuel IH]; intros items pos items' pos' H; [discriminate|].
  cbn [Parser.parse_items] in H.
  destruct (Parser._peek tokens pos) as [tok|e] eqn:Hpeek; cbn [bind] in H; [|discriminate].
  destruct (String.eqb_spec (Token.type tok) "EOF") as [Heof | _]; cbn [negb] in H.
  - injection H as <- <-. exists tok. split; assumption.
  - destruct (String.eqb (Token.type tok) "Function").
    + destruct (Parser.parse_fn_decl tokens fuel pos) as [[fn pos1]|e]; cbn [bind] in H;
        [apply (IH _ _ _ _ H) | discriminate].
    + destruct (str_in (Token.type tok) type_tokens).
      * destruct (Parser.parse_var_decl tokens fuel pos) as [[var pos1]|e];
          cbn [bind] in H; [|discriminate].
        destruct (Parser.match_ tokens ["Dot"; "Semicolon"] pos1) as [[m pos2]|e];
          cbn [bind] in H; [apply (IH _ _ _ _ H) | discriminate].
      * destruct (Parser.parse_stmt tokens fuel pos) as [[stmt pos1]|e]; cbn [bind] in H;
          [apply (IH _ _ _ _ H) | discriminate].
Qed.

(** X13: the shape of the output of [tokenize].  When [tokenize] returns,
    the list ends with the one [EOF] token, which carries the line and
    column just behind the last character of the source; every token
    before it is a token of the language whose value fits its kind (never
    an [EOF]), and carries the line and column of a character of the
    source, the characters being met in increasing order. *)
Theorem X13_tokenize_output :
  forall (code : string) (tokens : list Token.t),
    NoRegexLexer.tokenize code = Ok tokens ->
    exists body,
      tokens = body ++ [Token.mk "EOF" VNone (Some (position code (String.length code)))]
      /\ located code 0 (String.length code) body
      /\ Forall (fun t => lexer_token t = true /\ Token.type t <> "EOF") body.
Proof.
  intros code tokens H. destruct (tokenize_shape code tokens H) as (body & -> & Hloc & Hok).
  exists body. split; [reflexivity|]. split; [exact Hloc|].
  eapply Forall_impl; [exact Hok|]. intros t Ht.
  split; [exact Ht | apply (lexer_token_not_EOF t Ht)].
Qed.

Lemma X13_witness :
  exists body,
    [Token.mk "Identifier" (VStr "x") (Some (1, 1)); Token.mk "AssignOp" VNone (Some (1, 3));
     Token.mk "IntLit" (VInt 7) (Some (2, 1)); Token.mk "EOF" VNone (Some (2, 2))]
    = body ++ [Token.mk "EOF" VNone
                 (Some (position (String "x" (String " " (String "="
                                   (String "010" (String "7" "")))))
                          (String.length
                             (String "x" (String " " (String "="
                                (String "010" (String "7" ""))))))))]
    /\ located (String "x" (String " " (String "=" (String "010" (String "7" ""))))) 0
         (String.length (String "x" (String " " (String "=" (String "010" (String "7" ""))))))
         body
    /\ Forall (fun t => lexer_token t = true /\ Token.type t <> "EOF") body.
Proof.
  apply (X13_tokenize_output
           (String "x" (String " " (String "=" (String "010" (String "7" "")))))).
  vm_compute. reflexivity.
Defined.

(** X14: the errors of [tokenize].  [tokenize] always ends, and when it
    raises, the error is one of: the [SyntaxError] of an unterminated
    comment or string literal, the [SyntaxError] of a character that no
    branch takes, or the [ValueError] of [int] or [float] on a run of digits
    and periods; the [SyntaxError] "Identifier cannot start with digit" is
    never raised.  Among the printable ASCII characters the ones no branch
    takes are the dollar sign, the apostrophe, the question mark, the at
    sign, the backslash, the caret, the backquote and the tilde. *)
Theorem X14_tokenize_errors :
  (forall (code : string) (e : NoRegexLexer.Exc),
      NoRegexLexer.tokenize code = Raise e -> lexer_error e = true)
  /\ (forall ch : ascii,
         Nat.leb 32 (nat_of_ascii ch) && Nat.ltb (nat_of_ascii ch) 127 = true ->
         unknown_char ch
         = existsb (Ascii.eqb ch) (String.list_ascii_of_string "$'?@\^`~")).
Proof.
  split; [exact tokenize_raises|].
  intros ch. destruct ch as [[] [] [] [] [] [] [] []]; vm_compute; intros H;
    first [reflexivity | discriminate H].
Qed.

Lemma X14_witness :
  lexer_error (NoRegexLexer.UnknownCharacter "$" 1 3) = true
  /\ unknown_char "$" = existsb (Ascii.eqb "$") (String.list_ascii_of_string "$'?@\^`~").
Proof.
  split.
  - apply (proj1 X14_tokenize_errors "a $"). vm_compute. reflexivity.
  - apply (proj2 X14_tokenize_errors "$"%char). reflexivity.
Defined.

(** X15: string literals.  Write a string [s] as a literal: a quote, the
    characters of [s] with the line feed, the tab, the carriage return,
    the quote and the backslash written as a backslash and [n], [t], [r], a
    quote or a backslash,
    and a quote.  Wherever the loop of [tokenize] stands before such a
    literal, it appends one [StringLit] token with the value [s] and the
    position of the opening quote, and goes on behind the closing quote;
    so the source that is this literal gives the [StringLit] and the
    [EOF].  Without the closing quote before the end of the source,
    [tokenize] raises the [SyntaxError] "Unterminated string literal". *)
Theorem X15_string_literal_round_trip :
  forall s : string,
    (forall (src : string) (self : NoRegexLexer.t) (tokens : list Token.t) (rest : string),
        at_cursor src self (String "034"%char (escape s +:+ String "034"%char rest)) ->
        lex_loop src self tokens
        = lex_loop src (skip_columns self (String.length (escape s) + 2))
            (tokens ++ [Token.mk "StringLit" (VStr s)
                          (Some (NoRegexLexer.line self, NoRegexLexer.col self))]))
    /\ NoRegexLexer.tokenize (String "034"%char (escape s +:+ String "034"%char ""))
       = Ok [Token.mk "StringLit" (VStr s) (Some (1, 1));
             Token.mk "EOF" VNone (Some (1, String.length (escape s) + 3))]
    /\ (forall (src : string) (self : NoRegexLexer.t) (tokens : list Token.t),
           at_cursor src self (String "034"%char (escape s)) ->
           lex_loop src self tokens
           = Raise (NoRegexLexer.SyntaxError "Unterminated string literal"))
    /\ NoRegexLexer.tokenize (String "034"%char (escape s))
       = Raise (NoRegexLexer.SyntaxError "Unterminated string literal").
Proof.
  intros s. split; [|split; [|split]].
  - intros src self tokens rest. apply lex_loop_string.
  - pose proof (cursor_new (String "034"%char (escape s +:+ String "034"%char ""))) as Hcur.
    rewrite (tokenize_one_round _ _ _ (lex_loop_string _ _ [] s "" Hcur)).
    + cbn [NoRegexLexer.line NoRegexLexer.col skip_columns NoRegexLexer.new app].
      replace (1 + (String.length (escape s) + 2)) with (String.length (escape s) + 3) by lia. reflexivity.
    + replace (String.length (escape s) + 2)
        with (String.length (String "034"%char (escape s +:+ String "034"%char "")))
        by (cbn [String.length]; rewrite length_append; cbn [String.length]; lia).
      apply at_cursor_whole. reflexivity.
  - intros src self tokens. apply lex_loop_string_open.
  - rewrite tokenize_lex_loop.
    rewrite (lex_loop_string_open _ _ [] s (cursor_new _)). reflexivity.
Qed.

Lemma X15_witness :
  lex_loop (String "s" (String "=" (String "034"%char (String "\" (String "n"
              (String "034"%char (String ";" "")))))))
    (NoRegexLexer.mk 2 1 3) []
  = lex_loop (String "s" (String "=" (String "034"%char (String "\" (String "n"
                (String "034"%char (String ";" "")))))))
      (skip_columns (NoRegexLexer.mk 2 1 3) (String.length (escape (String "010" "")) + 2))
      ([] ++ [Token.mk "StringLit" (VStr (String "010" "")) (Some (1, 3))]).
Proof.
  apply (proj1 (X15_string_literal_round_trip (String "010" ""))
           (String "s" (String "=" (String "034"%char (String "\" (String "n"
              (String "034"%char (String ";" "")))))))
           (NoRegexLexer.mk 2 1 3) [] (String ";" "")).
  exists (String "s" (String "=" "")). split; reflexivity.
Defined.

(** X16: numerals.  Where the loop of [tokenize] stands before a digit, or
    before a period followed by a digit, it takes the whole run of digits
    and periods that follows: without a period the run goes to [int] and
    gives an [IntLit], with a period it goes to [float] and gives a
    [FloatLit], and the [ValueError] of the conversion ends [tokenize].
    So a run with two periods raises [ValueError], and an integer
    followed by a period is read as one [FloatLit]: the period is part of
    the number and no [Dot] token follows. *)
Theorem X16_numerals_take_digits_and_periods :
  (forall (src : string) (self : NoRegexLexer.t) (tokens : list Token.t)
          (num rest : string),
      at_cursor src self (num +:+ rest) ->
      opens_number num = true ->
      all_chars number_char num = true ->
      stops number_char rest = true ->
      lex_loop src self tokens
      = match numeral num with
        | Some (kind, value) =>
            lex_loop src (skip_columns self (String.length num))
              (tokens ++ [Token.mk kind value
                            (Some (NoRegexLexer.line self, NoRegexLexer.col self))])
        | None => Raise (NoRegexLexer.ValueError num)
        end)
  /\ (forall num : string,
         opens_number num = true ->
         all_chars number_char num = true ->
         2 <= count_dots num ->
         NoRegexLexer.tokenize num = Raise (NoRegexLexer.ValueError num))
  /\ (forall (ds : string) (n : Z),
         int_ ds = Some n ->
         NoRegexLexer.tokenize (ds +:+ ".")
         = Ok [Token.mk "FloatLit" (VFloat (binary64_of_ratio n 1)) (Some (1, 1));
               Token.mk "EOF" VNone (Some (1, String.length ds + 2))]).
Proof.
  split; [|split].
  - intros src self tokens num rest. apply lex_loop_number.
  - intros num Hopen Hall Hdots.
    pose proof (cursor_new num) as Hcur. rewrite <- (append_empty num) in Hcur at 2.
    rewrite tokenize_lex_loop.
    rewrite (lex_loop_number num _ [] num "" Hcur Hopen Hall eq_refl).
    rewrite (numeral_two_periods num Hdots). reflexivity.
  - intros ds n Hint.
    destruct (numeral_integer_period ds n Hint) as (Hopen & Hall & Hnum).
    pose proof (cursor_new (ds +:+ ".")) as Hcur.
    rewrite <- (append_empty (ds +:+ ".")) in Hcur at 2.
    pose proof (lex_loop_number _ _ [] _ "" Hcur Hopen Hall eq_refl) as Hround.
    rewrite Hnum in Hround.
    rewrite (tokenize_one_round _ _ _ Hround).
    + cbn [NoRegexLexer.line NoRegexLexer.col skip_columns NoRegexLexer.new app].
      rewrite length_append. cbn [String.length].
      replace (1 + (String.length ds + 1)) with (String.length ds + 2) by lia.
      reflexivity.
    + apply at_cursor_whole. reflexivity.
Qed.

Lemma X16_witness :
  NoRegexLexer.tokenize "1.2.3" = Raise (NoRegexLexer.ValueError "1.2.3")
  /\ NoRegexLexer.tokenize ("5" +:+ ".")
     = Ok [Token.mk "FloatLit" (VFloat (binary64_of_ratio 5 1)) (Some (1, 1));
           Token.mk "EOF" VNone (Some (1, String.length "5" + 2))].
Proof.
  split.
  - apply (proj1 (proj2 X16_numerals_take_digits_and_periods) "1.2.3");
      [reflexivity | reflexivity | cbn; lia].
  - apply (proj2 (proj2 X16_numerals_take_digits_and_periods) "5" 5%Z). reflexivity.
Defined.

(** X17: words.  Where the loop of [tokenize] stands before a letter or an
    underscore, it takes the whole run of letters, digits, marks,
    connectors and underscores that follows and appends one token for the
    word with the position of its first character: the keyword's token
    if the whole word is in [KEYWORDS] ([BoolLit] with the truth value for
    [true] and [false]), and otherwise an [Identifier] carrying the word.
    So the source that is one word gives this token and the [EOF]. *)
Theorem X17_words_are_read_whole :
  forall (ch : ascii) (w : string),
    is_ident_start ch = true ->
    all_chars is_ident_part w = true ->
    (forall (src : string) (self : NoRegexLexer.t) (tokens : list Token.t) (rest : string),
        at_cursor src self (String ch w +:+ rest) ->
        stops is_ident_part rest = true ->
        lex_loop src self tokens
        = lex_loop src (skip_columns self (S (String.length w)))
            (tokens ++ [word_token (String ch w)
                          (NoRegexLexer.line self, NoRegexLexer.col self)]))
    /\ NoRegexLexer.tokenize (String ch w)
       = Ok [word_token (String ch w) (1, 1);
             Token.mk "EOF" VNone (Some (1, String.length w + 2))].
Proof.
  intros ch w Hstart Hall. split.
  - intros src self tokens rest Hcur Hstop.
    apply (lex_loop_word src self tokens ch w rest); assumption.
  - pose proof (cursor_new (String ch w)) as Hcur.
    rewrite <- (append_empty (String ch w)) in Hcur at 2.
    rewrite (tokenize_one_round _ _ _
               (lex_loop_word _ _ [] ch w "" Hcur Hstart Hall eq_refl)).
    + cbn [NoRegexLexer.line NoRegexLexer.col skip_columns NoRegexLexer.new app].
      replace (1 + S (String.length w)) with (String.length w + 2) by lia.
      reflexivity.
    + apply (at_cursor_whole (String ch w) (String ch w)). reflexivity.
Qed.

Lemma X17_witness :
  lex_loop "iffy=1" NoRegexLexer.new []
  = lex_loop "iffy=1" (skip_columns NoRegexLexer.new (S (String.length "ffy")))
      ([] ++ [word_token "iffy" (1, 1)])
  /\ NoRegexLexer.tokenize "if"
     = Ok [word_token "if" (1, 1); Token.mk "EOF" VNone (Some (1, String.length "f" + 2))].
Proof.
  split.
  - apply (proj1 (X17_words_are_read_whole "i" "ffy" eq_refl eq_refl)
             "iffy=1" NoRegexLexer.new [] "=1");
      [apply cursor_new | reflexivity].
  - apply (proj2 (X17_words_are_read_whole "i" "f" eq_refl eq_refl)).
Defined.

(** X18: comments.  A line comment opened by [//] or [#] is skipped up to
    the line feed or the end of the source, and gives no token.  A block
    comment is skipped up to and including the first [*/] behind its
    opening [/*] (so [/*/] does not close), on whatever line that is, and
    gives no token; one that is not closed before the end of the source
    ends [tokenize] with the [SyntaxError] "Unterminated comment". *)
Theorem X18_comments_are_skipped :
  forall (src : string) (self : NoRegexLexer.t) (tokens : list Token.t),
    (forall opener text rest : string,
        opener = "//" \/ opener = "#" ->
        at_cursor src self (opener +:+ text +:+ rest) ->
        all_chars line_char text = true ->
        stops line_char rest = true ->
        lex_loop src self tokens
        = lex_loop src (skip_columns self (String.length opener + String.length text))
            tokens)
    /\ (forall body rest : string,
           at_cursor src self ("/*" +:+ body +:+ "*/" +:+ rest) ->
           closes_comment (body +:+ "*") = false ->
           exists self',
             lex_loop src self tokens = lex_loop src self' tokens
             /\ at_cursor src self' rest
             /\ (in_sync src self -> in_sync src self'))
    /\ (forall body : string,
           at_cursor src self ("/*" +:+ body) ->
           closes_comment body = false ->
           lex_loop src self tokens
           = Raise (NoRegexLexer.SyntaxError "Unterminated comment")).
Proof.
  intros src self tokens. split; [|split].
  - intros opener text rest. apply lex_loop_line_comment.
  - intros body rest. apply lex_loop_block_comment.
  - intros body. apply lex_loop_block_comment_open.
Qed.

Lemma X18_witness :
  lex_loop "# a//b" NoRegexLexer.new []
  = lex_loop "# a//b" (skip_columns NoRegexLexer.new (String.length "#" + String.length " a//b"))
      []
  /\ lex_loop "/*/ x" NoRegexLexer.new []
     = Raise (NoRegexLexer.SyntaxError "Unterminated comment").
Proof.
  split.
  - apply (proj1 (X18_comments_are_skipped "# a//b" NoRegexLexer.new []) "#" " a//b" "");
      [right; reflexivity | apply cursor_new | reflexivity | reflexivity].
  - apply (proj2 (proj2 (X18_comments_are_skipped "/*/ x" NoRegexLexer.new [])) "/ x");
      [apply cursor_new | reflexivity].
Defined.

(** On the tokens of the lexer a run of the loop of [parse] that returns
    stands on the end marker, the last token. *)
Lemma parse_stops_on_the_marker (code : string) (tokens : list Token.t) (fuel : nat)
    (items : list Item) (pos : nat) :
  NoRegexLexer.tokenize code = Ok tokens ->
  Parser.parse_items tokens fuel [] 0 = Ok (items, pos) ->
  exists body eof,
    tokens = body ++ [eof]
    /\ Token.type eof = "EOF"
    /\ pos = List.length body.
Proof.
  intros Hlex Hparse.
  destruct (tokenize_shape code tokens Hlex) as (body & -> & _ & Hbody).
  set (eof := Token.mk "EOF" VNone (Some (position code (String.length code)))) in *.
  exists body, eof. split; [reflexivity|]. split; [reflexivity|].
  assert (Hle : pos <= List.length body).
  { pose proof (same_upto_marker body [] [] eof eq_refl) as Hsame.
    destruct (parse_items_alike _ _ _ Hsame fuel [] 0 ltac:(lia)) as [_ Hpos].
    apply (Hpos _ _ Hparse). }
  assert (Hge : List.length body <= pos).
  { destruct (parse_items_stops_at_EOF _ _ _ _ _ _ Hparse) as (tok & Hpeek & Hty).
    destruct (Nat.le_gt_cases (List.length body) pos) as [H | Hlt]; [exact H|].
    exfalso. unfold Parser._peek in Hpeek. rewrite length_app in Hpeek.
    cbn [List.length] in Hpeek.
    destruct (Nat.leb_spec (List.length body + 1) pos); [lia|].
    rewrite lookup_app_l in Hpeek by exact Hlt.
    destruct (body !! pos) as [t|] eqn:Ht; [|discriminate].
    injection Hpeek as ->.
    apply (lexer_token_not_EOF tok); [|exact Hty].
    apply (Forall_lookup_1 _ _ _ _ Hbody Ht). }
  lia.
Qed.

(** X19: the parser on the tokens of the lexer.  When [tokenize] returns
    the tokens of a source and the loop of [parse] returns on them, the
    parser stands on the last token, the [EOF]: every token before it has
    been consumed into an item of the program. *)
Theorem X19_parse_consumes_the_tokens_of_the_lexer :
  forall (code : string) (tokens : list Token.t) (fuel : nat)
         (items : list Item) (pos : nat),
    NoRegexLexer.tokenize code = Ok tokens ->
    Parser.parse_items tokens fuel [] 0 = Ok (items, pos) ->
    S pos = List.length tokens
    /\ exists eof, tokens !! pos = Some eof /\ Token.type eof = "EOF".
Proof.
  intros code tokens fuel items pos Hlex Hparse.
  destruct (parse_stops_on_the_marker code tokens fuel items pos Hlex Hparse)
    as (body & eof & -> & Hty & ->).
  split; [rewrite length_app; cbn; lia|].
  exists eof. split; [|exact Hty].
  apply list_lookup_middle. reflexivity.
Qed.

Lemma X19_witness :
  S 3 = List.length [Token.mk "Identifier" (VStr "a") (Some (1, 1));
                     Token.mk "AddOp" VNone (Some (1, 2));
                     Token.mk "IntLit" (VInt 1) (Some (1, 3));
                     Token.mk "EOF" VNone (Some (1, 4))]
  /\ exists eof,
      [Token.mk "Identifier" (VStr "a") (Some (1, 1));
       Token.mk "AddOp" VNone (Some (1, 2));
       Token.mk "IntLit" (VInt 1) (Some (1, 3));
       Token.mk "EOF" VNone (Some (1, 4))] !! 3 = Some eof
      /\ Token.type eof = "EOF".
Proof.
  apply (X19_parse_consumes_the_tokens_of_the_lexer "a+1" _ 30
           [ItemStmt (ExprStmt (Binary "AddOp" (Identifier "a") (Literal (VInt 1))))] 3);
    vm_compute; reflexivity.
Defined.

Lemma parser_kinds_parsed (x : string) :
  str_in x parser_kinds = true -> str_in x unparsed_kinds = false.
Proof.
  unfold str_in at 1. intros H. apply existsb_exists in H as (y & Hy & Heq).
  apply String.eqb_eq in Heq. subst y. unfold parser_kinds in Hy.
  repeat (destruct Hy as [<- | Hy]; [reflexivity|]). destruct Hy.
Qed.

(** X20: the kinds of the tokens of a program.  When the loop of [parse]
    returns, every token before the position it stopped at is of a kind
    that a method of the parser tests for.  The lexer also gives the kinds
    [BracketL], [BracketR], [Colon], [Amp] and [Pipe], which no method
    tests for: a source whose tokens hold one of them never parses. *)
Theorem X20_parsed_tokens_have_the_kinds_of_the_grammar :
  forall (tokens : list Token.t) (fuel : nat) (items : list Item) (pos : nat),
    Parser.parse_items tokens fuel [] 0 = Ok (items, pos) ->
    (forall k tok,
        k < pos -> tokens !! k = Some tok ->
        str_in (Token.type tok) parser_kinds = true)
    /\ (forall code : string,
           NoRegexLexer.tokenize code = Ok tokens ->
           Forall (fun tok => str_in (Token.type tok) unparsed_kinds = false) tokens).
Proof.
  intros tokens fuel items pos Hparse.
  destruct (parse_items_kinds tokens fuel [] 0 items pos Hparse) as [_ Htaken].
  assert (Hkinds : forall k tok,
             k < pos -> tokens !! k = Some tok ->
             str_in (Token.type tok) parser_kinds = true).
  { intros k tok Hk Htok. destruct (Htaken k ltac:(lia)) as (tok' & Htok' & Hkind).
    rewrite Htok in Htok'. injection Htok' as <-. exact Hkind. }
  split; [exact Hkinds|].
  intros code Hlex.
  destruct (parse_stops_on_the_marker code tokens fuel items pos Hlex Hparse)
    as (body & eof & -> & Hty & ->).
  apply Forall_app. split.
  - apply Forall_lookup_2. intros k tok Htok.
    apply parser_kinds_parsed. apply (Hkinds k).
    + apply lookup_lt_Some in Htok. exact Htok.
    + rewrite lookup_app_l; [exact Htok | apply lookup_lt_Some in Htok; exact Htok].
  - constructor; [|constructor]. rewrite Hty. reflexivity.
Qed.

Lemma X20_witness :
  (forall k tok,
      k < 3 ->
      [Token.mk "Identifier" (VStr "a") (Some (1, 1));
       Token.mk "AddOp" VNone (Some (1, 2));
       Token.mk "IntLit" (VInt 1) (Some (1, 3));
       Token.mk "EOF" VNone (Some (1, 4))] !! k = Some tok ->
      str_in (Token.type tok) parser_kinds = true)
  /\ (forall code : string,
         NoRegexLexer.tokenize code
         = Ok [Token.mk "Identifier" (VStr "a") (Some (1, 1));
               Token.mk "AddOp" VNone (Some (1, 2));
               Token.mk "IntLit" (VInt 1) (Some (1, 3));
               Token.mk "EOF" VNone (Some (1, 4))] ->
         Forall (fun tok => str_in (Token.type tok) unparsed_kinds = false)
           [Token.mk "Identifier" (VStr "a") (Some (1, 1));
            Token.mk "AddOp" VNone (Some (1, 2));
            Token.mk "IntLit" (VInt 1) (Some (1, 3));
            Token.mk "EOF" VNone (Some (1, 4))]).
Proof.
  apply (X20_parsed_tokens_have_the_kinds_of_the_grammar _ 30
           [ItemStmt (ExprStmt (Binary "AddOp" (Identifier "a") (Literal (VInt 1))))] 3).
  vm_compute. reflexivity.
Defined.
